(** * DirectFB-media-samples: the sample programs over a model of the library

    The repository holds stand-alone demo programs (df_databuffer,
    df_font_sample, df_image_sample, df_video_sample, fs_music_sample, each in
    two revisions) that drive DirectFB / FusionSound.  Everything below the
    interface of those libraries is external; a program is therefore embedded
    as a function from the answers of the library (an oracle) to the sequence
    of library calls it makes and the way it ends.

    Conventions
    - an interface pointer is a natural number, [0] is [NULL]; the object
      created by the [n]-th call of a run (counting from 1) is numbered [n];
    - floating-point arguments of calls are not recorded in the log;
    - C [int] and [unsigned] values are integers in [Z]; the programs never
      rely on wrap-around and signed overflow is undefined in C;
    - [float] and [double] values are rationals (only [pitch == 0] is ever
      tested, and [pitch] moves in steps of 1/32, which are exact);
    - a loop that the source writes as [while (1)] takes a fuel argument and
      ends in [Spin] when the fuel runs out, i.e. the program is still
      running. *)

From Stdlib Require Import ZArith Ascii String QArith Qcanon Qround Lia.
From stdpp Require Import base option list gmap.

Local Open Scope string_scope.
Local Open Scope list_scope.
Local Open Scope Z_scope.

(** ** Results, events and answers of the library *)

(** [DFBResult] / [DirectResult]: only [DFB_OK] (zero) and [DFB_TIMEOUT] are
    ever compared against by the programs. *)
Inductive DFBResult :=
| DFB_OK | DFB_FAILURE | DFB_INIT | DFB_UNSUPPORTED | DFB_INVARG
| DFB_BUFFEREMPTY | DFB_FILENOTFOUND | DFB_IO | DFB_TIMEOUT | DFB_EOF.

Definition is_ok (r : DFBResult) : bool :=
  match r with DFB_OK => true | _ => false end.

(** [DFBWindowEventType] *)
Inductive DFBWindowEventType :=
| DWET_POSITION | DWET_SIZE | DWET_CLOSE | DWET_DESTROYED | DWET_GOTFOCUS
| DWET_LOSTFOCUS | DWET_KEYDOWN | DWET_KEYUP | DWET_BUTTONDOWN | DWET_BUTTONUP
| DWET_MOTION | DWET_ENTER | DWET_LEAVE | DWET_WHEEL | DWET_UPDATE.

(** The fields of [DFBWindowEvent] the programs read. *)
Record DFBWindowEvent := {
  evt_type : DFBWindowEventType;
  window_id : nat;
  key_symbol : Z;
  modifiers : Z;
  evt_x : Z;
  evt_y : Z
}.

(** [DFBColorAdjustment]; the four levels are [u16] in the header. *)
Record DFBColorAdjustment := {
  adj_flags : Z;
  brightness : Z;
  contrast : Z;
  hue : Z;
  saturation : Z
}.

(** What one library call hands back: its result code and whatever it wrote
    through its out-parameters.  Each call reads the fields it has. *)
Record answer := {
  a_ret : DFBResult;
  a_id : nat;
  a_int : Z;
  a_int2 : Z;
  a_int3 : Z;
  a_flt : Qc;
  a_flt2 : Qc;
  a_evt : DFBWindowEvent;
  a_adj : DFBColorAdjustment;
  a_tracks : list Z
}.

Definition no_event : DFBWindowEvent :=
  {| evt_type := DWET_UPDATE; window_id := 0%nat; key_symbol := 0;
     modifiers := 0; evt_x := 0; evt_y := 0 |}.

Definition no_adj : DFBColorAdjustment :=
  {| adj_flags := 0; brightness := 0; contrast := 0; hue := 0; saturation := 0 |}.

Definition ans (r : DFBResult) : answer :=
  {| a_ret := r; a_id := 0%nat; a_int := 0; a_int2 := 0; a_int3 := 0;
     a_flt := 0%Qc; a_flt2 := 0%Qc; a_evt := no_event; a_adj := no_adj;
     a_tracks := [] |}.

Definition ans_int (r : DFBResult) (n : Z) : answer :=
  {| a_ret := r; a_id := 0%nat; a_int := n; a_int2 := 0; a_int3 := 0;
     a_flt := 0%Qc; a_flt2 := 0%Qc; a_evt := no_event; a_adj := no_adj;
     a_tracks := [] |}.

Definition ans_id (id : nat) : answer :=
  {| a_ret := DFB_OK; a_id := id; a_int := 0; a_int2 := 0; a_int3 := 0;
     a_flt := 0%Qc; a_flt2 := 0%Qc; a_evt := no_event; a_adj := no_adj;
     a_tracks := [] |}.

Definition ans_evt (e : DFBWindowEvent) : answer :=
  {| a_ret := DFB_OK; a_id := 0%nat; a_int := 0; a_int2 := 0; a_int3 := 0;
     a_flt := 0%Qc; a_flt2 := 0%Qc; a_evt := e; a_adj := no_adj;
     a_tracks := [] |}.

Definition ans_adj (adj : DFBColorAdjustment) : answer :=
  {| a_ret := DFB_OK; a_id := 0%nat; a_int := 0; a_int2 := 0; a_int3 := 0;
     a_flt := 0%Qc; a_flt2 := 0%Qc; a_evt := no_event; a_adj := adj;
     a_tracks := [] |}.

Definition ans_tracks (ids : list Z) : answer :=
  {| a_ret := DFB_OK; a_id := 0%nat; a_int := 0; a_int2 := 0; a_int3 := 0;
     a_flt := 0%Qc; a_flt2 := 0%Qc; a_evt := no_event; a_adj := no_adj;
     a_tracks := ids |}.

(** ** The functions of the libraries the programs call *)

Inductive libfn :=
(* directfb.h *)
| DirectFBInit | DirectFBCreate
| IDirectFB_SetCooperativeLevel | IDirectFB_CreateSurface
| IDirectFB_CreateDataBuffer | IDirectFB_GetDisplayLayer
| IDirectFB_CreateEventBuffer | IDirectFB_CreateImageProvider
| IDirectFB_CreateVideoProvider | IDirectFB_CreateFont | IDirectFB_Release
| IDirectFBDisplayLayer_GetConfiguration | IDirectFBDisplayLayer_CreateWindow
| IDirectFBDisplayLayer_Release
| IDirectFBWindow_GetSurface | IDirectFBWindow_AttachEventBuffer
| IDirectFBWindow_CreateEventBuffer | IDirectFBWindow_GetID
| IDirectFBWindow_SetOpacity | IDirectFBWindow_RequestFocus
| IDirectFBWindow_Release
| IDirectFBSurface_Clear | IDirectFBSurface_GetSize | IDirectFBSurface_Blit
| IDirectFBSurface_StretchBlit | IDirectFBSurface_SetFont
| IDirectFBSurface_DrawString | IDirectFBSurface_SetColor
| IDirectFBSurface_SetBlittingFlags | IDirectFBSurface_Flip
| IDirectFBSurface_DrawLine | IDirectFBSurface_FillRectangle
| IDirectFBSurface_DrawGlyph | IDirectFBSurface_GetPixelFormat
| IDirectFBSurface_GetColorSpace | IDirectFBSurface_Release
| IDirectFBEventBuffer_WaitForEvent | IDirectFBEventBuffer_WaitForEventWithTimeout
| IDirectFBEventBuffer_GetEvent | IDirectFBEventBuffer_Release
| IDirectFBDataBuffer_CreateFont | IDirectFBDataBuffer_CreateImageProvider
| IDirectFBDataBuffer_CreateVideoProvider | IDirectFBDataBuffer_GetLength
| IDirectFBDataBuffer_Finish | IDirectFBDataBuffer_PutData
| IDirectFBFont_GetAscender | IDirectFBFont_GetDescender
| IDirectFBFont_GetGlyphExtents | IDirectFBFont_Release
| IDirectFBImageProvider_GetSurfaceDescription
| IDirectFBImageProvider_GetImageDescription
| IDirectFBImageProvider_SetRenderCallback | IDirectFBImageProvider_RenderTo
| IDirectFBImageProvider_Release
| IDirectFBVideoProvider_GetCapabilities
| IDirectFBVideoProvider_GetSurfaceDescription
| IDirectFBVideoProvider_GetStreamDescription
| IDirectFBVideoProvider_SetPlaybackFlags | IDirectFBVideoProvider_PlayTo
| IDirectFBVideoProvider_Stop | IDirectFBVideoProvider_GetStatus
| IDirectFBVideoProvider_GetLength | IDirectFBVideoProvider_GetPos
| IDirectFBVideoProvider_SeekTo | IDirectFBVideoProvider_GetSpeed
| IDirectFBVideoProvider_SetSpeed | IDirectFBVideoProvider_GetVolume
| IDirectFBVideoProvider_SetVolume | IDirectFBVideoProvider_GetColorAdjustment
| IDirectFBVideoProvider_SetColorAdjustment | IDirectFBVideoProvider_SendEvent
| IDirectFBVideoProvider_Release
(* direct/hash.h, direct/thread.h, direct/filesystem.h *)
| direct_hash_create | direct_hash_destroy
| direct_thread_create | direct_thread_cancel | direct_thread_join
| direct_thread_destroy | direct_thread_self_name
| direct_file_open | direct_file_get_info | direct_file_map
| direct_file_unmap | direct_file_read | direct_file_close
(* fusionsound.h *)
| FusionSoundInit | FusionSoundCreate
| IFusionSound_CreateMusicProvider | IFusionSound_CreateStream
| IFusionSound_Release
| IFusionSoundMusicProvider_EnumTracks | IFusionSoundMusicProvider_SelectTrack
| IFusionSoundMusicProvider_GetStreamDescription
| IFusionSoundMusicProvider_GetTrackDescription
| IFusionSoundMusicProvider_PlayToStream | IFusionSoundMusicProvider_GetLength
| IFusionSoundMusicProvider_GetStatus | IFusionSoundMusicProvider_GetPos
| IFusionSoundMusicProvider_SeekTo | IFusionSoundMusicProvider_Stop
| IFusionSoundMusicProvider_SetPlaybackFlags | IFusionSoundMusicProvider_Release
| IFusionSoundStream_GetDescription | IFusionSoundStream_Wait
| IFusionSoundStream_GetPlayback | IFusionSoundStream_GetStatus
| IFusionSoundStream_Release
| IFusionSoundPlayback_SetVolume | IFusionSoundPlayback_SetPitch
| IFusionSoundPlayback_Release
(* libc calls that take time, read input or convert a string *)
| usleep | sleep | rand | isatty | tcgetattr | tcsetattr | select | getc
| sscanf | strtol | atoi
(* directfb_util.h *)
| dfb_pixelformat_parse.

(** How a process ends. *)
Inductive status :=
| Code (n : Z)            (* return n from main / exit( n ) *)
| Failed (r : DFBResult)  (* exit( r ) inside ...ErrorFatal *)
| Segv.                   (* a method was called through a NULL pointer *)

(** One line of the log of a run. *)
Inductive entry :=
| Lib (f : libfn) (self : nat) (args : list Z) (a : answer)
    (* [self->f( self, args )], or [f( args )] with [self = 0], answered [a] *)
| Site (line : Z)
    (* fprintf( stderr, "%s <%d>:\n\t", __FILE__, __LINE__ ) *)
| ErrorFatal (msg : string) (r : DFBResult)
    (* DirectFBErrorFatal( msg, r ) / FusionSoundErrorFatal( msg, r ) *)
| Error (msg : string) (r : DFBResult)
    (* FusionSoundError( msg, r ) *)
| Usage
    (* print_usage() *)
| Printf (what : string)
    (* other output on stdout or stderr *)
| Halt (c : status).
    (* the process ends with [c]; what the shutdown function registered with
       atexit does comes after it *)

(** The library: what it answers to a call, given everything that happened
    before.  Nothing is assumed about it. *)
Definition oracle := list entry -> libfn -> nat -> list Z -> answer.

(** ** Programs *)

(** The state of a run: the globals of the program, the log (newest entry
    first) and whether [atexit] has registered the shutdown function. *)
Record world (G : Type) := World {
  glob : G;
  log : list entry;
  hooked : bool
}.
Arguments World {G} _ _ _.
Arguments glob {G} _.
Arguments log {G} _.
Arguments hooked {G} _.

Inductive outcome (G A : Type) :=
| Ret (a : A) (w : world G)
| Exit (c : status) (w : world G)
| Spin (w : world G).
Arguments Ret {G A} _ _.
Arguments Exit {G A} _ _.
Arguments Spin {G A} _.

Definition prog (G A : Type) : Type := oracle -> world G -> outcome G A.

Definition ret {G A} (a : A) : prog G A := fun _ w => Ret a w.

Definition bind {G A B} (m : prog G A) (k : A -> prog G B) : prog G B :=
  fun o w =>
    match m o w with
    | Ret a w' => k a o w'
    | Exit c w' => Exit c w'
    | Spin w' => Spin w'
    end.

#[global] Instance prog_ret G : MRet (prog G) := @ret G.
#[global] Instance prog_bind G : MBind (prog G) := fun A B k m => bind m k.

(** [exit( c )], also [return c] from [main]. *)
Definition exit {G A} (c : status) : prog G A :=
  fun _ w => Exit c (World (glob w) (Halt c :: log w) (hooked w)).

Definition spin {G A} : prog G A := fun _ w => Spin w.

Definition get {G} : prog G G := fun _ w => Ret (glob w) w.

Definition put {G} (g : G) : prog G unit :=
  fun _ w => Ret tt (World g (log w) (hooked w)).

Definition modify {G} (f : G -> G) : prog G unit :=
  fun _ w => Ret tt (World (f (glob w)) (log w) (hooked w)).

Definition emit {G} (e : entry) : prog G unit :=
  fun _ w => Ret tt (World (glob w) (e :: log w) (hooked w)).

(** [atexit( dfb_shutdown )] *)
Definition atexit {G} : prog G unit :=
  fun _ w => Ret tt (World (glob w) (log w) true).

(** A call of a library function that is not a method. *)
Definition lib {G} (f : libfn) (args : list Z) : prog G answer :=
  fun o w =>
    let a := o (log w) f 0%nat args in
    Ret a (World (glob w) (Lib f 0 args a :: log w) (hooked w)).

(** A method call [self->f( self, args )]. *)
Definition meth {G} (f : libfn) (self : nat) (args : list Z) : prog G answer :=
  fun o w =>
    match self with
    | O => exit Segv o w
    | S _ =>
        let a := o (log w) f self args in
        Ret a (World (glob w) (Lib f self args a :: log w) (hooked w))
    end.

(** The pointer a creating call stores through its out-parameter: a new
    object on success, the old content of the variable otherwise. *)
Definition fresh {G} : prog G nat := fun _ w => Ret (length (log w)) w.

Definition created (a : answer) (n old : nat) : nat :=
  if is_ok (a_ret a) then n else old.

(** A free function that creates an object. *)
Definition lib_new {G} (f : libfn) (args : list Z) (old : nat)
  : prog G (answer * nat) :=
  a ← lib f args; n ← fresh; mret (a, created a n old).

(** A method that creates an object. *)
Definition meth_new {G} (f : libfn) (self : nat) (args : list Z) (old : nat)
  : prog G (answer * nat) :=
  a ← meth f self args; n ← fresh; mret (a, created a n old).

(** [while (1) { body }]: [body] returns [Some r] to leave the loop. *)
Fixpoint forever {G A} (fuel : nat) (body : prog G (option A)) : prog G A :=
  match fuel with
  | O => spin
  | S fuel' =>
      r ← body;
      match r with
      | Some a => mret a
      | None => forever fuel' body
      end
  end.

(** [for (x in l) { f x }] *)
Fixpoint for_each {G X} (l : list X) (f : X -> prog G unit) : prog G unit :=
  match l with
  | [] => mret tt
  | x :: l' => f x;; for_each l' f
  end.

Definition when {G} (b : bool) (m : prog G unit) : prog G unit :=
  if b then m else mret tt.

(** *** Macros of the headers *)

(** [CLAMP(x,min,max)] of direct/util.h *)
Definition CLAMP (x lo hi : Z) : Z :=
  if x <? lo then lo else if x >? hi then hi else x.

(** [MAX(a,b)] of direct/util.h *)
Definition MAX (a b : Z) : Z := if a >? b then a else b.

(** [DFB_LOWER_CASE(symbol)] of directfb_keyboard.h *)
Definition DFB_LOWER_CASE (symbol : Z) : Z :=
  if (65 <=? symbol) && (symbol <=? 90) then Z.lor symbol 32 else symbol.

(** The safe-call macro every program defines:
[[
  #define DFBCHECK(x)
     do {
          DFBResult ret = x;
          if (ret != DFB_OK) {
               fprintf( stderr, "%s <%d>:\n\t", __FILE__, __LINE__ );
               DirectFBErrorFatal( #x, ret );
          }
     } while (0)
]]
    [FSCHECK] is the same macro over [FusionSoundErrorFatal].  [x] is the text
    of the call and [line] its line in the source file. *)
Definition DFBCHECK {G A} (line : Z) (x : string) (result : A -> DFBResult)
    (call : prog G A) : prog G A :=
  v ← call;
  if is_ok (result v) then mret v
  else emit (Site line);; emit (ErrorFatal x (result v));; exit (Failed (result v)).

Definition FSCHECK {G A} := @DFBCHECK G A.

(** *** Constants of the headers

    The values of the enumerations of directfb.h, directfb_keyboard.h and
    fusionsound.h are not part of the repository.  The programs only compare
    them and test their bits, so they are kept abstract; the concrete values
    below are used to run the programs on examples. *)
Class Headers := {
  (* DFBInputDeviceKeySymbol *)
  DIKS_BACKSPACE : Z; DIKS_ENTER : Z; DIKS_ESCAPE : Z; DIKS_SPACE : Z;
  DIKS_PLUS_SIGN : Z; DIKS_MINUS_SIGN : Z;
  DIKS_SMALL_B : Z; DIKS_SMALL_C : Z; DIKS_SMALL_H : Z; DIKS_SMALL_I : Z;
  DIKS_SMALL_P : Z; DIKS_SMALL_Q : Z; DIKS_SMALL_S : Z;
  DIKS_CURSOR_LEFT : Z; DIKS_CURSOR_RIGHT : Z; DIKS_CURSOR_UP : Z;
  DIKS_CURSOR_DOWN : Z; DIKS_PAGE_UP : Z; DIKS_PAGE_DOWN : Z;
  DIKS_HELP : Z; DIKS_BACK : Z; DIKS_STOP : Z; DIKS_EXIT : Z; DIKS_F1 : Z;
  (* DFBInputDeviceModifierMask *)
  DIMM_META : Z;
  (* DFBVideoProviderCapabilities *)
  DVCAPS_SEEK : Z; DVCAPS_BRIGHTNESS : Z; DVCAPS_CONTRAST : Z; DVCAPS_HUE : Z;
  DVCAPS_SATURATION : Z; DVCAPS_INTERACTIVE : Z; DVCAPS_VOLUME : Z;
  DVCAPS_SPEED : Z;
  (* DFBColorAdjustmentFlags *)
  DCAF_BRIGHTNESS : Z; DCAF_CONTRAST : Z; DCAF_HUE : Z; DCAF_SATURATION : Z;
  (* DFBVideoProviderStatus, DFBStreamCapabilities, DFBImageCapabilities *)
  DVSTATE_PLAY : Z; DVSCAPS_AUDIO : Z; DICAPS_COLORKEY : Z;
  (* FSMusicProviderStatus, FSMusicProviderPlaybackFlags, FSSampleFormat *)
  FMSTATE_FINISHED : Z; FMPLAY_LOOPING : Z;
  FSSF_U8 : Z; FSSF_S16 : Z; FSSF_S24 : Z; FSSF_S32 : Z;
  (* the table DirectFBPixelFormatNames of directfb_strings.h *)
  format_names : list (string * Z)
}.

(** The values in DirectFB's and FusionSound's headers. *)
Definition directfb_headers : Headers := {|
  DIKS_BACKSPACE := 0x08; DIKS_ENTER := 0x0D; DIKS_ESCAPE := 0x1B;
  DIKS_SPACE := 0x20; DIKS_PLUS_SIGN := 0x2B; DIKS_MINUS_SIGN := 0x2D;
  DIKS_SMALL_B := 0x62; DIKS_SMALL_C := 0x63; DIKS_SMALL_H := 0x68;
  DIKS_SMALL_I := 0x69; DIKS_SMALL_P := 0x70; DIKS_SMALL_Q := 0x71;
  DIKS_SMALL_S := 0x73;
  DIKS_CURSOR_LEFT := 0xF000; DIKS_CURSOR_RIGHT := 0xF001;
  DIKS_CURSOR_UP := 0xF002; DIKS_CURSOR_DOWN := 0xF003;
  DIKS_PAGE_UP := 0xF007; DIKS_PAGE_DOWN := 0xF008;
  DIKS_HELP := 0xF013; DIKS_BACK := 0xF048; DIKS_STOP := 0xF052;
  DIKS_EXIT := 0xF062; DIKS_F1 := 0xF101;
  DIMM_META := 0x10;
  DVCAPS_SEEK := 0x02; DVCAPS_BRIGHTNESS := 0x10; DVCAPS_CONTRAST := 0x20;
  DVCAPS_HUE := 0x40; DVCAPS_SATURATION := 0x80; DVCAPS_INTERACTIVE := 0x100;
  DVCAPS_VOLUME := 0x200; DVCAPS_SPEED := 0x08;
  DCAF_BRIGHTNESS := 0x01; DCAF_CONTRAST := 0x02; DCAF_HUE := 0x04;
  DCAF_SATURATION := 0x08;
  DVSTATE_PLAY := 0x01; DVSCAPS_AUDIO := 0x02; DICAPS_COLORKEY := 0x02;
  FMSTATE_FINISHED := 0x04; FMPLAY_LOOPING := 0x01;
  FSSF_U8 := 1; FSSF_S16 := 2; FSSF_S24 := 3; FSSF_S32 := 4;
  format_names := [("ARGB", 0x00418c04); ("RGB32", 0x00318005);
                   ("RGB16", 0x00200801)]
|}.

(** [DSPF_UNKNOWN] is zero: the programs test [if (pixelformat)]. *)
Definition DSPF_UNKNOWN : Z := 0.

(** [x > 0.0] *)
Definition positive_double (x : Qc) : bool := bool_decide (0 < x)%Qc.

(** [x & mask] as a C condition *)
Definition has (x mask : Z) : bool := negb (Z.land x mask =? 0).

(** [x == a || x == b || ...], a group of [case] labels *)
Definition is_one_of (x : Z) (labels : list Z) : bool := existsb (Z.eqb x) labels.

(** *** Strings of the command line *)

(** [*option == '-'] followed by [option++] *)
Definition after_dash (arg : string) : option string :=
  match arg with
  | String "-"%char rest => Some rest
  | _ => None
  end.

(** [!strcmp( a, b )] *)
Definition strcmp0 (a b : string) : bool := String.eqb a b.

(** [!strncmp( s, p, sizeof(p) - 1 )] *)
Definition strncmp0 (s p : string) : bool := String.prefix p s.

(** [argc] *)
Definition argc (argv : list string) : Z := Z.of_nat (length argv).

(** *** The window table

    [DirectHash] of direct/hash.h is a table from [unsigned long] keys to
    pointers; it is a finite map here.  [direct_hash_insert] refuses a key
    that is present, [direct_hash_lookup] returns [NULL] for a key that is
    absent.  Allocation ([calloc], [D_CALLOC], [direct_hash_create]) is taken
    to succeed. *)
Definition direct_hash_insert {V} (key : nat) (value : V) (hash : gmap nat V)
  : gmap nat V :=
  match hash !! key with
  | Some _ => hash
  | None => <[key := value]> hash
  end.

Definition direct_hash_lookup {V} (hash : gmap nat V) (key : nat) : option V :=
  hash !! key.

Definition direct_hash_remove {V} (hash : gmap nat V) (key : nat) : gmap nat V :=
  delete key hash.

Definition direct_hash_count {V} (hash : gmap nat V) : Z := Z.of_nat (size hash).

(** The result field of a creating call. *)
Definition ret_of (v : answer * nat) : DFBResult := a_ret (fst v).


(** ** df_video_sample.c: one video on N windows *)

Module VideoSample.

(** [struct stack_entry] *)
Record stack_entry := { window : nat; surface : nat }.

(** The globals of the file, and the locals [i] and [flags] of [main], which
    live across the iterations of its loop. *)
Record globals := {
  dfb : nat;
  layer : nat;
  event_buffer : nat;
  video : nat;
  frame : nat;
  logo : nat;
  window_stack : nat;
  stack : gmap nat stack_entry;
  info : Z;
  use_logo : Z;
  pixelformat : Z;
  width : Z;
  height : Z;
  n_windows : Z;
  logo_progress : Z;
  main_i : Z;
  main_flags : Z
}.

Definition set_dfb (v : nat) (g : globals) : globals :=
  {| dfb := v; layer := layer g; event_buffer := event_buffer g;
     video := video g; frame := frame g; logo := logo g;
     window_stack := window_stack g; stack := stack g; info := info g;
     use_logo := use_logo g; pixelformat := pixelformat g; width := width g;
     height := height g; n_windows := n_windows g;
     logo_progress := logo_progress g; main_i := main_i g;
     main_flags := main_flags g |}.

Definition set_layer (v : nat) (g : globals) : globals :=
  {| dfb := dfb g; layer := v; event_buffer := event_buffer g;
     video := video g; frame := frame g; logo := logo g;
     window_stack := window_stack g; stack := stack g; info := info g;
     use_logo := use_logo g; pixelformat := pixelformat g; width := width g;
     height := height g; n_windows := n_windows g;
     logo_progress := logo_progress g; main_i := main_i g;
     main_flags := main_flags g |}.

Definition set_event_buffer (v : nat) (g : globals) : globals :=
  {| dfb := dfb g; layer := layer g; event_buffer := v; video := video g;
     frame := frame g; logo := logo g; window_stack := window_stack g;
     stack := stack g; info := info g; use_logo := use_logo g;
     pixelformat := pixelformat g; width := width g; height := height g;
     n_windows := n_windows g; logo_progress := logo_progress g;
     main_i := main_i g; main_flags := main_flags g |}.

Definition set_video (v : nat) (g : globals) : globals :=
  {| dfb := dfb g; layer := layer g; event_buffer := event_buffer g;
     video := v; frame := frame g; logo := logo g;
     window_stack := window_stack g; stack := stack g; info := info g;
     use_logo := use_logo g; pixelformat := pixelformat g; width := width g;
     height := height g; n_windows := n_windows g;
     logo_progress := logo_progress g; main_i := main_i g;
     main_flags := main_flags g |}.

Definition set_frame (v : nat) (g : globals) : globals :=
  {| dfb := dfb g; layer := layer g; event_buffer := event_buffer g;
     video := video g; frame := v; logo := logo g;
     window_stack := window_stack g; stack := stack g; info := info g;
     use_logo := use_logo g; pixelformat := pixelformat g; width := width g;
     height := height g; n_windows := n_windows g;
     logo_progress := logo_progress g; main_i := main_i g;
     main_flags := main_flags g |}.

Definition set_logo (v : nat) (g : globals) : globals :=
  {| dfb := dfb g; layer := layer g; event_buffer := event_buffer g;
     video := video g; frame := frame g; logo := v;
     window_stack := window_stack g; stack := stack g; info := info g;
     use_logo := use_logo g; pixelformat := pixelformat g; width := width g;
     height := height g; n_windows := n_windows g;
     logo_progress := logo_progress g; main_i := main_i g;
     main_flags := main_flags g |}.

Definition set_window_stack (v : nat) (g : globals) : globals :=
  {| dfb := dfb g; layer := layer g; event_buffer := event_buffer g;
     video := video g; frame := frame g; logo := logo g; window_stack := v;
     stack := stack g; info := info g; use_logo := use_logo g;
     pixelformat := pixelformat g; width := width g; height := height g;
     n_windows := n_windows g; logo_progress := logo_progress g;
     main_i := main_i g; main_flags := main_flags g |}.

Definition set_stack (v : gmap nat stack_entry) (g : globals) : globals :=
  {| dfb := dfb g; layer := layer g; event_buffer := event_buffer g;
     video := video g; frame := frame g; logo := logo g;
     window_stack := window_stack g; stack := v; info := info g;
     use_logo := use_logo g; pixelformat := pixelformat g; width := width g;
     height := height g; n_windows := n_windows g;
     logo_progress := logo_progress g; main_i := main_i g;
     main_flags := main_flags g |}.

Definition set_info (v : Z) (g : globals) : globals :=
  {| dfb := dfb g; layer := layer g; event_buffer := event_buffer g;
     video := video g; frame := frame g; logo := logo g;
     window_stack := window_stack g; stack := stack g; info := v;
     use_logo := use_logo g; pixelformat := pixelformat g; width := width g;
     height := height g; n_windows := n_windows g;
     logo_progress := logo_progress g; main_i := main_i g;
     main_flags := main_flags g |}.

Definition set_use_logo (v : Z) (g : globals) : globals :=
  {| dfb := dfb g; layer := layer g; event_buffer := event_buffer g;
     video := video g; frame := frame g; logo := logo g;
     window_stack := window_stack g; stack := stack g; info := info g;
     use_logo := v; pixelformat := pixelformat g; width := width g;
     height := height g; n_windows := n_windows g;
     logo_progress := logo_progress g; main_i := main_i g;
     main_flags := main_flags g |}.

Definition set_pixelformat (v : Z) (g : globals) : globals :=
  {| dfb := dfb g; layer := layer g; event_buffer := event_buffer g;
     video := video g; frame := frame g; logo := logo g;
     window_stack := window_stack g; stack := stack g; info := info g;
     use_logo := use_logo g; pixelformat := v; width := width g;
     height := height g; n_windows := n_windows g;
     logo_progress := logo_progress g; main_i := main_i g;
     main_flags := main_flags g |}.

Definition set_width (v : Z) (g : globals) : globals :=
  {| dfb := dfb g; layer := layer g; event_buffer := event_buffer g;
     video := video g; frame := frame g; logo := logo g;
     window_stack := window_stack g; stack := stack g; info := info g;
     use_logo := use_logo g; pixelformat := pixelformat g; width := v;
     height := height g; n_windows := n_windows g;
     logo_progress := logo_progress g; main_i := main_i g;
     main_flags := main_flags g |}.

Definition set_height (v : Z) (g : globals) : globals :=
  {| dfb := dfb g; layer := layer g; event_buffer := event_buffer g;
     video := video g; frame := frame g; logo := logo g;
     window_stack := window_stack g; stack := stack g; info := info g;
     use_logo := use_logo g; pixelformat := pixelformat g; width := width g;
     height := v; n_windows := n_windows g; logo_progress := logo_progress g;
     main_i := main_i g; main_flags := main_flags g |}.

Definition set_n_windows (v : Z) (g : globals) : globals :=
  {| dfb := dfb g; layer := layer g; event_buffer := event_buffer g;
     video := video g; frame := frame g; logo := logo g;
     window_stack := window_stack g; stack := stack g; info := info g;
     use_logo := use_logo g; pixelformat := pixelformat g; width := width g;
     height := height g; n_windows := v; logo_progress := logo_progress g;
     main_i := main_i g; main_flags := main_flags g |}.

Definition set_logo_progress (v : Z) (g : globals) : globals :=
  {| dfb := dfb g; layer := layer g; event_buffer := event_buffer g;
     video := video g; frame := frame g; logo := logo g;
     window_stack := window_stack g; stack := stack g; info := info g;
     use_logo := use_logo g; pixelformat := pixelformat g; width := width g;
     height := height g; n_windows := n_windows g; logo_progress := v;
     main_i := main_i g; main_flags := main_flags g |}.

Definition set_main_i (v : Z) (g : globals) : globals :=
  {| dfb := dfb g; layer := layer g; event_buffer := event_buffer g;
     video := video g; frame := frame g; logo := logo g;
     window_stack := window_stack g; stack := stack g; info := info g;
     use_logo := use_logo g; pixelformat := pixelformat g; width := width g;
     height := height g; n_windows := n_windows g;
     logo_progress := logo_progress g; main_i := v;
     main_flags := main_flags g |}.

Definition set_main_flags (v : Z) (g : globals) : globals :=
  {| dfb := dfb g; layer := layer g; event_buffer := event_buffer g;
     video := video g; frame := frame g; logo := logo g;
     window_stack := window_stack g; stack := stack g; info := info g;
     use_logo := use_logo g; pixelformat := pixelformat g; width := width g;
     height := height g; n_windows := n_windows g;
     logo_progress := logo_progress g; main_i := main_i g; main_flags := v |}.

Definition init : globals :=
  {| dfb := 0; layer := 0; event_buffer := 0; video := 0; frame := 0;
     logo := 0; window_stack := 0; stack := ∅; info := 0; use_logo := 1;
     pixelformat := DSPF_UNKNOWN; width := 0; height := 0; n_windows := 1;
     logo_progress := 0; main_i := 0; main_flags := 0 |}.

Section Program.
Context `{Headers}.

Fixpoint parse_pixelformat_from (names : list (string * Z)) (format : string) : Z :=
  match names with
  | [] => DSPF_UNKNOWN
  | (name, fmt) :: names' =>
      if strcmp0 format name then fmt else parse_pixelformat_from names' format
  end.

Definition parse_pixelformat (format : string) : Z :=
  parse_pixelformat_from format_names format.

Definition dump_stream_info (dsc_width dsc_height : Z) : prog globals unit :=
  g ← get;
  desc ← meth IDirectFBVideoProvider_GetStreamDescription (video g) [];
  emit (Printf "  # Video");;
  when (has (a_int desc) DVSCAPS_AUDIO) (emit (Printf "  # Audio")).

(** One round of the loop of [create_stack]; [posx], [posy] are the fields of
    [wdsc], advanced by the increment of the [for]. *)
Definition create_stack_body (posx posy : Z) : prog globals unit :=
  g ← get;
  '(_, window) ← DFBCHECK 131 "layer->CreateWindow( layer, &wdsc, &window )" ret_of
     (meth_new IDirectFBDisplayLayer_CreateWindow (layer g)
        [posx; posy; width g; height g] 0);
  '(_, surface) ← DFBCHECK 132 "window->GetSurface( window, &surface )" ret_of
     (meth_new IDirectFBWindow_GetSurface window [] 0);
  DFBCHECK 133 "window->AttachEventBuffer( window, event_buffer )" a_ret
     (meth IDirectFBWindow_AttachEventBuffer window [Z.of_nat (event_buffer g)]);;
  id ← meth IDirectFBWindow_GetID window [];
  meth IDirectFBWindow_SetOpacity window [0xff];;
  meth IDirectFBSurface_Clear surface [0x00; 0x00; 0x00; 0xff];;
  meth IDirectFBSurface_Flip surface [];;
  modify (fun g => set_stack
    (direct_hash_insert (a_id id) {| window := window; surface := surface |} (stack g)) g).

Fixpoint create_stack_loop (n : nat) (posx posy : Z) : prog globals unit :=
  match n with
  | O => mret tt
  | S n' => create_stack_body posx posy;; create_stack_loop n' (posx + 10) (posy + 5)
  end.

Definition create_stack (dsc_width dsc_height : Z) : prog globals unit :=
  g ← get;
  lib direct_hash_create [n_windows g];;
  hash ← fresh;
  modify (set_window_stack hash);;
  modify (fun g => set_width (if width g =? 0 then dsc_width else width g) g);;
  modify (fun g => set_height (if height g =? 0 then dsc_height else height g) g);;
  create_stack_loop (Z.to_nat (n_windows g)) 0 0.

Definition remove_window (id : nat) : prog globals nat :=
  g ← get;
  match direct_hash_lookup (stack g) id with
  | Some entry =>
      meth IDirectFBSurface_Release (surface entry) [];;
      meth IDirectFBWindow_Release (window entry) [];;
      modify (fun g => set_stack (direct_hash_remove (stack g) id) g);;
      mret (window entry)
  | None => mret 0%nat
  end.

Definition stack_destructor (entry : stack_entry) : prog globals unit :=
  meth IDirectFBSurface_Release (surface entry) [];;
  meth IDirectFBWindow_Release (window entry) [];;
  mret tt.

Definition destroy_stack : prog globals unit :=
  g ← get;
  for_each (map_to_list (stack g)) (fun kv => stack_destructor (snd kv));;
  meth direct_hash_destroy (window_stack g) [];;
  mret tt.

Definition create_frame (dsc_width dsc_height : Z) : prog globals unit :=
  g ← get;
  '(_, s) ← DFBCHECK 198 "dfb->CreateSurface( dfb, &sdsc, &frame )" ret_of
     (meth_new IDirectFB_CreateSurface (dfb g)
        [dsc_width; dsc_height; pixelformat g] (frame g));
  modify (set_frame s).

Definition seek (step : Qc) : prog globals unit :=
  g ← get;
  meth IDirectFBVideoProvider_GetPos (video g) [];;
  meth IDirectFBVideoProvider_SeekTo (video g) [];;
  mret tt.

Definition set_speed (step : Qc) : prog globals unit :=
  g ← get;
  meth IDirectFBVideoProvider_GetSpeed (video g) [];;
  meth IDirectFBVideoProvider_SetSpeed (video g) [];;
  mret tt.

(** The four conditional assignments of [adjust_color]. *)
Definition adjusted (flags step : Z) (adj : DFBColorAdjustment) : DFBColorAdjustment :=
  {| adj_flags := flags;
     brightness := if has flags DCAF_BRIGHTNESS
                   then CLAMP (brightness adj + step) 0 0xffff else brightness adj;
     contrast := if has flags DCAF_CONTRAST
                 then CLAMP (contrast adj + step) 0 0xffff else contrast adj;
     hue := if has flags DCAF_HUE
            then CLAMP (hue adj + step) 0 0xffff else hue adj;
     saturation := if has flags DCAF_SATURATION
                   then CLAMP (saturation adj + step) 0 0xffff else saturation adj |}.

Definition adj_args (adj : DFBColorAdjustment) : list Z :=
  [adj_flags adj; brightness adj; contrast adj; hue adj; saturation adj].

Definition adjust_color (flags step : Z) : prog globals unit :=
  g ← get;
  a ← meth IDirectFBVideoProvider_GetColorAdjustment (video g) [];
  if is_ok (a_ret a) then
    meth IDirectFBVideoProvider_SetColorAdjustment (video g)
      (adj_args (adjusted flags step (a_adj a)));;
    mret tt
  else mret tt.

Definition set_volume (step : Qc) : prog globals unit :=
  g ← get;
  meth IDirectFBVideoProvider_GetVolume (video g) [];;
  meth IDirectFBVideoProvider_SetVolume (video g) [];;
  mret tt.

Definition dfb_shutdown : prog globals unit :=
  g ← get;
  when (negb (window_stack g =? 0)%nat) destroy_stack;;
  when (negb (logo g =? 0)%nat) (meth IDirectFBSurface_Release (logo g) [];; mret tt);;
  when (negb (frame g =? 0)%nat) (meth IDirectFBSurface_Release (frame g) [];; mret tt);;
  when (negb (video g =? 0)%nat) (meth IDirectFBVideoProvider_Release (video g) [];; mret tt);;
  when (negb (event_buffer g =? 0)%nat)
    (meth IDirectFBEventBuffer_Release (event_buffer g) [];; mret tt);;
  when (negb (layer g =? 0)%nat) (meth IDirectFBDisplayLayer_Release (layer g) [];; mret tt);;
  when (negb (dfb g =? 0)%nat) (meth IDirectFB_Release (dfb g) [];; mret tt).

(** The [for] loop of [main] over [argv[i]], from [args = argv[i..]];
    [i == argc - 1] holds at the last element. *)
Fixpoint parse_command_line (args : list string) (mrl : option string)
  : prog globals (option string) :=
  match args with
  | [] => mret mrl
  | arg :: rest =>
      match after_dash arg with
      | Some opt =>
          if strcmp0 opt "-help" then emit Usage;; exit (Code 0)
          else if strcmp0 opt "-info" then
            modify (set_info 1);; parse_command_line rest mrl
          else if strcmp0 opt "-no-logo" then
            modify (set_use_logo 0);; parse_command_line rest mrl
          else if strncmp0 opt "-format=" then
            modify (set_pixelformat (parse_pixelformat (String.substring 8 (String.length opt) opt)));;
            parse_command_line rest mrl
          else if strncmp0 opt "-size=" then
            g ← get;
            a ← lib sscanf [width g; height g];
            modify (set_width (a_int a));; modify (set_height (a_int2 a));;
            parse_command_line rest mrl
          else if strncmp0 opt "-windows=" then
            a ← lib strtol [];
            modify (set_n_windows (CLAMP (a_int a) 1 20));;
            parse_command_line rest mrl
          else parse_command_line rest mrl
      | None =>
          match rest with
          | [] => parse_command_line rest (Some arg)
          | _ => parse_command_line rest mrl
          end
      end
  end.

(** [case DIKS_ENTER:] of the key switch, also reached by falling through
    from [DIKS_SPACE] / [DIKS_SMALL_P]. *)
Definition stop_start : prog globals unit :=
  g ← get;
  status ← meth IDirectFBVideoProvider_GetStatus (video g) [];
  if negb (a_int status =? DVSTATE_PLAY) then
    meth IDirectFBVideoProvider_PlayTo (video g) [Z.of_nat (frame g)];; mret tt
  else
    meth IDirectFBVideoProvider_Stop (video g) [];; mret tt.

(** The body of [switch (evt.type)] for one event. *)
Definition dispatch (caps : Z) (evt : DFBWindowEvent) : prog globals unit :=
  match evt_type evt with
  | DWET_KEYDOWN =>
      when (has caps DVCAPS_INTERACTIVE && has (modifiers evt) DIMM_META &&
            (DFB_LOWER_CASE (key_symbol evt) =? DIKS_SMALL_I))
        (modify (fun g => set_main_i (if main_i g =? 0 then 1 else 0) g));;
      g ← get;
      if negb (main_i g =? 0) then
        meth IDirectFBVideoProvider_SendEvent (video g) [];; mret tt
      else
        let k := DFB_LOWER_CASE (key_symbol evt) in
        if is_one_of k [DIKS_ESCAPE; DIKS_SMALL_Q; DIKS_BACK; DIKS_STOP; DIKS_EXIT] then
          dfb_shutdown;; exit (Code 42)
        else if is_one_of k [DIKS_SPACE; DIKS_SMALL_P] then
          if has caps DVCAPS_SPEED then
            meth IDirectFBVideoProvider_GetSpeed (video g) [];;
            meth IDirectFBVideoProvider_SetSpeed (video g) [];;
            mret tt
          else stop_start
        else if k =? DIKS_ENTER then stop_start
        else if k =? DIKS_SMALL_B then
          when (has caps DVCAPS_BRIGHTNESS)
            (modify (fun g => set_main_flags (Z.lor (main_flags g) DCAF_BRIGHTNESS) g))
        else if k =? DIKS_SMALL_C then
          when (has caps DVCAPS_CONTRAST)
            (modify (fun g => set_main_flags (Z.lor (main_flags g) DCAF_CONTRAST) g))
        else if k =? DIKS_SMALL_H then
          when (has caps DVCAPS_HUE)
            (modify (fun g => set_main_flags (Z.lor (main_flags g) DCAF_HUE) g))
        else if k =? DIKS_SMALL_S then
          when (has caps DVCAPS_SATURATION)
            (modify (fun g => set_main_flags (Z.lor (main_flags g) DCAF_SATURATION) g))
        else if k =? DIKS_CURSOR_LEFT then
          if negb (main_flags g =? 0) then adjust_color (main_flags g) (-257)
          else when (has caps DVCAPS_SEEK) (seek (Q2Qc (-10)))
        else if k =? DIKS_CURSOR_RIGHT then
          if negb (main_flags g =? 0) then adjust_color (main_flags g) 257
          else when (has caps DVCAPS_SEEK) (seek (Q2Qc 10))
        else if k =? DIKS_CURSOR_UP then
          when (has caps DVCAPS_SPEED) (set_speed (Q2Qc 2))
        else if k =? DIKS_CURSOR_DOWN then
          when (has caps DVCAPS_SPEED) (set_speed (Q2Qc (1 # 2)))
        else if k =? DIKS_PLUS_SIGN then
          when (has caps DVCAPS_VOLUME) (set_volume (Q2Qc (1 # 10)))
        else if k =? DIKS_MINUS_SIGN then
          when (has caps DVCAPS_VOLUME) (set_volume (Q2Qc (-1 # 10)))
        else mret tt
  | DWET_KEYUP =>
      g ← get;
      if negb (main_i g =? 0) then
        meth IDirectFBVideoProvider_SendEvent (video g) [];; mret tt
      else
        let k := DFB_LOWER_CASE (key_symbol evt) in
        let clear bit g := set_main_flags (Z.land (main_flags g) (Z.lnot bit)) g in
        if k =? DIKS_SMALL_B then
          when (has caps DVCAPS_BRIGHTNESS) (modify (clear DCAF_BRIGHTNESS))
        else if k =? DIKS_SMALL_C then
          when (has caps DVCAPS_CONTRAST) (modify (clear DCAF_CONTRAST))
        else if k =? DIKS_SMALL_H then
          when (has caps DVCAPS_HUE) (modify (clear DCAF_HUE))
        else if k =? DIKS_SMALL_S then
          when (has caps DVCAPS_SATURATION) (modify (clear DCAF_SATURATION))
        else mret tt
  | DWET_BUTTONDOWN | DWET_BUTTONUP | DWET_ENTER | DWET_MOTION | DWET_LEAVE =>
      g ← get;
      if negb (main_i g =? 0) then
        meth IDirectFBVideoProvider_SendEvent (video g) [];; mret tt
      else mret tt
  | DWET_CLOSE =>
      window ← remove_window (window_id evt);
      if negb (window =? 0)%nat then
        modify (fun g => set_n_windows (n_windows g - 1) g);;
        g ← get;
        if n_windows g <=? 0 then dfb_shutdown;; exit (Code 42) else mret tt
      else mret tt
  | _ => mret tt
  end.

(** [while (event_buffer->GetEvent( ... ) == DFB_OK) { switch ... }] *)
Definition process_event_buffer (fuel : nat) (caps : Z) : prog globals unit :=
  forever fuel
    (g ← get;
     a ← meth IDirectFBEventBuffer_GetEvent (event_buffer g) [];
     if is_ok (a_ret a) then dispatch caps (a_evt a);; mret None
     else mret (Some tt)).

(** One round of [while (1)] in [main]. *)
Definition main_loop_body (fuel : nat) (caps : Z) : prog globals (option Z) :=
  g ← get;
  timeout ←
    (if negb (logo g =? 0)%nat then
       a ← meth IDirectFBEventBuffer_WaitForEventWithTimeout (event_buffer g) [0; 150];
       match a_ret a with
       | DFB_TIMEOUT =>
           len ← meth IDirectFBVideoProvider_GetLength (video g) [];
           pos ← meth IDirectFBVideoProvider_GetPos (video g) [];
           modify (set_logo_progress
             (if positive_double (a_flt len) && positive_double (a_flt pos)
              then Qfloor (a_flt pos * Q2Qc 100 / a_flt len + Q2Qc (1 # 2))%Qc else 0));;
           mret true
       | _ => mret false
       end
     else mret false);
  if (timeout : bool) then mret None
  else process_event_buffer fuel caps;; mret None.

Definition main (fuel : nat) (argv argv' : list string) : prog globals Z :=
  if argc argv <? 2 then emit Usage;; exit (Code 0) else
  DFBCHECK 377 "DirectFBInit( &argc, &argv )" a_ret (lib DirectFBInit []);;
  mrl ← parse_command_line (tail argv') None;
  match mrl with
  | None | Some EmptyString => emit Usage;; exit (Code 1)
  | Some _ =>
      modify (set_main_i 0);;
      '(_, h) ← DFBCHECK 423 "DirectFBCreate( &dfb )" ret_of
         (lib_new DirectFBCreate [] 0);
      modify (set_dfb h);;
      g ← get;
      '(_, h) ← DFBCHECK 426 "dfb->GetDisplayLayer( dfb, DLID_PRIMARY, &layer )" ret_of
         (meth_new IDirectFB_GetDisplayLayer (dfb g) [] 0);
      modify (set_layer h);;
      '(_, h) ← DFBCHECK 429 "dfb->CreateEventBuffer( dfb, &event_buffer )" ret_of
         (meth_new IDirectFB_CreateEventBuffer (dfb g) [] 0);
      modify (set_event_buffer h);;
      '(_, h) ← DFBCHECK 432 "dfb->CreateVideoProvider( dfb, mrl, &video )" ret_of
         (meth_new IDirectFB_CreateVideoProvider (dfb g) [] 0);
      modify (set_video h);;
      g ← get;
      caps ← meth IDirectFBVideoProvider_GetCapabilities (video g) [];
      dsc ← meth IDirectFBVideoProvider_GetSurfaceDescription (video g) [];
      when (negb (info g =? 0)) (dump_stream_info (a_int dsc) (a_int2 dsc));;
      create_frame (a_int dsc) (a_int2 dsc);;
      when (negb (use_logo g =? 0))
        ('(_, h) ← DFBCHECK 449 "dfb->CreateSurface( dfb, &dfblogo_desc, &logo )" ret_of
            (meth_new IDirectFB_CreateSurface (dfb g) [] 0);
         modify (set_logo h));;
      create_stack (a_int dsc) (a_int2 dsc);;
      meth IDirectFBVideoProvider_SetPlaybackFlags (video g) [];;
      g ← get;
      meth IDirectFBVideoProvider_PlayTo (video g) [Z.of_nat (frame g)];;
      forever fuel (main_loop_body fuel (a_int caps))
  end.

End Program.
End VideoSample.

(** ** df_image_sample.c: one image on N windows *)

Module ImageSample.

(** [struct stack_entry] *)
Record stack_entry := { window : nat; surface : nat }.

Record globals := {
  dfb : nat;
  layer : nat;
  event_buffer : nat;
  image : nat;
  frame : nat;
  logo : nat;
  window_stack : nat;
  stack : gmap nat stack_entry;
  info : Z;
  use_logo : Z;
  pixelformat : Z;
  width : Z;
  height : Z;
  n_windows : Z
}.

Definition set_dfb (v : nat) (g : globals) : globals :=
  {| dfb := v; layer := layer g; event_buffer := event_buffer g;
     image := image g; frame := frame g; logo := logo g;
     window_stack := window_stack g; stack := stack g; info := info g;
     use_logo := use_logo g; pixelformat := pixelformat g; width := width g;
     height := height g; n_windows := n_windows g |}.

Definition set_layer (v : nat) (g : globals) : globals :=
  {| dfb := dfb g; layer := v; event_buffer := event_buffer g;
     image := image g; frame := frame g; logo := logo g;
     window_stack := window_stack g; stack := stack g; info := info g;
     use_logo := use_logo g; pixelformat := pixelformat g; width := width g;
     height := height g; n_windows := n_windows g |}.

Definition set_event_buffer (v : nat) (g : globals) : globals :=
  {| dfb := dfb g; layer := layer g; event_buffer := v; image := image g;
     frame := frame g; logo := logo g; window_stack := window_stack g;
     stack := stack g; info := info g; use_logo := use_logo g;
     pixelformat := pixelformat g; width := width g; height := height g;
     n_windows := n_windows g |}.

Definition set_image (v : nat) (g : globals) : globals :=
  {| dfb := dfb g; layer := layer g; event_buffer := event_buffer g;
     image := v; frame := frame g; logo := logo g;
     window_stack := window_stack g; stack := stack g; info := info g;
     use_logo := use_logo g; pixelformat := pixelformat g; width := width g;
     height := height g; n_windows := n_windows g |}.

Definition set_frame (v : nat) (g : globals) : globals :=
  {| dfb := dfb g; layer := layer g; event_buffer := event_buffer g;
     image := image g; frame := v; logo := logo g;
     window_stack := window_stack g; stack := stack g; info := info g;
     use_logo := use_logo g; pixelformat := pixelformat g; width := width g;
     height := height g; n_windows := n_windows g |}.

Definition set_logo (v : nat) (g : globals) : globals :=
  {| dfb := dfb g; layer := layer g; event_buffer := event_buffer g;
     image := image g; frame := frame g; logo := v;
     window_stack := window_stack g; stack := stack g; info := info g;
     use_logo := use_logo g; pixelformat := pixelformat g; width := width g;
     height := height g; n_windows := n_windows g |}.

Definition set_window_stack (v : nat) (g : globals) : globals :=
  {| dfb := dfb g; layer := layer g; event_buffer := event_buffer g;
     image := image g; frame := frame g; logo := logo g; window_stack := v;
     stack := stack g; info := info g; use_logo := use_logo g;
     pixelformat := pixelformat g; width := width g; height := height g;
     n_windows := n_windows g |}.

Definition set_stack (v : gmap nat stack_entry) (g : globals) : globals :=
  {| dfb := dfb g; layer := layer g; event_buffer := event_buffer g;
     image := image g; frame := frame g; logo := logo g;
     window_stack := window_stack g; stack := v; info := info g;
     use_logo := use_logo g; pixelformat := pixelformat g; width := width g;
     height := height g; n_windows := n_windows g |}.

Definition set_info (v : Z) (g : globals) : globals :=
  {| dfb := dfb g; layer := layer g; event_buffer := event_buffer g;
     image := image g; frame := frame g; logo := logo g;
     window_stack := window_stack g; stack := stack g; info := v;
     use_logo := use_logo g; pixelformat := pixelformat g; width := width g;
     height := height g; n_windows := n_windows g |}.

Definition set_use_logo (v : Z) (g : globals) : globals :=
  {| dfb := dfb g; layer := layer g; event_buffer := event_buffer g;
     image := image g; frame := frame g; logo := logo g;
     window_stack := window_stack g; stack := stack g; info := info g;
     use_logo := v; pixelformat := pixelformat g; width := width g;
     height := height g; n_windows := n_windows g |}.

Definition set_pixelformat (v : Z) (g : globals) : globals :=
  {| dfb := dfb g; layer := layer g; event_buffer := event_buffer g;
     image := image g; frame := frame g; logo := logo g;
     window_stack := window_stack g; stack := stack g; info := info g;
     use_logo := use_logo g; pixelformat := v; width := width g;
     height := height g; n_windows := n_windows g |}.

Definition set_width (v : Z) (g : globals) : globals :=
  {| dfb := dfb g; layer := layer g; event_buffer := event_buffer g;
     image := image g; frame := frame g; logo := logo g;
     window_stack := window_stack g; stack := stack g; info := info g;
     use_logo := use_logo g; pixelformat := pixelformat g; width := v;
     height := height g; n_windows := n_windows g |}.

Definition set_height (v : Z) (g : globals) : globals :=
  {| dfb := dfb g; layer := layer g; event_buffer := event_buffer g;
     image := image g; frame := frame g; logo := logo g;
     window_stack := window_stack g; stack := stack g; info := info g;
     use_logo := use_logo g; pixelformat := pixelformat g; width := width g;
     height := v; n_windows := n_windows g |}.

Definition set_n_windows (v : Z) (g : globals) : globals :=
  {| dfb := dfb g; layer := layer g; event_buffer := event_buffer g;
     image := image g; frame := frame g; logo := logo g;
     window_stack := window_stack g; stack := stack g; info := info g;
     use_logo := use_logo g; pixelformat := pixelformat g; width := width g;
     height := height g; n_windows := v |}.


Definition init : globals :=
  {| dfb := 0; layer := 0; event_buffer := 0; image := 0; frame := 0;
     logo := 0; window_stack := 0; stack := ∅; info := 0; use_logo := 1;
     pixelformat := DSPF_UNKNOWN; width := 0; height := 0; n_windows := 1 |}.

Section Program.
Context `{Headers}.

Definition dump_image_info (dsc_width dsc_height : Z) : prog globals unit :=
  g ← get;
  desc ← meth IDirectFBImageProvider_GetImageDescription (image g) [];
  emit (Printf "  # Image");;
  when (has (a_int desc) DICAPS_COLORKEY) (emit (Printf " (colorkey)"));;
  emit (Printf "\n").

(** One round of the loop of [create_stack]. *)
Definition create_stack_body (posx posy : Z) : prog globals unit :=
  g ← get;
  '(_, window) ← DFBCHECK 106 "layer->CreateWindow( layer, &wdsc, &window )" ret_of
     (meth_new IDirectFBDisplayLayer_CreateWindow (layer g)
        [posx; posy; width g; height g] 0);
  '(_, surface) ← DFBCHECK 107 "window->GetSurface( window, &surface )" ret_of
     (meth_new IDirectFBWindow_GetSurface window [] 0);
  DFBCHECK 108 "window->AttachEventBuffer( window, event_buffer )" a_ret
     (meth IDirectFBWindow_AttachEventBuffer window [Z.of_nat (event_buffer g)]);;
  id ← meth IDirectFBWindow_GetID window [];
  meth IDirectFBWindow_SetOpacity window [0xff];;
  meth IDirectFBSurface_Clear surface [0x00; 0x00; 0x00; 0xff];;
  meth IDirectFBSurface_Flip surface [];;
  modify (fun g => set_stack
    (direct_hash_insert (a_id id) {| window := window; surface := surface |} (stack g)) g).

Fixpoint create_stack_loop (n : nat) (posx posy : Z) : prog globals unit :=
  match n with
  | O => mret tt
  | S n' => create_stack_body posx posy;; create_stack_loop n' (posx + 10) (posy + 5)
  end.

Definition create_stack (dsc_width dsc_height : Z) : prog globals unit :=
  g ← get;
  lib direct_hash_create [n_windows g];;
  hash ← fresh;
  modify (set_window_stack hash);;
  modify (fun g => set_width (if width g =? 0 then dsc_width else width g) g);;
  modify (fun g => set_height (if height g =? 0 then dsc_height else height g) g);;
  create_stack_loop (Z.to_nat (n_windows g)) 0 0.

Definition remove_window (id : nat) : prog globals nat :=
  g ← get;
  match direct_hash_lookup (stack g) id with
  | Some entry =>
      meth IDirectFBSurface_Release (surface entry) [];;
      meth IDirectFBWindow_Release (window entry) [];;
      modify (fun g => set_stack (direct_hash_remove (stack g) id) g);;
      mret (window entry)
  | None => mret 0%nat
  end.

Definition stack_destructor (entry : stack_entry) : prog globals unit :=
  meth IDirectFBSurface_Release (surface entry) [];;
  meth IDirectFBWindow_Release (window entry) [];;
  mret tt.

Definition destroy_stack : prog globals unit :=
  g ← get;
  for_each (map_to_list (stack g)) (fun kv => stack_destructor (snd kv));;
  meth direct_hash_destroy (window_stack g) [];;
  mret tt.

Definition create_frame (dsc_width dsc_height : Z) : prog globals unit :=
  g ← get;
  '(_, s) ← DFBCHECK 173 "dfb->CreateSurface( dfb, &sdsc, &frame )" ret_of
     (meth_new IDirectFB_CreateSurface (dfb g)
        [dsc_width; dsc_height; pixelformat g] (frame g));
  modify (set_frame s).

Definition frame_blitter (dsc_width dsc_height : Z) (entry : stack_entry)
  : prog globals unit :=
  g ← get;
  let dst := surface entry in
  meth IDirectFBSurface_SetBlittingFlags dst [];;
  (if negb (width g =? dsc_width) || negb (height g =? dsc_height)
   then meth IDirectFBSurface_StretchBlit dst [Z.of_nat (frame g)]
   else meth IDirectFBSurface_Blit dst [Z.of_nat (frame g); 0; 0]);;
  when (negb (logo g =? 0)%nat)
    (meth IDirectFBSurface_SetColor dst [0x22; 0x33; 0xbb; 0xff];;
     meth IDirectFBSurface_SetBlittingFlags dst [];;
     meth IDirectFBSurface_Blit dst [Z.of_nat (logo g); 5; 5];;
     mret tt);;
  meth IDirectFBSurface_Flip dst [];;
  mret tt.

Definition dfb_shutdown : prog globals unit :=
  g ← get;
  when (negb (window_stack g =? 0)%nat) destroy_stack;;
  when (negb (logo g =? 0)%nat) (meth IDirectFBSurface_Release (logo g) [];; mret tt);;
  when (negb (frame g =? 0)%nat) (meth IDirectFBSurface_Release (frame g) [];; mret tt);;
  when (negb (image g =? 0)%nat) (meth IDirectFBImageProvider_Release (image g) [];; mret tt);;
  when (negb (event_buffer g =? 0)%nat)
    (meth IDirectFBEventBuffer_Release (event_buffer g) [];; mret tt);;
  when (negb (layer g =? 0)%nat) (meth IDirectFBDisplayLayer_Release (layer g) [];; mret tt);;
  when (negb (dfb g =? 0)%nat) (meth IDirectFB_Release (dfb g) [];; mret tt).

(** The [for] loop of [main] over [argv[i]], from [args = argv[i..]]. *)
Fixpoint parse_command_line (args : list string) (mrl : option string)
  : prog globals (option string) :=
  match args with
  | [] => mret mrl
  | arg :: rest =>
      match after_dash arg with
      | Some opt =>
          if strcmp0 opt "-help" then emit Usage;; exit (Code 0)
          else if strcmp0 opt "-info" then
            modify (set_info 1);; parse_command_line rest mrl
          else if strcmp0 opt "-no-logo" then
            modify (set_use_logo 0);; parse_command_line rest mrl
          else if strncmp0 opt "-format=" then
            a ← lib dfb_pixelformat_parse [];
            modify (set_pixelformat (a_int a));;
            parse_command_line rest mrl
          else if strncmp0 opt "-size=" then
            g ← get;
            a ← lib sscanf [width g; height g];
            modify (set_width (a_int a));; modify (set_height (a_int2 a));;
            parse_command_line rest mrl
          else if strncmp0 opt "-windows=" then
            a ← lib strtol [];
            modify (set_n_windows (CLAMP (a_int a) 1 20));;
            parse_command_line rest mrl
          else parse_command_line rest mrl
      | None =>
          match rest with
          | [] => parse_command_line rest (Some arg)
          | _ => parse_command_line rest mrl
          end
      end
  end.

(** The body of [switch (evt.type)] for one event. *)
Definition dispatch (evt : DFBWindowEvent) : prog globals unit :=
  match evt_type evt with
  | DWET_KEYDOWN =>
      if is_one_of (DFB_LOWER_CASE (key_symbol evt))
           [DIKS_ESCAPE; DIKS_SMALL_Q; DIKS_BACK; DIKS_STOP; DIKS_EXIT]
      then dfb_shutdown;; exit (Code 42)
      else mret tt
  | DWET_CLOSE =>
      window ← remove_window (window_id evt);
      if negb (window =? 0)%nat then
        modify (fun g => set_n_windows (n_windows g - 1) g);;
        g ← get;
        if n_windows g <=? 0 then dfb_shutdown;; exit (Code 42) else mret tt
      else mret tt
  | _ => mret tt
  end.

(** [while (event_buffer->GetEvent( ... ) == DFB_OK) { switch ... }] *)
Definition process_event_buffer (fuel : nat) : prog globals unit :=
  forever fuel
    (g ← get;
     a ← meth IDirectFBEventBuffer_GetEvent (event_buffer g) [];
     if is_ok (a_ret a) then dispatch (a_evt a);; mret None
     else mret (Some tt)).

(** One round of [while (1)] in [main]. *)
Definition main_loop_body (fuel : nat) : prog globals (option Z) :=
  g ← get;
  meth IDirectFBEventBuffer_WaitForEvent (event_buffer g) [];;
  process_event_buffer fuel;;
  mret None.

Definition main (fuel : nat) (argv argv' : list string) : prog globals Z :=
  if argc argv <? 2 then emit Usage;; exit (Code 0) else
  DFBCHECK 241 "DirectFBInit( &argc, &argv )" a_ret (lib DirectFBInit []);;
  mrl ← parse_command_line (tail argv') None;
  match mrl with
  | None | Some EmptyString => emit Usage;; exit (Code 1)
  | Some _ =>
      '(_, h) ← DFBCHECK 285 "DirectFBCreate( &dfb )" ret_of
         (lib_new DirectFBCreate [] 0);
      modify (set_dfb h);;
      g ← get;
      '(_, h) ← DFBCHECK 288 "dfb->GetDisplayLayer( dfb, DLID_PRIMARY, &layer )" ret_of
         (meth_new IDirectFB_GetDisplayLayer (dfb g) [] 0);
      modify (set_layer h);;
      '(_, h) ← DFBCHECK 291 "dfb->CreateEventBuffer( dfb, &event_buffer )" ret_of
         (meth_new IDirectFB_CreateEventBuffer (dfb g) [] 0);
      modify (set_event_buffer h);;
      '(_, h) ← DFBCHECK 294 "dfb->CreateImageProvider( dfb, mrl, &image )" ret_of
         (meth_new IDirectFB_CreateImageProvider (dfb g) [] 0);
      modify (set_image h);;
      g ← get;
      dsc ← meth IDirectFBImageProvider_GetSurfaceDescription (image g) [];
      when (negb (info g =? 0)) (dump_image_info (a_int dsc) (a_int2 dsc));;
      create_frame (a_int dsc) (a_int2 dsc);;
      when (negb (use_logo g =? 0))
        ('(_, h) ← DFBCHECK 308 "dfb->CreateSurface( dfb, &dfblogo_desc, &logo )" ret_of
            (meth_new IDirectFB_CreateSurface (dfb g) [] 0);
         modify (set_logo h));;
      create_stack (a_int dsc) (a_int2 dsc);;
      g ← get;
      meth IDirectFBImageProvider_RenderTo (image g) [Z.of_nat (frame g)];;
      for_each (map_to_list (stack g))
        (fun kv => frame_blitter (a_int dsc) (a_int2 dsc) (snd kv));;
      forever fuel (main_loop_body fuel)
  end.

End Program.
End ImageSample.

(** ** df_image_sample.c, the revision with one window per file *)

Module ImageMulti.

Record globals := {
  dfb : nat;
  layer : nat;
  event_buffer : nat;
  logo : nat;
  window_stack : nat;
  stack : gmap nat nat;
  mrl_list : list string;
  mrl_count : Z;
  info : Z;
  use_logo : Z;
  win_width : Z;
  win_height : Z
}.

Definition set_dfb (v : nat) (g : globals) : globals :=
  {| dfb := v; layer := layer g; event_buffer := event_buffer g;
     logo := logo g; window_stack := window_stack g; stack := stack g;
     mrl_list := mrl_list g; mrl_count := mrl_count g; info := info g;
     use_logo := use_logo g; win_width := win_width g;
     win_height := win_height g |}.

Definition set_layer (v : nat) (g : globals) : globals :=
  {| dfb := dfb g; layer := v; event_buffer := event_buffer g;
     logo := logo g; window_stack := window_stack g; stack := stack g;
     mrl_list := mrl_list g; mrl_count := mrl_count g; info := info g;
     use_logo := use_logo g; win_width := win_width g;
     win_height := win_height g |}.

Definition set_event_buffer (v : nat) (g : globals) : globals :=
  {| dfb := dfb g; layer := layer g; event_buffer := v; logo := logo g;
     window_stack := window_stack g; stack := stack g;
     mrl_list := mrl_list g; mrl_count := mrl_count g; info := info g;
     use_logo := use_logo g; win_width := win_width g;
     win_height := win_height g |}.

Definition set_logo (v : nat) (g : globals) : globals :=
  {| dfb := dfb g; layer := layer g; event_buffer := event_buffer g;
     logo := v; window_stack := window_stack g; stack := stack g;
     mrl_list := mrl_list g; mrl_count := mrl_count g; info := info g;
     use_logo := use_logo g; win_width := win_width g;
     win_height := win_height g |}.

Definition set_window_stack (v : nat) (g : globals) : globals :=
  {| dfb := dfb g; layer := layer g; event_buffer := event_buffer g;
     logo := logo g; window_stack := v; stack := stack g;
     mrl_list := mrl_list g; mrl_count := mrl_count g; info := info g;
     use_logo := use_logo g; win_width := win_width g;
     win_height := win_height g |}.

Definition set_stack (v : gmap nat nat) (g : globals) : globals :=
  {| dfb := dfb g; layer := layer g; event_buffer := event_buffer g;
     logo := logo g; window_stack := window_stack g; stack := v;
     mrl_list := mrl_list g; mrl_count := mrl_count g; info := info g;
     use_logo := use_logo g; win_width := win_width g;
     win_height := win_height g |}.

Definition set_mrl_list (v : list string) (g : globals) : globals :=
  {| dfb := dfb g; layer := layer g; event_buffer := event_buffer g;
     logo := logo g; window_stack := window_stack g; stack := stack g;
     mrl_list := v; mrl_count := mrl_count g; info := info g;
     use_logo := use_logo g; win_width := win_width g;
     win_height := win_height g |}.

Definition set_mrl_count (v : Z) (g : globals) : globals :=
  {| dfb := dfb g; layer := layer g; event_buffer := event_buffer g;
     logo := logo g; window_stack := window_stack g; stack := stack g;
     mrl_list := mrl_list g; mrl_count := v; info := info g;
     use_logo := use_logo g; win_width := win_width g;
     win_height := win_height g |}.

Definition set_info (v : Z) (g : globals) : globals :=
  {| dfb := dfb g; layer := layer g; event_buffer := event_buffer g;
     logo := logo g; window_stack := window_stack g; stack := stack g;
     mrl_list := mrl_list g; mrl_count := mrl_count g; info := v;
     use_logo := use_logo g; win_width := win_width g;
     win_height := win_height g |}.

Definition set_use_logo (v : Z) (g : globals) : globals :=
  {| dfb := dfb g; layer := layer g; event_buffer := event_buffer g;
     logo := logo g; window_stack := window_stack g; stack := stack g;
     mrl_list := mrl_list g; mrl_count := mrl_count g; info := info g;
     use_logo := v; win_width := win_width g; win_height := win_height g |}.

Definition set_win_width (v : Z) (g : globals) : globals :=
  {| dfb := dfb g; layer := layer g; event_buffer := event_buffer g;
     logo := logo g; window_stack := window_stack g; stack := stack g;
     mrl_list := mrl_list g; mrl_count := mrl_count g; info := info g;
     use_logo := use_logo g; win_width := v; win_height := win_height g |}.

Definition set_win_height (v : Z) (g : globals) : globals :=
  {| dfb := dfb g; layer := layer g; event_buffer := event_buffer g;
     logo := logo g; window_stack := window_stack g; stack := stack g;
     mrl_list := mrl_list g; mrl_count := mrl_count g; info := info g;
     use_logo := use_logo g; win_width := win_width g; win_height := v |}.


Definition init : globals :=
  {| dfb := 0; layer := 0; event_buffer := 0; logo := 0; window_stack := 0;
     stack := ∅; mrl_list := []; mrl_count := 0; info := 0; use_logo := 1;
     win_width := 0; win_height := 0 |}.

Section Program.
Context `{Headers}.

Definition render_func (surface : nat) : prog globals unit :=
  g ← get;
  when (negb (logo g =? 0)%nat)
    (meth IDirectFBSurface_SetColor surface [0xbb; 0x33; 0x22; 0xff];;
     meth IDirectFBSurface_SetBlittingFlags surface [];;
     meth IDirectFBSurface_Blit surface [Z.of_nat (logo g); 5; 5];;
     mret tt);;
  meth IDirectFBSurface_Flip surface [];;
  mret tt.

Definition add_window (image_provider : nat) (sdsc_width sdsc_height : Z)
  : prog globals unit :=
  g ← get;
  let posx := 32 * direct_hash_count (stack g) in
  let posy := 18 * direct_hash_count (stack g) in
  let width := if win_width g =? 0 then sdsc_width else win_width g in
  let height := if win_height g =? 0 then sdsc_height else win_height g in
  '(_, window) ← DFBCHECK 88 "layer->CreateWindow( layer, &wdsc, &window )" ret_of
     (meth_new IDirectFBDisplayLayer_CreateWindow (layer g) [posx; posy; width; height] 0);
  '(_, surface) ← DFBCHECK 89 "window->GetSurface( window, &surface )" ret_of
     (meth_new IDirectFBWindow_GetSurface window [] 0);
  DFBCHECK 90 "window->AttachEventBuffer( window, event_buffer )" a_ret
     (meth IDirectFBWindow_AttachEventBuffer window [Z.of_nat (event_buffer g)]);;
  meth IDirectFBSurface_Clear surface [0x00; 0x00; 0x00; 0xff];;
  meth IDirectFBSurface_Flip surface [];;
  id ← meth IDirectFBWindow_GetID window [];
  meth IDirectFBWindow_SetOpacity window [0xff];;
  meth IDirectFBWindow_RequestFocus window [];;
  modify (fun g => set_stack (direct_hash_insert (a_id id) window (stack g)) g);;
  meth IDirectFBImageProvider_RenderTo image_provider [Z.of_nat surface];;
  render_func surface;;
  meth IDirectFBSurface_Release surface [];;
  mret tt.

Definition remove_window (id : nat) : prog globals bool :=
  g ← get;
  match direct_hash_lookup (stack g) id with
  | Some window =>
      meth IDirectFBWindow_Release window [];;
      modify (fun g => set_stack (direct_hash_remove (stack g) id) g);;
      mret true
  | None => mret false
  end.

Definition stack_destructor (window : nat) : prog globals unit :=
  meth IDirectFBWindow_Release window [];;
  mret tt.

Definition dfb_shutdown : prog globals unit :=
  g ← get;
  when (negb (window_stack g =? 0)%nat)
    (for_each (map_to_list (stack g)) (fun kv => stack_destructor (snd kv));;
     meth direct_hash_destroy (window_stack g) [];;
     mret tt);;
  when (negb (logo g =? 0)%nat) (meth IDirectFBSurface_Release (logo g) [];; mret tt);;
  when (negb (event_buffer g =? 0)%nat)
    (meth IDirectFBEventBuffer_Release (event_buffer g) [];; mret tt);;
  when (negb (layer g =? 0)%nat) (meth IDirectFBDisplayLayer_Release (layer g) [];; mret tt);;
  when (negb (dfb g =? 0)%nat) (meth IDirectFB_Release (dfb g) [];; mret tt).

(** The [for] loop of [main] over [argv[i]], from [args = argv[i..]]; the
    first argument without a dash starts the list of files and ends the
    loop. *)
Fixpoint parse_command_line (args : list string) : prog globals unit :=
  match args with
  | [] => mret tt
  | arg :: rest =>
      match after_dash arg with
      | Some opt =>
          if strcmp0 opt "-help" then emit Usage;; exit (Code 0)
          else if strcmp0 opt "-info" then
            modify (set_info 1);; parse_command_line rest
          else if strcmp0 opt "-no-logo" then
            modify (set_use_logo 0);; parse_command_line rest
          else if strncmp0 opt "-size=" then
            g ← get;
            a ← lib sscanf [win_width g; win_height g];
            modify (set_win_width (a_int a));; modify (set_win_height (a_int2 a));;
            parse_command_line rest
          else parse_command_line rest
      | None =>
          modify (set_mrl_count (Z.of_nat (length args)));;
          modify (set_mrl_list args)
      end
  end.

(** The body of [for (i = 0; i < mrl_count; i++)] in [main]. *)
Definition load_file (mrl : string) : prog globals unit :=
  g ← get;
  '(_, image_provider) ←
     DFBCHECK 230 "dfb->CreateImageProvider( dfb, mrl_list[i], &image_provider )" ret_of
       (meth_new IDirectFB_CreateImageProvider (dfb g) [] 0);
  sdsc ← meth IDirectFBImageProvider_GetSurfaceDescription image_provider [];
  when (negb (info g =? 0))
    (emit (Printf mrl);;
     emit (Printf "  # Image");;
     desc ← meth IDirectFBImageProvider_GetImageDescription image_provider [];
     when (has (a_int desc) DICAPS_COLORKEY) (emit (Printf "  # Color key")));;
  add_window image_provider (a_int sdsc) (a_int2 sdsc);;
  meth IDirectFBImageProvider_Release image_provider [];;
  mret tt.

(** The body of [switch (evt.type)] for one event. *)
Definition dispatch (evt : DFBWindowEvent) : prog globals unit :=
  match evt_type evt with
  | DWET_KEYDOWN =>
      if is_one_of (DFB_LOWER_CASE (key_symbol evt))
           [DIKS_ESCAPE; DIKS_SMALL_Q; DIKS_BACK; DIKS_STOP; DIKS_EXIT]
      then exit (Code 42)
      else mret tt
  | DWET_CLOSE =>
      removed ← remove_window (window_id evt);
      if (removed : bool) then
        modify (fun g => set_mrl_count (mrl_count g - 1) g);;
        g ← get;
        if mrl_count g <=? 0 then exit (Code 42) else mret tt
      else mret tt
  | _ => mret tt
  end.

Definition process_event_buffer (fuel : nat) : prog globals unit :=
  forever fuel
    (g ← get;
     a ← meth IDirectFBEventBuffer_GetEvent (event_buffer g) [];
     if is_ok (a_ret a) then dispatch (a_evt a);; mret None
     else mret (Some tt)).

Definition main_loop_body (fuel : nat) : prog globals (option Z) :=
  g ← get;
  meth IDirectFBEventBuffer_WaitForEvent (event_buffer g) [];;
  process_event_buffer fuel;;
  mret None.

Definition main (fuel : nat) (argv argv' : list string) : prog globals Z :=
  if argc argv <? 2 then emit Usage;; exit (Code 0) else
  DFBCHECK 170 "DirectFBInit( &argc, &argv )" a_ret (lib DirectFBInit []);;
  parse_command_line (tail argv');;
  g ← get;
  if mrl_count g =? 0 then emit Usage;; exit (Code 1) else
  '(_, h) ← DFBCHECK 207 "DirectFBCreate( &dfb )" ret_of (lib_new DirectFBCreate [] 0);
  modify (set_dfb h);;
  atexit;;
  g ← get;
  '(_, h) ← DFBCHECK 213 "dfb->GetDisplayLayer( dfb, DLID_PRIMARY, &layer )" ret_of
     (meth_new IDirectFB_GetDisplayLayer (dfb g) [] 0);
  modify (set_layer h);;
  '(_, h) ← DFBCHECK 216 "dfb->CreateEventBuffer( dfb, &event_buffer )" ret_of
     (meth_new IDirectFB_CreateEventBuffer (dfb g) [] 0);
  modify (set_event_buffer h);;
  when (negb (use_logo g =? 0))
    ('(_, h) ← DFBCHECK 220 "dfb->CreateSurface( dfb, &tinylogo_desc, &logo )" ret_of
        (meth_new IDirectFB_CreateSurface (dfb g) [] 0);
     modify (set_logo h));;
  lib direct_hash_create [mrl_count g];;
  hash ← fresh;
  modify (set_window_stack hash);;
  for_each (mrl_list g) load_file;;
  forever fuel (main_loop_body fuel).

End Program.
End ImageMulti.

(** ** df_video_sample.c, the revision with one window per file *)

Module VideoMulti.

(** [struct stack_entry] *)
Record stack_entry := {
  window : nat;
  surface : nat;
  video_provider : nat;
  progress : Z
}.

(** The globals of the file, and the locals [caps], [i] and [flags] of [main],
    which are assigned inside its loops. *)
Record globals := {
  dfb : nat;
  layer : nat;
  event_buffer : nat;
  logo : nat;
  window_stack : nat;
  stack : gmap nat stack_entry;
  mrl_list : list string;
  mrl_count : Z;
  info : Z;
  use_logo : Z;
  win_width : Z;
  win_height : Z;
  main_caps : Z;
  main_i : Z;
  main_flags : Z
}.

Definition set_dfb (v : nat) (g : globals) : globals :=
  {| dfb := v; layer := layer g; event_buffer := event_buffer g;
     logo := logo g; window_stack := window_stack g; stack := stack g;
     mrl_list := mrl_list g; mrl_count := mrl_count g; info := info g;
     use_logo := use_logo g; win_width := win_width g;
     win_height := win_height g; main_caps := main_caps g;
     main_i := main_i g; main_flags := main_flags g |}.

Definition set_layer (v : nat) (g : globals) : globals :=
  {| dfb := dfb g; layer := v; event_buffer := event_buffer g;
     logo := logo g; window_stack := window_stack g; stack := stack g;
     mrl_list := mrl_list g; mrl_count := mrl_count g; info := info g;
     use_logo := use_logo g; win_width := win_width g;
     win_height := win_height g; main_caps := main_caps g;
     main_i := main_i g; main_flags := main_flags g |}.

Definition set_event_buffer (v : nat) (g : globals) : globals :=
  {| dfb := dfb g; layer := layer g; event_buffer := v; logo := logo g;
     window_stack := window_stack g; stack := stack g;
     mrl_list := mrl_list g; mrl_count := mrl_count g; info := info g;
     use_logo := use_logo g; win_width := win_width g;
     win_height := win_height g; main_caps := main_caps g;
     main_i := main_i g; main_flags := main_flags g |}.

Definition set_logo (v : nat) (g : globals) : globals :=
  {| dfb := dfb g; layer := layer g; event_buffer := event_buffer g;
     logo := v; window_stack := window_stack g; stack := stack g;
     mrl_list := mrl_list g; mrl_count := mrl_count g; info := info g;
     use_logo := use_logo g; win_width := win_width g;
     win_height := win_height g; main_caps := main_caps g;
     main_i := main_i g; main_flags := main_flags g |}.

Definition set_window_stack (v : nat) (g : globals) : globals :=
  {| dfb := dfb g; layer := layer g; event_buffer := event_buffer g;
     logo := logo g; window_stack := v; stack := stack g;
     mrl_list := mrl_list g; mrl_count := mrl_count g; info := info g;
     use_logo := use_logo g; win_width := win_width g;
     win_height := win_height g; main_caps := main_caps g;
     main_i := main_i g; main_flags := main_flags g |}.

Definition set_stack (v : gmap nat stack_entry) (g : globals) : globals :=
  {| dfb := dfb g; layer := layer g; event_buffer := event_buffer g;
     logo := logo g; window_stack := window_stack g; stack := v;
     mrl_list := mrl_list g; mrl_count := mrl_count g; info := info g;
     use_logo := use_logo g; win_width := win_width g;
     win_height := win_height g; main_caps := main_caps g;
     main_i := main_i g; main_flags := main_flags g |}.

Definition set_mrl_list (v : list string) (g : globals) : globals :=
  {| dfb := dfb g; layer := layer g; event_buffer := event_buffer g;
     logo := logo g; window_stack := window_stack g; stack := stack g;
     mrl_list := v; mrl_count := mrl_count g; info := info g;
     use_logo := use_logo g; win_width := win_width g;
     win_height := win_height g; main_caps := main_caps g;
     main_i := main_i g; main_flags := main_flags g |}.

Definition set_mrl_count (v : Z) (g : globals) : globals :=
  {| dfb := dfb g; layer := layer g; event_buffer := event_buffer g;
     logo := logo g; window_stack := window_stack g; stack := stack g;
     mrl_list := mrl_list g; mrl_count := v; info := info g;
     use_logo := use_logo g; win_width := win_width g;
     win_height := win_height g; main_caps := main_caps g;
     main_i := main_i g; main_flags := main_flags g |}.

Definition set_info (v : Z) (g : globals) : globals :=
  {| dfb := dfb g; layer := layer g; event_buffer := event_buffer g;
     logo := logo g; window_stack := window_stack g; stack := stack g;
     mrl_list := mrl_list g; mrl_count := mrl_count g; info := v;
     use_logo := use_logo g; win_width := win_width g;
     win_height := win_height g; main_caps := main_caps g;
     main_i := main_i g; main_flags := main_flags g |}.

Definition set_use_logo (v : Z) (g : globals) : globals :=
  {| dfb := dfb g; layer := layer g; event_buffer := event_buffer g;
     logo := logo g; window_stack := window_stack g; stack := stack g;
     mrl_list := mrl_list g; mrl_count := mrl_count g; info := info g;
     use_logo := v; win_width := win_width g; win_height := win_height g;
     main_caps := main_caps g; main_i := main_i g;
     main_flags := main_flags g |}.

Definition set_win_width (v : Z) (g : globals) : globals :=
  {| dfb := dfb g; layer := layer g; event_buffer := event_buffer g;
     logo := logo g; window_stack := window_stack g; stack := stack g;
     mrl_list := mrl_list g; mrl_count := mrl_count g; info := info g;
     use_logo := use_logo g; win_width := v; win_height := win_height g;
     main_caps := main_caps g; main_i := main_i g;
     main_flags := main_flags g |}.

Definition set_win_height (v : Z) (g : globals) : globals :=
  {| dfb := dfb g; layer := layer g; event_buffer := event_buffer g;
     logo := logo g; window_stack := window_stack g; stack := stack g;
     mrl_list := mrl_list g; mrl_count := mrl_count g; info := info g;
     use_logo := use_logo g; win_width := win_width g; win_height := v;
     main_caps := main_caps g; main_i := main_i g;
     main_flags := main_flags g |}.

Definition set_main_caps (v : Z) (g : globals) : globals :=
  {| dfb := dfb g; layer := layer g; event_buffer := event_buffer g;
     logo := logo g; window_stack := window_stack g; stack := stack g;
     mrl_list := mrl_list g; mrl_count := mrl_count g; info := info g;
     use_logo := use_logo g; win_width := win_width g;
     win_height := win_height g; main_caps := v; main_i := main_i g;
     main_flags := main_flags g |}.

Definition set_main_i (v : Z) (g : globals) : globals :=
  {| dfb := dfb g; layer := layer g; event_buffer := event_buffer g;
     logo := logo g; window_stack := window_stack g; stack := stack g;
     mrl_list := mrl_list g; mrl_count := mrl_count g; info := info g;
     use_logo := use_logo g; win_width := win_width g;
     win_height := win_height g; main_caps := main_caps g; main_i := v;
     main_flags := main_flags g |}.

Definition set_main_flags (v : Z) (g : globals) : globals :=
  {| dfb := dfb g; layer := layer g; event_buffer := event_buffer g;
     logo := logo g; window_stack := window_stack g; stack := stack g;
     mrl_list := mrl_list g; mrl_count := mrl_count g; info := info g;
     use_logo := use_logo g; win_width := win_width g;
     win_height := win_height g; main_caps := main_caps g;
     main_i := main_i g; main_flags := v |}.


Definition init : globals :=
  {| dfb := 0; layer := 0; event_buffer := 0; logo := 0; window_stack := 0;
     stack := ∅; mrl_list := []; mrl_count := 0; info := 0; use_logo := 1;
     win_width := 0; win_height := 0; main_caps := 0; main_i := 0;
     main_flags := 0 |}.

Section Program.
Context `{Headers}.

(** The callback [logo_progress], run on one entry of the table. *)
Definition logo_progress (id : nat) (entry : stack_entry) : prog globals unit :=
  len ← meth IDirectFBVideoProvider_GetLength (video_provider entry) [];
  pos ← meth IDirectFBVideoProvider_GetPos (video_provider entry) [];
  let progress' :=
    if positive_double (a_flt len) && positive_double (a_flt pos)
    then Qfloor (a_flt pos * Q2Qc 100 / a_flt len + Q2Qc (1 # 2))%Qc else 0 in
  modify (fun g => set_stack
    (<[id := {| window := window entry; surface := surface entry;
                video_provider := video_provider entry;
                progress := progress' |}]> (stack g)) g).

Definition add_window (video_provider : nat) (sdsc_width sdsc_height : Z)
  : prog globals unit :=
  g ← get;
  let posx := 32 * direct_hash_count (stack g) in
  let posy := 18 * direct_hash_count (stack g) in
  let width := if win_width g =? 0 then sdsc_width else win_width g in
  let height := if win_height g =? 0 then sdsc_height else win_height g in
  '(_, window) ← DFBCHECK 152 "layer->CreateWindow( layer, &wdsc, &window )" ret_of
     (meth_new IDirectFBDisplayLayer_CreateWindow (layer g) [posx; posy; width; height] 0);
  '(_, surface) ← DFBCHECK 153 "window->GetSurface( window, &surface )" ret_of
     (meth_new IDirectFBWindow_GetSurface window [] 0);
  DFBCHECK 154 "window->AttachEventBuffer( window, event_buffer )" a_ret
     (meth IDirectFBWindow_AttachEventBuffer window [Z.of_nat (event_buffer g)]);;
  meth IDirectFBSurface_Clear surface [0x00; 0x00; 0x00; 0xff];;
  meth IDirectFBSurface_Flip surface [];;
  id ← meth IDirectFBWindow_GetID window [];
  meth IDirectFBWindow_SetOpacity window [0xff];;
  meth IDirectFBWindow_RequestFocus window [];;
  modify (fun g => set_stack
    (direct_hash_insert (a_id id)
       {| window := window; surface := surface; video_provider := video_provider;
          progress := 0 |} (stack g)) g);;
  meth IDirectFBVideoProvider_SetPlaybackFlags video_provider [];;
  meth IDirectFBVideoProvider_PlayTo video_provider [Z.of_nat surface];;
  mret tt.

Definition remove_window (id : nat) : prog globals bool :=
  g ← get;
  match direct_hash_lookup (stack g) id with
  | Some entry =>
      meth IDirectFBVideoProvider_Release (video_provider entry) [];;
      meth IDirectFBSurface_Release (surface entry) [];;
      meth IDirectFBWindow_Release (window entry) [];;
      modify (fun g => set_stack (direct_hash_remove (stack g) id) g);;
      mret true
  | None => mret false
  end.

Definition stack_destructor (entry : stack_entry) : prog globals unit :=
  meth IDirectFBVideoProvider_Release (video_provider entry) [];;
  meth IDirectFBSurface_Release (surface entry) [];;
  meth IDirectFBWindow_Release (window entry) [];;
  mret tt.

Definition destroy_stack : prog globals unit :=
  g ← get;
  for_each (map_to_list (stack g)) (fun kv => stack_destructor (snd kv));;
  meth direct_hash_destroy (window_stack g) [];;
  mret tt.

(** The four conditional assignments of [adjust_color]. *)
Definition adjusted (flags step : Z) (adj : DFBColorAdjustment) : DFBColorAdjustment :=
  {| adj_flags := flags;
     brightness := if has flags DCAF_BRIGHTNESS
                   then CLAMP (brightness adj + step) 0 0xffff else brightness adj;
     contrast := if has flags DCAF_CONTRAST
                 then CLAMP (contrast adj + step) 0 0xffff else contrast adj;
     hue := if has flags DCAF_HUE
            then CLAMP (hue adj + step) 0 0xffff else hue adj;
     saturation := if has flags DCAF_SATURATION
                   then CLAMP (saturation adj + step) 0 0xffff else saturation adj |}.

Definition adj_args (adj : DFBColorAdjustment) : list Z :=
  [adj_flags adj; brightness adj; contrast adj; hue adj; saturation adj].

Definition adjust_color (id : nat) (flags step : Z) : prog globals unit :=
  g ← get;
  match direct_hash_lookup (stack g) id with
  | None => mret tt
  | Some entry =>
      a ← meth IDirectFBVideoProvider_GetColorAdjustment (video_provider entry) [];
      if is_ok (a_ret a) then
        meth IDirectFBVideoProvider_SetColorAdjustment (video_provider entry)
          (adj_args (adjusted flags step (a_adj a)));;
        mret tt
      else mret tt
  end.

Definition pause_resume (id : nat) : prog globals unit :=
  g ← get;
  match direct_hash_lookup (stack g) id with
  | None => mret tt
  | Some entry =>
      a ← meth IDirectFBVideoProvider_GetSpeed (video_provider entry) [];
      if is_ok (a_ret a) then
        meth IDirectFBVideoProvider_SetSpeed (video_provider entry) [];; mret tt
      else mret tt
  end.

Definition stop_start (id : nat) : prog globals unit :=
  g ← get;
  match direct_hash_lookup (stack g) id with
  | None => mret tt
  | Some entry =>
      status ← meth IDirectFBVideoProvider_GetStatus (video_provider entry) [];
      if is_ok (a_ret status) then
        if negb (a_int status =? DVSTATE_PLAY) then
          meth IDirectFBVideoProvider_PlayTo (video_provider entry)
            [Z.of_nat (surface entry)];; mret tt
        else
          meth IDirectFBVideoProvider_Stop (video_provider entry) [];; mret tt
      else mret tt
  end.

Definition seek (id : nat) (step : Qc) : prog globals unit :=
  g ← get;
  match direct_hash_lookup (stack g) id with
  | None => mret tt
  | Some entry =>
      a ← meth IDirectFBVideoProvider_GetPos (video_provider entry) [];
      if is_ok (a_ret a) then
        meth IDirectFBVideoProvider_SeekTo (video_provider entry) [];; mret tt
      else mret tt
  end.

Definition send_input_event (id : nat) (evt : DFBWindowEvent) : prog globals unit :=
  g ← get;
  match direct_hash_lookup (stack g) id with
  | None => mret tt
  | Some entry =>
      meth IDirectFBVideoProvider_SendEvent (video_provider entry) [];; mret tt
  end.

Definition set_speed (id : nat) (step : Qc) : prog globals unit :=
  g ← get;
  match direct_hash_lookup (stack g) id with
  | None => mret tt
  | Some entry =>
      a ← meth IDirectFBVideoProvider_GetSpeed (video_provider entry) [];
      if is_ok (a_ret a) then
        meth IDirectFBVideoProvider_SetSpeed (video_provider entry) [];; mret tt
      else mret tt
  end.

Definition set_volume (id : nat) (step : Qc) : prog globals unit :=
  g ← get;
  match direct_hash_lookup (stack g) id with
  | None => mret tt
  | Some entry =>
      a ← meth IDirectFBVideoProvider_GetVolume (video_provider entry) [];
      if is_ok (a_ret a) then
        meth IDirectFBVideoProvider_SetVolume (video_provider entry) [];; mret tt
      else mret tt
  end.

Definition dfb_shutdown : prog globals unit :=
  g ← get;
  when (negb (window_stack g =? 0)%nat) destroy_stack;;
  when (negb (logo g =? 0)%nat) (meth IDirectFBSurface_Release (logo g) [];; mret tt);;
  when (negb (event_buffer g =? 0)%nat)
    (meth IDirectFBEventBuffer_Release (event_buffer g) [];; mret tt);;
  when (negb (layer g =? 0)%nat) (meth IDirectFBDisplayLayer_Release (layer g) [];; mret tt);;
  when (negb (dfb g =? 0)%nat) (meth IDirectFB_Release (dfb g) [];; mret tt).

(** The [for] loop of [main] over [argv[i]], from [args = argv[i..]]. *)
Fixpoint parse_command_line (args : list string) : prog globals unit :=
  match args with
  | [] => mret tt
  | arg :: rest =>
      match after_dash arg with
      | Some opt =>
          if strcmp0 opt "-help" then emit Usage;; exit (Code 0)
          else if strcmp0 opt "-info" then
            modify (set_info 1);; parse_command_line rest
          else if strcmp0 opt "-no-logo" then
            modify (set_use_logo 0);; parse_command_line rest
          else if strncmp0 opt "-size=" then
            g ← get;
            a ← lib sscanf [win_width g; win_height g];
            modify (set_win_width (a_int a));; modify (set_win_height (a_int2 a));;
            parse_command_line rest
          else parse_command_line rest
      | None =>
          modify (set_mrl_count (Z.of_nat (length args)));;
          modify (set_mrl_list args)
      end
  end.

(** The body of [for (i = 0; i < mrl_count; i++)] in [main]. *)
Definition load_file (mrl : string) : prog globals unit :=
  g ← get;
  '(_, video_provider) ←
     DFBCHECK 476 "dfb->CreateVideoProvider( dfb, mrl_list[i], &video_provider )" ret_of
       (meth_new IDirectFB_CreateVideoProvider (dfb g) [] 0);
  caps ← meth IDirectFBVideoProvider_GetCapabilities video_provider [];
  modify (set_main_caps (a_int caps));;
  sdsc ← meth IDirectFBVideoProvider_GetSurfaceDescription video_provider [];
  when (negb (info g =? 0))
    (desc ← meth IDirectFBVideoProvider_GetStreamDescription video_provider [];
     emit (Printf mrl);;
     emit (Printf "  # Video");;
     when (has (a_int desc) DVSCAPS_AUDIO) (emit (Printf "  # Audio")));;
  add_window video_provider (a_int sdsc) (a_int2 sdsc).

(** The body of [switch (evt.type)] for one event. *)
Definition dispatch (evt : DFBWindowEvent) : prog globals unit :=
  g ← get;
  let caps := main_caps g in
  match evt_type evt with
  | DWET_KEYDOWN =>
      when (has caps DVCAPS_INTERACTIVE && has (modifiers evt) DIMM_META &&
            (DFB_LOWER_CASE (key_symbol evt) =? DIKS_SMALL_I))
        (modify (fun g => set_main_i (if main_i g =? 0 then 1 else 0) g));;
      g ← get;
      if negb (main_i g =? 0) then send_input_event (window_id evt) evt
      else
        let k := DFB_LOWER_CASE (key_symbol evt) in
        if is_one_of k [DIKS_ESCAPE; DIKS_SMALL_Q; DIKS_BACK; DIKS_STOP; DIKS_EXIT] then
          exit (Code 42)
        else if is_one_of k [DIKS_SPACE; DIKS_SMALL_P] then pause_resume (window_id evt)
        else if k =? DIKS_ENTER then stop_start (window_id evt)
        else if k =? DIKS_SMALL_B then
          when (has caps DVCAPS_BRIGHTNESS)
            (modify (fun g => set_main_flags (Z.lor (main_flags g) DCAF_BRIGHTNESS) g))
        else if k =? DIKS_SMALL_C then
          when (has caps DVCAPS_CONTRAST)
            (modify (fun g => set_main_flags (Z.lor (main_flags g) DCAF_CONTRAST) g))
        else if k =? DIKS_SMALL_H then
          when (has caps DVCAPS_HUE)
            (modify (fun g => set_main_flags (Z.lor (main_flags g) DCAF_HUE) g))
        else if k =? DIKS_SMALL_S then
          when (has caps DVCAPS_SATURATION)
            (modify (fun g => set_main_flags (Z.lor (main_flags g) DCAF_SATURATION) g))
        else if k =? DIKS_CURSOR_LEFT then
          if negb (main_flags g =? 0)
          then adjust_color (window_id evt) (main_flags g) (-257)
          else seek (window_id evt) (Q2Qc (-10))
        else if k =? DIKS_CURSOR_RIGHT then
          if negb (main_flags g =? 0)
          then adjust_color (window_id evt) (main_flags g) 257
          else seek (window_id evt) (Q2Qc 10)
        else if k =? DIKS_CURSOR_UP then set_speed (window_id evt) (Q2Qc 2)
        else if k =? DIKS_CURSOR_DOWN then set_speed (window_id evt) (Q2Qc (1 # 2))
        else if k =? DIKS_PLUS_SIGN then set_volume (window_id evt) (Q2Qc (1 # 10))
        else if k =? DIKS_MINUS_SIGN then set_volume (window_id evt) (Q2Qc (-1 # 10))
        else mret tt
  | DWET_KEYUP =>
      if negb (main_i g =? 0) then send_input_event (window_id evt) evt
      else
        let k := DFB_LOWER_CASE (key_symbol evt) in
        let clear bit g := set_main_flags (Z.land (main_flags g) (Z.lnot bit)) g in
        if k =? DIKS_SMALL_B then
          when (has caps DVCAPS_BRIGHTNESS) (modify (clear DCAF_BRIGHTNESS))
        else if k =? DIKS_SMALL_C then
          when (has caps DVCAPS_CONTRAST) (modify (clear DCAF_CONTRAST))
        else if k =? DIKS_SMALL_H then
          when (has caps DVCAPS_HUE) (modify (clear DCAF_HUE))
        else if k =? DIKS_SMALL_S then
          when (has caps DVCAPS_SATURATION) (modify (clear DCAF_SATURATION))
        else mret tt
  | DWET_BUTTONDOWN | DWET_BUTTONUP | DWET_MOTION | DWET_ENTER | DWET_LEAVE =>
      if negb (main_i g =? 0) then send_input_event (window_id evt) evt
      else mret tt
  | DWET_CLOSE =>
      removed ← remove_window (window_id evt);
      if (removed : bool) then
        modify (fun g => set_mrl_count (mrl_count g - 1) g);;
        g ← get;
        if mrl_count g <=? 0 then exit (Code 42) else mret tt
      else mret tt
  | _ => mret tt
  end.

Definition process_event_buffer (fuel : nat) : prog globals unit :=
  forever fuel
    (g ← get;
     a ← meth IDirectFBEventBuffer_GetEvent (event_buffer g) [];
     if is_ok (a_ret a) then dispatch (a_evt a);; mret None
     else mret (Some tt)).

(** One round of [while (1)] in [main]. *)
Definition main_loop_body (fuel : nat) : prog globals (option Z) :=
  g ← get;
  timeout ←
    (if negb (logo g =? 0)%nat then
       a ← meth IDirectFBEventBuffer_WaitForEventWithTimeout (event_buffer g) [0; 150];
       match a_ret a with
       | DFB_TIMEOUT =>
           for_each (map_to_list (stack g)) (fun kv => logo_progress (fst kv) (snd kv));;
           mret true
       | _ => mret false
       end
     else
       meth IDirectFBEventBuffer_WaitForEvent (event_buffer g) [];;
       mret false);
  if (timeout : bool) then mret None
  else process_event_buffer fuel;; mret None.

Definition main (fuel : nat) (argv argv' : list string) : prog globals Z :=
  if argc argv <? 2 then emit Usage;; exit (Code 0) else
  DFBCHECK 416 "DirectFBInit( &argc, &argv )" a_ret (lib DirectFBInit []);;
  parse_command_line (tail argv');;
  g ← get;
  if mrl_count g =? 0 then emit Usage;; exit (Code 1) else
  '(_, h) ← DFBCHECK 453 "DirectFBCreate( &dfb )" ret_of (lib_new DirectFBCreate [] 0);
  modify (set_dfb h);;
  atexit;;
  g ← get;
  '(_, h) ← DFBCHECK 459 "dfb->GetDisplayLayer( dfb, DLID_PRIMARY, &layer )" ret_of
     (meth_new IDirectFB_GetDisplayLayer (dfb g) [] 0);
  modify (set_layer h);;
  '(_, h) ← DFBCHECK 462 "dfb->CreateEventBuffer( dfb, &event_buffer )" ret_of
     (meth_new IDirectFB_CreateEventBuffer (dfb g) [] 0);
  modify (set_event_buffer h);;
  when (negb (use_logo g =? 0))
    ('(_, h) ← DFBCHECK 466 "dfb->CreateSurface( dfb, &tinylogo_desc, &logo )" ret_of
        (meth_new IDirectFB_CreateSurface (dfb g) [] 0);
     modify (set_logo h));;
  lib direct_hash_create [mrl_count g];;
  hash ← fresh;
  modify (set_window_stack hash);;
  for_each (mrl_list g) load_file;;
  modify (set_main_i 0);;
  forever fuel (main_loop_body fuel).

End Program.
End VideoMulti.

(** ** df_font_sample.c *)

Module FontSample.

(** The globals of the file, and the locals [update], [first_glyph] and
    [current_font] of [main], which live across the iterations of its loop. *)
Record globals := {
  dfb : nat;
  layer : nat;
  window : nat;
  surface : nat;
  event_buffer : nat;
  fontfile_list : list string;
  fontfile_count : Z;
  width : Z;
  height : Z;
  show_ascender : Z;
  show_descender : Z;
  show_baseline : Z;
  show_glyphrect : Z;
  show_glyphadvance : Z;
  show_glyphorigin : Z;
  antialias : Z;
  unicode_mode : Z;
  show_help : Z;
  glyphs_per_xline : Z;
  glyphs_per_yline : Z;
  update : Z;
  first_glyph : Z;
  current_font : Z
}.

Definition set_dfb (v : nat) (g : globals) : globals :=
  {| dfb := v; layer := layer g; window := window g; surface := surface g;
     event_buffer := event_buffer g; fontfile_list := fontfile_list g;
     fontfile_count := fontfile_count g; width := width g;
     height := height g; show_ascender := show_ascender g;
     show_descender := show_descender g; show_baseline := show_baseline g;
     show_glyphrect := show_glyphrect g;
     show_glyphadvance := show_glyphadvance g;
     show_glyphorigin := show_glyphorigin g; antialias := antialias g;
     unicode_mode := unicode_mode g; show_help := show_help g;
     glyphs_per_xline := glyphs_per_xline g;
     glyphs_per_yline := glyphs_per_yline g; update := update g;
     first_glyph := first_glyph g; current_font := current_font g |}.

Definition set_layer (v : nat) (g : globals) : globals :=
  {| dfb := dfb g; layer := v; window := window g; surface := surface g;
     event_buffer := event_buffer g; fontfile_list := fontfile_list g;
     fontfile_count := fontfile_count g; width := width g;
     height := height g; show_ascender := show_ascender g;
     show_descender := show_descender g; show_baseline := show_baseline g;
     show_glyphrect := show_glyphrect g;
     show_glyphadvance := show_glyphadvance g;
     show_glyphorigin := show_glyphorigin g; antialias := antialias g;
     unicode_mode := unicode_mode g; show_help := show_help g;
     glyphs_per_xline := glyphs_per_xline g;
     glyphs_per_yline := glyphs_per_yline g; update := update g;
     first_glyph := first_glyph g; current_font := current_font g |}.

Definition set_window (v : nat) (g : globals) : globals :=
  {| dfb := dfb g; layer := layer g; window := v; surface := surface g;
     event_buffer := event_buffer g; fontfile_list := fontfile_list g;
     fontfile_count := fontfile_count g; width := width g;
     height := height g; show_ascender := show_ascender g;
     show_descender := show_descender g; show_baseline := show_baseline g;
     show_glyphrect := show_glyphrect g;
     show_glyphadvance := show_glyphadvance g;
     show_glyphorigin := show_glyphorigin g; antialias := antialias g;
     unicode_mode := unicode_mode g; show_help := show_help g;
     glyphs_per_xline := glyphs_per_xline g;
     glyphs_per_yline := glyphs_per_yline g; update := update g;
     first_glyph := first_glyph g; current_font := current_font g |}.

Definition set_surface (v : nat) (g : globals) : globals :=
  {| dfb := dfb g; layer := layer g; window := window g; surface := v;
     event_buffer := event_buffer g; fontfile_list := fontfile_list g;
     fontfile_count := fontfile_count g; width := width g;
     height := height g; show_ascender := show_ascender g;
     show_descender := show_descender g; show_baseline := show_baseline g;
     show_glyphrect := show_glyphrect g;
     show_glyphadvance := show_glyphadvance g;
     show_glyphorigin := show_glyphorigin g; antialias := antialias g;
     unicode_mode := unicode_mode g; show_help := show_help g;
     glyphs_per_xline := glyphs_per_xline g;
     glyphs_per_yline := glyphs_per_yline g; update := update g;
     first_glyph := first_glyph g; current_font := current_font g |}.

Definition set_event_buffer (v : nat) (g : globals) : globals :=
  {| dfb := dfb g; layer := layer g; window := window g;
     surface := surface g; event_buffer := v;
     fontfile_list := fontfile_list g; fontfile_count := fontfile_count g;
     width := width g; height := height g; show_ascender := show_ascender g;
     show_descender := show_descender g; show_baseline := show_baseline g;
     show_glyphrect := show_glyphrect g;
     show_glyphadvance := show_glyphadvance g;
     show_glyphorigin := show_glyphorigin g; antialias := antialias g;
     unicode_mode := unicode_mode g; show_help := show_help g;
     glyphs_per_xline := glyphs_per_xline g;
     glyphs_per_yline := glyphs_per_yline g; update := update g;
     first_glyph := first_glyph g; current_font := current_font g |}.

Definition set_fontfile_list (v : list string) (g : globals) : globals :=
  {| dfb := dfb g; layer := layer g; window := window g;
     surface := surface g; event_buffer := event_buffer g;
     fontfile_list := v; fontfile_count := fontfile_count g;
     width := width g; height := height g; show_ascender := show_ascender g;
     show_descender := show_descender g; show_baseline := show_baseline g;
     show_glyphrect := show_glyphrect g;
     show_glyphadvance := show_glyphadvance g;
     show_glyphorigin := show_glyphorigin g; antialias := antialias g;
     unicode_mode := unicode_mode g; show_help := show_help g;
     glyphs_per_xline := glyphs_per_xline g;
     glyphs_per_yline := glyphs_per_yline g; update := update g;
     first_glyph := first_glyph g; current_font := current_font g |}.

Definition set_fontfile_count (v : Z) (g : globals) : globals :=
  {| dfb := dfb g; layer := layer g; window := window g;
     surface := surface g; event_buffer := event_buffer g;
     fontfile_list := fontfile_list g; fontfile_count := v; width := width g;
     height := height g; show_ascender := show_ascender g;
     show_descender := show_descender g; show_baseline := show_baseline g;
     show_glyphrect := show_glyphrect g;
     show_glyphadvance := show_glyphadvance g;
     show_glyphorigin := show_glyphorigin g; antialias := antialias g;
     unicode_mode := unicode_mode g; show_help := show_help g;
     glyphs_per_xline := glyphs_per_xline g;
     glyphs_per_yline := glyphs_per_yline g; update := update g;
     first_glyph := first_glyph g; current_font := current_font g |}.

Definition set_width (v : Z) (g : globals) : globals :=
  {| dfb := dfb g; layer := layer g; window := window g;
     surface := surface g; event_buffer := event_buffer g;
     fontfile_list := fontfile_list g; fontfile_count := fontfile_count g;
     width := v; height := height g; show_ascender := show_ascender g;
     show_descender := show_descender g; show_baseline := show_baseline g;
     show_glyphrect := show_glyphrect g;
     show_glyphadvance := show_glyphadvance g;
     show_glyphorigin := show_glyphorigin g; antialias := antialias g;
     unicode_mode := unicode_mode g; show_help := show_help g;
     glyphs_per_xline := glyphs_per_xline g;
     glyphs_per_yline := glyphs_per_yline g; update := update g;
     first_glyph := first_glyph g; current_font := current_font g |}.

Definition set_height (v : Z) (g : globals) : globals :=
  {| dfb := dfb g; layer := layer g; window := window g;
     surface := surface g; event_buffer := event_buffer g;
     fontfile_list := fontfile_list g; fontfile_count := fontfile_count g;
     width := width g; height := v; show_ascender := show_ascender g;
     show_descender := show_descender g; show_baseline := show_baseline g;
     show_glyphrect := show_glyphrect g;
     show_glyphadvance := show_glyphadvance g;
     show_glyphorigin := show_glyphorigin g; antialias := antialias g;
     unicode_mode := unicode_mode g; show_help := show_help g;
     glyphs_per_xline := glyphs_per_xline g;
     glyphs_per_yline := glyphs_per_yline g; update := update g;
     first_glyph := first_glyph g; current_font := current_font g |}.

Definition set_show_ascender (v : Z) (g : globals) : globals :=
  {| dfb := dfb g; layer := layer g; window := window g;
     surface := surface g; event_buffer := event_buffer g;
     fontfile_list := fontfile_list g; fontfile_count := fontfile_count g;
     width := width g; height := height g; show_ascender := v;
     show_descender := show_descender g; show_baseline := show_baseline g;
     show_glyphrect := show_glyphrect g;
     show_glyphadvance := show_glyphadvance g;
     show_glyphorigin := show_glyphorigin g; antialias := antialias g;
     unicode_mode := unicode_mode g; show_help := show_help g;
     glyphs_per_xline := glyphs_per_xline g;
     glyphs_per_yline := glyphs_per_yline g; update := update g;
     first_glyph := first_glyph g; current_font := current_font g |}.

Definition set_show_descender (v : Z) (g : globals) : globals :=
  {| dfb := dfb g; layer := layer g; window := window g;
     surface := surface g; event_buffer := event_buffer g;
     fontfile_list := fontfile_list g; fontfile_count := fontfile_count g;
     width := width g; height := height g; show_ascender := show_ascender g;
     show_descender := v; show_baseline := show_baseline g;
     show_glyphrect := show_glyphrect g;
     show_glyphadvance := show_glyphadvance g;
     show_glyphorigin := show_glyphorigin g; antialias := antialias g;
     unicode_mode := unicode_mode g; show_help := show_help g;
     glyphs_per_xline := glyphs_per_xline g;
     glyphs_per_yline := glyphs_per_yline g; update := update g;
     first_glyph := first_glyph g; current_font := current_font g |}.

Definition set_show_baseline (v : Z) (g : globals) : globals :=
  {| dfb := dfb g; layer := layer g; window := window g;
     surface := surface g; event_buffer := event_buffer g;
     fontfile_list := fontfile_list g; fontfile_count := fontfile_count g;
     width := width g; height := height g; show_ascender := show_ascender g;
     show_descender := show_descender g; show_baseline := v;
     show_glyphrect := show_glyphrect g;
     show_glyphadvance := show_glyphadvance g;
     show_glyphorigin := show_glyphorigin g; antialias := antialias g;
     unicode_mode := unicode_mode g; show_help := show_help g;
     glyphs_per_xline := glyphs_per_xline g;
     glyphs_per_yline := glyphs_per_yline g; update := update g;
     first_glyph := first_glyph g; current_font := current_font g |}.

Definition set_show_glyphrect (v : Z) (g : globals) : globals :=
  {| dfb := dfb g; layer := layer g; window := window g;
     surface := surface g; event_buffer := event_buffer g;
     fontfile_list := fontfile_list g; fontfile_count := fontfile_count g;
     width := width g; height := height g; show_ascender := show_ascender g;
     show_descender := show_descender g; show_baseline := show_baseline g;
     show_glyphrect := v; show_glyphadvance := show_glyphadvance g;
     show_glyphorigin := show_glyphorigin g; antialias := antialias g;
     unicode_mode := unicode_mode g; show_help := show_help g;
     glyphs_per_xline := glyphs_per_xline g;
     glyphs_per_yline := glyphs_per_yline g; update := update g;
     first_glyph := first_glyph g; current_font := current_font g |}.

Definition set_show_glyphadvance (v : Z) (g : globals) : globals :=
  {| dfb := dfb g; layer := layer g; window := window g;
     surface := surface g; event_buffer := event_buffer g;
     fontfile_list := fontfile_list g; fontfile_count := fontfile_count g;
     width := width g; height := height g; show_ascender := show_ascender g;
     show_descender := show_descender g; show_baseline := show_baseline g;
     show_glyphrect := show_glyphrect g; show_glyphadvance := v;
     show_glyphorigin := show_glyphorigin g; antialias := antialias g;
     unicode_mode := unicode_mode g; show_help := show_help g;
     glyphs_per_xline := glyphs_per_xline g;
     glyphs_per_yline := glyphs_per_yline g; update := update g;
     first_glyph := first_glyph g; current_font := current_font g |}.

Definition set_show_glyphorigin (v : Z) (g : globals) : globals :=
  {| dfb := dfb g; layer := layer g; window := window g;
     surface := surface g; event_buffer := event_buffer g;
     fontfile_list := fontfile_list g; fontfile_count := fontfile_count g;
     width := width g; height := height g; show_ascender := show_ascender g;
     show_descender := show_descender g; show_baseline := show_baseline g;
     show_glyphrect := show_glyphrect g;
     show_glyphadvance := show_glyphadvance g; show_glyphorigin := v;
     antialias := antialias g; unicode_mode := unicode_mode g;
     show_help := show_help g; glyphs_per_xline := glyphs_per_xline g;
     glyphs_per_yline := glyphs_per_yline g; update := update g;
     first_glyph := first_glyph g; current_font := current_font g |}.

Definition set_antialias (v : Z) (g : globals) : globals :=
  {| dfb := dfb g; layer := layer g; window := window g;
     surface := surface g; event_buffer := event_buffer g;
     fontfile_list := fontfile_list g; fontfile_count := fontfile_count g;
     width := width g; height := height g; show_ascender := show_ascender g;
     show_descender := show_descender g; show_baseline := show_baseline g;
     show_glyphrect := show_glyphrect g;
     show_glyphadvance := show_glyphadvance g;
     show_glyphorigin := show_glyphorigin g; antialias := v;
     unicode_mode := unicode_mode g; show_help := show_help g;
     glyphs_per_xline := glyphs_per_xline g;
     glyphs_per_yline := glyphs_per_yline g; update := update g;
     first_glyph := first_glyph g; current_font := current_font g |}.

Definition set_unicode_mode (v : Z) (g : globals) : globals :=
  {| dfb := dfb g; layer := layer g; window := window g;
     surface := surface g; event_buffer := event_buffer g;
     fontfile_list := fontfile_list g; fontfile_count := fontfile_count g;
     width := width g; height := height g; show_ascender := show_ascender g;
     show_descender := show_descender g; show_baseline := show_baseline g;
     show_glyphrect := show_glyphrect g;
     show_glyphadvance := show_glyphadvance g;
     show_glyphorigin := show_glyphorigin g; antialias := antialias g;
     unicode_mode := v; show_help := show_help g;
     glyphs_per_xline := glyphs_per_xline g;
     glyphs_per_yline := glyphs_per_yline g; update := update g;
     first_glyph := first_glyph g; current_font := current_font g |}.

Definition set_show_help (v : Z) (g : globals) : globals :=
  {| dfb := dfb g; layer := layer g; window := window g;
     surface := surface g; event_buffer := event_buffer g;
     fontfile_list := fontfile_list g; fontfile_count := fontfile_count g;
     width := width g; height := height g; show_ascender := show_ascender g;
     show_descender := show_descender g; show_baseline := show_baseline g;
     show_glyphrect := show_glyphrect g;
     show_glyphadvance := show_glyphadvance g;
     show_glyphorigin := show_glyphorigin g; antialias := antialias g;
     unicode_mode := unicode_mode g; show_help := v;
     glyphs_per_xline := glyphs_per_xline g;
     glyphs_per_yline := glyphs_per_yline g; update := update g;
     first_glyph := first_glyph g; current_font := current_font g |}.

Definition set_glyphs_per_xline (v : Z) (g : globals) : globals :=
  {| dfb := dfb g; layer := layer g; window := window g;
     surface := surface g; event_buffer := event_buffer g;
     fontfile_list := fontfile_list g; fontfile_count := fontfile_count g;
     width := width g; height := height g; show_ascender := show_ascender g;
     show_descender := show_descender g; show_baseline := show_baseline g;
     show_glyphrect := show_glyphrect g;
     show_glyphadvance := show_glyphadvance g;
     show_glyphorigin := show_glyphorigin g; antialias := antialias g;
     unicode_mode := unicode_mode g; show_help := show_help g;
     glyphs_per_xline := v; glyphs_per_yline := glyphs_per_yline g;
     update := update g; first_glyph := first_glyph g;
     current_font := current_font g |}.

Definition set_glyphs_per_yline (v : Z) (g : globals) : globals :=
  {| dfb := dfb g; layer := layer g; window := window g;
     surface := surface g; event_buffer := event_buffer g;
     fontfile_list := fontfile_list g; fontfile_count := fontfile_count g;
     width := width g; height := height g; show_ascender := show_ascender g;
     show_descender := show_descender g; show_baseline := show_baseline g;
     show_glyphrect := show_glyphrect g;
     show_glyphadvance := show_glyphadvance g;
     show_glyphorigin := show_glyphorigin g; antialias := antialias g;
     unicode_mode := unicode_mode g; show_help := show_help g;
     glyphs_per_xline := glyphs_per_xline g; glyphs_per_yline := v;
     update := update g; first_glyph := first_glyph g;
     current_font := current_font g |}.

Definition set_update (v : Z) (g : globals) : globals :=
  {| dfb := dfb g; layer := layer g; window := window g;
     surface := surface g; event_buffer := event_buffer g;
     fontfile_list := fontfile_list g; fontfile_count := fontfile_count g;
     width := width g; height := height g; show_ascender := show_ascender g;
     show_descender := show_descender g; show_baseline := show_baseline g;
     show_glyphrect := show_glyphrect g;
     show_glyphadvance := show_glyphadvance g;
     show_glyphorigin := show_glyphorigin g; antialias := antialias g;
     unicode_mode := unicode_mode g; show_help := show_help g;
     glyphs_per_xline := glyphs_per_xline g;
     glyphs_per_yline := glyphs_per_yline g; update := v;
     first_glyph := first_glyph g; current_font := current_font g |}.

Definition set_first_glyph (v : Z) (g : globals) : globals :=
  {| dfb := dfb g; layer := layer g; window := window g;
     surface := surface g; event_buffer := event_buffer g;
     fontfile_list := fontfile_list g; fontfile_count := fontfile_count g;
     width := width g; height := height g; show_ascender := show_ascender g;
     show_descender := show_descender g; show_baseline := show_baseline g;
     show_glyphrect := show_glyphrect g;
     show_glyphadvance := show_glyphadvance g;
     show_glyphorigin := show_glyphorigin g; antialias := antialias g;
     unicode_mode := unicode_mode g; show_help := show_help g;
     glyphs_per_xline := glyphs_per_xline g;
     glyphs_per_yline := glyphs_per_yline g; update := update g;
     first_glyph := v; current_font := current_font g |}.

Definition set_current_font (v : Z) (g : globals) : globals :=
  {| dfb := dfb g; layer := layer g; window := window g;
     surface := surface g; event_buffer := event_buffer g;
     fontfile_list := fontfile_list g; fontfile_count := fontfile_count g;
     width := width g; height := height g; show_ascender := show_ascender g;
     show_descender := show_descender g; show_baseline := show_baseline g;
     show_glyphrect := show_glyphrect g;
     show_glyphadvance := show_glyphadvance g;
     show_glyphorigin := show_glyphorigin g; antialias := antialias g;
     unicode_mode := unicode_mode g; show_help := show_help g;
     glyphs_per_xline := glyphs_per_xline g;
     glyphs_per_yline := glyphs_per_yline g; update := update g;
     first_glyph := first_glyph g; current_font := v |}.


Definition init : globals :=
  {| dfb := 0; layer := 0; window := 0; surface := 0; event_buffer := 0;
     fontfile_list := []; fontfile_count := 0; width := 0; height := 0;
     show_ascender := 0; show_descender := 0; show_baseline := 0;
     show_glyphrect := 0; show_glyphadvance := 0; show_glyphorigin := 0;
     antialias := 1; unicode_mode := 1; show_help := 0;
     glyphs_per_xline := 16; glyphs_per_yline := 16;
     update := 1; first_glyph := 0; current_font := 0 |}.

(** [#define GLYPHS_PER_PAGE (glyphs_per_xline * glyphs_per_yline)] *)
Definition GLYPHS_PER_PAGE (g : globals) : Z := glyphs_per_xline g * glyphs_per_yline g.

(** [!x] on an [int] flag *)
Definition lnot_int (x : Z) : Z := if x =? 0 then 1 else 0.

(** [strstr( s, sub ) != NULL] *)
Fixpoint strstr_found (s sub : string) : bool :=
  String.prefix sub s ||
  match s with
  | EmptyString => false
  | String _ s' => strstr_found s' sub
  end.

Section Program.
Context `{Headers}.

(** The arguments of the drawing calls are not recorded, except the glyph
    index. *)
Definition render_help_page (fontfile : string) : prog globals unit :=
  g ← get;
  '(_, fixedfont) ← DFBCHECK 104 "dfb->CreateFont( dfb, fontfile, &fdsc, &fixedfont )" ret_of
     (meth_new IDirectFB_CreateFont (dfb g) [16] 0);
  meth IDirectFBSurface_SetColor (surface g) [0x00; 0x00; 0x00; 0xff];;
  meth IDirectFBSurface_SetFont (surface g) [Z.of_nat fixedfont];;
  for_each (seqZ 0 16) (fun i =>
    meth IDirectFBSurface_DrawString (surface g) [];;
    meth IDirectFBSurface_DrawString (surface g) [];;
    mret tt);;
  meth IDirectFBSurface_DrawString (surface g) [];;
  for_each (seqZ 0 (fontfile_count g)) (fun i =>
    meth IDirectFBSurface_DrawString (surface g) [];; mret tt);;
  meth IDirectFBFont_Release fixedfont [];;
  mret tt.

(** The body of the innermost loop of [render_font_page], for the glyph in
    column [i] of line [j]. *)
Definition render_glyph (font : nat) (first_char j i : Z) : prog globals unit :=
  g ← get;
  let glyphindex := first_char + i + j * glyphs_per_xline g in
  DFBCHECK 276 "font->GetGlyphExtents( font, glyphindex, &glyphrect, &glyphadvance )" a_ret
    (meth IDirectFBFont_GetGlyphExtents font [glyphindex]);;
  when (negb (show_glyphrect g =? 0))
    (meth IDirectFBSurface_SetColor (surface g) [0xc0; 0xc0; 0xf0; 0xff];;
     meth IDirectFBSurface_FillRectangle (surface g) [];; mret tt);;
  when (negb (show_glyphadvance g =? 0))
    (meth IDirectFBSurface_SetColor (surface g) [0x30; 0xc0; 0x30; 0xff];;
     meth IDirectFBSurface_FillRectangle (surface g) [];; mret tt);;
  meth IDirectFBSurface_SetColor (surface g) [0x00; 0x00; 0x00; 0xff];;
  meth IDirectFBSurface_DrawGlyph (surface g) [glyphindex];;
  when (negb (show_glyphorigin g =? 0))
    (meth IDirectFBSurface_SetColor (surface g) [0xff; 0x30; 0x30; 0xff];;
     meth IDirectFBSurface_FillRectangle (surface g) [];; mret tt).

(** [for (j = 0; j < glyphs_per_yline; j++) DrawLine] under one of the
    [show_...] flags *)
Definition draw_lines (color : list Z) : prog globals unit :=
  g ← get;
  meth IDirectFBSurface_SetColor (surface g) color;;
  for_each (seqZ 0 (glyphs_per_yline g)) (fun j =>
    meth IDirectFBSurface_DrawLine (surface g) [];; mret tt).

Definition render_font_page (fontfile : string) (first_char : Z) : prog globals unit :=
  g ← get;
  let bheight := height g * 7 ÷ 8 in
  '(_, fixedfont) ← DFBCHECK 146 "dfb->CreateFont( dfb, fontfile, &fdsc, &fixedfont )" ret_of
     (meth_new IDirectFB_CreateFont (dfb g) [16] 0);
  meth IDirectFBSurface_SetFont (surface g) [Z.of_nat fixedfont];;
  let fdsc_height :=
    if negb (strstr_found fontfile ".dgiff")
    then 9 * bheight ÷ glyphs_per_yline g ÷ 16 else 16 in
  '(a, font) ← meth_new IDirectFB_CreateFont (dfb g) [fdsc_height] 0;
  if negb (is_ok (a_ret a)) then
    meth IDirectFBSurface_SetColor (surface g) [0xff; 0x00; 0x00; 0xff];;
    meth IDirectFBSurface_DrawString (surface g) [];;
    meth IDirectFBFont_Release fixedfont [];;
    mret tt
  else
    DFBCHECK 174 "font->GetAscender( font, &ascender )" a_ret
      (meth IDirectFBFont_GetAscender font []);;
    DFBCHECK 175 "font->GetDescender( font, &descender )" a_ret
      (meth IDirectFBFont_GetDescender font []);;
    meth IDirectFBSurface_SetColor (surface g) [0xa0; 0xa0; 0xa0; 0xff];;
    meth IDirectFBSurface_DrawString (surface g) [];;
    meth IDirectFBSurface_DrawString (surface g) [];;
    meth IDirectFBSurface_DrawString (surface g) [];;
    meth IDirectFBSurface_DrawString (surface g) [];;
    meth IDirectFBSurface_SetColor (surface g) [0xc0; 0xc0; 0xc0; 0xff];;
    for_each (seqZ 0 (glyphs_per_yline g)) (fun j =>
      meth IDirectFBSurface_DrawString (surface g) [];;
      meth IDirectFBSurface_DrawString (surface g) [];;
      mret tt);;
    meth IDirectFBFont_Release fixedfont [];;
    for_each (seqZ 0 (glyphs_per_xline g + 1)) (fun i =>
      meth IDirectFBSurface_DrawLine (surface g) [];; mret tt);;
    for_each (seqZ 0 (glyphs_per_yline g + 1)) (fun j =>
      meth IDirectFBSurface_DrawLine (surface g) [];; mret tt);;
    when (negb (show_ascender g =? 0)) (draw_lines [0xf0; 0x80; 0x80; 0xff]);;
    when (negb (show_descender g =? 0)) (draw_lines [0x80; 0xf0; 0x80; 0xff]);;
    when (negb (show_baseline g =? 0)) (draw_lines [0x80; 0x80; 0xf0; 0xff]);;
    meth IDirectFBSurface_SetFont (surface g) [Z.of_nat font];;
    for_each (seqZ 0 (glyphs_per_yline g)) (fun j =>
      for_each (seqZ 0 (glyphs_per_xline g)) (fun i =>
        render_glyph font first_char j i));;
    meth IDirectFBFont_Release font [];;
    mret tt.

Definition dfb_shutdown : prog globals unit :=
  g ← get;
  when (negb (event_buffer g =? 0)%nat)
    (meth IDirectFBEventBuffer_Release (event_buffer g) [];; mret tt);;
  when (negb (surface g =? 0)%nat) (meth IDirectFBSurface_Release (surface g) [];; mret tt);;
  when (negb (window g =? 0)%nat) (meth IDirectFBWindow_Release (window g) [];; mret tt);;
  when (negb (layer g =? 0)%nat) (meth IDirectFBDisplayLayer_Release (layer g) [];; mret tt);;
  when (negb (dfb g =? 0)%nat) (meth IDirectFB_Release (dfb g) [];; mret tt).

(** The [for] loop of [main] over [argv[i]], from [args = argv[i..]]. *)
Fixpoint parse_command_line (args : list string) : prog globals unit :=
  match args with
  | [] => mret tt
  | arg :: rest =>
      match after_dash arg with
      | Some opt =>
          if strcmp0 opt "-help" then emit Usage;; exit (Code 0)
          else if strncmp0 opt "-size=" then
            g ← get;
            a ← lib sscanf [width g; height g];
            modify (set_width (a_int a));; modify (set_height (a_int2 a));;
            parse_command_line rest
          else parse_command_line rest
      | None =>
          modify (set_fontfile_count (Z.of_nat (length args)));;
          modify (set_fontfile_list args)
      end
  end.

(** The [switch] over the key of a [DWET_KEYDOWN] event. *)
Definition key_down (symbol : Z) : prog globals unit :=
  let k := DFB_LOWER_CASE symbol in
  let toggle (field : globals -> Z) (set : Z -> globals -> globals) :=
    modify (fun g => set_update 1 (set (lnot_int (field g)) g)) in
  if is_one_of k [DIKS_ESCAPE; DIKS_SMALL_Q; DIKS_BACK; DIKS_STOP; DIKS_EXIT] then
    exit (Code 42)
  else if is_one_of k [DIKS_PAGE_DOWN; DIKS_CURSOR_RIGHT] then
    modify (fun g =>
      let first_glyph' := first_glyph g + GLYPHS_PER_PAGE g in
      set_update 1
        (set_first_glyph (if first_glyph' >? 0xffff then 0 else first_glyph') g))
  else if is_one_of k [DIKS_PAGE_UP; DIKS_CURSOR_LEFT] then
    modify (fun g =>
      let first_glyph' := first_glyph g - GLYPHS_PER_PAGE g in
      set_update 1
        (set_first_glyph
           (if first_glyph' <? 0x0000 then 0x10000 - GLYPHS_PER_PAGE g else first_glyph') g))
  else if is_one_of k [DIKS_SPACE; DIKS_CURSOR_UP] then
    modify (fun g =>
      let current_font' := current_font g + 1 in
      set_update 1
        (set_current_font
           (if current_font' >=? fontfile_count g then 0 else current_font') g))
  else if is_one_of k [DIKS_BACKSPACE; DIKS_CURSOR_DOWN] then
    modify (fun g =>
      let current_font' := current_font g - 1 in
      set_update 1
        (set_current_font
           (if current_font' <? 0 then fontfile_count g - 1 else current_font') g))
  else if k =? 97 (* 'a' *) then toggle show_ascender set_show_ascender
  else if k =? 100 (* 'd' *) then toggle show_descender set_show_descender
  else if k =? 98 (* 'b' *) then toggle show_baseline set_show_baseline
  else if k =? 114 (* 'r' *) then toggle show_glyphrect set_show_glyphrect
  else if k =? 103 (* 'g' *) then toggle show_glyphadvance set_show_glyphadvance
  else if k =? 111 (* 'o' *) then toggle show_glyphorigin set_show_glyphorigin
  else if k =? 109 (* 'm' *) then toggle antialias set_antialias
  else if k =? 117 (* 'u' *) then toggle unicode_mode set_unicode_mode
  else if is_one_of k [104 (* 'h' *); DIKS_F1; DIKS_HELP] then
    modify (fun g =>
      if show_help g =? 0 then set_update 1 (set_show_help 1 g) else g)
  else if k =? DIKS_MINUS_SIGN then
    modify (fun g =>
      let g := if glyphs_per_xline g >? 1
               then set_glyphs_per_xline (glyphs_per_xline g - 1) g else g in
      let g := if glyphs_per_yline g >? 1
               then set_glyphs_per_yline (glyphs_per_yline g - 1) g else g in
      set_update 1 g)
  else if k =? DIKS_PLUS_SIGN then
    modify (fun g =>
      set_update 1
        (set_glyphs_per_yline (glyphs_per_yline g + 1)
           (set_glyphs_per_xline (glyphs_per_xline g + 1) g)))
  else mret tt.

(** The body of the event loop for one event. *)
Definition dispatch (evt : DFBWindowEvent) : prog globals unit :=
  match evt_type evt with
  | DWET_KEYUP =>
      modify (fun g =>
        if negb (show_help g =? 0) then set_update 1 (set_show_help 0 g) else g)
  | DWET_KEYDOWN => key_down (key_symbol evt)
  | _ => mret tt
  end.

Definition process_event_buffer (fuel : nat) : prog globals unit :=
  forever fuel
    (g ← get;
     a ← meth IDirectFBEventBuffer_GetEvent (event_buffer g) [];
     if is_ok (a_ret a) then dispatch (a_evt a);; mret None
     else mret (Some tt)).

(** One round of [while (1)] in [main]. *)
Definition main_loop_body (fuel : nat) : prog globals (option Z) :=
  g ← get;
  let fontfile := default "" (fontfile_list g !! Z.to_nat (current_font g)) in
  when (negb (update g =? 0))
    (meth IDirectFBSurface_Clear (surface g) [0xff; 0xff; 0xff; 0xff];;
     (if negb (show_help g =? 0) then render_help_page fontfile
      else render_font_page fontfile (first_glyph g));;
     meth IDirectFBSurface_Flip (surface g) [];;
     modify (set_update 0));;
  meth IDirectFBEventBuffer_WaitForEvent (event_buffer g) [];;
  process_event_buffer fuel;;
  mret None.

Definition main (fuel : nat) (argv argv' : list string) : prog globals Z :=
  DFBCHECK 352 "DirectFBInit( &argc, &argv )" a_ret (lib DirectFBInit []);;
  parse_command_line (tail argv');;
  g ← get;
  if fontfile_count g =? 0 then emit Usage;; exit (Code 1) else
  '(_, h) ← DFBCHECK 383 "DirectFBCreate( &dfb )" ret_of (lib_new DirectFBCreate [] 0);
  modify (set_dfb h);;
  atexit;;
  g ← get;
  '(_, h) ← DFBCHECK 389 "dfb->GetDisplayLayer( dfb, DLID_PRIMARY, &layer )" ret_of
     (meth_new IDirectFB_GetDisplayLayer (dfb g) [] 0);
  modify (set_layer h);;
  g ← get;
  config ← DFBCHECK 391 "layer->GetConfiguration( layer, &config )" a_ret
     (meth IDirectFBDisplayLayer_GetConfiguration (layer g) []);
  modify (fun g => set_width (if width g =? 0 then a_int config else width g) g);;
  modify (fun g => set_height (if height g =? 0 then a_int2 config else height g) g);;
  g ← get;
  '(_, h) ← DFBCHECK 403 "layer->CreateWindow( layer, &wdsc, &window )" ret_of
     (meth_new IDirectFBDisplayLayer_CreateWindow (layer g) [0; 0; width g; height g] 0);
  modify (set_window h);;
  g ← get;
  '(_, h) ← DFBCHECK 404 "window->GetSurface( window, &surface )" ret_of
     (meth_new IDirectFBWindow_GetSurface (window g) [] 0);
  modify (set_surface h);;
  '(_, h) ← DFBCHECK 407 "window->CreateEventBuffer( window, &event_buffer )" ret_of
     (meth_new IDirectFBWindow_CreateEventBuffer (window g) [] 0);
  modify (set_event_buffer h);;
  meth IDirectFBWindow_SetOpacity (window g) [0xff];;
  meth IDirectFBWindow_RequestFocus (window g) [];;
  forever fuel (main_loop_body fuel).

End Program.
End FontSample.

(** ** df_databuffer.c *)

Module Databuffer.

Record globals := {
  dfb : nat;
  primary : nat;
  surface : nat;
  font : nat;
  image_provider : nat;
  video_provider : nat;
  screen_width : Z;
  screen_height : Z;
  fontfile : option string;
  mediafile : option string;
  use_image : Z;
  use_video : Z
}.

Definition set_dfb (v : nat) (g : globals) : globals :=
  {| dfb := v; primary := primary g; surface := surface g; font := font g;
     image_provider := image_provider g; video_provider := video_provider g;
     screen_width := screen_width g; screen_height := screen_height g;
     fontfile := fontfile g; mediafile := mediafile g;
     use_image := use_image g; use_video := use_video g |}.

Definition set_primary (v : nat) (g : globals) : globals :=
  {| dfb := dfb g; primary := v; surface := surface g; font := font g;
     image_provider := image_provider g; video_provider := video_provider g;
     screen_width := screen_width g; screen_height := screen_height g;
     fontfile := fontfile g; mediafile := mediafile g;
     use_image := use_image g; use_video := use_video g |}.

Definition set_surface (v : nat) (g : globals) : globals :=
  {| dfb := dfb g; primary := primary g; surface := v; font := font g;
     image_provider := image_provider g; video_provider := video_provider g;
     screen_width := screen_width g; screen_height := screen_height g;
     fontfile := fontfile g; mediafile := mediafile g;
     use_image := use_image g; use_video := use_video g |}.

Definition set_font (v : nat) (g : globals) : globals :=
  {| dfb := dfb g; primary := primary g; surface := surface g; font := v;
     image_provider := image_provider g; video_provider := video_provider g;
     screen_width := screen_width g; screen_height := screen_height g;
     fontfile := fontfile g; mediafile := mediafile g;
     use_image := use_image g; use_video := use_video g |}.

Definition set_image_provider (v : nat) (g : globals) : globals :=
  {| dfb := dfb g; primary := primary g; surface := surface g;
     font := font g; image_provider := v; video_provider := video_provider g;
     screen_width := screen_width g; screen_height := screen_height g;
     fontfile := fontfile g; mediafile := mediafile g;
     use_image := use_image g; use_video := use_video g |}.

Definition set_video_provider (v : nat) (g : globals) : globals :=
  {| dfb := dfb g; primary := primary g; surface := surface g;
     font := font g; image_provider := image_provider g; video_provider := v;
     screen_width := screen_width g; screen_height := screen_height g;
     fontfile := fontfile g; mediafile := mediafile g;
     use_image := use_image g; use_video := use_video g |}.

Definition set_screen_width (v : Z) (g : globals) : globals :=
  {| dfb := dfb g; primary := primary g; surface := surface g;
     font := font g; image_provider := image_provider g;
     video_provider := video_provider g; screen_width := v;
     screen_height := screen_height g; fontfile := fontfile g;
     mediafile := mediafile g; use_image := use_image g;
     use_video := use_video g |}.

Definition set_screen_height (v : Z) (g : globals) : globals :=
  {| dfb := dfb g; primary := primary g; surface := surface g;
     font := font g; image_provider := image_provider g;
     video_provider := video_provider g; screen_width := screen_width g;
     screen_height := v; fontfile := fontfile g; mediafile := mediafile g;
     use_image := use_image g; use_video := use_video g |}.

Definition set_fontfile (v : option string) (g : globals) : globals :=
  {| dfb := dfb g; primary := primary g; surface := surface g;
     font := font g; image_provider := image_provider g;
     video_provider := video_provider g; screen_width := screen_width g;
     screen_height := screen_height g; fontfile := v;
     mediafile := mediafile g; use_image := use_image g;
     use_video := use_video g |}.

Definition set_mediafile (v : option string) (g : globals) : globals :=
  {| dfb := dfb g; primary := primary g; surface := surface g;
     font := font g; image_provider := image_provider g;
     video_provider := video_provider g; screen_width := screen_width g;
     screen_height := screen_height g; fontfile := fontfile g;
     mediafile := v; use_image := use_image g; use_video := use_video g |}.

Definition set_use_image (v : Z) (g : globals) : globals :=
  {| dfb := dfb g; primary := primary g; surface := surface g;
     font := font g; image_provider := image_provider g;
     video_provider := video_provider g; screen_width := screen_width g;
     screen_height := screen_height g; fontfile := fontfile g;
     mediafile := mediafile g; use_image := v; use_video := use_video g |}.

Definition set_use_video (v : Z) (g : globals) : globals :=
  {| dfb := dfb g; primary := primary g; surface := surface g;
     font := font g; image_provider := image_provider g;
     video_provider := video_provider g; screen_width := screen_width g;
     screen_height := screen_height g; fontfile := fontfile g;
     mediafile := mediafile g; use_image := use_image g; use_video := v |}.


Definition init : globals :=
  {| dfb := 0; primary := 0; surface := 0; font := 0; image_provider := 0;
     video_provider := 0; screen_width := 0; screen_height := 0;
     fontfile := None; mediafile := None; use_image := 0; use_video := 0 |}.

(** The lines of the checked calls of one test function, in the order of the
    source: the four calls that load the font, the creation of the media
    buffer, [GetSurfaceDescription] of the image provider, the three calls
    after the video provider is created, [CreateSurface], [RenderTo] and
    [PlayTo]. *)
Record lines := {
  l_buffer : Z; l_font : Z; l_setfont : Z; l_drawstring : Z; l_media : Z;
  l_image_dsc : Z; l_video_dsc : Z; l_pixelformat : Z; l_colorspace : Z;
  l_surface : Z; l_render : Z; l_play : Z
}.

Definition test_file_lines : lines :=
  {| l_buffer := 95; l_font := 96; l_setfont := 97; l_drawstring := 98;
     l_media := 102; l_image_dsc := 107; l_video_dsc := 112;
     l_pixelformat := 113; l_colorspace := 114; l_surface := 121;
     l_render := 126; l_play := 129 |}.

Definition test_memory_lines : lines :=
  {| l_buffer := 188; l_font := 189; l_setfont := 190; l_drawstring := 191;
     l_media := 196; l_image_dsc := 201; l_video_dsc := 206;
     l_pixelformat := 207; l_colorspace := 208; l_surface := 215;
     l_render := 220; l_play := 223 |}.

Definition test_streamed_lines : lines :=
  {| l_buffer := 308; l_font := 310; l_setfont := 311; l_drawstring := 312;
     l_media := 315; l_image_dsc := 321; l_video_dsc := 326;
     l_pixelformat := 327; l_colorspace := 328; l_surface := 335;
     l_render := 340; l_play := 343 |}.

(** The three test functions repeat the same text between the creation of a
    data buffer and the release of what was made from it; the blocks below are
    that text, with the lines of the function they stand in. *)

(** "load font", after the buffer exists *)
Definition load_font (L : lines) (buffer : nat) : prog globals unit :=
  g ← get;
  '(_, f) ← DFBCHECK (l_font L) "buffer->CreateFont( buffer, &fdsc, &font )" ret_of
     (meth_new IDirectFBDataBuffer_CreateFont buffer [24] (font g));
  modify (set_font f);;
  DFBCHECK (l_setfont L) "primary->SetFont( primary, font )" a_ret
    (meth IDirectFBSurface_SetFont (primary g) [Z.of_nat f]);;
  DFBCHECK (l_drawstring L) "primary->DrawString( primary, ..., -1, 10, 10, DSTF_TOPLEFT )" a_ret
    (meth IDirectFBSurface_DrawString (primary g) [10; 10]);;
  mret tt.

(** "load media", after the buffer exists, up to the fatal error when no
    provider could be created *)
Definition load_media (L : lines) (msg : string) (buffer : nat) : prog globals unit :=
  g ← get;
  ret ← (if use_video g =? 0 then
           '(a, p) ← meth_new IDirectFBDataBuffer_CreateImageProvider buffer []
                       (image_provider g);
           modify (set_image_provider p);;
           mret (a_ret a)
         else mret DFB_FAILURE);
  ret ← (if is_ok ret then
           g ← get;
           DFBCHECK (l_image_dsc L)
             "image_provider->GetSurfaceDescription( image_provider, &sdsc )" a_ret
             (meth IDirectFBImageProvider_GetSurfaceDescription (image_provider g) []);;
           mret ret
         else if use_image g =? 0 then
           '(a, p) ← meth_new IDirectFBDataBuffer_CreateVideoProvider buffer []
                       (video_provider g);
           modify (set_video_provider p);;
           (if is_ok (a_ret a) then
              DFBCHECK (l_video_dsc L)
                "video_provider->GetSurfaceDescription( video_provider, &sdsc )" a_ret
                (meth IDirectFBVideoProvider_GetSurfaceDescription p []);;
              DFBCHECK (l_pixelformat L)
                "primary->GetPixelFormat( primary, &sdsc.pixelformat )" a_ret
                (meth IDirectFBSurface_GetPixelFormat (primary g) []);;
              DFBCHECK (l_colorspace L)
                "primary->GetColorSpace( primary, &sdsc.colorspace )" a_ret
                (meth IDirectFBSurface_GetColorSpace (primary g) []);;
              mret tt
            else mret tt);;
           mret (a_ret a)
         else mret ret);
  if is_ok ret then mret tt
  else emit (ErrorFatal msg ret);; exit (Failed ret).

(** from [CreateSurface] to the end of the rendering or of the playback *)
Definition show_media (L : lines) : prog globals unit :=
  g ← get;
  '(_, s) ← DFBCHECK (l_surface L) "dfb->CreateSurface( dfb, &sdsc, &surface )" ret_of
     (meth_new IDirectFB_CreateSurface (dfb g) [] (surface g));
  modify (set_surface s);;
  if negb (image_provider g =? 0)%nat then
    meth IDirectFBImageProvider_SetRenderCallback (image_provider g) [];;
    DFBCHECK (l_render L) "image_provider->RenderTo( image_provider, surface, NULL )" a_ret
      (meth IDirectFBImageProvider_RenderTo (image_provider g) [Z.of_nat s]);;
    mret tt
  else
    DFBCHECK (l_play L)
      "video_provider->PlayTo( video_provider, surface, NULL, frame_callback, NULL )" a_ret
      (meth IDirectFBVideoProvider_PlayTo (video_provider g) [Z.of_nat s]);;
    lib sleep [3];;
    meth IDirectFBVideoProvider_Stop (video_provider g) [];;
    mret tt.

(** the releases at the end of a test function *)
Definition release_media : prog globals unit :=
  g ← get;
  meth IDirectFBSurface_Release (surface g) [];;
  modify (set_surface 0);;
  when (negb (image_provider g =? 0)%nat)
    (meth IDirectFBImageProvider_Release (image_provider g) [];;
     modify (set_image_provider 0));;
  when (negb (video_provider g =? 0)%nat)
    (meth IDirectFBVideoProvider_Release (video_provider g) [];;
     modify (set_video_provider 0));;
  meth IDirectFBFont_Release (font g) [];;
  modify (set_font 0).

Definition test_file : prog globals unit :=
  let L := test_file_lines in
  g ← get;
  meth IDirectFBSurface_Clear (primary g) [0; 0; 0; 0];;
  '(_, buffer) ← DFBCHECK (l_buffer L) "dfb->CreateDataBuffer( dfb, &ddsc, &buffer )" ret_of
     (meth_new IDirectFB_CreateDataBuffer (dfb g) [] 0);
  load_font L buffer;;
  '(_, buffer) ← DFBCHECK (l_media L) "dfb->CreateDataBuffer( dfb, &ddsc, &buffer )" ret_of
     (meth_new IDirectFB_CreateDataBuffer (dfb g) [] buffer);
  load_media L "Couldn't load media from file data buffer!" buffer;;
  show_media L;;
  release_media.

Definition test_memory : prog globals unit :=
  let L := test_memory_lines in
  g ← get;
  meth IDirectFBSurface_Clear (primary g) [0; 0; 0; 0];;
  lib direct_file_open [];;
  info ← lib direct_file_get_info [];
  let fontlength := a_int info in
  lib direct_file_map [fontlength];;
  lib direct_file_close [];;
  lib direct_file_open [];;
  info ← lib direct_file_get_info [];
  let medialength := a_int info in
  lib direct_file_map [medialength];;
  lib direct_file_close [];;
  '(_, buffer) ← DFBCHECK (l_buffer L) "dfb->CreateDataBuffer( dfb, &ddsc, &buffer )" ret_of
     (meth_new IDirectFB_CreateDataBuffer (dfb g) [fontlength] 0);
  load_font L buffer;;
  '(_, buffer) ← DFBCHECK (l_media L) "dfb->CreateDataBuffer( dfb, &ddsc, &buffer )" ret_of
     (meth_new IDirectFB_CreateDataBuffer (dfb g) [medialength] buffer);
  load_media L "Couldn't load media from memory data buffer!" buffer;;
  show_media L;;
  release_media;;
  lib direct_file_unmap [fontlength];;
  lib direct_file_unmap [medialength];;
  mret tt.

(** [direct_thread_create( DTT_DEFAULT, streamer, buffer, name )]: the pointer
    to the new thread, [NULL] when it could not be created.  The thread runs
    [streamer] on [buffer], beside the caller. *)
Definition spawn_streamer (buffer : nat) : prog globals nat :=
  a ← lib direct_thread_create [Z.of_nat buffer];
  n ← fresh;
  mret (created a n 0).

Definition test_streamed : prog globals unit :=
  let L := test_streamed_lines in
  g ← get;
  meth IDirectFBSurface_Clear (primary g) [0; 0; 0; 0];;
  '(_, buffer) ← DFBCHECK (l_buffer L) "dfb->CreateDataBuffer( dfb, NULL, &buffer )" ret_of
     (meth_new IDirectFB_CreateDataBuffer (dfb g) [] 0);
  streaming_thread ← spawn_streamer buffer;
  load_font L buffer;;
  '(_, buffer) ← DFBCHECK (l_media L) "dfb->CreateDataBuffer( dfb, NULL, &buffer )" ret_of
     (meth_new IDirectFB_CreateDataBuffer (dfb g) [] buffer);
  streaming_thread ← spawn_streamer buffer;
  load_media L "Couldn't load media from streamed data buffer!" buffer;;
  show_media L;;
  meth direct_thread_cancel streaming_thread [];;
  meth direct_thread_join streaming_thread [];;
  meth direct_thread_destroy streaming_thread [];;
  release_media.

(** The loop of [streamer]; [usec] is its local variable. *)
Fixpoint streamer_loop (fuel : nat) (buffer : nat) (usec : Z) : prog globals unit :=
  match fuel with
  | O => spin
  | S fuel' =>
      lib usleep [usec];;
      len ← DFBCHECK 272 "buffer->GetLength( buffer, &len )" a_ret
        (meth IDirectFBDataBuffer_GetLength buffer []);
      if a_int len >=? 64 * 1024 then
        streamer_loop fuel' buffer (usec + 100)
      else
        let usec := MAX (usec - 100) 1000 in
        r ← lib rand [];
        bytes ← lib direct_file_read [Z.rem (a_int r) 8192 + 1];
        if a_int bytes <=? 0 then
          DFBCHECK 284 "buffer->Finish( buffer )" a_ret
            (meth IDirectFBDataBuffer_Finish buffer []);;
          mret tt
        else
          DFBCHECK 288 "buffer->PutData( buffer, data, bytes )" a_ret
            (meth IDirectFBDataBuffer_PutData buffer [a_int bytes]);;
          streamer_loop fuel' buffer usec
  end.

(** The thread function; [arg] is the data buffer. *)
Definition streamer (fuel : nat) (arg : nat) : prog globals unit :=
  lib direct_thread_self_name [];;
  lib direct_file_open [];;
  streamer_loop fuel arg 1000;;
  lib direct_file_close [];;
  mret tt.

Definition dfb_shutdown : prog globals unit :=
  g ← get;
  when (negb (video_provider g =? 0)%nat)
    (meth IDirectFBVideoProvider_Release (video_provider g) [];; mret tt);;
  when (negb (image_provider g =? 0)%nat)
    (meth IDirectFBImageProvider_Release (image_provider g) [];; mret tt);;
  when (negb (font g =? 0)%nat) (meth IDirectFBFont_Release (font g) [];; mret tt);;
  when (negb (surface g =? 0)%nat) (meth IDirectFBSurface_Release (surface g) [];; mret tt);;
  when (negb (primary g =? 0)%nat) (meth IDirectFBSurface_Release (primary g) [];; mret tt);;
  when (negb (dfb g =? 0)%nat) (meth IDirectFB_Release (dfb g) [];; mret tt).

(** The [for] loop of [main] over [argv[i]], from [args = argv[i..]];
    [i == argc - 2] holds when two arguments are left. *)
Fixpoint parse_command_line (args : list string) : prog globals unit :=
  match args with
  | [] => mret tt
  | arg :: rest =>
      match after_dash arg with
      | Some opt =>
          if strcmp0 opt "-help" then emit Usage;; exit (Code 0)
          else if strcmp0 opt "-image" then
            modify (set_use_image 1);; parse_command_line rest
          else if strcmp0 opt "-video" then
            modify (set_use_video 1);; parse_command_line rest
          else parse_command_line rest
      | None =>
          match rest with
          | [media] =>
              modify (set_fontfile (Some arg));; modify (set_mediafile (Some media))
          | _ => parse_command_line rest
          end
      end
  end.

Definition main (argv argv' : list string) : prog globals Z :=
  DFBCHECK 399 "DirectFBInit( &argc, &argv )" a_ret (lib DirectFBInit []);;
  parse_command_line (tail argv');;
  g ← get;
  if negb (use_image g =? 0) && negb (use_video g =? 0) then
    emit (Printf "Select either an image provider or a video provider");;
    exit (Code 1)
  else
  match fontfile g, mediafile g with
  | Some _, Some _ =>
      '(_, h) ← DFBCHECK 437 "DirectFBCreate( &dfb )" ret_of (lib_new DirectFBCreate [] 0);
      modify (set_dfb h);;
      atexit;;
      g ← get;
      meth IDirectFB_SetCooperativeLevel (dfb g) [];;
      '(_, h) ← DFBCHECK 449 "dfb->CreateSurface( dfb, &desc, &primary )" ret_of
         (meth_new IDirectFB_CreateSurface (dfb g) [] 0);
      modify (set_primary h);;
      g ← get;
      size ← meth IDirectFBSurface_GetSize (primary g) [];
      modify (set_screen_width (a_int size));;
      modify (set_screen_height (a_int2 size));;
      meth IDirectFBSurface_SetColor (primary g) [0xcc; 0xcc; 0xcc; 0xff];;
      test_file;;
      lib sleep [2];;
      test_memory;;
      lib sleep [2];;
      test_streamed;;
      lib sleep [2];;
      exit (Code 0)
  | _, _ => emit Usage;; exit (Code 1)
  end.

End Databuffer.

(** ** df_databuffer.c, the revision without options *)

Module DatabufferOld.

Record globals := {
  dfb : nat;
  primary : nat;
  screen_width : Z;
  screen_height : Z;
  fontfile : option string;
  mediafile : option string
}.

Definition set_dfb (v : nat) (g : globals) : globals :=
  {| dfb := v; primary := primary g; screen_width := screen_width g;
     screen_height := screen_height g; fontfile := fontfile g;
     mediafile := mediafile g |}.

Definition set_primary (v : nat) (g : globals) : globals :=
  {| dfb := dfb g; primary := v; screen_width := screen_width g;
     screen_height := screen_height g; fontfile := fontfile g;
     mediafile := mediafile g |}.

Definition set_screen_width (v : Z) (g : globals) : globals :=
  {| dfb := dfb g; primary := primary g; screen_width := v;
     screen_height := screen_height g; fontfile := fontfile g;
     mediafile := mediafile g |}.

Definition set_screen_height (v : Z) (g : globals) : globals :=
  {| dfb := dfb g; primary := primary g; screen_width := screen_width g;
     screen_height := v; fontfile := fontfile g; mediafile := mediafile g |}.

Definition set_fontfile (v : option string) (g : globals) : globals :=
  {| dfb := dfb g; primary := primary g; screen_width := screen_width g;
     screen_height := screen_height g; fontfile := v;
     mediafile := mediafile g |}.

Definition set_mediafile (v : option string) (g : globals) : globals :=
  {| dfb := dfb g; primary := primary g; screen_width := screen_width g;
     screen_height := screen_height g; fontfile := fontfile g;
     mediafile := v |}.


Definition init : globals :=
  {| dfb := 0; primary := 0; screen_width := 0; screen_height := 0;
     fontfile := None; mediafile := None |}.

(** The lines of the checked calls of one test function, as in
    [Databuffer.lines]. *)
Record lines := {
  l_buffer : Z; l_font : Z; l_setfont : Z; l_drawstring : Z; l_media : Z;
  l_image_dsc : Z; l_video_dsc : Z; l_pixelformat : Z; l_colorspace : Z;
  l_surface : Z; l_render : Z; l_play : Z
}.

Definition test_file_lines : lines :=
  {| l_buffer := 95; l_font := 96; l_setfont := 97; l_drawstring := 98;
     l_media := 102; l_image_dsc := 105; l_video_dsc := 110;
     l_pixelformat := 111; l_colorspace := 112; l_surface := 119;
     l_render := 124; l_play := 127 |}.

Definition test_memory_lines : lines :=
  {| l_buffer := 184; l_font := 185; l_setfont := 186; l_drawstring := 187;
     l_media := 192; l_image_dsc := 195; l_video_dsc := 200;
     l_pixelformat := 201; l_colorspace := 202; l_surface := 209;
     l_render := 214; l_play := 217 |}.

Definition test_streamed_lines : lines :=
  {| l_buffer := 300; l_font := 302; l_setfont := 303; l_drawstring := 304;
     l_media := 307; l_image_dsc := 311; l_video_dsc := 316;
     l_pixelformat := 317; l_colorspace := 318; l_surface := 325;
     l_render := 330; l_play := 333 |}.

(** "load font", after the buffer exists; returns the local [font] *)
Definition load_font (L : lines) (buffer : nat) : prog globals nat :=
  g ← get;
  '(_, font) ← DFBCHECK (l_font L) "buffer->CreateFont( buffer, &fdsc, &font )" ret_of
     (meth_new IDirectFBDataBuffer_CreateFont buffer [24] 0);
  DFBCHECK (l_setfont L) "primary->SetFont( primary, font )" a_ret
    (meth IDirectFBSurface_SetFont (primary g) [Z.of_nat font]);;
  DFBCHECK (l_drawstring L) "primary->DrawString( primary, ..., -1, 10, 10, DSTF_TOPLEFT )" a_ret
    (meth IDirectFBSurface_DrawString (primary g) [10; 10]);;
  mret font.

(** "load media", after the buffer exists; returns the locals
    [image_provider] and [video_provider] *)
Definition load_media (L : lines) (msg : string) (buffer : nat)
  : prog globals (nat * nat) :=
  g ← get;
  '(a, image_provider) ← meth_new IDirectFBDataBuffer_CreateImageProvider buffer [] 0;
  if is_ok (a_ret a) then
    DFBCHECK (l_image_dsc L)
      "image_provider->GetSurfaceDescription( image_provider, &sdsc )" a_ret
      (meth IDirectFBImageProvider_GetSurfaceDescription image_provider []);;
    mret (image_provider, 0%nat)
  else
    '(a, video_provider) ← meth_new IDirectFBDataBuffer_CreateVideoProvider buffer [] 0;
    if is_ok (a_ret a) then
      DFBCHECK (l_video_dsc L)
        "video_provider->GetSurfaceDescription( video_provider, &sdsc )" a_ret
        (meth IDirectFBVideoProvider_GetSurfaceDescription video_provider []);;
      DFBCHECK (l_pixelformat L)
        "primary->GetPixelFormat( primary, &sdsc.pixelformat )" a_ret
        (meth IDirectFBSurface_GetPixelFormat (primary g) []);;
      DFBCHECK (l_colorspace L)
        "primary->GetColorSpace( primary, &sdsc.colorspace )" a_ret
        (meth IDirectFBSurface_GetColorSpace (primary g) []);;
      mret (image_provider, video_provider)
    else
      emit (ErrorFatal msg (a_ret a));; exit (Failed (a_ret a)).

(** from [CreateSurface] to the end of the rendering or of the playback;
    returns the local [surface] *)
Definition show_media (L : lines) (image_provider video_provider : nat)
  : prog globals nat :=
  g ← get;
  '(_, surface) ← DFBCHECK (l_surface L) "dfb->CreateSurface( dfb, &sdsc, &surface )" ret_of
     (meth_new IDirectFB_CreateSurface (dfb g) [] 0);
  (if negb (image_provider =? 0)%nat then
     meth IDirectFBImageProvider_SetRenderCallback image_provider [Z.of_nat surface];;
     DFBCHECK (l_render L) "image_provider->RenderTo( image_provider, surface, NULL )" a_ret
       (meth IDirectFBImageProvider_RenderTo image_provider [Z.of_nat surface]);;
     mret tt
   else
     DFBCHECK (l_play L)
       "video_provider->PlayTo( video_provider, surface, NULL, frame_callback, surface )" a_ret
       (meth IDirectFBVideoProvider_PlayTo video_provider [Z.of_nat surface]);;
     lib sleep [3];;
     meth IDirectFBVideoProvider_Stop video_provider [];;
     mret tt);;
  mret surface.

(** the releases at the end of a test function *)
Definition release_media (surface image_provider video_provider font : nat)
  : prog globals unit :=
  meth IDirectFBSurface_Release surface [];;
  when (negb (image_provider =? 0)%nat)
    (meth IDirectFBImageProvider_Release image_provider [];; mret tt);;
  when (negb (video_provider =? 0)%nat)
    (meth IDirectFBVideoProvider_Release video_provider [];; mret tt);;
  meth IDirectFBFont_Release font [];;
  mret tt.

Definition test_file : prog globals unit :=
  let L := test_file_lines in
  g ← get;
  meth IDirectFBSurface_Clear (primary g) [0; 0; 0; 0];;
  '(_, buffer) ← DFBCHECK (l_buffer L) "dfb->CreateDataBuffer( dfb, &ddsc, &buffer )" ret_of
     (meth_new IDirectFB_CreateDataBuffer (dfb g) [] 0);
  font ← load_font L buffer;
  '(_, buffer) ← DFBCHECK (l_media L) "dfb->CreateDataBuffer( dfb, &ddsc, &buffer )" ret_of
     (meth_new IDirectFB_CreateDataBuffer (dfb g) [] buffer);
  '(image_provider, video_provider) ←
     load_media L "Couldn't load media from file data buffer!" buffer;
  surface ← show_media L image_provider video_provider;
  release_media surface image_provider video_provider font.

Definition test_memory : prog globals unit :=
  let L := test_memory_lines in
  g ← get;
  meth IDirectFBSurface_Clear (primary g) [0; 0; 0; 0];;
  lib direct_file_open [];;
  info ← lib direct_file_get_info [];
  let fontlength := a_int info in
  lib direct_file_map [fontlength];;
  lib direct_file_close [];;
  lib direct_file_open [];;
  info ← lib direct_file_get_info [];
  let medialength := a_int info in
  lib direct_file_map [medialength];;
  lib direct_file_close [];;
  '(_, buffer) ← DFBCHECK (l_buffer L) "dfb->CreateDataBuffer( dfb, &ddsc, &buffer )" ret_of
     (meth_new IDirectFB_CreateDataBuffer (dfb g) [fontlength] 0);
  font ← load_font L buffer;
  '(_, buffer) ← DFBCHECK (l_media L) "dfb->CreateDataBuffer( dfb, &ddsc, &buffer )" ret_of
     (meth_new IDirectFB_CreateDataBuffer (dfb g) [medialength] buffer);
  '(image_provider, video_provider) ←
     load_media L "Couldn't load media from memory data buffer!" buffer;
  surface ← show_media L image_provider video_provider;
  release_media surface image_provider video_provider font;;
  lib direct_file_unmap [fontlength];;
  lib direct_file_unmap [medialength];;
  mret tt.

(** [direct_thread_create( DTT_DEFAULT, streamer, buffer, name )] *)
Definition spawn_streamer (buffer : nat) : prog globals nat :=
  a ← lib direct_thread_create [Z.of_nat buffer];
  n ← fresh;
  mret (created a n 0).

Definition test_streamed : prog globals unit :=
  let L := test_streamed_lines in
  g ← get;
  meth IDirectFBSurface_Clear (primary g) [0; 0; 0; 0];;
  '(_, buffer) ← DFBCHECK (l_buffer L) "dfb->CreateDataBuffer( dfb, NULL, &buffer )" ret_of
     (meth_new IDirectFB_CreateDataBuffer (dfb g) [] 0);
  streaming_thread ← spawn_streamer buffer;
  font ← load_font L buffer;
  '(_, buffer) ← DFBCHECK (l_media L) "dfb->CreateDataBuffer( dfb, NULL, &buffer )" ret_of
     (meth_new IDirectFB_CreateDataBuffer (dfb g) [] buffer);
  streaming_thread ← spawn_streamer buffer;
  '(image_provider, video_provider) ←
     load_media L "Couldn't load media from streamed data buffer!" buffer;
  surface ← show_media L image_provider video_provider;
  meth direct_thread_cancel streaming_thread [];;
  meth direct_thread_join streaming_thread [];;
  meth direct_thread_destroy streaming_thread [];;
  release_media surface image_provider video_provider font.

(** The loop of [streamer]; [usec] is its local variable. *)
Fixpoint streamer_loop (fuel : nat) (buffer : nat) (usec : Z) : prog globals unit :=
  match fuel with
  | O => spin
  | S fuel' =>
      lib usleep [usec];;
      len ← DFBCHECK 260 "buffer->GetLength( buffer, &len )" a_ret
        (meth IDirectFBDataBuffer_GetLength buffer []);
      if a_int len >=? 64 * 1024 then
        streamer_loop fuel' buffer (usec + 100)
      else
        let usec := MAX (usec - 100) 1000 in
        r ← lib rand [];
        bytes ← lib direct_file_read [Z.rem (a_int r) 8192 + 1];
        if a_int bytes <=? 0 then
          DFBCHECK 272 "buffer->Finish( buffer )" a_ret
            (meth IDirectFBDataBuffer_Finish buffer []);;
          mret tt
        else
          DFBCHECK 276 "buffer->PutData( buffer, data, bytes )" a_ret
            (meth IDirectFBDataBuffer_PutData buffer [a_int bytes]);;
          streamer_loop fuel' buffer usec
  end.

(** The thread function; [arg] is the data buffer. *)
Definition streamer (fuel : nat) (arg : nat) : prog globals unit :=
  lib direct_thread_self_name [];;
  lib direct_file_open [];;
  streamer_loop fuel arg 1000;;
  lib direct_file_close [];;
  mret tt.

Definition dfb_shutdown : prog globals unit :=
  g ← get;
  when (negb (primary g =? 0)%nat) (meth IDirectFBSurface_Release (primary g) [];; mret tt);;
  when (negb (dfb g =? 0)%nat) (meth IDirectFB_Release (dfb g) [];; mret tt).

Definition main (argv argv' : list string) : prog globals Z :=
  if negb (argc argv =? 3) then emit Usage;; exit (Code 0) else
  DFBCHECK 379 "DirectFBInit( &argc, &argv )" a_ret (lib DirectFBInit []);;
  match argv' with
  | _ :: argv1 :: rest =>
      if strcmp0 argv1 "--help" then emit Usage;; exit (Code 0) else
      modify (set_fontfile (Some argv1));;
      modify (set_mediafile (head rest));;
      '(_, h) ← DFBCHECK 391 "DirectFBCreate( &dfb )" ret_of (lib_new DirectFBCreate [] 0);
      modify (set_dfb h);;
      atexit;;
      g ← get;
      meth IDirectFB_SetCooperativeLevel (dfb g) [];;
      '(_, h) ← DFBCHECK 403 "dfb->CreateSurface( dfb, &desc, &primary )" ret_of
         (meth_new IDirectFB_CreateSurface (dfb g) [] 0);
      modify (set_primary h);;
      g ← get;
      size ← meth IDirectFBSurface_GetSize (primary g) [];
      modify (set_screen_width (a_int size));;
      modify (set_screen_height (a_int2 size));;
      meth IDirectFBSurface_SetColor (primary g) [0xcc; 0xcc; 0xcc; 0xff];;
      test_file;;
      lib sleep [2];;
      test_memory;;
      lib sleep [2];;
      test_streamed;;
      lib sleep [2];;
      exit (Code 0)
  | _ => exit Segv   (* strcmp( argv[1], ... ) with argv[1] == NULL *)
  end.

End DatabufferOld.

(** ** Linked lists of direct/list.h

    [medias] and [media->tracks] are [DirectLink] lists.  A list is the Rocq
    list of its elements and a pointer to an element is its position; [NULL]
    is [None].  In a [DirectLink] list the [prev] pointer of the first element
    points to the last element. *)

(** [link->next] of the element at position [i] of a list of [n] elements *)
Definition link_next (n i : nat) : option nat :=
  if (S i <? n)%nat then Some (S i) else None.

(** [link->prev] *)
Definition link_prev (n i : nat) : option nat :=
  match i with
  | O => match n with O => None | S m => Some m end
  | S j => Some j
  end.

(** the list pointer itself: its first element *)
Definition list_first (n : nat) : option nat :=
  match n with O => None | S _ => Some O end.

(** [direct_list_get_last( list )] *)
Definition direct_list_get_last (n : nat) : option nat :=
  match n with O => None | S m => Some m end.

(** [FSSF_UNKNOWN] and [FMPLAY_NOFX] are zero. *)
Definition FSSF_UNKNOWN : Z := 0.
Definition FMPLAY_NOFX : Z := 0.

(** [x < 0.0], [x > 64.0], [!x] on floating-point values *)
Definition negative_double (x : Qc) : bool := bool_decide (x < 0)%Qc.
Definition above_64 (x : Qc) : bool := bool_decide (Q2Qc 64 < x)%Qc.
Definition zero_double (x : Qc) : bool := bool_decide (x = 0%Qc).

(** ** fs_music_sample.c *)

Module MusicSample.

(** [Media]; its tracks are the [FSTrackID]s of its [MediaTrack] list. *)
Record Media := { mrl : string; id : Z; tracks : list Z }.

(** The globals of the file and the locals of [main]. *)
Record globals := {
  sound : nat;
  music : nat;
  stream : nat;
  playback : nat;
  medias : list Media;
  quiet : Z;
  sampleformat : Z;
  gain : option string;
  main_flags : Z;
  main_repeat : Z;
  main_volume : Qc;
  main_pitch : Qc;
  main_quit : Z;
  main_media_next : option nat;
  main_track_next : option nat;
  main_status : Z
}.

Definition set_sound (v : nat) (g : globals) : globals :=
  {| sound := v; music := music g; stream := stream g;
     playback := playback g; medias := medias g; quiet := quiet g;
     sampleformat := sampleformat g; gain := gain g;
     main_flags := main_flags g; main_repeat := main_repeat g;
     main_volume := main_volume g; main_pitch := main_pitch g;
     main_quit := main_quit g; main_media_next := main_media_next g;
     main_track_next := main_track_next g; main_status := main_status g |}.

Definition set_music (v : nat) (g : globals) : globals :=
  {| sound := sound g; music := v; stream := stream g;
     playback := playback g; medias := medias g; quiet := quiet g;
     sampleformat := sampleformat g; gain := gain g;
     main_flags := main_flags g; main_repeat := main_repeat g;
     main_volume := main_volume g; main_pitch := main_pitch g;
     main_quit := main_quit g; main_media_next := main_media_next g;
     main_track_next := main_track_next g; main_status := main_status g |}.

Definition set_stream (v : nat) (g : globals) : globals :=
  {| sound := sound g; music := music g; stream := v; playback := playback g;
     medias := medias g; quiet := quiet g; sampleformat := sampleformat g;
     gain := gain g; main_flags := main_flags g;
     main_repeat := main_repeat g; main_volume := main_volume g;
     main_pitch := main_pitch g; main_quit := main_quit g;
     main_media_next := main_media_next g;
     main_track_next := main_track_next g; main_status := main_status g |}.

Definition set_playback (v : nat) (g : globals) : globals :=
  {| sound := sound g; music := music g; stream := stream g; playback := v;
     medias := medias g; quiet := quiet g; sampleformat := sampleformat g;
     gain := gain g; main_flags := main_flags g;
     main_repeat := main_repeat g; main_volume := main_volume g;
     main_pitch := main_pitch g; main_quit := main_quit g;
     main_media_next := main_media_next g;
     main_track_next := main_track_next g; main_status := main_status g |}.

Definition set_medias (v : list Media) (g : globals) : globals :=
  {| sound := sound g; music := music g; stream := stream g;
     playback := playback g; medias := v; quiet := quiet g;
     sampleformat := sampleformat g; gain := gain g;
     main_flags := main_flags g; main_repeat := main_repeat g;
     main_volume := main_volume g; main_pitch := main_pitch g;
     main_quit := main_quit g; main_media_next := main_media_next g;
     main_track_next := main_track_next g; main_status := main_status g |}.

Definition set_quiet (v : Z) (g : globals) : globals :=
  {| sound := sound g; music := music g; stream := stream g;
     playback := playback g; medias := medias g; quiet := v;
     sampleformat := sampleformat g; gain := gain g;
     main_flags := main_flags g; main_repeat := main_repeat g;
     main_volume := main_volume g; main_pitch := main_pitch g;
     main_quit := main_quit g; main_media_next := main_media_next g;
     main_track_next := main_track_next g; main_status := main_status g |}.

Definition set_sampleformat (v : Z) (g : globals) : globals :=
  {| sound := sound g; music := music g; stream := stream g;
     playback := playback g; medias := medias g; quiet := quiet g;
     sampleformat := v; gain := gain g; main_flags := main_flags g;
     main_repeat := main_repeat g; main_volume := main_volume g;
     main_pitch := main_pitch g; main_quit := main_quit g;
     main_media_next := main_media_next g;
     main_track_next := main_track_next g; main_status := main_status g |}.

Definition set_gain (v : option string) (g : globals) : globals :=
  {| sound := sound g; music := music g; stream := stream g;
     playback := playback g; medias := medias g; quiet := quiet g;
     sampleformat := sampleformat g; gain := v; main_flags := main_flags g;
     main_repeat := main_repeat g; main_volume := main_volume g;
     main_pitch := main_pitch g; main_quit := main_quit g;
     main_media_next := main_media_next g;
     main_track_next := main_track_next g; main_status := main_status g |}.

Definition set_main_flags (v : Z) (g : globals) : globals :=
  {| sound := sound g; music := music g; stream := stream g;
     playback := playback g; medias := medias g; quiet := quiet g;
     sampleformat := sampleformat g; gain := gain g; main_flags := v;
     main_repeat := main_repeat g; main_volume := main_volume g;
     main_pitch := main_pitch g; main_quit := main_quit g;
     main_media_next := main_media_next g;
     main_track_next := main_track_next g; main_status := main_status g |}.

Definition set_main_repeat (v : Z) (g : globals) : globals :=
  {| sound := sound g; music := music g; stream := stream g;
     playback := playback g; medias := medias g; quiet := quiet g;
     sampleformat := sampleformat g; gain := gain g;
     main_flags := main_flags g; main_repeat := v;
     main_volume := main_volume g; main_pitch := main_pitch g;
     main_quit := main_quit g; main_media_next := main_media_next g;
     main_track_next := main_track_next g; main_status := main_status g |}.

Definition set_main_volume (v : Qc) (g : globals) : globals :=
  {| sound := sound g; music := music g; stream := stream g;
     playback := playback g; medias := medias g; quiet := quiet g;
     sampleformat := sampleformat g; gain := gain g;
     main_flags := main_flags g; main_repeat := main_repeat g;
     main_volume := v; main_pitch := main_pitch g; main_quit := main_quit g;
     main_media_next := main_media_next g;
     main_track_next := main_track_next g; main_status := main_status g |}.

Definition set_main_pitch (v : Qc) (g : globals) : globals :=
  {| sound := sound g; music := music g; stream := stream g;
     playback := playback g; medias := medias g; quiet := quiet g;
     sampleformat := sampleformat g; gain := gain g;
     main_flags := main_flags g; main_repeat := main_repeat g;
     main_volume := main_volume g; main_pitch := v; main_quit := main_quit g;
     main_media_next := main_media_next g;
     main_track_next := main_track_next g; main_status := main_status g |}.

Definition set_main_quit (v : Z) (g : globals) : globals :=
  {| sound := sound g; music := music g; stream := stream g;
     playback := playback g; medias := medias g; quiet := quiet g;
     sampleformat := sampleformat g; gain := gain g;
     main_flags := main_flags g; main_repeat := main_repeat g;
     main_volume := main_volume g; main_pitch := main_pitch g;
     main_quit := v; main_media_next := main_media_next g;
     main_track_next := main_track_next g; main_status := main_status g |}.

Definition set_main_media_next (v : option nat) (g : globals) : globals :=
  {| sound := sound g; music := music g; stream := stream g;
     playback := playback g; medias := medias g; quiet := quiet g;
     sampleformat := sampleformat g; gain := gain g;
     main_flags := main_flags g; main_repeat := main_repeat g;
     main_volume := main_volume g; main_pitch := main_pitch g;
     main_quit := main_quit g; main_media_next := v;
     main_track_next := main_track_next g; main_status := main_status g |}.

Definition set_main_track_next (v : option nat) (g : globals) : globals :=
  {| sound := sound g; music := music g; stream := stream g;
     playback := playback g; medias := medias g; quiet := quiet g;
     sampleformat := sampleformat g; gain := gain g;
     main_flags := main_flags g; main_repeat := main_repeat g;
     main_volume := main_volume g; main_pitch := main_pitch g;
     main_quit := main_quit g; main_media_next := main_media_next g;
     main_track_next := v; main_status := main_status g |}.

Definition set_main_status (v : Z) (g : globals) : globals :=
  {| sound := sound g; music := music g; stream := stream g;
     playback := playback g; medias := medias g; quiet := quiet g;
     sampleformat := sampleformat g; gain := gain g;
     main_flags := main_flags g; main_repeat := main_repeat g;
     main_volume := main_volume g; main_pitch := main_pitch g;
     main_quit := main_quit g; main_media_next := main_media_next g;
     main_track_next := main_track_next g; main_status := v |}.


Definition init : globals :=
  {| sound := 0; music := 0; stream := 0; playback := 0; medias := [];
     quiet := 0; sampleformat := FSSF_UNKNOWN; gain := None;
     main_flags := FMPLAY_NOFX; main_repeat := 0; main_volume := 1%Qc;
     main_pitch := 1%Qc; main_quit := 0; main_media_next := None;
     main_track_next := None; main_status := 0 |}.

(** [media->tracks] of the media at position [m] *)
Definition tracks_of (g : globals) (m : nat) : list Z :=
  match medias g !! m with Some media => tracks media | None => [] end.

Definition set_tracks (m : nat) (l : list Z) (g : globals) : globals :=
  set_medias
    (alter (fun media => {| mrl := mrl media; id := id media; tracks := l |}) m (medias g)) g.

Section Program.
Context `{Headers}.

Definition fs_shutdown : prog globals unit :=
  g ← get;
  when (negb (playback g =? 0)%nat)
    (meth IFusionSoundPlayback_Release (playback g) [];; mret tt);;
  when (negb (stream g =? 0)%nat) (meth IFusionSoundStream_Release (stream g) [];; mret tt);;
  when (negb (sound g =? 0)%nat) (meth IFusionSound_Release (sound g) [];; mret tt);;
  tty ← lib isatty [];
  when (negb (a_int tty =? 0)) (lib tcsetattr [];; mret tt).

(** The [for] loop of [main] over [argv[i]], from [args = argv[i..]]; [id] is
    the local counter of media. *)
Fixpoint parse_command_line (args : list string) (id : Z) : prog globals unit :=
  match args with
  | [] => mret tt
  | arg :: rest =>
      match after_dash arg with
      | Some opt =>
          if strcmp0 opt "-help" then emit Usage;; exit (Code 0)
          else if strcmp0 opt "-quiet" then
            modify (set_quiet 1);; parse_command_line rest id
          else if strcmp0 opt "-depth=" then
            a ← lib atoi [];
            (if a_int a =? 8 then modify (set_sampleformat FSSF_U8)
             else if a_int a =? 16 then modify (set_sampleformat FSSF_S16)
             else if a_int a =? 24 then modify (set_sampleformat FSSF_S24)
             else if a_int a =? 32 then modify (set_sampleformat FSSF_S32)
             else mret tt);;
            parse_command_line rest id
          else if strncmp0 opt "-gain=" then
            modify (set_gain (Some (String.substring 6 (String.length opt) opt)));;
            parse_command_line rest id
          else parse_command_line rest id
      | None =>
          modify (fun g => set_medias
            (medias g ++ [{| mrl := arg; id := id; tracks := [] |}]) g);;
          parse_command_line rest (id + 1)
      end
  end.

(** [if (!pitch) { SetVolume( 0 ); SetPitch( 1 ); }] *)
Definition unfreeze : prog globals unit :=
  g ← get;
  when (zero_double (main_pitch g))
    (meth IFusionSoundPlayback_SetVolume (playback g) [];;
     meth IFusionSoundPlayback_SetPitch (playback g) [];;
     mret tt).

(** The [switch (c)] on a character read from the terminal, while track [t]
    of media [m] plays; [len] is the length of the track. *)
Definition on_key (c : Z) (m t : nat) (len : Qc) : prog globals unit :=
  g ← get;
  if c =? 112 (* 'p' *) then
    meth IFusionSoundMusicProvider_PlayToStream (music g) [Z.of_nat (stream g)];; mret tt
  else if c =? 115 (* 's' *) then
    unfreeze;;
    meth IFusionSoundMusicProvider_Stop (music g) [];;
    when (zero_double (main_pitch g))
      (meth IFusionSoundPlayback_SetPitch (playback g) [];;
       meth IFusionSoundPlayback_SetVolume (playback g) [];;
       mret tt)
  else if c =? 102 (* 'f' *) then
    meth IFusionSoundMusicProvider_GetPos (music g) [];;
    meth IFusionSoundMusicProvider_SeekTo (music g) [];;
    mret tt
  else if c =? 98 (* 'b' *) then
    meth IFusionSoundMusicProvider_GetPos (music g) [];;
    meth IFusionSoundMusicProvider_SeekTo (music g) [];;
    mret tt
  else if (48 <=? c) && (c <=? 57) (* '0' ... '9' *) then
    when (negb (zero_double len))
      (meth IFusionSoundMusicProvider_SeekTo (music g) [];; mret tt)
  else if (c =? 60 (* '<' *)) || (c =? 62 (* '>' *)) then
    when (c =? 60)
      (if (t =? 0)%nat
       then modify (set_main_media_next (link_prev (length (medias g)) m))
       else modify (set_main_track_next (link_prev (length (tracks_of g m)) t)));;
    unfreeze;;
    meth IFusionSoundMusicProvider_Stop (music g) [];;
    modify (set_main_status FMSTATE_FINISHED)
  else if c =? 108 (* 'l' *) then
    modify (set_main_flags (Z.lxor (main_flags g) FMPLAY_LOOPING));;
    meth IFusionSoundMusicProvider_SetPlaybackFlags (music g)
      [Z.lxor (main_flags g) FMPLAY_LOOPING];;
    mret tt
  else if c =? 114 (* 'r' *) then
    modify (set_main_repeat (if main_repeat g =? 0 then 1 else 0))
  else if c =? 45 (* '-' *) then
    let volume := (main_volume g - Q2Qc (1 # 32))%Qc in
    modify (set_main_volume (if negative_double volume then 0%Qc else volume));;
    meth IFusionSoundPlayback_SetVolume (playback g) [];;
    mret tt
  else if c =? 43 (* '+' *) then
    let volume := (main_volume g + Q2Qc (1 # 32))%Qc in
    modify (set_main_volume (if above_64 volume then Q2Qc 64 else volume));;
    meth IFusionSoundPlayback_SetVolume (playback g) [];;
    mret tt
  else if c =? 47 (* '/' *) then
    let pitch := (main_pitch g - Q2Qc (1 # 32))%Qc in
    modify (set_main_pitch (if negative_double pitch then 0%Qc else pitch));;
    meth IFusionSoundPlayback_SetPitch (playback g) [];;
    mret tt
  else if c =? 42 (* '*' *) then
    let pitch := (main_pitch g + Q2Qc (1 # 32))%Qc in
    modify (set_main_pitch (if above_64 pitch then Q2Qc 64 else pitch));;
    meth IFusionSoundPlayback_SetPitch (playback g) [];;
    mret tt
  else if is_one_of c [113 (* 'q' *); 81 (* 'Q' *); 27 (* '\033' *)] then
    modify (set_main_quit 1);;
    modify (set_main_status FMSTATE_FINISHED)
  else mret tt.

(** [while ((c = getc( stdin )) > 0) { switch (c) ... }] *)
Fixpoint read_keys (fuel : nat) (m t : nat) (len : Qc) : prog globals unit :=
  match fuel with
  | O => spin
  | S fuel' =>
      c ← lib getc [];
      if a_int c >? 0 then on_key (a_int c) m t len;; read_keys fuel' m t len
      else mret tt
  end.

(** The body of [do { ... } while (status != FMSTATE_FINISHED)].  The volume
    and pitch indicators of the progress line only change what is printed
    and are left out. *)
Definition poll (fuel : nat) (m t : nat) (len : Qc) : prog globals unit :=
  g ← get;
  st ← meth IFusionSoundMusicProvider_GetStatus (music g) [];
  modify (set_main_status (a_int st));;
  when (quiet g =? 0)
    (meth IFusionSoundStream_GetStatus (stream g) [];;
     meth IFusionSoundMusicProvider_GetPos (music g) [];;
     emit (Printf "Time"));;
  tty ← lib isatty [];
  if negb (a_int tty =? 0) then
    lib select [];;
    read_keys fuel m t len
  else
    lib usleep [40000];; mret tt.

Fixpoint poll_loop (fuel : nat) (m t : nat) (len : Qc) : prog globals unit :=
  match fuel with
  | O => spin
  | S fuel' =>
      poll fuel' m t len;;
      g ← get;
      if negb (main_status g =? FMSTATE_FINISHED) then poll_loop fuel' m t len
      else mret tt
  end.

(** What a round of the loop over the tracks ends with. *)
Inductive flow := Next | Break.

(** The body of the loop over the tracks, for track [t] of media [m]. *)
Definition play_track (fuel : nat) (m t : nat) : prog globals flow :=
  g ← get;
  modify (set_main_track_next (link_next (length (tracks_of g m)) t));;
  ret ← meth IFusionSoundMusicProvider_SelectTrack (music g) [nth t (tracks_of g m) 0];
  if negb (is_ok (a_ret ret)) then mret Next else
  sdsc ← meth IFusionSoundMusicProvider_GetStreamDescription (music g) [];
  let channels := a_int sdsc in
  let format := if negb (sampleformat g =? 0) then sampleformat g else a_int2 sdsc in
  let samplerate := a_int3 sdsc in
  when (negb (stream g =? 0)%nat)
    (dsc ← meth IFusionSoundStream_GetDescription (stream g) [];
     when (negb (a_int dsc =? channels) || negb (a_int2 dsc =? format) ||
           negb (a_int3 dsc =? samplerate))
       (meth IFusionSoundStream_Wait (stream g) [0];;
        meth IFusionSoundPlayback_Release (playback g) [];;
        modify (set_playback 0);;
        meth IFusionSoundStream_Release (stream g) [];;
        modify (set_stream 0)));;
  g ← get;
  created_or_kept ←
    (if (stream g =? 0)%nat then
       '(a, s) ← meth_new IFusionSound_CreateStream (sound g)
                   [channels; format; samplerate] (stream g);
       modify (set_stream s);;
       if negb (is_ok (a_ret a)) then
         emit (Error "CreateStream failed" (a_ret a));; mret false
       else
         meth IFusionSoundStream_GetDescription s [];;
         '(_, p) ← meth_new IFusionSoundStream_GetPlayback s [] (playback g);
         modify (set_playback p);;
         mret true
     else mret true);
  if negb created_or_kept then mret Break else
  g ← get;
  desc ← meth IFusionSoundMusicProvider_GetTrackDescription (music g) [];
  match gain g with
  | Some gain =>
      if strcmp0 gain "track" then
        when (positive_double (a_flt desc)) (modify (set_main_volume (a_flt desc)))
      else if strcmp0 gain "album" then
        when (positive_double (a_flt2 desc)) (modify (set_main_volume (a_flt2 desc)))
      else mret tt
  | None => mret tt
  end;;
  meth IFusionSoundPlayback_SetVolume (playback g) [];;
  meth IFusionSoundPlayback_SetPitch (playback g) [];;
  ret ← meth IFusionSoundMusicProvider_PlayToStream (music g) [Z.of_nat (stream g)];
  if negb (is_ok (a_ret ret)) then
    emit (Error "PlayToStream failed" (a_ret ret));; mret Break
  else
  when (quiet g =? 0) (emit (Printf "Track"));;
  len ← meth IFusionSoundMusicProvider_GetLength (music g) [];
  poll_loop fuel m t (a_flt len);;
  when (quiet g =? 0) (emit (Printf "\n"));;
  mret Next.

(** [for (track = media->tracks; track;) { ... }] *)
Fixpoint track_loop (fuel : nat) (m : nat) (track : option nat) : prog globals unit :=
  match fuel with
  | O => spin
  | S fuel' =>
      match track with
      | None => mret tt
      | Some t =>
          r ← play_track fuel' m t;
          match r with
          | Break => mret tt
          | Next => g ← get; track_loop fuel' m (main_track_next g)
          end
      end
  end.

(** The body of the loop over the medias, for the media at position [m]. *)
Definition play_media (fuel : nat) (m : nat) : prog globals unit :=
  g ← get;
  modify (set_main_media_next (link_next (length (medias g)) m));;
  '(ret, p) ← meth_new IFusionSound_CreateMusicProvider (sound g) [] (music g);
  modify (set_music p);;
  if negb (is_ok (a_ret ret)) then mret tt else
  FSCHECK 248 "music->EnumTracks( music, track_cb, media )" a_ret
    (a ← meth IFusionSoundMusicProvider_EnumTracks p [];
     modify (fun g => set_tracks m (tracks_of g m ++ a_tracks a) g);;
     mret a);;
  when (quiet g =? 0) (emit (Printf "Media"));;
  g ← get;
  track_loop fuel m (list_first (length (tracks_of g m)));;
  meth IFusionSoundMusicProvider_Release p [];;
  modify (set_music 0);;
  modify (set_tracks m []).

(** [for (media = medias; media && !quit;) { ... }] *)
Fixpoint media_loop (fuel : nat) (media : option nat) : prog globals unit :=
  match fuel with
  | O => spin
  | S fuel' =>
      g ← get;
      match media with
      | None => mret tt
      | Some m =>
          if negb (main_quit g =? 0) then mret tt
          else
            play_media fuel' m;;
            g ← get;
            media_loop fuel' (main_media_next g)
      end
  end.

(** [do { ... } while (repeat && !quit)] *)
Fixpoint playlist_loop (fuel : nat) : prog globals unit :=
  match fuel with
  | O => spin
  | S fuel' =>
      g ← get;
      media_loop fuel' (list_first (length (medias g)));;
      g ← get;
      if negb (main_repeat g =? 0) && (main_quit g =? 0) then playlist_loop fuel'
      else mret tt
  end.

Definition main (fuel : nat) (argv argv' : list string) : prog globals Z :=
  if argc argv <? 2 then emit Usage;; exit (Code 0) else
  FSCHECK 154 "FusionSoundInit( &argc, &argv )" a_ret (lib FusionSoundInit []);;
  parse_command_line (tail argv') 0;;
  g ← get;
  match medias g with
  | [] => emit Usage;; exit (Code 1)
  | _ =>
      tty ← lib isatty [];
      when (negb (a_int tty =? 0)) (lib tcgetattr [];; lib tcsetattr [];; mret tt);;
      '(_, h) ← FSCHECK 226 "FusionSoundCreate( &sound )" ret_of
         (lib_new FusionSoundCreate [] 0);
      modify (set_sound h);;
      playlist_loop fuel;;
      fs_shutdown;;
      exit (Code 0)
  end.

End Program.
End MusicSample.

(** ** fs_music_sample.c, the revision that can step backwards *)

Module MusicSampleDir.

(** [Media]; its tracks are the [FSTrackID]s of its [MediaTrack] list. *)
Record Media := { mrl : string; id : Z; tracks : list Z }.

(** The globals of the file and the locals of [main]. *)
Record globals := {
  sound : nat;
  stream : nat;
  playback : nat;
  medias : list Media;
  quiet : Z;
  sampleformat : Z;
  gain : option string;
  main_flags : Z;
  main_dir : Z;
  main_repeat : Z;
  main_volume : Qc;
  main_pitch : Qc;
  main_quit : Z;
  main_media_next : option nat;
  main_track_next : option nat;
  main_status : Z
}.

Definition set_sound (v : nat) (g : globals) : globals :=
  {| sound := v; stream := stream g; playback := playback g;
     medias := medias g; quiet := quiet g; sampleformat := sampleformat g;
     gain := gain g; main_flags := main_flags g; main_dir := main_dir g;
     main_repeat := main_repeat g; main_volume := main_volume g;
     main_pitch := main_pitch g; main_quit := main_quit g;
     main_media_next := main_media_next g;
     main_track_next := main_track_next g; main_status := main_status g |}.

Definition set_stream (v : nat) (g : globals) : globals :=
  {| sound := sound g; stream := v; playback := playback g;
     medias := medias g; quiet := quiet g; sampleformat := sampleformat g;
     gain := gain g; main_flags := main_flags g; main_dir := main_dir g;
     main_repeat := main_repeat g; main_volume := main_volume g;
     main_pitch := main_pitch g; main_quit := main_quit g;
     main_media_next := main_media_next g;
     main_track_next := main_track_next g; main_status := main_status g |}.

Definition set_playback (v : nat) (g : globals) : globals :=
  {| sound := sound g; stream := stream g; playback := v; medias := medias g;
     quiet := quiet g; sampleformat := sampleformat g; gain := gain g;
     main_flags := main_flags g; main_dir := main_dir g;
     main_repeat := main_repeat g; main_volume := main_volume g;
     main_pitch := main_pitch g; main_quit := main_quit g;
     main_media_next := main_media_next g;
     main_track_next := main_track_next g; main_status := main_status g |}.

Definition set_medias (v : list Media) (g : globals) : globals :=
  {| sound := sound g; stream := stream g; playback := playback g;
     medias := v; quiet := quiet g; sampleformat := sampleformat g;
     gain := gain g; main_flags := main_flags g; main_dir := main_dir g;
     main_repeat := main_repeat g; main_volume := main_volume g;
     main_pitch := main_pitch g; main_quit := main_quit g;
     main_media_next := main_media_next g;
     main_track_next := main_track_next g; main_status := main_status g |}.

Definition set_quiet (v : Z) (g : globals) : globals :=
  {| sound := sound g; stream := stream g; playback := playback g;
     medias := medias g; quiet := v; sampleformat := sampleformat g;
     gain := gain g; main_flags := main_flags g; main_dir := main_dir g;
     main_repeat := main_repeat g; main_volume := main_volume g;
     main_pitch := main_pitch g; main_quit := main_quit g;
     main_media_next := main_media_next g;
     main_track_next := main_track_next g; main_status := main_status g |}.

Definition set_sampleformat (v : Z) (g : globals) : globals :=
  {| sound := sound g; stream := stream g; playback := playback g;
     medias := medias g; quiet := quiet g; sampleformat := v; gain := gain g;
     main_flags := main_flags g; main_dir := main_dir g;
     main_repeat := main_repeat g; main_volume := main_volume g;
     main_pitch := main_pitch g; main_quit := main_quit g;
     main_media_next := main_media_next g;
     main_track_next := main_track_next g; main_status := main_status g |}.

Definition set_gain (v : option string) (g : globals) : globals :=
  {| sound := sound g; stream := stream g; playback := playback g;
     medias := medias g; quiet := quiet g; sampleformat := sampleformat g;
     gain := v; main_flags := main_flags g; main_dir := main_dir g;
     main_repeat := main_repeat g; main_volume := main_volume g;
     main_pitch := main_pitch g; main_quit := main_quit g;
     main_media_next := main_media_next g;
     main_track_next := main_track_next g; main_status := main_status g |}.

Definition set_main_flags (v : Z) (g : globals) : globals :=
  {| sound := sound g; stream := stream g; playback := playback g;
     medias := medias g; quiet := quiet g; sampleformat := sampleformat g;
     gain := gain g; main_flags := v; main_dir := main_dir g;
     main_repeat := main_repeat g; main_volume := main_volume g;
     main_pitch := main_pitch g; main_quit := main_quit g;
     main_media_next := main_media_next g;
     main_track_next := main_track_next g; main_status := main_status g |}.

Definition set_main_dir (v : Z) (g : globals) : globals :=
  {| sound := sound g; stream := stream g; playback := playback g;
     medias := medias g; quiet := quiet g; sampleformat := sampleformat g;
     gain := gain g; main_flags := main_flags g; main_dir := v;
     main_repeat := main_repeat g; main_volume := main_volume g;
     main_pitch := main_pitch g; main_quit := main_quit g;
     main_media_next := main_media_next g;
     main_track_next := main_track_next g; main_status := main_status g |}.

Definition set_main_repeat (v : Z) (g : globals) : globals :=
  {| sound := sound g; stream := stream g; playback := playback g;
     medias := medias g; quiet := quiet g; sampleformat := sampleformat g;
     gain := gain g; main_flags := main_flags g; main_dir := main_dir g;
     main_repeat := v; main_volume := main_volume g;
     main_pitch := main_pitch g; main_quit := main_quit g;
     main_media_next := main_media_next g;
     main_track_next := main_track_next g; main_status := main_status g |}.

Definition set_main_volume (v : Qc) (g : globals) : globals :=
  {| sound := sound g; stream := stream g; playback := playback g;
     medias := medias g; quiet := quiet g; sampleformat := sampleformat g;
     gain := gain g; main_flags := main_flags g; main_dir := main_dir g;
     main_repeat := main_repeat g; main_volume := v;
     main_pitch := main_pitch g; main_quit := main_quit g;
     main_media_next := main_media_next g;
     main_track_next := main_track_next g; main_status := main_status g |}.

Definition set_main_pitch (v : Qc) (g : globals) : globals :=
  {| sound := sound g; stream := stream g; playback := playback g;
     medias := medias g; quiet := quiet g; sampleformat := sampleformat g;
     gain := gain g; main_flags := main_flags g; main_dir := main_dir g;
     main_repeat := main_repeat g; main_volume := main_volume g;
     main_pitch := v; main_quit := main_quit g;
     main_media_next := main_media_next g;
     main_track_next := main_track_next g; main_status := main_status g |}.

Definition set_main_quit (v : Z) (g : globals) : globals :=
  {| sound := sound g; stream := stream g; playback := playback g;
     medias := medias g; quiet := quiet g; sampleformat := sampleformat g;
     gain := gain g; main_flags := main_flags g; main_dir := main_dir g;
     main_repeat := main_repeat g; main_volume := main_volume g;
     main_pitch := main_pitch g; main_quit := v;
     main_media_next := main_media_next g;
     main_track_next := main_track_next g; main_status := main_status g |}.

Definition set_main_media_next (v : option nat) (g : globals) : globals :=
  {| sound := sound g; stream := stream g; playback := playback g;
     medias := medias g; quiet := quiet g; sampleformat := sampleformat g;
     gain := gain g; main_flags := main_flags g; main_dir := main_dir g;
     main_repeat := main_repeat g; main_volume := main_volume g;
     main_pitch := main_pitch g; main_quit := main_quit g;
     main_media_next := v; main_track_next := main_track_next g;
     main_status := main_status g |}.

Definition set_main_track_next (v : option nat) (g : globals) : globals :=
  {| sound := sound g; stream := stream g; playback := playback g;
     medias := medias g; quiet := quiet g; sampleformat := sampleformat g;
     gain := gain g; main_flags := main_flags g; main_dir := main_dir g;
     main_repeat := main_repeat g; main_volume := main_volume g;
     main_pitch := main_pitch g; main_quit := main_quit g;
     main_media_next := main_media_next g; main_track_next := v;
     main_status := main_status g |}.

Definition set_main_status (v : Z) (g : globals) : globals :=
  {| sound := sound g; stream := stream g; playback := playback g;
     medias := medias g; quiet := quiet g; sampleformat := sampleformat g;
     gain := gain g; main_flags := main_flags g; main_dir := main_dir g;
     main_repeat := main_repeat g; main_volume := main_volume g;
     main_pitch := main_pitch g; main_quit := main_quit g;
     main_media_next := main_media_next g;
     main_track_next := main_track_next g; main_status := v |}.


Definition init : globals :=
  {| sound := 0; stream := 0; playback := 0; medias := [];
     quiet := 0; sampleformat := FSSF_UNKNOWN; gain := None;
     main_flags := FMPLAY_NOFX; main_dir := 1; main_repeat := 0;
     main_volume := 1%Qc; main_pitch := 1%Qc; main_quit := 0;
     main_media_next := None; main_track_next := None; main_status := 0 |}.

(** [media->tracks] of the media at position [m] *)
Definition tracks_of (g : globals) (m : nat) : list Z :=
  match medias g !! m with Some media => tracks media | None => [] end.

Definition set_tracks (m : nat) (l : list Z) (g : globals) : globals :=
  set_medias
    (alter (fun media => {| mrl := mrl media; id := id media; tracks := l |}) m (medias g)) g.

Section Program.
Context `{Headers}.

Definition fs_shutdown : prog globals unit :=
  g ← get;
  when (negb (playback g =? 0)%nat)
    (meth IFusionSoundPlayback_Release (playback g) [];; mret tt);;
  when (negb (stream g =? 0)%nat) (meth IFusionSoundStream_Release (stream g) [];; mret tt);;
  when (negb (sound g =? 0)%nat) (meth IFusionSound_Release (sound g) [];; mret tt);;
  tty ← lib isatty [];
  when (negb (a_int tty =? 0)) (lib tcsetattr [];; mret tt).

(** The [for] loop of [main] over [argv[i]], from [args = argv[i..]]; [id] is
    the local counter of media. *)
Fixpoint parse_command_line (args : list string) (id : Z) : prog globals unit :=
  match args with
  | [] => mret tt
  | arg :: rest =>
      match after_dash arg with
      | Some opt =>
          if strcmp0 opt "-help" then emit Usage;; exit (Code 0)
          else if strcmp0 opt "-quiet" then
            modify (set_quiet 1);; parse_command_line rest id
          else if strncmp0 opt "-depth=" then
            a ← lib atoi [];
            (if a_int a =? 8 then modify (set_sampleformat FSSF_U8)
             else if a_int a =? 16 then modify (set_sampleformat FSSF_S16)
             else if a_int a =? 24 then modify (set_sampleformat FSSF_S24)
             else if a_int a =? 32 then modify (set_sampleformat FSSF_S32)
             else mret tt);;
            parse_command_line rest id
          else if strncmp0 opt "-gain=" then
            modify (set_gain (Some (String.substring 6 (String.length opt) opt)));;
            parse_command_line rest id
          else parse_command_line rest id
      | None =>
          modify (fun g => set_medias
            (medias g ++ [{| mrl := arg; id := id; tracks := [] |}]) g);;
          parse_command_line rest (id + 1)
      end
  end.

(** [if (!pitch) { SetVolume( 0 ); SetPitch( 1 ); }] *)
Definition unfreeze : prog globals unit :=
  g ← get;
  when (zero_double (main_pitch g))
    (meth IFusionSoundPlayback_SetVolume (playback g) [];;
     meth IFusionSoundPlayback_SetPitch (playback g) [];;
     mret tt).

(** The [switch (c)] on a character read from the terminal, while track [t]
    of media [m] plays on [music_provider]; [len] is the length of the track. *)
Definition on_key (music_provider : nat) (c : Z) (m t : nat) (len : Qc)
  : prog globals unit :=
  g ← get;
  if c =? 112 (* 'p' *) then
    meth IFusionSoundMusicProvider_PlayToStream music_provider [Z.of_nat (stream g)];;
    mret tt
  else if c =? 115 (* 's' *) then
    unfreeze;;
    meth IFusionSoundMusicProvider_Stop music_provider [];;
    when (zero_double (main_pitch g))
      (meth IFusionSoundPlayback_SetPitch (playback g) [];;
       meth IFusionSoundPlayback_SetVolume (playback g) [];;
       mret tt)
  else if c =? 102 (* 'f' *) then
    meth IFusionSoundMusicProvider_GetPos music_provider [];;
    meth IFusionSoundMusicProvider_SeekTo music_provider [];;
    mret tt
  else if c =? 98 (* 'b' *) then
    meth IFusionSoundMusicProvider_GetPos music_provider [];;
    meth IFusionSoundMusicProvider_SeekTo music_provider [];;
    mret tt
  else if (48 <=? c) && (c <=? 57) (* '0' ... '9' *) then
    when (negb (zero_double len))
      (meth IFusionSoundMusicProvider_SeekTo music_provider [];; mret tt)
  else if (c =? 60 (* '<' *)) || (c =? 62 (* '>' *)) then
    when (c =? 60)
      (if (t =? 0)%nat then
         modify (set_main_track_next None);;
         (if (m =? 0)%nat
          then modify (set_main_media_next None)
          else modify (set_main_media_next (link_prev (length (medias g)) m)))
       else modify (set_main_track_next (link_prev (length (tracks_of g m)) t)));;
    modify (set_main_dir (if negb (c =? 60) then 1 else -1));;
    unfreeze;;
    meth IFusionSoundMusicProvider_Stop music_provider [];;
    modify (set_main_status FMSTATE_FINISHED)
  else if c =? 108 (* 'l' *) then
    modify (set_main_flags (Z.lxor (main_flags g) FMPLAY_LOOPING));;
    meth IFusionSoundMusicProvider_SetPlaybackFlags music_provider
      [Z.lxor (main_flags g) FMPLAY_LOOPING];;
    mret tt
  else if c =? 114 (* 'r' *) then
    modify (set_main_repeat (if main_repeat g =? 0 then 1 else 0))
  else if c =? 45 (* '-' *) then
    let volume := (main_volume g - Q2Qc (1 # 32))%Qc in
    modify (set_main_volume (if negative_double volume then 0%Qc else volume));;
    meth IFusionSoundPlayback_SetVolume (playback g) [];;
    mret tt
  else if c =? 43 (* '+' *) then
    let volume := (main_volume g + Q2Qc (1 # 32))%Qc in
    modify (set_main_volume (if above_64 volume then Q2Qc 64 else volume));;
    meth IFusionSoundPlayback_SetVolume (playback g) [];;
    mret tt
  else if c =? 47 (* '/' *) then
    let pitch := (main_pitch g - Q2Qc (1 # 32))%Qc in
    modify (set_main_pitch (if negative_double pitch then 0%Qc else pitch));;
    meth IFusionSoundPlayback_SetPitch (playback g) [];;
    mret tt
  else if c =? 42 (* '*' *) then
    let pitch := (main_pitch g + Q2Qc (1 # 32))%Qc in
    modify (set_main_pitch (if above_64 pitch then Q2Qc 64 else pitch));;
    meth IFusionSoundPlayback_SetPitch (playback g) [];;
    mret tt
  else if is_one_of c [113 (* 'q' *); 81 (* 'Q' *); 27 (* '\033' *)] then
    modify (set_main_quit 1);;
    modify (set_main_status FMSTATE_FINISHED)
  else mret tt.

(** [while ((c = getc( stdin )) > 0) { switch (c) ... }] *)
Fixpoint read_keys (fuel : nat) (music_provider m t : nat) (len : Qc)
  : prog globals unit :=
  match fuel with
  | O => spin
  | S fuel' =>
      c ← lib getc [];
      if a_int c >? 0 then
        on_key music_provider (a_int c) m t len;;
        read_keys fuel' music_provider m t len
      else mret tt
  end.

(** The body of [do { ... } while (status != FMSTATE_FINISHED)].  The volume
    and pitch indicators of the progress line only change what is printed
    and are left out. *)
Definition poll (fuel : nat) (music_provider m t : nat) (len : Qc) : prog globals unit :=
  g ← get;
  st ← meth IFusionSoundMusicProvider_GetStatus music_provider [];
  modify (set_main_status (a_int st));;
  when (quiet g =? 0)
    (meth IFusionSoundStream_GetStatus (stream g) [];;
     meth IFusionSoundMusicProvider_GetPos music_provider [];;
     emit (Printf "Time"));;
  tty ← lib isatty [];
  if negb (a_int tty =? 0) then
    lib select [];;
    read_keys fuel music_provider m t len
  else
    lib usleep [40000];; mret tt.

Fixpoint poll_loop (fuel : nat) (music_provider m t : nat) (len : Qc)
  : prog globals unit :=
  match fuel with
  | O => spin
  | S fuel' =>
      poll fuel' music_provider m t len;;
      g ← get;
      if negb (main_status g =? FMSTATE_FINISHED)
      then poll_loop fuel' music_provider m t len
      else mret tt
  end.

(** What a round of the loop over the tracks ends with. *)
Inductive flow := Next | Break.

(** The body of the loop over the tracks, for track [t] of media [m]. *)
Definition play_track (fuel : nat) (music_provider m t : nat) : prog globals flow :=
  g ← get;
  modify (set_main_track_next (link_next (length (tracks_of g m)) t));;
  ret ← meth IFusionSoundMusicProvider_SelectTrack music_provider [nth t (tracks_of g m) 0];
  if negb (is_ok (a_ret ret)) then mret Next else
  sdsc ← meth IFusionSoundMusicProvider_GetStreamDescription music_provider [];
  let channels := a_int sdsc in
  let format := if negb (sampleformat g =? 0) then sampleformat g else a_int2 sdsc in
  let samplerate := a_int3 sdsc in
  when (negb (stream g =? 0)%nat)
    (dsc ← meth IFusionSoundStream_GetDescription (stream g) [];
     when (negb (a_int dsc =? channels) || negb (a_int2 dsc =? format) ||
           negb (a_int3 dsc =? samplerate))
       (meth IFusionSoundStream_Wait (stream g) [0];;
        meth IFusionSoundPlayback_Release (playback g) [];;
        modify (set_playback 0);;
        meth IFusionSoundStream_Release (stream g) [];;
        modify (set_stream 0)));;
  g ← get;
  created_or_kept ←
    (if (stream g =? 0)%nat then
       '(a, s) ← meth_new IFusionSound_CreateStream (sound g)
                   [channels; format; samplerate] (stream g);
       modify (set_stream s);;
       if negb (is_ok (a_ret a)) then
         emit (Error "CreateStream failed" (a_ret a));; mret false
       else
         meth IFusionSoundStream_GetDescription s [];;
         '(_, p) ← meth_new IFusionSoundStream_GetPlayback s [] (playback g);
         modify (set_playback p);;
         mret true
     else mret true);
  if negb created_or_kept then mret Break else
  g ← get;
  desc ← meth IFusionSoundMusicProvider_GetTrackDescription music_provider [];
  match gain g with
  | Some gain =>
      if strcmp0 gain "track" then
        when (positive_double (a_flt desc)) (modify (set_main_volume (a_flt desc)))
      else if strcmp0 gain "album" then
        when (positive_double (a_flt2 desc)) (modify (set_main_volume (a_flt2 desc)))
      else mret tt
  | None => mret tt
  end;;
  meth IFusionSoundPlayback_SetVolume (playback g) [];;
  meth IFusionSoundPlayback_SetPitch (playback g) [];;
  ret ← meth IFusionSoundMusicProvider_PlayToStream music_provider [Z.of_nat (stream g)];
  if negb (is_ok (a_ret ret)) then
    emit (Error "PlayToStream failed" (a_ret ret));; mret Break
  else
  when (quiet g =? 0) (emit (Printf "Track"));;
  len ← meth IFusionSoundMusicProvider_GetLength music_provider [];
  poll_loop fuel music_provider m t (a_flt len);;
  when (quiet g =? 0) (emit (Printf "\n"));;
  mret Next.

(** [for (track = dir > 0 ? media->tracks : last; track && !quit;) { ... }] *)
Fixpoint track_loop (fuel : nat) (music_provider m : nat) (track : option nat)
  : prog globals unit :=
  match fuel with
  | O => spin
  | S fuel' =>
      g ← get;
      match track with
      | None => mret tt
      | Some t =>
          if negb (main_quit g =? 0) then mret tt
          else
            r ← play_track fuel' music_provider m t;
            match r with
            | Break => mret tt
            | Next => g ← get; track_loop fuel' music_provider m (main_track_next g)
            end
      end
  end.

(** The body of the loop over the medias, for the media at position [m]. *)
Definition play_media (fuel : nat) (m : nat) : prog globals unit :=
  g ← get;
  modify (set_main_media_next (link_next (length (medias g)) m));;
  '(ret, music_provider) ← meth_new IFusionSound_CreateMusicProvider (sound g) [] 0;
  if negb (is_ok (a_ret ret)) then mret tt else
  FSCHECK 252 "music_provider->EnumTracks( music_provider, track_cb, media )" a_ret
    (a ← meth IFusionSoundMusicProvider_EnumTracks music_provider [];
     modify (fun g => set_tracks m (tracks_of g m ++ a_tracks a) g);;
     mret a);;
  when (quiet g =? 0) (emit (Printf "Media"));;
  g ← get;
  track_loop fuel music_provider m
    (if main_dir g >? 0 then list_first (length (tracks_of g m))
     else direct_list_get_last (length (tracks_of g m)));;
  meth IFusionSoundMusicProvider_Release music_provider [];;
  modify (set_tracks m []).

(** [for (media = dir > 0 ? medias : last; media && !quit;) { ... }] *)
Fixpoint media_loop (fuel : nat) (media : option nat) : prog globals unit :=
  match fuel with
  | O => spin
  | S fuel' =>
      g ← get;
      match media with
      | None => mret tt
      | Some m =>
          if negb (main_quit g =? 0) then mret tt
          else
            play_media fuel' m;;
            g ← get;
            media_loop fuel' (main_media_next g)
      end
  end.

(** [do { ... } while (repeat && !quit)] *)
Fixpoint playlist_loop (fuel : nat) : prog globals unit :=
  match fuel with
  | O => spin
  | S fuel' =>
      g ← get;
      media_loop fuel'
        (if main_dir g >? 0 then list_first (length (medias g))
         else direct_list_get_last (length (medias g)));;
      g ← get;
      if negb (main_repeat g =? 0) && (main_quit g =? 0) then playlist_loop fuel'
      else mret tt
  end.

Definition main (fuel : nat) (argv argv' : list string) : prog globals Z :=
  if argc argv <? 2 then emit Usage;; exit (Code 0) else
  FSCHECK 154 "FusionSoundInit( &argc, &argv )" a_ret (lib FusionSoundInit []);;
  parse_command_line (tail argv') 0;;
  g ← get;
  match medias g with
  | [] => emit Usage;; exit (Code 1)
  | _ =>
      tty ← lib isatty [];
      when (negb (a_int tty =? 0)) (lib tcgetattr [];; lib tcsetattr [];; mret tt);;
      '(_, h) ← FSCHECK 226 "FusionSoundCreate( &sound )" ret_of
         (lib_new FusionSoundCreate [] 0);
      modify (set_sound h);;
      atexit;;
      playlist_loop fuel;;
      exit (Code 0)
  end.

End Program.
End MusicSampleDir.

(** ** Processes *)

(** A whole run of a program: [main], then, if [atexit] registered it and the
    process ends through [exit] or a return from [main], the shutdown
    function. *)
Definition returned {G} (n : Z) (w : world G) : world G :=
  World (glob w) (Halt (Code n) :: log w) (hooked w).

Definition process {G} (main : prog G Z) (shutdown : prog G unit) : prog G Z :=
  fun o w =>
    let at_exit c w' :=
      if hooked w' then
        match shutdown o w' with
        | Ret _ w'' => Exit c w''
        | Exit c' w'' => Exit c' w''
        | Spin w'' => Spin w''
        end
      else Exit c w' in
    match main o w with
    | Ret n w' => at_exit (Code n) (returned n w')
    | Exit Segv w' => Exit Segv w'
    | Exit c w' => at_exit c w'
    | Spin w' => Spin w'
    end.

(** The state a process starts in. *)
Definition start {G} (g : G) : world G := World g [] false.

(** The world an outcome ends in. *)
Definition final {G A} (r : outcome G A) : world G :=
  match r with
  | Ret _ w => w
  | Exit _ w => w
  | Spin w => w
  end.

Section Programs.
Context `{Headers}.

Definition df_video_sample (fuel : nat) (argv argv' : list string) :=
  process (VideoSample.main fuel argv argv') VideoSample.dfb_shutdown.

Definition df_image_sample (fuel : nat) (argv argv' : list string) :=
  process (ImageSample.main fuel argv argv') ImageSample.dfb_shutdown.

Definition df_image_multi (fuel : nat) (argv argv' : list string) :=
  process (ImageMulti.main fuel argv argv') ImageMulti.dfb_shutdown.

Definition df_video_multi (fuel : nat) (argv argv' : list string) :=
  process (VideoMulti.main fuel argv argv') VideoMulti.dfb_shutdown.

Definition df_font_sample (fuel : nat) (argv argv' : list string) :=
  process (FontSample.main fuel argv argv') FontSample.dfb_shutdown.

Definition df_databuffer (argv argv' : list string) :=
  process (Databuffer.main argv argv') Databuffer.dfb_shutdown.

Definition df_databuffer_old (argv argv' : list string) :=
  process (DatabufferOld.main argv argv') DatabufferOld.dfb_shutdown.

Definition fs_music_sample (fuel : nat) (argv argv' : list string) :=
  process (MusicSample.main fuel argv argv') MusicSample.fs_shutdown.

Definition fs_music_sample_dir (fuel : nat) (argv argv' : list string) :=
  process (MusicSampleDir.main fuel argv argv') MusicSampleDir.fs_shutdown.

End Programs.

(** ** Specifications of runs *)

(** What is assumed of the library: a relation between a call (the log before
    it, the function, the object, the arguments) and the answers it may
    give. *)
Definition libspec := list entry -> libfn -> nat -> list Z -> answer -> Prop.

Definition obeys (L : libspec) (o : oracle) : Prop :=
  forall l f self args, L l f self args (o l f self args).

(** Nothing is assumed. *)
Definition any_library : libspec := fun _ _ _ _ _ => True.

(** [wp L m Q w]: from [w], against every library that obeys [L], the outcome
    of [m] satisfies [Q]. *)
Definition wp {G A} (L : libspec) (m : prog G A) (Q : outcome G A -> Prop)
    (w : world G) : Prop :=
  forall o, obeys L o -> Q (m o w).

(** [triple L P m Q J]: from a world in [P], [m] returns in [Q], and ends or
    is still running in [J]. *)
Definition post {G A} (Q : A -> world G -> Prop) (J : world G -> Prop)
    (r : outcome G A) : Prop :=
  match r with
  | Ret a w => Q a w
  | Exit _ w => J w
  | Spin w => J w
  end.

Definition triple {G A} (L : libspec) (P : world G -> Prop) (m : prog G A)
    (Q : A -> world G -> Prop) (J : world G -> Prop) : Prop :=
  forall w, P w -> wp L m (post Q J) w.

(** [m] keeps [I], however it ends. *)
Definition preserves {G A} (L : libspec) (I : world G -> Prop) (m : prog G A) : Prop :=
  triple L I m (fun _ => I) I.

(** A property of the log alone. *)
Definition on_log {G} (M : list entry -> Prop) : world G -> Prop :=
  fun w => M (log w).

(** ** The order of the calls of a run *)

(** Calls that convert an argument of the command line. *)
Definition is_conversion (f : libfn) : bool :=
  match f with
  | sscanf | strtol | atoi | dfb_pixelformat_parse => true
  | _ => false
  end.

(** [DirectFBInit] / [FusionSoundInit], which parse the options of the
    library in [argv]. *)
Definition is_init (f : libfn) : bool :=
  match f with DirectFBInit | FusionSoundInit => true | _ => false end.

(** The creation of the main interface. *)
Definition is_open (f : libfn) : bool :=
  match f with DirectFBCreate | FusionSoundCreate => true | _ => false end.

(** The release of the main interface. *)
Definition is_close (f : libfn) : bool :=
  match f with IDirectFB_Release | IFusionSound_Release => true | _ => false end.

(** The creation of a provider, a font or a data buffer: loading a media
    resource. *)
Definition is_load (f : libfn) : bool :=
  match f with
  | IDirectFB_CreateImageProvider | IDirectFB_CreateVideoProvider
  | IDirectFB_CreateFont | IDirectFB_CreateDataBuffer
  | IDirectFBDataBuffer_CreateFont | IDirectFBDataBuffer_CreateImageProvider
  | IDirectFBDataBuffer_CreateVideoProvider
  | IFusionSound_CreateMusicProvider => true
  | _ => false
  end.

(** Rendering or playing. *)
Definition is_play (f : libfn) : bool :=
  match f with
  | IDirectFBImageProvider_RenderTo | IDirectFBVideoProvider_PlayTo
  | IFusionSoundMusicProvider_PlayToStream
  | IDirectFBSurface_DrawString | IDirectFBSurface_DrawGlyph => true
  | _ => false
  end.

(** Polling for input: the event buffer, or the terminal in the music
    player. *)
Definition is_poll (f : libfn) : bool :=
  match f with
  | IDirectFBEventBuffer_WaitForEvent | IDirectFBEventBuffer_WaitForEventWithTimeout
  | IDirectFBEventBuffer_GetEvent | select | getc => true
  | _ => false
  end.

(** Calls on the terminal. *)
Definition is_terminal (f : libfn) : bool :=
  match f with isatty | tcgetattr | tcsetattr => true | _ => false end.

(** Some entry of the log is a call of a function in [p] (that succeeded,
    for [succeeded]). *)
Definition called (p : libfn -> bool) (l : list entry) : bool :=
  existsb (fun e => match e with Lib f _ _ _ => p f | _ => false end) l.

Definition succeeded (p : libfn -> bool) (l : list entry) : bool :=
  existsb (fun e => match e with Lib f _ _ a => p f && is_ok (a_ret a) | _ => false end) l.

(** Whether a call of [f] may follow the log [before]:
    - arguments are parsed before the main interface is created;
    - the main interface is created once, after the library has seen [argv];
    - media are loaded only once the main interface exists;
    - input is polled only after something was rendered or played;
    - once the main interface is released only the terminal is touched. *)
Definition allowed (f : libfn) (before : list entry) : bool :=
  (if is_conversion f || is_init f then negb (succeeded is_open before) else true) &&
  (if is_open f then called is_init before && negb (succeeded is_open before) else true) &&
  (if is_load f then succeeded is_open before else true) &&
  (if is_poll f then called is_play before else true) &&
  (if called is_close before then is_terminal f else true).

(** The log (newest entry first) respects that order throughout. *)
Fixpoint in_order (l : list entry) : bool :=
  match l with
  | [] => true
  | Lib f _ _ _ :: before => allowed f before && in_order before
  | _ :: before => in_order before
  end.

(** The number of threads a run has created. *)
Definition is_thread_create (e : entry) : bool :=
  match e with Lib direct_thread_create _ _ a => is_ok (a_ret a) | _ => false end.

Definition threads_created (l : list entry) : nat :=
  length (filter (fun e => is_thread_create e = true) l).

(** The same order, followed along the run: what has happened so far. *)
Record order_state := {
  ordered : bool;  (* no call so far came out of order *)
  inited : bool;   (* the library has parsed [argv] *)
  opened : bool;   (* the main interface was created *)
  played : bool;   (* something was rendered or played *)
  closed : bool    (* the main interface was released *)
}.

Definition order_start : order_state :=
  {| ordered := true; inited := false; opened := false; played := false;
     closed := false |}.

Definition order_step (e : entry) (s : order_state) : order_state :=
  match e with
  | Lib f _ _ a =>
      {| ordered :=
           (if is_conversion f || is_init f then negb (opened s) else true) &&
           (if is_open f then inited s && negb (opened s) else true) &&
           (if is_load f then opened s else true) &&
           (if is_poll f then played s else true) &&
           (if closed s then is_terminal f else true) && ordered s;
         inited := is_init f || inited s;
         opened := is_open f && is_ok (a_ret a) || opened s;
         played := is_play f || played s;
         closed := is_close f || closed s |}
  | _ => s
  end.

Definition order_of (l : list entry) : order_state := foldr order_step order_start l.

(** What holds of the order along the phases of a program: before the
    library has seen [argv], while the arguments are parsed, between the
    creation and the release of the main interface ([rendered] tells that
    something was rendered or played), and at any time. *)
Definition starting_phase (l : list entry) : Prop :=
  order_of l = order_start.

Definition parsing_phase (l : list entry) : Prop :=
  ordered (order_of l) = true /\ inited (order_of l) = true /\
  opened (order_of l) = false /\ closed (order_of l) = false.

Definition running_phase (rendered : bool) (l : list entry) : Prop :=
  ordered (order_of l) = true /\ inited (order_of l) = true /\
  opened (order_of l) = true /\ closed (order_of l) = false /\
  (rendered = true -> played (order_of l) = true).

Definition orderly (l : list entry) : Prop := ordered (order_of l) = true.

(** A property of the log and of whether [atexit] has registered the shutdown
    function. *)
Definition on_trace {G} (M : list entry -> bool -> Prop) : world G -> Prop :=
  fun w => M (log w) (hooked w).

(** [m] keeps the property [I] of the trace, and ends or is still running
    only in [J]. *)
Definition keeps {G A} (L : libspec) (I J : list entry -> bool -> Prop)
    (m : prog G A) : Prop :=
  triple L (on_trace I) m (fun _ => on_trace I) (on_trace J).

(** An entry that is not a call of the library. *)
Definition silent (e : entry) : Prop :=
  match e with Lib _ _ _ _ => False | _ => True end.

(** An entry that is output of the program: neither a call nor the end of
    the process. *)
Definition output (e : entry) : Prop :=
  match e with Lib _ _ _ _ | Halt _ => False | _ => True end.

(** Every way to end. *)
Definition always (c : status) : Prop := True.

(** The ways to end that are not a return from [main] or [exit( n )]. *)
Definition abnormal (c : status) : Prop :=
  match c with Code _ => False | _ => True end.

(** The phases, with the registration of the shutdown function
    ([hooked]): it is registered once the main interface exists, and a
    process that ends with the function registered has not released the main
    interface itself. *)
Definition starting (l : list entry) (hooked : bool) : Prop :=
  starting_phase l /\ hooked = false.

Definition parsing (l : list entry) (hooked : bool) : Prop :=
  parsing_phase l /\ hooked = false.

Definition running (registered rendered : bool) (l : list entry) (hooked : bool) : Prop :=
  running_phase rendered l /\ hooked = registered.

Definition closing (l : list entry) (hooked : bool) : Prop :=
  orderly l /\ hooked = false.

Definition ending (l : list entry) (hooked : bool) : Prop :=
  orderly l /\ (hooked = true -> running_phase false l).

Definition ended (l : list entry) (hooked : bool) : Prop := orderly l.

(** The calls that may be made in each phase. *)
Definition runs_ok (rendered : bool) (f : libfn) : Prop :=
  is_conversion f = false /\ is_init f = false /\ is_open f = false /\
  is_close f = false /\ (is_poll f = true -> rendered = true).

Definition parses_ok (f : libfn) : Prop :=
  is_open f = false /\ is_close f = false /\ is_load f = false /\
  is_poll f = false.

Definition closes_ok (f : libfn) : Prop := is_terminal f = true.

Definition never_ok (f : libfn) : Prop := False.

(** The two calls that the properties below single out: the creation of a
    thread and the setting of the colour adjustment. *)
Definition special (f : libfn) : bool :=
  match f with
  | direct_thread_create | IDirectFBVideoProvider_SetColorAdjustment => true
  | _ => false
  end.

(** The ordinary calls of a running program. *)
Definition plain (rendered : bool) (f : libfn) : Prop :=
  runs_ok rendered f /\ special f = false.

(** Any call but the two. *)
Definition common (f : libfn) : Prop := special f = false.

(** [I] holds along a part of a run and [J] when the process has ended or is
    cut off: the calls in [good] and the output keep [I], and a process that
    crashes or fails fatally in [I] ends in [J]. *)
Record invariant (good : libfn -> Prop) (I J : list entry -> bool -> Prop) : Prop := {
  inv_weaken : forall l h, I l h -> J l h;
  inv_lib : forall f self args a l h, good f -> I l h -> I (Lib f self args a :: l) h;
  inv_output : forall e l h, output e -> I l h -> I (e :: l) h;
  inv_crash : forall c l h, abnormal c -> I l h -> J (Halt c :: l) h
}.

(** [exit( n )] in [I] ends in [J]. *)
Definition may_exit (I J : list entry -> bool -> Prop) : Prop :=
  forall n l h, I l h -> J (Halt (Code n) :: l) h.

(** The calls of the parsing of the command line. *)
Definition arguments_ok (f : libfn) : Prop := parses_ok f /\ special f = false.

(** A property of the globals. *)
Definition on_glob {G} (P : G -> Prop) : world G -> Prop :=
  fun w => P (glob w).

(** [m] keeps the property [P] of the globals, whatever the library
    answers. *)
Definition holds {G A} (P : G -> Prop) (m : prog G A) : Prop :=
  triple any_library (on_glob P) m (fun _ => on_glob P) (fun _ => True).

(** df_image_multi.c and df_video_multi.c: [mrl_count] is the length of
    [mrl_list]. *)
Definition ImageMulti_counted (g : ImageMulti.globals) : Prop :=
  ImageMulti.mrl_count g = Z.of_nat (length (ImageMulti.mrl_list g)).

Definition VideoMulti_counted (g : VideoMulti.globals) : Prop :=
  VideoMulti.mrl_count g = Z.of_nat (length (VideoMulti.mrl_list g)).

(** A property of the trace together with a property of the globals. *)
Definition at_ {G} (I : list entry -> bool -> Prop) (P : G -> Prop) : world G -> Prop :=
  fun w => on_trace I w /\ on_glob P w.

(** df_font_sample.c: the page is still to be drawn. *)
Definition FontSample_to_draw (g : FontSample.globals) : Prop :=
  FontSample.update g = 1.

(** ** Threads *)

(** At most [n] threads have been created. *)
Definition threads_at_most (n : nat) (l : list entry) (hooked : bool) : Prop :=
  (threads_created l <= n)%nat.

(** Any call but [direct_thread_create]. *)
Definition no_thread (f : libfn) : Prop := f <> direct_thread_create.

(** What the streamer thread calls: its name, the file, the clock, the random
    numbers and the data buffer. *)
Definition is_pacing (f : libfn) : bool :=
  match f with
  | direct_thread_self_name | direct_file_open | direct_file_read | direct_file_close
  | usleep | rand
  | IDirectFBDataBuffer_GetLength | IDirectFBDataBuffer_PutData
  | IDirectFBDataBuffer_Finish => true
  | _ => false
  end.

Definition pacing_call (f : libfn) : Prop := is_pacing f = true.

(** Every call of the log is one of them. *)
Definition only_pacing (l : list entry) (hooked : bool) : Prop :=
  Forall (fun e => match e with Lib f _ _ _ => is_pacing f = true | _ => True end) l.

(** ** The pacing of the streamer *)

Definition is_finish (f : libfn) : bool :=
  match f with IDirectFBDataBuffer_Finish => true | _ => false end.

(** [Finish] has been called. *)
Definition finished (l : list entry) : bool := called is_finish l.

(** The number of calls of [Finish]. *)
Definition is_finish_call (e : entry) : bool :=
  match e with Lib f _ _ _ => is_finish f | _ => false end.

Definition finishes (l : list entry) : nat :=
  length (filter (fun e => is_finish_call e = true) l).

(** The last call read the end of the file. *)
Definition at_eof (l : list entry) : bool :=
  match l with
  | Lib direct_file_read _ _ a :: _ => a_int a <=? 0
  | _ => false
  end.

(** One call of the streamer, after [before]:
    - [usleep] waits 1000 microseconds or more;
    - [PutData] comes right after a read of at least one byte, which came
      after [GetLength] answered less than 64 KiB;
    - [Finish] comes right after a read of no byte, and only once;
    - after the end of the file was read nothing but [Finish] follows, and
      after [Finish] no more waiting, measuring, reading or writing. *)
Definition paced_call (f : libfn) (args : list Z) (before : list entry) : bool :=
  match f with
  | usleep =>
      negb (finished before) && negb (at_eof before) &&
      match args with [usec] => 1000 <=? usec | _ => false end
  | IDirectFBDataBuffer_GetLength | rand | direct_file_read =>
      negb (finished before) && negb (at_eof before)
  | IDirectFBDataBuffer_PutData =>
      negb (finished before) &&
      match before with
      | Lib direct_file_read _ _ r :: Lib rand _ _ _
          :: Lib IDirectFBDataBuffer_GetLength _ _ len :: _ =>
          (0 <? a_int r) && (a_int len <? 64 * 1024)
      | _ => false
      end
  | IDirectFBDataBuffer_Finish =>
      negb (finished before) && at_eof before
  | _ => true
  end.

Fixpoint paced (l : list entry) : bool :=
  match l with
  | [] => true
  | Lib f _ args _ :: before => paced_call f args before && paced before
  | _ :: before => paced before
  end.

(** The streamer is in its loop: nothing read at the end of the file yet. *)
Definition pacing (l : list entry) : Prop :=
  paced l = true /\ finished l = false /\ at_eof l = false.

(** What a run of the streamer ends in: paced throughout, and [Finish] called
    when the thread function returns. *)
Definition streamer_post {G} (r : outcome G unit) : Prop :=
  match r with
  | Ret _ w => paced (log w) = true /\ finished (log w) = true
  | Exit _ w => paced (log w) = true
  | Spin w => paced (log w) = true
  end.

(** [Finish] is called once when the thread function returns, and at most
    once otherwise. *)
Definition finished_once {G} (r : outcome G unit) : Prop :=
  match r with
  | Ret _ w => finishes (log w) = 1%nat
  | Exit _ w => (finishes (log w) <= 1)%nat
  | Spin w => (finishes (log w) <= 1)%nat
  end.

(** ** Colour adjustment *)

(** A level after an adjustment by [step]: moved and clamped when its flag is
    selected, left alone otherwise. *)
Definition level_ok (selected : bool) (step old new : Z) : Prop :=
  if selected then new = CLAMP (old + step) 0 0xffff /\ 0 <= new <= 0xffff
  else new = old.

Section Colours.
Context `{Headers}.

(** The arguments of [SetColorAdjustment], given what [GetColorAdjustment]
    answered. *)
Definition adjustment_ok (old : DFBColorAdjustment) (args : list Z) : Prop :=
  exists flags step b c h s,
    args = [flags; b; c; h; s] /\ (step = 257 \/ step = -257) /\
    level_ok (has flags DCAF_BRIGHTNESS) step (brightness old) b /\
    level_ok (has flags DCAF_CONTRAST) step (contrast old) c /\
    level_ok (has flags DCAF_HUE) step (hue old) h /\
    level_ok (has flags DCAF_SATURATION) step (saturation old) s.

(** Every [SetColorAdjustment] of the log comes right after a successful
    [GetColorAdjustment] on the same provider and adjusts what that call
    answered. *)
Fixpoint colours_ok (l : list entry) : Prop :=
  match l with
  | [] => True
  | Lib IDirectFBVideoProvider_SetColorAdjustment self args _ :: before =>
      match before with
      | Lib IDirectFBVideoProvider_GetColorAdjustment self' _ a :: _ =>
          self' = self /\ is_ok (a_ret a) = true /\ adjustment_ok (a_adj a) args
      | _ => False
      end /\ colours_ok before
  | _ :: before => colours_ok before
  end.

Definition colours (l : list entry) (hooked : bool) : Prop := colours_ok l.

End Colours.

(** ** Where the windows are placed *)

(** The position that a call of [CreateWindow] asks for. *)
Definition window_position (e : entry) : option (Z * Z) :=
  match e with
  | Lib IDirectFBDisplayLayer_CreateWindow _ (x :: y :: _) _ => Some (x, y)
  | _ => None
  end.

(** The positions of the windows of a run, in the order of their creation. *)
Definition positions (l : list entry) : list (Z * Z) :=
  omap window_position (reverse l).

(** The [k]-th position, counting from 0, is [(dx * k, dy * k)]. *)
Definition linear (dx dy : Z) (ps : list (Z * Z)) : Prop :=
  forall (k : nat) pos, ps !! k = Some pos -> pos = (dx * Z.of_nat k, dy * Z.of_nat k).

(** [i] windows have been created so far, along the line. *)
Definition lined (dx dy : Z) (i : nat) (l : list entry) (hooked : bool) : Prop :=
  linear dx dy (positions l) /\ length (positions l) = i.

Definition in_line (dx dy : Z) (l : list entry) (hooked : bool) : Prop :=
  linear dx dy (positions l).

(** The identifiers that [GetID] has answered. *)
Definition window_id_of (e : entry) : option nat :=
  match e with
  | Lib IDirectFBWindow_GetID _ _ a => Some (a_id a)
  | _ => None
  end.

Definition ids_of (l : list entry) : list nat := omap window_id_of l.

(** What is assumed of the library for the placement: the identifier of a
    window differs from the identifiers handed out before. *)
Definition fresh_ids : libspec :=
  fun l f self args a =>
    match f with
    | IDirectFBWindow_GetID => a_id a ∉ ids_of l
    | _ => True
    end.

(** A library that numbers its windows 1, 2, 3, ... and otherwise succeeds
    without handing anything back. *)
Definition numbering : oracle :=
  fun l f self args =>
    match f with
    | IDirectFBWindow_GetID => ans_id (S (foldr Nat.max 0%nat (ids_of l)))
    | _ => ans DFB_OK
    end.

(** Any call but [CreateWindow] and [GetID]. *)
Definition not_window (f : libfn) : Prop :=
  f <> IDirectFBDisplayLayer_CreateWindow /\ f <> IDirectFBWindow_GetID.

(** [i] windows are placed along the line and the identifiers handed out are
    [ids]. *)
Definition handed (ids : list nat) (l : list entry) (hooked : bool) : Prop :=
  ids_of l = ids.

Definition placing (dx dy : Z) (i : nat) (ids : list nat) (l : list entry)
    (hooked : bool) : Prop :=
  lined dx dy i l hooked /\ handed ids l hooked.

(** A registry of [j] windows, all under identifiers of [ids]. *)
Definition registry {V} (j : nat) (ids : list nat) (stack : gmap nat V) : Prop :=
  size stack = j /\ forall id, is_Some (stack !! id) -> id ∈ ids.

Definition ImageMulti_registry (j : nat) (ids : list nat) (g : ImageMulti.globals) : Prop :=
  registry j ids (ImageMulti.stack g).

Definition VideoMulti_registry (j : nat) (ids : list nat) (g : VideoMulti.globals) : Prop :=
  registry j ids (VideoMulti.stack g).

(** The windows are placed along the line, and as many are registered as
    were created. *)
Definition ImageMulti_placed (w : world ImageMulti.globals) : Prop :=
  exists i ids, at_ (placing 32 18 i ids) (ImageMulti_registry i ids) w.

Definition VideoMulti_placed (w : world VideoMulti.globals) : Prop :=
  exists i ids, at_ (placing 32 18 i ids) (VideoMulti_registry i ids) w.

(** Any call but [CreateWindow]. *)
Definition not_create (f : libfn) : Prop := f <> IDirectFBDisplayLayer_CreateWindow.

(** Any call but [GetID]. *)
Definition not_get_id (f : libfn) : Prop := f <> IDirectFBWindow_GetID.

(** No condition on the trace. *)
Definition anything (l : list entry) (hooked : bool) : Prop := True.

(** The windows created so far are at [ps]. *)
Definition positioned (ps : list (Z * Z)) (l : list entry) (hooked : bool) : Prop :=
  positions l = ps.

(** ** Libraries to run the programs against *)

(** A library that succeeds in everything and hands back nothing. *)
Definition all_ok : oracle := fun _ _ _ _ => ans DFB_OK.

(** The number of events that [GetEvent] has handed out. *)
Definition is_fetch (e : entry) : bool :=
  match e with
  | Lib IDirectFBEventBuffer_GetEvent _ _ a => is_ok (a_ret a)
  | _ => false
  end.

Definition fetched (l : list entry) : nat :=
  length (filter (fun e => is_fetch e = true) l).

(** A library that numbers its windows and hands out the events of a
    script, one for each call of [GetEvent], until the script is used up. *)
Definition script (events : list DFBWindowEvent) : oracle :=
  fun l f self args =>
    match f with
    | IDirectFBEventBuffer_GetEvent =>
        match events !! fetched l with
        | Some e => ans_evt e
        | None => ans DFB_BUFFEREMPTY
        end
    | _ => numbering l f self args
    end.

Definition key_press (symbol : Z) : DFBWindowEvent :=
  {| evt_type := DWET_KEYDOWN; window_id := 0%nat; key_symbol := symbol;
     modifiers := 0; evt_x := 0; evt_y := 0 |}.

Definition close_of (id : nat) : DFBWindowEvent :=
  {| evt_type := DWET_CLOSE; window_id := id; key_symbol := 0;
     modifiers := 0; evt_x := 0; evt_y := 0 |}.

Definition is_create_font (f : libfn) : bool :=
  match f with IDirectFB_CreateFont => true | _ => false end.

(** A library in which only the first font can be created. *)
Definition one_font : oracle :=
  fun l f self args =>
    match f with
    | IDirectFB_CreateFont =>
        if called is_create_font l then ans DFB_FAILURE else ans DFB_OK
    | _ => ans DFB_OK
    end.

(** A library whose media have one track each, which is over at once, and
    that has no terminal. *)
Definition one_track `{Headers} : oracle :=
  fun l f self args =>
    match f with
    | IFusionSoundMusicProvider_EnumTracks => ans_tracks [1]
    | IFusionSoundMusicProvider_GetStatus => ans_int DFB_OK FMSTATE_FINISHED
    | _ => ans DFB_OK
    end.

(** ** One fixed sequence of phases *)

Definition is_release (f : libfn) : bool :=
  match f with
  | IDirectFB_Release | IDirectFBDisplayLayer_Release | IDirectFBWindow_Release
  | IDirectFBSurface_Release | IDirectFBEventBuffer_Release | IDirectFBFont_Release
  | IDirectFBImageProvider_Release | IDirectFBVideoProvider_Release
  | IFusionSound_Release | IFusionSoundMusicProvider_Release
  | IFusionSoundStream_Release | IFusionSoundPlayback_Release
  | direct_hash_destroy | direct_thread_destroy => true
  | _ => false
  end.

(** The phase a call belongs to: 0 parsing the arguments, 1 opening the main
    interface, 2 loading the media, 3 rendering or playing, 4 polling for
    events, 5 releasing. *)
Definition phase_of (f : libfn) : option nat :=
  if is_conversion f || is_init f then Some 0%nat
  else if is_open f then Some 1%nat
  else if is_load f then Some 2%nat
  else if is_play f then Some 3%nat
  else if is_poll f then Some 4%nat
  else if is_release f then Some 5%nat
  else None.

Definition phase_of_entry (e : entry) : option nat :=
  match e with Lib f _ _ _ => phase_of f | _ => None end.

Fixpoint never_back (phases : list nat) : bool :=
  match phases with
  | p :: ((q :: _) as rest) => (p <=? q)%nat && never_back rest
  | _ => true
  end.

(** The calls of the run go through the phases once, in that order. *)
Definition fixed_order (l : list entry) : bool :=
  never_back (omap phase_of_entry (reverse l)).

(** ** Fatal errors *)

(** The log reports a fatal error. *)
Definition is_fatal (e : entry) : bool :=
  match e with ErrorFatal _ _ => true | _ => false end.

Definition fatal (l : list entry) : bool := existsb is_fatal l.

(** A function came back to its caller without a fatal error. *)
Definition went_on {G A} (r : outcome G A) : bool :=
  match r with
  | Ret _ w => negb (fatal (log w))
  | _ => false
  end.

(** A call of the log failed. *)
Definition is_failure (e : entry) : bool :=
  match e with Lib _ _ _ a => negb (is_ok (a_ret a)) | _ => false end.

Definition failed (l : list entry) : bool := existsb is_failure l.

(** ** The navigation state of the font sample *)

(** [first_glyph] is a glyph index, [current_font] an index into the list of
    font files, and a page has at least one glyph each way. *)
Definition FontSample_navigable (g : FontSample.globals) : Prop :=
  0 <= FontSample.first_glyph g <= 0xffff /\
  0 <= FontSample.current_font g < FontSample.fontfile_count g /\
  1 <= FontSample.glyphs_per_xline g /\
  1 <= FontSample.glyphs_per_yline g.

(** A page is no longer than the range of the glyph indices. *)
Definition FontSample_page_fits (g : FontSample.globals) : Prop :=
  FontSample.GLYPHS_PER_PAGE g <= 0x10000.

(** The keys of a session: [n] times [+], then page up, then escape. *)
Definition zooming_out `{Headers} (n : nat) : list DFBWindowEvent :=
  map key_press (repeat DIKS_PLUS_SIGN n ++ [DIKS_PAGE_UP; DIKS_ESCAPE]).

(** ** Failing calls *)

(** The world in which the macro leaves a run whose call at [line] came back
    with [r]: the call site and the error are printed and the process has
    exited. *)
Definition aborted {G} (line : Z) (x : string) (r : DFBResult) (w : world G) : world G :=
  World (glob w) (Halt (Failed r) :: ErrorFatal x r :: Site line :: log w) (hooked w).

(** A library in which a font can be created only as long as none was. *)
Definition only_first_font : libspec :=
  fun l f self args a =>
    f = IDirectFB_CreateFont -> is_ok (a_ret a) = negb (called is_create_font l).

(** A library that finds no music provider for any file. *)
Definition no_provider : libspec :=
  fun l f self args a =>
    f = IFusionSound_CreateMusicProvider -> is_ok (a_ret a) = false.

Definition unsupported : oracle :=
  fun l f self args =>
    match f with
    | IFusionSound_CreateMusicProvider => ans DFB_UNSUPPORTED
    | _ => ans DFB_OK
    end.

(** ** Leaving the event loop *)

(** The newest call of the log that polled for input. *)
Fixpoint last_poll (l : list entry) : option entry :=
  match l with
  | [] => None
  | Lib f self args a :: before =>
      if is_poll f then Some (Lib f self args a) else last_poll before
  | _ :: before => last_poll before
  end.

(** The keys that quit a program. *)
Definition is_quit_key `{Headers} (evt : DFBWindowEvent) : bool :=
  match evt_type evt with
  | DWET_KEYDOWN =>
      is_one_of (DFB_LOWER_CASE (key_symbol evt))
        [DIKS_ESCAPE; DIKS_SMALL_Q; DIKS_BACK; DIKS_STOP; DIKS_EXIT]
  | _ => false
  end.

(** A quit key, or the closing of a window. *)
Definition is_quit_or_close `{Headers} (evt : DFBWindowEvent) : bool :=
  match evt_type evt with
  | DWET_CLOSE => true
  | _ => is_quit_key evt
  end.

(** The call handed out an event that is in [quit]. *)
Definition quits (quit : DFBWindowEvent -> bool) (e : entry) : bool :=
  match e with
  | Lib IDirectFBEventBuffer_GetEvent _ _ a => is_ok (a_ret a) && quit (a_evt a)
  | _ => false
  end.

(** After [before] the process may end with an exit code: nothing was polled
    yet, or the newest poll handed out an event of [quit]. *)
Definition may_end (quit : DFBWindowEvent -> bool) (before : list entry) : bool :=
  match last_poll before with
  | None => true
  | Some e => quits quit e
  end.

(** Wherever the log has the end of the process with an exit code, the
    process might end. *)
Fixpoint quit_ends (quit : DFBWindowEvent -> bool) (l : list entry) : bool :=
  match l with
  | [] => true
  | Halt (Code _) :: before => may_end quit before && quit_ends quit before
  | _ :: before => quit_ends quit before
  end.

(** The invariants of a run along its phases: before the first poll, while
    the event [evt] is handled, and at any time. *)
Definition unpolled (quit : DFBWindowEvent -> bool) (l : list entry) (hooked : bool) : Prop :=
  quit_ends quit l = true /\ last_poll l = None.

Definition handling (quit : DFBWindowEvent -> bool) (evt : DFBWindowEvent)
    (l : list entry) (hooked : bool) : Prop :=
  quit_ends quit l = true /\ (quit evt = true -> may_end quit l = true).

Definition quitting (quit : DFBWindowEvent -> bool) (l : list entry) (hooked : bool) : Prop :=
  quit_ends quit l = true.

(** Any call but a poll. *)
Definition not_poll (f : libfn) : Prop := is_poll f = false.

(** Any call. *)
Definition any_call (f : libfn) : Prop := True.

(** A library with one window, in which the user presses nothing. *)
Definition idle : oracle :=
  fun l f self args =>
    match f with
    | IDirectFBEventBuffer_GetEvent => ans DFB_BUFFEREMPTY
    | _ => numbering l f self args
    end.

(** df_image_multi.c with one window left, registered under the identifier
    1. *)
Definition last_window : world ImageMulti.globals :=
  World (ImageMulti.set_stack (direct_hash_insert 1%nat 5%nat ∅)
           (ImageMulti.set_mrl_count 1 ImageMulti.init))
        [] true.

(** ** The handles of a run *)

(** What a handle stands for. *)
Inductive kind :=
| KMain | KLayer | KWindow | KSurface | KEvents | KImage | KVideo | KFont
| KBuffer | KThread | KSound | KMusic | KStream | KPlayback.

#[global] Instance kind_eq_dec : EqDecision kind.
Proof. solve_decision. Defined.

(** The calls that hand out an object, through an out-parameter or as their
    result, and the calls that give one back.  The window table of
    direct/hash.h is not among them: it is kept as a finite map and its
    allocation is taken to succeed. *)
Definition creates (f : libfn) : option kind :=
  match f with
  | DirectFBCreate => Some KMain
  | IDirectFB_GetDisplayLayer => Some KLayer
  | IDirectFBDisplayLayer_CreateWindow => Some KWindow
  | IDirectFB_CreateSurface | IDirectFBWindow_GetSurface => Some KSurface
  | IDirectFB_CreateEventBuffer | IDirectFBWindow_CreateEventBuffer => Some KEvents
  | IDirectFB_CreateImageProvider | IDirectFBDataBuffer_CreateImageProvider => Some KImage
  | IDirectFB_CreateVideoProvider | IDirectFBDataBuffer_CreateVideoProvider => Some KVideo
  | IDirectFB_CreateFont | IDirectFBDataBuffer_CreateFont => Some KFont
  | IDirectFB_CreateDataBuffer => Some KBuffer
  | direct_thread_create => Some KThread
  | FusionSoundCreate => Some KSound
  | IFusionSound_CreateMusicProvider => Some KMusic
  | IFusionSound_CreateStream => Some KStream
  | IFusionSoundStream_GetPlayback => Some KPlayback
  | _ => None
  end.

Definition releases (f : libfn) : option kind :=
  match f with
  | IDirectFB_Release => Some KMain
  | IDirectFBDisplayLayer_Release => Some KLayer
  | IDirectFBWindow_Release => Some KWindow
  | IDirectFBSurface_Release => Some KSurface
  | IDirectFBEventBuffer_Release => Some KEvents
  | IDirectFBImageProvider_Release => Some KImage
  | IDirectFBVideoProvider_Release => Some KVideo
  | IDirectFBFont_Release => Some KFont
  | direct_thread_destroy => Some KThread
  | IFusionSound_Release => Some KSound
  | IFusionSoundMusicProvider_Release => Some KMusic
  | IFusionSoundStream_Release => Some KStream
  | IFusionSoundPlayback_Release => Some KPlayback
  | _ => None
  end.

(** The handles that are live, each with its kind, and whether every release
    so far was the release of a live handle by the call for its kind. *)
Record ledger := {
  live : list (nat * kind);
  clean : bool
}.

Definition holds_handle (h : nat) (k : kind) (hs : list (nat * kind)) : bool :=
  bool_decide ((h, k) ∈ hs).

Definition without (h : nat) (hs : list (nat * kind)) : list (nat * kind) :=
  filter (fun x => fst x <> h) hs.

(** The effect of the entry [e], the [n]-th of the log: the object that a
    call creates is the number of the call. *)
Definition ledger_step (n : nat) (e : entry) (s : ledger) : ledger :=
  match e with
  | Lib f self args a =>
      match creates f, releases f with
      | Some k, _ =>
          if is_ok (a_ret a) then {| live := (n, k) :: live s; clean := clean s |} else s
      | None, Some k =>
          if holds_handle self k (live s)
          then {| live := without self (live s); clean := clean s |}
          else {| live := live s; clean := false |}
      | None, None => s
      end
  | _ => s
  end.

Fixpoint ledger_of (l : list entry) : ledger :=
  match l with
  | [] => {| live := []; clean := true |}
  | e :: before => ledger_step (length l) e (ledger_of before)
  end.

(** Data buffers are never given back, and the programs keep no count of
    their threads. *)
Definition exempt (k : kind) : bool :=
  match k with KBuffer | KThread => true | _ => false end.

(** Every handle was given back exactly once, data buffers and threads
    apart. *)
Definition settled (l : list entry) : bool :=
  clean (ledger_of l) && forallb (fun x => exempt (snd x)) (live (ledger_of l)).

(** The handles that were never given back. *)
Definition leaked (l : list entry) : list (nat * kind) := live (ledger_of l).

(** The process has ended with an exit code. *)
Definition ends_with_code {G A} (r : outcome G A) : bool :=
  match r with Exit (Code _) _ => true | _ => false end.

(** The handles in [hs] are the live ones and every release so far was in
    order. *)
Definition owns_exactly (hs : list (nat * kind)) (l : list entry) : Prop :=
  clean (ledger_of l) = true /\ live (ledger_of l) ≡ₚ hs.

(** The same, not counting data buffers and threads that were left behind. *)
Definition owns (hs : list (nat * kind)) (l : list entry) : Prop :=
  exists junk, forallb (fun x => exempt (snd x)) junk = true /\
               owns_exactly (junk ++ hs) l.

Definition is_code_halt (e : entry) : bool :=
  match e with Halt (Code _) => true | _ => false end.

(** The log has the end of the process with an exit code. *)
Definition coded (l : list entry) : bool := existsb is_code_halt l.

(** While the program runs: it owns [hs], it has not ended with an exit
    code, the windows [ids] have got their identifiers, and [registered]
    tells whether [atexit] has registered the shutdown function. *)
Definition owning (registered : bool) (hs : list (nat * kind)) (ids : list nat)
    (l : list entry) (hooked : bool) : Prop :=
  owns hs l /\ coded l = false /\ ids ⊆ ids_of l /\ hooked = registered.

(** The process has not ended with an exit code. *)
Definition unended (l : list entry) (hooked : bool) : Prop := coded l = false.

(** A call that neither hands out nor gives back a handle. *)
Definition neutral (f : libfn) : Prop := creates f = None /\ releases f = None.

(** A program that exits has written its status to the log last. *)
Definition halting {G A} (m : prog G A) : Prop :=
  forall o w c w', m o w = Exit c w' -> exists l, log w' = Halt c :: l.

(** The handles [hs] are owned; nothing is said of how the process ends. *)
Definition having (hs : list (nat * kind)) (l : list entry) (hooked : bool) : Prop :=
  owns hs l.

(** The log ends with the end of the process, with an exit code. *)
Definition ended_now (l : list entry) : Prop :=
  exists n l', l = Halt (Code n) :: l' /\ coded l' = false.

(** How [main] may leave a process: not with an exit code, or with one and
    nothing to give back, or with [pending] for the shutdown function to
    start from. *)
Definition leaving {G} (pending : world G -> Prop) (w : world G) : Prop :=
  coded (log w) = false \/
  (ended_now (log w) /\ if hooked w then pending w else owns [] (log w)).

(** The handle [h], unless it is [NULL]. *)
Definition own_if (h : nat) (k : kind) : list (nat * kind) :=
  if (h =? 0)%nat then [] else [(h, k)].

(** *** df_databuffer.c *)

(** The interfaces that the globals point to. *)
Definition Databuffer_handles (d p s f i v : nat) (g : Databuffer.globals) : Prop :=
  Databuffer.dfb g = d /\ Databuffer.primary g = p /\ Databuffer.surface g = s /\
  Databuffer.font g = f /\ Databuffer.image_provider g = i /\
  Databuffer.video_provider g = v.

(** Between the tests: the main interface and the primary surface. *)
Definition Databuffer_pending (w : world Databuffer.globals) : Prop :=
  exists d p, at_ (having [(p, KSurface); (d, KMain)])
                (Databuffer_handles d p 0 0 0 0) w.

(** *** df_databuffer.c, the revision without options *)

(** The interfaces that the globals point to; the others are locals of the
    test functions. *)
Definition DatabufferOld_handles (d p : nat) (g : DatabufferOld.globals) : Prop :=
  DatabufferOld.dfb g = d /\ DatabufferOld.primary g = p.

Definition DatabufferOld_pending (w : world DatabufferOld.globals) : Prop :=
  exists d p, at_ (having [(p, KSurface); (d, KMain)]) (DatabufferOld_handles d p) w.

(** *** df_font_sample.c *)

(** The interfaces that the globals point to. *)
Definition FontSample_handles (d l w s e : nat) (g : FontSample.globals) : Prop :=
  FontSample.dfb g = d /\ FontSample.layer g = l /\ FontSample.window g = w /\
  FontSample.surface g = s /\ FontSample.event_buffer g = e.

(** In the event loop: the main interface, the layer, the window, its
    surface and its event buffer. *)
Definition FontSample_pending (w : world FontSample.globals) : Prop :=
  exists d l win s e,
    at_ (having [(e, KEvents); (s, KSurface); (win, KWindow); (l, KLayer); (d, KMain)])
      (FontSample_handles d l win s e) w.

(** The world after the keys [symbols] were pressed one after the other. *)
Definition FontSample_after_keys `{Headers} (symbols : list Z) (o : oracle)
    (w : world FontSample.globals) : world FontSample.globals :=
  fold_left (fun w symbol => final (FontSample.key_down symbol o w)) symbols w.

(** *** fs_music_sample.c *)

(** The interfaces that the globals point to; there is a playback only with
    a stream. *)
Definition MusicSample_handles (fs mu s p : nat) (g : MusicSample.globals) : Prop :=
  MusicSample.sound g = fs /\ MusicSample.music g = mu /\
  MusicSample.stream g = s /\ MusicSample.playback g = p /\
  (s = 0%nat -> p = 0%nat).

(** The handles of a player: the playback and the stream if there are any,
    the music provider [mu] if there is one, and the main interface. *)
Definition MusicSample_playing (fs mu : nat) (w : world MusicSample.globals) : Prop :=
  exists s p,
    at_ (owning false
           (own_if p KPlayback ++ own_if s KStream ++ own_if mu KMusic ++ [(fs, KSound)]) [])
        (MusicSample_handles fs mu s p) w.

(** No shutdown function is registered. *)
Definition nothing_pending {G} (w : world G) : Prop := False.

(** *** The music player with a playing direction *)

(** The interfaces that the globals point to; the music provider is a local
    of [main]. *)
Definition MusicSampleDir_handles (fs s p : nat) (g : MusicSampleDir.globals) : Prop :=
  MusicSampleDir.sound g = fs /\ MusicSampleDir.stream g = s /\
  MusicSampleDir.playback g = p /\ (s = 0%nat -> p = 0%nat).

Definition MusicSampleDir_playing (fs mu : nat) (w : world MusicSampleDir.globals) : Prop :=
  exists s p,
    at_ (owning true
           (own_if p KPlayback ++ own_if s KStream ++ own_if mu KMusic ++ [(fs, KSound)]) [])
        (MusicSampleDir_handles fs s p) w.

(** At the end of [main]: the playback and the stream if there are any, and
    the main interface. *)
Definition MusicSampleDir_pending (w : world MusicSampleDir.globals) : Prop :=
  exists fs s p,
    at_ (having (own_if p KPlayback ++ own_if s KStream ++ [(fs, KSound)]))
        (MusicSampleDir_handles fs s p) w.

(** *** The window stacks *)

(** The handles that the entries of a window stack hold. *)
Definition entries_handles {E} (handles_of : E -> list (nat * kind))
    (kvs : list (nat * E)) : list (nat * kind) :=
  flat_map (fun kv => handles_of (snd kv)) kvs.

Definition stack_handles {E} (handles_of : E -> list (nat * kind)) (st : gmap nat E)
  : list (nat * kind) :=
  entries_handles handles_of (map_to_list st).

(** The keys of the stack are identifiers that the library has handed
    out. *)
Definition known_ids {E} (st : gmap nat E) (ids : list nat) : Prop :=
  forall k, is_Some (st !! k) -> k ∈ ids.

(** *** df_image_sample.c *)

Definition ImageSample_entry_handles (e : ImageSample.stack_entry) : list (nat * kind) :=
  [(ImageSample.surface e, KSurface); (ImageSample.window e, KWindow)].

(** The interfaces that the globals point to. *)
Definition ImageSample_handles (d ly eb im fr lg ws : nat)
    (st : gmap nat ImageSample.stack_entry) (g : ImageSample.globals) : Prop :=
  ImageSample.dfb g = d /\ ImageSample.layer g = ly /\
  ImageSample.event_buffer g = eb /\ ImageSample.image g = im /\
  ImageSample.frame g = fr /\ ImageSample.logo g = lg /\
  ImageSample.window_stack g = ws /\ ImageSample.stack g = st.

(** What the program owns once its windows are up, in the order in which
    the shutdown function gives it back. *)
Definition ImageSample_owned (d ly eb im fr lg : nat)
    (st : gmap nat ImageSample.stack_entry) : list (nat * kind) :=
  stack_handles ImageSample_entry_handles st ++ own_if lg KSurface ++
  [(fr, KSurface); (im, KImage); (eb, KEvents); (ly, KLayer); (d, KMain)].

Definition ImageSample_showing (d ly eb im fr lg ws : nat)
    (w : world ImageSample.globals) : Prop :=
  exists st ids,
    at_ (owning false (ImageSample_owned d ly eb im fr lg st) ids)
        (ImageSample_handles d ly eb im fr lg ws st) w /\
    known_ids st ids.

(** *** df_video_sample.c *)

Definition VideoSample_entry_handles (e : VideoSample.stack_entry) : list (nat * kind) :=
  [(VideoSample.surface e, KSurface); (VideoSample.window e, KWindow)].

(** The interfaces that the globals point to. *)
Definition VideoSample_handles (d ly eb im fr lg ws : nat)
    (st : gmap nat VideoSample.stack_entry) (g : VideoSample.globals) : Prop :=
  VideoSample.dfb g = d /\ VideoSample.layer g = ly /\
  VideoSample.event_buffer g = eb /\ VideoSample.video g = im /\
  VideoSample.frame g = fr /\ VideoSample.logo g = lg /\
  VideoSample.window_stack g = ws /\ VideoSample.stack g = st.

(** What the program owns once its windows are up, in the order in which
    the shutdown function gives it back. *)
Definition VideoSample_owned (d ly eb im fr lg : nat)
    (st : gmap nat VideoSample.stack_entry) : list (nat * kind) :=
  stack_handles VideoSample_entry_handles st ++ own_if lg KSurface ++
  [(fr, KSurface); (im, KVideo); (eb, KEvents); (ly, KLayer); (d, KMain)].

Definition VideoSample_showing (d ly eb im fr lg ws : nat)
    (w : world VideoSample.globals) : Prop :=
  exists st ids,
    at_ (owning false (VideoSample_owned d ly eb im fr lg st) ids)
        (VideoSample_handles d ly eb im fr lg ws st) w /\
    known_ids st ids.

(** *** df_image_multi.c *)

(** An entry of the stack is the window. *)
Definition ImageMulti_entry_handles (window : nat) : list (nat * kind) :=
  [(window, KWindow)].

(** The interfaces that the globals point to. *)
Definition ImageMulti_handles (d ly eb lg ws : nat) (st : gmap nat nat)
    (g : ImageMulti.globals) : Prop :=
  ImageMulti.dfb g = d /\ ImageMulti.layer g = ly /\
  ImageMulti.event_buffer g = eb /\ ImageMulti.logo g = lg /\
  ImageMulti.window_stack g = ws /\ ImageMulti.stack g = st.

(** What the program owns once the table of its windows exists, in the order
    in which the shutdown function gives it back. *)
Definition ImageMulti_owned (d ly eb lg : nat) (st : gmap nat nat) : list (nat * kind) :=
  stack_handles ImageMulti_entry_handles st ++ own_if lg KSurface ++
  [(eb, KEvents); (ly, KLayer); (d, KMain)].

Definition ImageMulti_showing (d ly eb lg ws : nat) (w : world ImageMulti.globals) : Prop :=
  exists st ids,
    at_ (owning true (ImageMulti_owned d ly eb lg st) ids)
        (ImageMulti_handles d ly eb lg ws st) w /\
    known_ids st ids.

(** What the shutdown function starts from when the event loop has ended the
    process. *)
Definition ImageMulti_pending (w : world ImageMulti.globals) : Prop :=
  exists d ly eb lg ws st,
    at_ (having (ImageMulti_owned d ly eb lg st)) (ImageMulti_handles d ly eb lg ws st) w /\
    ws <> 0%nat.

(** *** df_video_multi.c *)

Definition VideoMulti_entry_handles (e : VideoMulti.stack_entry) : list (nat * kind) :=
  [(VideoMulti.video_provider e, KVideo); (VideoMulti.surface e, KSurface);
   (VideoMulti.window e, KWindow)].

(** The interfaces that the globals point to. *)
Definition VideoMulti_handles (d ly eb lg ws : nat) (st : gmap nat VideoMulti.stack_entry)
    (g : VideoMulti.globals) : Prop :=
  VideoMulti.dfb g = d /\ VideoMulti.layer g = ly /\
  VideoMulti.event_buffer g = eb /\ VideoMulti.logo g = lg /\
  VideoMulti.window_stack g = ws /\ VideoMulti.stack g = st.

(** What the program owns once the table of its windows exists, in the order
    in which the shutdown function gives it back. *)
Definition VideoMulti_owned (d ly eb lg : nat) (st : gmap nat VideoMulti.stack_entry)
  : list (nat * kind) :=
  stack_handles VideoMulti_entry_handles st ++ own_if lg KSurface ++
  [(eb, KEvents); (ly, KLayer); (d, KMain)].

Definition VideoMulti_showing (d ly eb lg ws : nat) (w : world VideoMulti.globals) : Prop :=
  exists st ids,
    at_ (owning true (VideoMulti_owned d ly eb lg st) ids)
        (VideoMulti_handles d ly eb lg ws st) w /\
    known_ids st ids.

Definition VideoMulti_pending (w : world VideoMulti.globals) : Prop :=
  exists d ly eb lg ws st,
    at_ (having (VideoMulti_owned d ly eb lg st)) (VideoMulti_handles d ly eb lg ws st) w /\
    ws <> 0%nat.

(** The entries of [st] are in [st'] with the same interfaces; only the
    progress of the logo may differ. *)
Definition VideoMulti_same_windows (st st' : gmap nat VideoMulti.stack_entry) : Prop :=
  forall k e, st !! k = Some e ->
    exists e0, st' !! k = Some e0 /\
               VideoMulti_entry_handles e0 = VideoMulti_entry_handles e.

(** The state during the loop over a snapshot [st] of the table that updates
    the progress of the logos. *)
Definition VideoMulti_updating (d ly eb lg ws : nat) (ids : list nat)
    (st : gmap nat VideoMulti.stack_entry) (w : world VideoMulti.globals) : Prop :=
  exists st',
    at_ (owning true (VideoMulti_owned d ly eb lg st') ids)
        (VideoMulti_handles d ly eb lg ws st') w /\
    (known_ids st' ids /\ VideoMulti_same_windows st st').

(** ** The command lines *)

(** An argument that does not start with a dash. *)
Definition is_file (arg : string) : bool :=
  match after_dash arg with
  | Some _ => false
  | None => true
  end.

(** The medias of the files [files], numbered from [id] on. *)
Fixpoint MusicSample_playlist (id : Z) (files : list string) : list MusicSample.Media :=
  match files with
  | [] => []
  | file :: rest =>
      {| MusicSample.mrl := file; MusicSample.id := id; MusicSample.tracks := [] |}
      :: MusicSample_playlist (id + 1) rest
  end.

(** The arguments from the first one that does not start with a dash on. *)
Fixpoint files_from (args : list string) : list string :=
  match args with
  | [] => []
  | arg :: rest => if is_file arg then args else files_from rest
  end.

(** The list of files after the loop over the command line, which started
    with [before]: the arguments from the first file on, and their number. *)
Definition files_taken (args : list string) (before after : list string * Z) : Prop :=
  match files_from args with
  | [] => after = before
  | files => after = (files, Z.of_nat (length files))
  end.

(** The last two arguments, when the last but one does not start with a
    dash. *)
Fixpoint last_two (args : list string) : option (string * string) :=
  match args with
  | [] => None
  | font :: rest =>
      match rest with
      | [media] => if is_file font then Some (font, media) else None
      | _ => last_two rest
      end
  end.

(** The files of df_databuffer after the loop over the command line, which
    started with [before]. *)
Definition Databuffer_files_taken (args : list string)
    (before after : option string * option string) : Prop :=
  match last_two args with
  | Some (font, media) => after = (Some font, Some media)
  | None => after = before
  end.

(** ** The count of the windows *)

(** [m], started in [P] against a library that obeys [L], returns in [Q],
    ends the process with the status [c] only in [E c], and runs out of fuel
    only in [S]. *)
Definition runs {G A} (L : libspec) (P : world G -> Prop) (m : prog G A)
    (Q : A -> world G -> Prop) (E : status -> world G -> Prop)
    (S : world G -> Prop) : Prop :=
  forall o w, obeys L o -> P w ->
    match m o w with
    | Ret a w' => Q a w'
    | Exit c w' => E c w'
    | Spin w' => S w'
    end.

(** The event loops end the process with the exit code 42. *)
Definition at_quit {G} (X : G -> Prop) (c : status) (w : world G) : Prop :=
  c = Code 42 -> X (glob w).

(** [m] keeps [P]; where it leaves the event loop -- with the exit code 42,
    or out of fuel -- [X] holds of the globals. *)
Definition stays {G A} (L : libspec) (X : G -> Prop) (P : world G -> Prop)
    (m : prog G A) : Prop :=
  runs L P m (fun _ => P) (at_quit X) (on_glob X).

(** A property of the world that no call, no output and no registration of
    the shutdown function breaks. *)
Definition lasting {G} (P : world G -> Prop) : Prop :=
  forall w, P w ->
    (forall e, P (World (glob w) (e :: log w) (hooked w))) /\
    (forall h, P (World (glob w) (log w) h)).

(** The windows of the table have identifiers that the library has handed
    out, and [counter] is their number plus [k], the windows still to come
    (or, for [k = 1], the window just removed). *)
Definition counting {G V} (stack : G -> gmap nat V) (counter : G -> Z) (k : Z)
    (w : world G) : Prop :=
  known_ids (stack (glob w)) (ids_of (log w)) /\
  counter (glob w) = Z.of_nat (size (stack (glob w))) + k.

(** The counter of the windows is the number of entries of the table. *)
Definition ImageSample_windows_counted (g : ImageSample.globals) : Prop :=
  ImageSample.n_windows g = Z.of_nat (size (ImageSample.stack g)).

Definition VideoSample_windows_counted (g : VideoSample.globals) : Prop :=
  VideoSample.n_windows g = Z.of_nat (size (VideoSample.stack g)).

Definition ImageMulti_windows_counted (g : ImageMulti.globals) : Prop :=
  ImageMulti.mrl_count g = Z.of_nat (size (ImageMulti.stack g)).

Definition VideoMulti_windows_counted (g : VideoMulti.globals) : Prop :=
  VideoMulti.mrl_count g = Z.of_nat (size (VideoMulti.stack g)).

(** [main] has not returned; where the run was cut off, and where it ended
    the process with the exit code 42, [X] holds of the globals. *)
Definition in_the_loop {G} (X : G -> Prop) (r : outcome G Z) : Prop :=
  match r with
  | Ret _ _ => False
  | Exit c w => c = Code 42 -> X (glob w)
  | Spin w => X (glob w)
  end.


(** * Proofs *)

(** ** Rules for [wp] and [triple] *)

Section Rules.
Context {G : Type} (L : libspec).

Lemma wp_mono {A} (m : prog G A) (Q Q' : outcome G A -> Prop) w :
  wp L m Q w -> (forall r, Q r -> Q' r) -> wp L m Q' w.
Proof. intros Hm HQ o Ho. apply HQ, Hm, Ho. Qed.

Lemma wp_ret {A} (a : A) (Q : outcome G A -> Prop) w :
  Q (Ret a w) -> wp L (mret a) Q w.
Proof. intros HQ o _. exact HQ. Qed.

Lemma wp_bind {A B} (m : prog G A) (k : A -> prog G B) (Q : outcome G B -> Prop) w :
  wp L m (fun r => match r with
                   | Ret a w' => wp L (k a) Q w'
                   | Exit c w' => Q (Exit c w')
                   | Spin w' => Q (Spin w')
                   end) w ->
  wp L (m ≫= k) Q w.
Proof.
  intros Hm o Ho. specialize (Hm o Ho).
  unfold mbind, prog_bind, bind. destruct (m o w); auto.
Qed.

Lemma wp_exit {A} c (Q : outcome G A -> Prop) w :
  Q (Exit c (World (glob w) (Halt c :: log w) (hooked w))) -> wp L (exit c) Q w.
Proof. intros HQ o _. exact HQ. Qed.

Lemma wp_spin {A} (Q : outcome G A -> Prop) w :
  Q (Spin w) -> wp L spin Q w.
Proof. intros HQ o _. exact HQ. Qed.

Lemma wp_get (Q : outcome G G -> Prop) w :
  Q (Ret (glob w) w) -> wp L get Q w.
Proof. intros HQ o _. exact HQ. Qed.

Lemma wp_modify f (Q : outcome G unit -> Prop) w :
  Q (Ret tt (World (f (glob w)) (log w) (hooked w))) -> wp L (modify f) Q w.
Proof. intros HQ o _. exact HQ. Qed.

Lemma wp_emit e (Q : outcome G unit -> Prop) w :
  Q (Ret tt (World (glob w) (e :: log w) (hooked w))) -> wp L (emit e) Q w.
Proof. intros HQ o _. exact HQ. Qed.

Lemma wp_atexit (Q : outcome G unit -> Prop) w :
  Q (Ret tt (World (glob w) (log w) true)) -> wp L atexit Q w.
Proof. intros HQ o _. exact HQ. Qed.

Lemma wp_fresh (Q : outcome G nat -> Prop) w :
  Q (Ret (length (log w)) w) -> wp L fresh Q w.
Proof. intros HQ o _. exact HQ. Qed.

Lemma wp_lib f args (Q : outcome G answer -> Prop) w :
  (forall a, L (log w) f 0%nat args a ->
     Q (Ret a (World (glob w) (Lib f 0 args a :: log w) (hooked w)))) ->
  wp L (lib f args) Q w.
Proof. intros HQ o Ho. apply HQ, Ho. Qed.

Lemma wp_meth f self args (Q : outcome G answer -> Prop) w :
  (self = 0%nat -> Q (Exit Segv (World (glob w) (Halt Segv :: log w) (hooked w)))) ->
  (self <> 0%nat -> forall a, L (log w) f self args a ->
     Q (Ret a (World (glob w) (Lib f self args a :: log w) (hooked w)))) ->
  wp L (meth f self args) Q w.
Proof.
  intros H0 HQ o Ho. unfold meth. destruct self as [|n]; [auto|].
  apply HQ; [discriminate | apply Ho].
Qed.

End Rules.

(** ** The order monitor *)

Lemma called_cons p e l :
  called p (e :: l) = (match e with Lib f _ _ _ => p f | _ => false end) || called p l.
Proof. reflexivity. Qed.

Lemma order_of_spec l :
  order_of l =
  {| ordered := in_order l; inited := called is_init l;
     opened := succeeded is_open l; played := called is_play l;
     closed := called is_close l |}.
Proof.
  induction l as [|e l IH]; [reflexivity|].
  unfold order_of in *. simpl foldr. rewrite IH. clear IH.
  destruct e; reflexivity.
Qed.

Lemma in_order_of l : in_order l = ordered (order_of l).
Proof. rewrite order_of_spec. reflexivity. Qed.

Lemma running_orderly p l : running_phase p l -> orderly l.
Proof. intros H. apply H. Qed.

Lemma parsing_orderly l : parsing_phase l -> orderly l.
Proof. intros H. apply H. Qed.

Lemma running_weaken p l : running_phase p l -> running_phase false l.
Proof. intros (?&?&?&?&?). repeat split; auto. discriminate. Qed.

(** A call between the creation and the release of the main interface. *)
Lemma running_step p f self args a l :
  is_conversion f = false -> is_init f = false -> is_open f = false ->
  is_close f = false -> (is_poll f = true -> p = true) ->
  running_phase p l -> running_phase (p || is_play f) (Lib f self args a :: l).
Proof.
  intros Hc Hi Ho Hx Hp (H1&H2&H3&H4&H5).
  unfold running_phase, order_of in *. simpl.
  rewrite Hc, Hi, Ho, Hx, H1, H2, H3, H4. simpl.
  destruct (is_load f), (is_poll f) eqn:E, p, (is_play f); simpl in *;
    rewrite ?H5 by auto; repeat split; auto;
    try (specialize (Hp eq_refl); discriminate).
Qed.

Lemma running_other p e l :
  match e with Lib _ _ _ _ => False | _ => True end ->
  running_phase p l -> running_phase p (e :: l).
Proof. destruct e; simpl; intros []; auto. Qed.

Lemma parsing_step f self args a l :
  is_open f = false -> is_close f = false -> is_load f = false ->
  is_poll f = false ->
  parsing_phase l -> parsing_phase (Lib f self args a :: l).
Proof.
  intros Ho Hx Hl Hp (H1&H2&H3&H4).
  unfold parsing_phase, order_of in *. simpl.
  rewrite Ho, Hx, Hl, Hp, H1, H2, H3, H4. simpl.
  repeat split; auto using orb_true_r.
  destruct (is_conversion f || is_init f); reflexivity.
Qed.

Lemma parsing_other e l :
  match e with Lib _ _ _ _ => False | _ => True end ->
  parsing_phase l -> parsing_phase (e :: l).
Proof. destruct e; simpl; intros []; auto. Qed.

Lemma orderly_other e l :
  match e with Lib _ _ _ _ => False | _ => True end ->
  orderly l -> orderly (e :: l).
Proof. destruct e; simpl; intros []; auto. Qed.

(** The creation of the main interface ends the parsing. *)
Lemma parsing_open f self args a l :
  is_open f = true -> is_conversion f = false -> is_init f = false ->
  is_close f = false -> is_load f = false -> is_poll f = false ->
  parsing_phase l ->
  if is_ok (a_ret a) then running_phase false (Lib f self args a :: l)
  else parsing_phase (Lib f self args a :: l).
Proof.
  intros Ho Hc Hi Hx Hl Hp (H1&H2&H3&H4).
  unfold parsing_phase, running_phase, order_of in *.
  destruct (is_ok (a_ret a)) eqn:E; simpl;
    rewrite Ho, Hc, Hi, Hx, Hl, Hp, H1, H2, H3, H4, E; simpl;
    repeat split; auto; discriminate.
Qed.

(** The release of the main interface. *)
Lemma running_close p f self args a l :
  is_close f = true -> is_conversion f = false -> is_init f = false ->
  is_open f = false -> is_load f = false -> is_poll f = false ->
  running_phase p l -> orderly (Lib f self args a :: l).
Proof.
  intros Hx Hc Hi Ho Hl Hp (H1&H2&H3&H4&H5).
  unfold orderly, running_phase, order_of in *. simpl.
  rewrite Hc, Hi, Ho, Hp, H1, H3, H4. destruct (is_load f); reflexivity.
Qed.

(** ** Rules for [triple] *)

Section TripleRules.
Context {G : Type} (L : libspec).

Lemma triple_bind {A B} P (m : prog G A) (k : A -> prog G B) R Q J :
  triple L P m R J -> (forall a, triple L (R a) (k a) Q J) ->
  triple L P (m ≫= k) Q J.
Proof.
  intros Hm Hk w Hw. apply wp_bind.
  eapply wp_mono; [apply Hm, Hw|].
  intros [a w'|c w'|w']; simpl; auto. intros HR. apply Hk, HR.
Qed.

Lemma triple_conseq {A} (P P' : world G -> Prop) (m : prog G A) Q Q' (J J' : world G -> Prop) :
  triple L P m Q J -> (forall w, P' w -> P w) -> (forall a w, Q a w -> Q' a w) ->
  (forall w, J w -> J' w) -> triple L P' m Q' J'.
Proof.
  intros Hm HP HQ HJ w Hw. eapply wp_mono; [apply Hm, HP, Hw|].
  intros [a w'|c w'|w']; simpl; auto.
Qed.

Lemma triple_pre {A} (P P' : world G -> Prop) (m : prog G A) Q J :
  triple L P m Q J -> (forall w, P' w -> P w) -> triple L P' m Q J.
Proof. intros Hm HP w Hw. apply Hm, HP, Hw. Qed.

Lemma triple_post {A} (P : world G -> Prop) (m : prog G A) Q Q' J :
  triple L P m Q J -> (forall a w, Q a w -> Q' a w) -> triple L P m Q' J.
Proof. intros Hm HQ. eapply triple_conseq; [exact Hm|auto|exact HQ|auto]. Qed.

Lemma triple_ret {A} (P : world G -> Prop) (a : A) (Q : A -> world G -> Prop) J :
  (forall w, P w -> Q a w) -> triple L P (mret a) Q J.
Proof. intros HQ w Hw. apply wp_ret. simpl. auto. Qed.

Lemma triple_exit {A} (P : world G -> Prop) c (Q : A -> world G -> Prop) (J : world G -> Prop) :
  (forall w, P w -> J (World (glob w) (Halt c :: log w) (hooked w))) ->
  triple L P (exit c) Q J.
Proof. intros HJ w Hw. apply wp_exit. simpl. auto. Qed.

Lemma triple_wp {A} P (m : prog G A) Q J (K : outcome G A -> Prop) w :
  triple L P m Q J -> P w ->
  (forall r, post Q J r -> K r) -> wp L m K w.
Proof. intros Hm Hw HK. eapply wp_mono; [apply Hm, Hw|exact HK]. Qed.

(** [while (1)], with an invariant *)
Lemma triple_forever {A} (I : world G -> Prop) (body : prog G (option A)) Q J fuel :
  (forall w, I w -> J w) ->
  triple L I body (fun r w => match r with Some a => Q a w | None => I w end) J ->
  triple L I (forever fuel body) Q J.
Proof.
  intros HIJ Hbody. induction fuel as [|fuel IH]; intros w Hw; simpl.
  - apply wp_spin. simpl. auto.
  - apply wp_bind. eapply wp_mono; [apply Hbody, Hw|].
    intros [[a|] w'|c w'|w']; simpl; auto.
    intros HQ. apply wp_ret. exact HQ.
Qed.

Lemma triple_for_each {X} (I : world G -> Prop) (f : X -> prog G unit) J l :
  (forall x, In x l -> triple L I (f x) (fun _ => I) J) ->
  triple L I (for_each l f) (fun _ => I) J.
Proof.
  induction l as [|x l IH]; intros Hf w Hw; simpl.
  - apply wp_ret. exact Hw.
  - apply wp_bind. eapply wp_mono; [apply (Hf x); [left; reflexivity|exact Hw]|].
    intros [a w'|c w'|w']; simpl; auto.
    intros HI. apply IH; auto. intros y Hy. apply Hf. right. exact Hy.
Qed.

End TripleRules.

(** ** Rules for a property of the trace *)

Section Keeps.
Context {G : Type} (L : libspec) (I J : list entry -> bool -> Prop)
  (good : libfn -> Prop).
Hypothesis Hinv : invariant good I J.

Let IJ := inv_weaken _ _ _ Hinv.
Let I_lib := inv_lib _ _ _ Hinv.
Let I_output := inv_output _ _ _ Hinv.
Let I_crash := inv_crash _ _ _ Hinv.

Lemma keeps_ret {A} (a : A) : keeps (G:=G) L I J (mret a).
Proof. intros w Hw. apply wp_ret. exact Hw. Qed.

Lemma keeps_bind {A B} (m : prog G A) (k : A -> prog G B) :
  keeps L I J m -> (forall a, keeps L I J (k a)) -> keeps L I J (m ≫= k).
Proof. intros Hm Hk. eapply triple_bind; [exact Hm|exact Hk]. Qed.

Lemma keeps_exit {A} n : may_exit I J -> keeps (G:=G) (A:=A) L I J (exit (Code n)).
Proof. intros Hc w Hw. apply wp_exit. simpl. apply Hc, Hw. Qed.

Lemma keeps_crash {A} c : abnormal c -> keeps (G:=G) (A:=A) L I J (exit c).
Proof. intros Hc w Hw. apply wp_exit. simpl. apply I_crash; [exact Hc|exact Hw]. Qed.

Lemma keeps_spin {A} : keeps (G:=G) (A:=A) L I J spin.
Proof. intros w Hw. apply wp_spin. simpl. apply IJ, Hw. Qed.

Lemma keeps_get : keeps (G:=G) L I J get.
Proof. intros w Hw. apply wp_get. exact Hw. Qed.

Lemma keeps_modify f : keeps (G:=G) L I J (modify f).
Proof. intros w Hw. apply wp_modify. exact Hw. Qed.

Lemma keeps_fresh : keeps (G:=G) L I J fresh.
Proof. intros w Hw. apply wp_fresh. exact Hw. Qed.

Lemma keeps_atexit : (forall l h, I l h -> I l true) -> keeps (G:=G) L I J atexit.
Proof. intros Hh w Hw. apply wp_atexit. eapply Hh, Hw. Qed.

Lemma keeps_emit e : output e -> keeps (G:=G) L I J (emit e).
Proof. intros He w Hw. apply wp_emit. apply I_output; auto. Qed.

Lemma keeps_lib f args : good f -> keeps (G:=G) L I J (lib f args).
Proof. intros Hf w Hw. apply wp_lib. intros a _. apply I_lib; auto. Qed.

Lemma keeps_meth f self args : good f -> keeps (G:=G) L I J (meth f self args).
Proof.
  intros Hf w Hw. apply wp_meth.
  - intros _. simpl. apply I_crash; [exact Logic.I|exact Hw].
  - intros _ a _. apply I_lib; auto.
Qed.

Lemma keeps_lib_new f args old : good f -> keeps (G:=G) L I J (lib_new f args old).
Proof.
  intros Hf. unfold lib_new.
  apply keeps_bind; [apply keeps_lib, Hf|intros a].
  apply keeps_bind; [apply keeps_fresh|intros n]. apply keeps_ret.
Qed.

Lemma keeps_meth_new f self args old :
  good f -> keeps (G:=G) L I J (meth_new f self args old).
Proof.
  intros Hf. unfold meth_new.
  apply keeps_bind; [apply keeps_meth, Hf|intros a].
  apply keeps_bind; [apply keeps_fresh|intros n]. apply keeps_ret.
Qed.

Lemma keeps_when b (m : prog G unit) : keeps L I J m -> keeps L I J (when b m).
Proof. intros Hm. destruct b; simpl; [exact Hm|apply keeps_ret]. Qed.

Lemma keeps_DFBCHECK {A} line x (result : A -> DFBResult) (call : prog G A) :
  keeps L I J call -> keeps L I J (DFBCHECK line x result call).
Proof.
  intros Hc. unfold DFBCHECK. apply keeps_bind; [exact Hc|intros v].
  destruct (is_ok (result v)); [apply keeps_ret|].
  apply keeps_bind; [apply keeps_emit; exact Logic.I|intros _].
  apply keeps_bind; [apply keeps_emit; exact Logic.I|intros _].
  apply keeps_crash. exact Logic.I.
Qed.

Lemma keeps_forever {A} fuel (body : prog G (option A)) :
  keeps L I J body -> keeps L I J (forever fuel body).
Proof.
  intros Hb. apply triple_forever.
  - intros w. apply IJ.
  - eapply triple_conseq; [exact Hb|auto| |auto].
    intros [a|] w Hw; exact Hw.
Qed.

Lemma keeps_for_each {X} (l : list X) (f : X -> prog G unit) :
  (forall x, keeps L I J (f x)) -> keeps L I J (for_each l f).
Proof. intros Hf. apply triple_for_each. intros x _. apply Hf. Qed.

End Keeps.

(** ** Rules for a property of the globals *)

Section Holds.
Context {G : Type} (P : G -> Prop).

Lemma holds_ret {A} (a : A) : holds (G:=G) P (mret a).
Proof. intros w Hw. apply wp_ret. exact Hw. Qed.

Lemma holds_bind {A B} (m : prog G A) (k : A -> prog G B) :
  holds P m -> (forall a, holds P (k a)) -> holds P (m ≫= k).
Proof. intros Hm Hk. eapply triple_bind; [exact Hm|exact Hk]. Qed.

Lemma holds_exit {A} c : holds (G:=G) (A:=A) P (exit c).
Proof. intros w Hw. apply wp_exit. exact Logic.I. Qed.

Lemma holds_spin {A} : holds (G:=G) (A:=A) P spin.
Proof. intros w Hw. apply wp_spin. exact Logic.I. Qed.

Lemma holds_get : holds (G:=G) P get.
Proof. intros w Hw. apply wp_get. exact Hw. Qed.

Lemma holds_modify f : (forall g, P g -> P (f g)) -> holds (G:=G) P (modify f).
Proof. intros Hf w Hw. apply wp_modify. apply Hf, Hw. Qed.

Lemma holds_fresh : holds (G:=G) P fresh.
Proof. intros w Hw. apply wp_fresh. exact Hw. Qed.

Lemma holds_atexit : holds (G:=G) P atexit.
Proof. intros w Hw. apply wp_atexit. exact Hw. Qed.

Lemma holds_emit e : holds (G:=G) P (emit e).
Proof. intros w Hw. apply wp_emit. exact Hw. Qed.

Lemma holds_lib f args : holds (G:=G) P (lib f args).
Proof. intros w Hw. apply wp_lib. intros a _. exact Hw. Qed.

Lemma holds_meth f self args : holds (G:=G) P (meth f self args).
Proof.
  intros w Hw. apply wp_meth.
  - intros _. exact Logic.I.
  - intros _ a _. exact Hw.
Qed.

Lemma holds_lib_new f args old : holds (G:=G) P (lib_new f args old).
Proof.
  unfold lib_new.
  apply holds_bind; [apply holds_lib|intros a].
  apply holds_bind; [apply holds_fresh|intros n]. apply holds_ret.
Qed.

Lemma holds_meth_new f self args old : holds (G:=G) P (meth_new f self args old).
Proof.
  unfold meth_new.
  apply holds_bind; [apply holds_meth|intros a].
  apply holds_bind; [apply holds_fresh|intros n]. apply holds_ret.
Qed.

Lemma holds_when b (m : prog G unit) : holds P m -> holds P (when b m).
Proof. intros Hm. destruct b; simpl; [exact Hm|apply holds_ret]. Qed.

Lemma holds_DFBCHECK {A} line x (result : A -> DFBResult) (call : prog G A) :
  holds P call -> holds P (DFBCHECK line x result call).
Proof.
  intros Hc. unfold DFBCHECK. apply holds_bind; [exact Hc|intros v].
  destruct (is_ok (result v)); [apply holds_ret|].
  apply holds_bind; [apply holds_emit|intros _].
  apply holds_bind; [apply holds_emit|intros _].
  apply holds_exit.
Qed.

Lemma holds_forever {A} fuel (body : prog G (option A)) :
  holds P body -> holds P (forever fuel body).
Proof.
  intros Hb. apply triple_forever; [auto|].
  eapply triple_conseq; [exact Hb|auto| |auto].
  intros [a|] w Hw; exact Hw.
Qed.

Lemma holds_for_each {X} (l : list X) (f : X -> prog G unit) :
  (forall x, holds P (f x)) -> holds P (for_each l f).
Proof. intros Hf. apply triple_for_each. intros x _. apply Hf. Qed.

End Holds.

Ltac holds_step :=
  first [ assumption | solve [auto 1 with progs nocore] |
  lazymatch goal with
  | |- forall _, _ => intro
  | |- holds _ (mret _) => apply holds_ret
  | |- holds _ (ret _) => apply holds_ret
  | |- holds _ (_ ≫= _) => apply holds_bind
  | |- holds _ (exit _) => apply holds_exit
  | |- holds _ spin => apply holds_spin
  | |- holds _ get => apply holds_get
  | |- holds _ (modify _) => apply holds_modify
  | |- holds _ fresh => apply holds_fresh
  | |- holds _ atexit => apply holds_atexit
  | |- holds _ (emit _) => apply holds_emit
  | |- holds _ (lib _ _) => apply holds_lib
  | |- holds _ (meth _ _ _) => apply holds_meth
  | |- holds _ (lib_new _ _ _) => apply holds_lib_new
  | |- holds _ (meth_new _ _ _ _) => apply holds_meth_new
  | |- holds _ (when _ _) => apply holds_when
  | |- holds _ (DFBCHECK _ _ _ _) => apply holds_DFBCHECK
  | |- holds _ (FSCHECK _ _ _ _) => apply holds_DFBCHECK
  | |- holds _ (forever _ _) => apply holds_forever
  | |- holds _ (for_each _ _) => apply holds_for_each
  | |- holds _ (if ?b then _ else _) => destruct b
  | |- holds _ (match ?x with _ => _ end) => destruct x
  end ].

Ltac holds_go := repeat holds_step.

Ltac as_holds :=
  lazymatch goal with
  | |- triple any_library (on_glob ?P) ?m _ _ => change (holds P m)
  end.

Section Combine.
Context {G : Type} (L : libspec).

Lemma triple_any {A} P (m : prog G A) Q J :
  triple any_library P m Q J -> triple L P m Q J.
Proof. intros Hm w Hw o _. apply Hm; [exact Hw|]. intros l f self args. exact Logic.I. Qed.

Lemma triple_and {A} (P1 P2 : world G -> Prop) (m : prog G A) Q1 Q2 J :
  triple L P1 m Q1 J -> triple any_library P2 m Q2 (fun _ => True) ->
  triple L (fun w => P1 w /\ P2 w) m (fun a w => Q1 a w /\ Q2 a w) J.
Proof.
  intros H1 H2 w [Hw1 Hw2] o Ho.
  specialize (H1 w Hw1 o Ho).
  assert (Hany : obeys any_library o) by (intros l f self args; exact Logic.I).
  specialize (H2 w Hw2 o Hany).
  destruct (m o w); simpl in *; auto.
Qed.

Lemma triple_both {A} (P1 P2 : world G -> Prop) (m : prog G A) Q1 Q2 J1 J2 :
  triple L P1 m Q1 J1 -> triple L P2 m Q2 J2 ->
  triple L (fun w => P1 w /\ P2 w) m (fun a w => Q1 a w /\ Q2 a w)
    (fun w => J1 w /\ J2 w).
Proof.
  intros H1 H2 w [Hw1 Hw2] o Ho.
  specialize (H1 w Hw1 o Ho). specialize (H2 w Hw2 o Ho).
  destruct (m o w); simpl in *; auto.
Qed.

Lemma triple_ex {A X} (P : X -> world G -> Prop) (m : prog G A) Q J :
  (forall x, triple L (P x) m Q J) -> triple L (fun w => exists x, P x w) m Q J.
Proof. intros Hm w [x Hw]. eapply Hm, Hw. Qed.

Lemma triple_get_pure (P : world G -> Prop) J :
  triple L P get (fun g w => P w /\ g = glob w) J.
Proof. intros w Hw. apply wp_get. simpl. auto. Qed.

Lemma triple_pure {A} (phi : Prop) (P : world G -> Prop) (m : prog G A) Q J :
  (phi -> triple L P m Q J) -> triple L (fun w => P w /\ phi) m Q J.
Proof. intros Hm w [Hw Hphi]. apply Hm; assumption. Qed.

Lemma keeps_holds {A} I J (P : G -> Prop) (m : prog G A) :
  keeps L I J m -> holds P m ->
  triple L (at_ I P) m (fun _ => at_ I P) (on_trace J).
Proof. intros Hk Hh. apply triple_and; assumption. Qed.

Lemma triple_holds {A} I I' J (P : G -> Prop) (m : prog G A) :
  triple L (on_trace I) m (fun _ => on_trace I') (on_trace J) -> holds P m ->
  triple L (at_ I P) m (fun _ => at_ I' P) (on_trace J).
Proof. intros Hk Hh. apply triple_and; assumption. Qed.

Lemma triple_forget {A} I (P : G -> Prop) (m : prog G A) Q J :
  triple L (on_trace I) m Q J -> triple L (at_ I P) m Q J.
Proof. intros Hm. eapply triple_pre; [exact Hm|]. intros w [Hw _]. exact Hw. Qed.

Lemma triple_get_at I (P : G -> Prop) J :
  triple L (at_ I P) get (fun g w => at_ I P w /\ P g) J.
Proof. intros w Hw. apply wp_get. simpl. split; [exact Hw|]. apply Hw. Qed.

End Combine.

(** A process: [main] ends in [J]; when the shutdown function is registered
    it runs from there. *)
Lemma triple_process {G} L (P : world G -> Prop) (J K : world G -> Prop)
    (main : prog G Z) (shutdown : prog G unit) :
  triple L P main (fun n w => J (returned n w)) J ->
  triple L (fun w => J w /\ hooked w = true) shutdown (fun _ => K) K ->
  (forall w, J w -> K w) ->
  triple L P (process main shutdown) (fun _ => K) K.
Proof.
  intros Hm Hs HJK w Hw o Ho. unfold process.
  specialize (Hm w Hw o Ho).
  assert (Hx : forall c w', J w' ->
    post (fun _ : Z => K) K
      (if hooked w'
       then match shutdown o w' with
            | Ret _ w'' => Exit c w''
            | Exit c' w'' => Exit c' w''
            | Spin w'' => Spin w''
            end
       else Exit c w')).
  { intros c w' HJ. destruct (hooked w') eqn:Hh; [|apply HJK, HJ].
    specialize (Hs w' (conj HJ Hh) o Ho).
    destruct (shutdown o w'); simpl in *; auto. }
  destruct (main o w) as [n w'|c w'|w']; simpl in *.
  - exact (Hx (Code n) _ Hm).
  - destruct c; [apply Hx, Hm|apply Hx, Hm|simpl; apply HJK, Hm].
  - apply HJK, Hm.
Qed.

(** ** The phases as properties of the trace *)

Lemma terminal_step f self args a l :
  is_terminal f = true -> orderly l -> orderly (Lib f self args a :: l).
Proof.
  unfold orderly, order_of. simpl. intros Ht ->.
  destruct f; try discriminate Ht; simpl;
    destruct (closed (foldr order_step order_start l)); reflexivity.
Qed.

Lemma starting_ending l h : starting l h -> ending l h.
Proof.
  unfold starting, starting_phase, ending, orderly. intros [-> ->].
  split; [reflexivity|discriminate].
Qed.

Lemma starting_lib f self args a l h :
  never_ok f -> starting l h -> starting (Lib f self args a :: l) h.
Proof. intros []. Qed.

Lemma starting_silent e l h : silent e -> starting l h -> starting (e :: l) h.
Proof.
  unfold starting, starting_phase. intros He [Hs ->]. split; [|reflexivity].
  destruct e; simpl in *; auto. destruct He.
Qed.

Lemma running_ending k p l h : running k p l h -> ending l h.
Proof.
  unfold running, ending. intros [Hr _]. split.
  - eapply running_orderly, Hr.
  - intros _. eapply running_weaken, Hr.
Qed.

Lemma running_ended k p l h : running k p l h -> ended l h.
Proof. intros [Hr _]. eapply running_orderly, Hr. Qed.

Lemma running_lib k p f self args a l h :
  runs_ok p f -> running k p l h -> running k p (Lib f self args a :: l) h.
Proof.
  unfold running. intros (Hc&Hi&Ho&Hx&Hp) [Hr ->]. split; [|reflexivity].
  pose proof (running_step p f self args a l Hc Hi Ho Hx Hp Hr) as (?&?&?&?&H5).
  repeat split; auto. intros ->. apply H5. reflexivity.
Qed.

Lemma running_silent k p e l h : silent e -> running k p l h -> running k p (e :: l) h.
Proof.
  unfold running. intros He [Hr ->]. split; [|reflexivity].
  apply running_other; auto.
Qed.

Lemma parsing_ending l h : parsing l h -> ending l h.
Proof.
  unfold parsing, ending. intros [Hp ->]. split; [|discriminate].
  eapply parsing_orderly, Hp.
Qed.

Lemma parsing_lib f self args a l h :
  parses_ok f -> parsing l h -> parsing (Lib f self args a :: l) h.
Proof.
  unfold parsing. intros (Ho&Hx&Hl&Hp) [Hr ->]. split; [|reflexivity].
  apply parsing_step; auto.
Qed.

Lemma parsing_silent e l h : silent e -> parsing l h -> parsing (e :: l) h.
Proof.
  unfold parsing. intros He [Hr ->]. split; [|reflexivity].
  apply parsing_other; auto.
Qed.

Lemma closing_ending l h : closing l h -> ending l h.
Proof. unfold closing, ending. intros [Ho ->]. split; [exact Ho|discriminate]. Qed.

Lemma closing_lib f self args a l h :
  closes_ok f -> closing l h -> closing (Lib f self args a :: l) h.
Proof.
  unfold closing. intros Hf [Ho ->]. split; [|reflexivity].
  apply terminal_step; auto.
Qed.

Lemma closing_silent e l h : silent e -> closing l h -> closing (e :: l) h.
Proof.
  unfold closing. intros He [Ho ->]. split; [|reflexivity].
  apply orderly_other; auto.
Qed.

Lemma ended_refl l h : ended l h -> ended l h.
Proof. auto. Qed.

Lemma ended_lib f self args a l h :
  closes_ok f -> ended l h -> ended (Lib f self args a :: l) h.
Proof. unfold ended. intros Hf Ho. apply terminal_step; auto. Qed.

Lemma ended_silent e l h : silent e -> ended l h -> ended (e :: l) h.
Proof. unfold ended. intros He Ho. apply orderly_other; auto. Qed.

Lemma ending_ended l h : ending l h -> ended l h.
Proof. intros [Ho _]. exact Ho. Qed.

Lemma closing_ended l h : closing l h -> ended l h.
Proof. intros [Ho _]. exact Ho. Qed.

Lemma output_silent e : output e -> silent e.
Proof. destruct e; simpl; auto. Qed.

Lemma starting_output e l h : output e -> starting l h -> starting (e :: l) h.
Proof. intros He. apply starting_silent, output_silent, He. Qed.

Lemma running_output k p e l h : output e -> running k p l h -> running k p (e :: l) h.
Proof. intros He. apply running_silent, output_silent, He. Qed.

Lemma parsing_output e l h : output e -> parsing l h -> parsing (e :: l) h.
Proof. intros He. apply parsing_silent, output_silent, He. Qed.

Lemma closing_output e l h : output e -> closing l h -> closing (e :: l) h.
Proof. intros He. apply closing_silent, output_silent, He. Qed.

Lemma ended_output e l h : output e -> ended l h -> ended (e :: l) h.
Proof. intros He. apply ended_silent, output_silent, He. Qed.

Lemma starting_halt c l h : always c -> starting l h -> ending (Halt c :: l) h.
Proof. intros _ Hs. apply starting_ending, starting_silent; [exact Logic.I|exact Hs]. Qed.

Lemma running_halt k p c l h : always c -> running k p l h -> ending (Halt c :: l) h.
Proof. intros _ Hs. eapply running_ending, running_silent; [exact Logic.I|exact Hs]. Qed.

Lemma running_halted k p c l h : always c -> running k p l h -> ended (Halt c :: l) h.
Proof. intros _ Hs. eapply running_ended, running_silent; [exact Logic.I|exact Hs]. Qed.

Lemma parsing_halt c l h : always c -> parsing l h -> ending (Halt c :: l) h.
Proof. intros _ Hs. apply parsing_ending, parsing_silent; [exact Logic.I|exact Hs]. Qed.

Lemma closing_halt c l h : always c -> closing l h -> ending (Halt c :: l) h.
Proof. intros _ Hs. apply closing_ending, closing_silent; [exact Logic.I|exact Hs]. Qed.

Lemma closing_halted c l h : always c -> closing l h -> ended (Halt c :: l) h.
Proof. intros _ Hs. apply closing_ended, closing_silent; [exact Logic.I|exact Hs]. Qed.

Lemma ended_halt c l h : always c -> ended l h -> ended (Halt c :: l) h.
Proof. intros _ Hs. apply ended_silent; [exact Logic.I|exact Hs]. Qed.

Lemma invariant_mono (good good' : libfn -> Prop) I J :
  (forall f, good' f -> good f) -> invariant good I J -> invariant good' I J.
Proof.
  intros Hg [H1 H2 H3 H4]. split; auto.
Qed.

Lemma running_relax k p l h : running k true l h -> running k p l h.
Proof.
  destruct p; [auto|]. intros [Hr Hh]. split; [|exact Hh]. eapply running_weaken, Hr.
Qed.

Lemma starting_invariant : invariant never_ok starting ending.
Proof.
  split.
  - apply starting_ending.
  - apply starting_lib.
  - apply starting_output.
  - intros c l h _. apply starting_halt. exact Logic.I.
Qed.

Lemma parsing_invariant : invariant parses_ok parsing ending.
Proof.
  split.
  - apply parsing_ending.
  - apply parsing_lib.
  - apply parsing_output.
  - intros c l h _. apply parsing_halt. exact Logic.I.
Qed.

Lemma running_invariant k p : invariant (runs_ok p) (running k p) ending.
Proof.
  split.
  - apply running_ending.
  - apply running_lib.
  - apply running_output.
  - intros c l h _. apply running_halt. exact Logic.I.
Qed.

Lemma running_to_ended k p : invariant (runs_ok p) (running k p) ended.
Proof.
  split.
  - apply running_ended.
  - apply running_lib.
  - apply running_output.
  - intros c l h _. apply running_halted. exact Logic.I.
Qed.

Lemma running_plain k p : invariant (plain p) (running k p) ending.
Proof.
  eapply invariant_mono; [|apply running_invariant]. intros f [Hf _]. exact Hf.
Qed.

Lemma parsing_arguments : invariant arguments_ok parsing ending.
Proof.
  eapply invariant_mono; [|apply parsing_invariant]. intros f [Hf _]. exact Hf.
Qed.

Lemma common_plain p I J : invariant common I J -> invariant (plain p) I J.
Proof. apply invariant_mono. intros f [_ Hf]. exact Hf. Qed.

Lemma common_arguments I J : invariant common I J -> invariant arguments_ok I J.
Proof. apply invariant_mono. intros f [_ Hf]. exact Hf. Qed.

Lemma closing_invariant : invariant closes_ok closing ending.
Proof.
  split.
  - apply closing_ending.
  - apply closing_lib.
  - apply closing_output.
  - intros c l h _. apply closing_halt. exact Logic.I.
Qed.

Lemma ended_invariant : invariant closes_ok ended ended.
Proof.
  split.
  - auto.
  - apply ended_lib.
  - apply ended_output.
  - intros c l h _. apply ended_halt. exact Logic.I.
Qed.

Lemma starting_may_exit : may_exit starting ending.
Proof. intros n l h. apply starting_halt. exact Logic.I. Qed.

Lemma parsing_may_exit : may_exit parsing ending.
Proof. intros n l h. apply parsing_halt. exact Logic.I. Qed.

Lemma running_may_exit k p : may_exit (running k p) ending.
Proof. intros n l h. apply running_halt. exact Logic.I. Qed.

Lemma closing_may_exit : may_exit closing ending.
Proof. intros n l h. apply closing_halt. exact Logic.I. Qed.

Lemma ended_may_exit : may_exit ended ended.
Proof. intros n l h. apply ended_halt. exact Logic.I. Qed.

Create HintDb trace.
#[local] Hint Resolve starting_invariant parsing_invariant running_invariant
  running_to_ended closing_invariant ended_invariant starting_may_exit parsing_may_exit
  running_may_exit closing_may_exit ended_may_exit : trace.
#[local] Hint Extern 1 (runs_ok _ _) =>
  solve [repeat split; first [reflexivity | discriminate | intros; assumption]] : trace.
#[local] Hint Extern 1 (plain _ _) =>
  solve [repeat split; first [reflexivity | discriminate | intros; assumption]] : trace.
#[local] Hint Extern 1 (common _) => reflexivity : trace.
#[local] Hint Extern 1 (parses_ok _) => solve [repeat split; reflexivity] : trace.
#[local] Hint Extern 1 (arguments_ok _) => solve [repeat split; reflexivity] : trace.
#[local] Hint Extern 1 (closes_ok _) => reflexivity : trace.
#[local] Hint Extern 1 (silent _) => exact Logic.I : trace.
#[local] Hint Extern 1 (output _) => exact Logic.I : trace.
#[local] Hint Extern 1 (abnormal _) => exact Logic.I : trace.

(** Structural proof of a [keeps] goal: one rule for each construct of a
    program; the functions of the program are looked up in the hints. *)
Create HintDb progs.

Ltac keeps_step :=
  first [ assumption | solve [auto 1 with progs nocore] |
  lazymatch goal with
  | |- forall _, _ => intro
  | |- keeps _ _ _ (mret _) => apply keeps_ret
  | |- keeps _ _ _ (ret _) => apply keeps_ret
  | |- keeps _ _ _ (_ ≫= _) => apply keeps_bind
  | |- keeps _ _ _ (exit (Code _)) => eapply keeps_exit; eauto with trace
  | |- keeps _ _ _ (exit _) => eapply keeps_crash; eauto with trace
  | |- keeps _ _ _ spin => eapply keeps_spin; eauto with trace
  | |- keeps _ _ _ get => apply keeps_get
  | |- keeps _ _ _ (modify _) => apply keeps_modify
  | |- keeps _ _ _ fresh => apply keeps_fresh
  | |- keeps _ _ _ atexit => eapply keeps_atexit; eauto with trace
  | |- keeps _ _ _ (emit _) => eapply keeps_emit; eauto with trace
  | |- keeps _ _ _ (lib _ _) => eapply keeps_lib; eauto with trace
  | |- keeps _ _ _ (meth _ _ _) => eapply keeps_meth; eauto with trace
  | |- keeps _ _ _ (lib_new _ _ _) => eapply keeps_lib_new; eauto with trace
  | |- keeps _ _ _ (meth_new _ _ _ _) => eapply keeps_meth_new; eauto with trace
  | |- keeps _ _ _ (when _ _) => apply keeps_when
  | |- keeps _ _ _ (DFBCHECK _ _ _ _) => eapply keeps_DFBCHECK; eauto with trace
  | |- keeps _ _ _ (FSCHECK _ _ _ _) => eapply keeps_DFBCHECK; eauto with trace
  | |- keeps _ _ _ (forever _ _) => eapply keeps_forever; eauto with trace
  | |- keeps _ _ _ (for_each _ _) => apply keeps_for_each
  | |- keeps _ _ _ (if ?b then _ else _) => destruct b
  | |- keeps _ _ _ (match ?x with _ => _ end) => destruct x
  end ].

Ltac keeps_go := repeat keeps_step.

(** The calls that move a run from one phase to the next. *)
Section Transitions.
Context {G : Type} (L : libspec).

Lemma triple_init f line x :
  is_init f = true -> is_open f = false -> is_close f = false ->
  is_load f = false -> is_poll f = false ->
  triple (G:=G) L (on_trace starting) (DFBCHECK line x a_ret (lib f []))
    (fun _ => on_trace parsing) (on_trace ending).
Proof.
  intros Hi Ho Hx Hl Hp w [Hs Hh]. unfold on_trace, starting_phase in *.
  assert (Hparse : forall a, parsing (Lib f 0 [] a :: log w) (hooked w)).
  { intros a. split; [|exact Hh]. unfold parsing_phase, order_of in *. simpl.
    rewrite Hs, Hi, Ho, Hl, Hp, Hx. simpl. rewrite orb_true_r. auto. }
  unfold DFBCHECK. apply wp_bind, wp_lib. intros a _.
  destruct (is_ok (a_ret a)).
  - apply wp_ret. simpl. apply Hparse.
  - apply wp_bind, wp_emit, wp_bind, wp_emit, wp_exit. simpl.
    apply parsing_ending. repeat (apply parsing_silent; [exact Logic.I|]).
    apply Hparse.
Qed.

Lemma triple_open f line x old :
  is_open f = true -> is_conversion f = false -> is_init f = false ->
  is_close f = false -> is_load f = false -> is_poll f = false ->
  triple (G:=G) L (on_trace parsing) (DFBCHECK line x ret_of (lib_new f [] old))
    (fun _ => on_trace (running false false)) (on_trace ending).
Proof.
  intros Ho Hc Hi Hx Hl Hp w [Hs Hh]. unfold on_trace in *.
  unfold DFBCHECK, lib_new.
  apply wp_bind, wp_bind, wp_lib. intros a _.
  apply wp_bind, wp_fresh, wp_ret. simpl.
  pose proof (parsing_open f 0%nat [] a (log w) Ho Hc Hi Hx Hl Hp Hs) as Hopen.
  unfold ret_of. simpl. destruct (is_ok (a_ret a)).
  - apply wp_ret. simpl. split; [exact Hopen|exact Hh].
  - apply wp_bind, wp_emit, wp_bind, wp_emit, wp_exit. simpl.
    apply parsing_ending. repeat (apply parsing_silent; [exact Logic.I|]).
    split; [exact Hopen|exact Hh].
Qed.

Lemma triple_atexit k p :
  triple (G:=G) L (on_trace (running k p)) atexit
    (fun _ => on_trace (running true p)) (on_trace ending).
Proof. intros w [Hr _]. apply wp_atexit. simpl. split; [exact Hr|reflexivity]. Qed.

Lemma triple_play f self args k p :
  is_play f = true -> runs_ok true f ->
  triple (G:=G) L (on_trace (running k p)) (meth f self args)
    (fun _ => on_trace (running k true)) (on_trace ending).
Proof.
  intros Hplay (Hc&Hi&Ho&Hx&_) w [Hr Hh]. unfold on_trace in *.
  apply wp_meth; simpl.
  - intros _. eapply running_halt; [exact Logic.I|]. split; [exact Hr|exact Hh].
  - intros _ a _. split; [|exact Hh].
    destruct Hr as (H1&H2&H3&H4&H5).
    unfold running_phase, order_of in *. simpl.
    rewrite Hc, Hi, Ho, Hx, Hplay, H1, H2, H3, H4. simpl.
    destruct (is_load f); simpl; repeat split; auto.
    all: destruct (is_poll f) eqn:E; auto.
    all: destruct f; try discriminate Hplay; discriminate E.
Qed.

Lemma triple_close f self args k p :
  is_close f = true -> is_conversion f = false -> is_init f = false ->
  is_open f = false -> is_load f = false -> is_poll f = false ->
  triple (G:=G) L (on_trace (running k p)) (meth f self args)
    (fun _ w => orderly (log w) /\ hooked w = k) (on_trace ending).
Proof.
  intros Hx Hc Hi Ho Hl Hp w [Hr Hh]. unfold on_trace in *.
  apply wp_meth; simpl.
  - intros _. eapply running_halt; [exact Logic.I|]. split; [exact Hr|exact Hh].
  - intros _ a _. split; [|exact Hh].
    eapply running_close; eauto.
Qed.

Lemma triple_close_ended f self args k p :
  is_close f = true -> is_conversion f = false -> is_init f = false ->
  is_open f = false -> is_load f = false -> is_poll f = false ->
  triple (G:=G) L (on_trace (running k p)) (meth f self args)
    (fun _ => on_trace ended) (on_trace ended).
Proof.
  intros Hx Hc Hi Ho Hl Hp.
  eapply triple_conseq; [apply (triple_close f self args k p); assumption| | |].
  - auto.
  - intros a w [Hw _]. exact Hw.
  - intros w Hw. apply ending_ended, Hw.
Qed.

Lemma triple_usage_exit {A} (good : libfn -> Prop) (I J : list entry -> bool -> Prop)
    e n (Q : A -> world G -> Prop) :
  invariant good I J -> may_exit I J -> output e ->
  triple L (on_trace I) (emit e ≫= fun _ : unit => exit (Code n)) Q (on_trace J).
Proof.
  intros Hinv Hx He w Hw. apply wp_bind, wp_emit, wp_exit. simpl.
  apply Hx. eapply inv_output; eauto.
Qed.

End Transitions.

(** Chaining: a part of the program that keeps the phase, and the property
    of the globals if there is one, then the rest. *)
Ltac holds_solve := solve [holds_go; try (intros ? Hg; exact Hg)].

Ltac take_result :=
  let x := fresh "x" in
  intros x; cbv beta;
  lazymatch type of x with
  | (_ * _)%type => destruct x as [? ?]; cbv beta iota
  | _ => idtac
  end.

Ltac keep_then :=
  lazymatch goal with
  | |- triple ?L (on_trace ?I) (_ ≫= _) _ (on_trace ?J) =>
      eapply (triple_bind L _ _ _ (fun _ => on_trace I));
      [ lazymatch goal with
        | |- triple _ _ ?m _ _ => change (keeps L I J m)
        end; solve [keeps_go]
      | take_result ]
  | |- triple ?L (at_ ?I ?P) (_ ≫= _) _ (on_trace ?J) =>
      eapply (triple_bind L _ _ _ (fun _ => at_ I P));
      [ apply keeps_holds; [solve [keeps_go] | holds_solve]
      | take_result ]
  end.

Ltac eta_pre :=
  cbv beta;
  lazymatch goal with
  | |- triple ?L (fun w => at_ ?I ?P w) ?m ?Q ?J => change (triple L (at_ I P) m Q J)
  end.

(** Chaining up to the first call of [f]. *)
Ltac keep_until f :=
  repeat lazymatch goal with
         | |- triple _ _ (meth f _ _ ≫= _) _ _ => fail
         | |- triple _ _ (lib f _ ≫= _) _ _ => fail
         | _ => keep_then
         end.

(** Chaining as long as [go] accepts the next part of the program. *)
Ltac keep_while go :=
  repeat (lazymatch goal with |- triple _ _ (?m ≫= _) _ _ => go m end; keep_then).

(** The rest of the program keeps the phase. *)
Ltac keep_rest :=
  lazymatch goal with
  | |- triple ?L (on_trace ?I) ?m _ (on_trace ?J) => change (keeps L I J m); solve [keeps_go]
  | |- triple ?L (at_ ?I ?P) ?m _ (on_trace ?J) =>
      apply triple_forget; change (keeps L I J m); solve [keeps_go]
  end.

(** The same, for a weaker postcondition. *)
Ltac keep_relax :=
  lazymatch goal with
  | |- triple ?L (on_trace ?I) ?m _ (on_trace ?J) =>
      apply (triple_post L (on_trace I) m (fun _ => on_trace I));
      [change (keeps L I J m); solve [keeps_go]|]
  end.

(** A part of the program that changes the phase, by the lemma [H]. *)
Tactic Notation "step_then" uconstr(H) :=
  lazymatch goal with
  | |- triple _ (at_ _ _) _ _ _ =>
      eapply triple_bind;
      [apply triple_holds; [eapply H; eauto with trace|holds_solve]|take_result]
  | _ => eapply triple_bind; [eapply H; eauto with trace|take_result]
  end.

(** Chaining through the branches of the program, as long as [go] accepts
    the next part. *)
Ltac keep_tree go :=
  repeat first
    [ lazymatch goal with |- triple _ _ (?m ≫= _) _ _ => go m end; keep_then
    | lazymatch goal with
      | |- triple _ _ (if ?b then _ else _) _ _ => destruct b
      | |- triple _ _ (match ?x with _ => _ end) _ _ => destruct x
      end
    | solve [keep_rest]
    | solve [keep_relax; intros ? ?; apply running_relax] ].

Ltac not_call f m :=
  lazymatch m with
  | meth f _ _ => fail
  | lib f _ => fail
  | _ => idtac
  end.

(** ** df_image_sample.c *)

(** The functions of the program keep every property that its ordinary calls
    keep. *)
Section ImageSampleBody.
Context `{Headers} (L : libspec) (p : bool) (I J : list entry -> bool -> Prop).
Hypothesis Hinv : invariant (plain p) I J.
Hypothesis Hp : p = true.
Hypothesis Hquit : forall n : Z,
  keeps (A:=unit) L I J (ImageSample.dfb_shutdown ≫= fun _ : unit => exit (Code n)).
Import ImageSample.

#[local] Hint Resolve Hinv Hquit : trace.
#[local] Hint Resolve Hquit : progs.

Lemma ImageSample_remove_window_keeps id : keeps L I J (remove_window id).
Proof. unfold remove_window. keeps_go. Qed.

Lemma ImageSample_destroy_stack_keeps : keeps L I J destroy_stack.
Proof. unfold destroy_stack, stack_destructor. keeps_go. Qed.

#[local] Hint Resolve ImageSample_remove_window_keeps
  ImageSample_destroy_stack_keeps : progs.

Lemma ImageSample_dispatch_keeps evt : keeps L I J (dispatch evt).
Proof. unfold dispatch. keeps_go. Qed.

#[local] Hint Resolve ImageSample_dispatch_keeps : progs.

Lemma ImageSample_main_loop_keeps fuel :
  keeps (A:=Z) L I J (forever fuel (main_loop_body fuel)).
Proof. unfold main_loop_body, process_event_buffer. keeps_go. Qed.

Lemma ImageSample_create_stack_loop_keeps n posx posy :
  keeps L I J (create_stack_loop n posx posy).
Proof.
  revert posx posy. induction n as [|n IH]; intros posx posy; simpl.
  - keeps_go.
  - unfold create_stack_body. keeps_go.
Qed.

#[local] Hint Resolve ImageSample_create_stack_loop_keeps : progs.

Lemma ImageSample_create_stack_keeps dsc_width dsc_height :
  keeps L I J (create_stack dsc_width dsc_height).
Proof. unfold create_stack. keeps_go. Qed.

Lemma ImageSample_create_frame_keeps dsc_width dsc_height :
  keeps L I J (create_frame dsc_width dsc_height).
Proof. unfold create_frame. keeps_go. Qed.

Lemma ImageSample_dump_image_info_keeps dsc_width dsc_height :
  keeps L I J (dump_image_info dsc_width dsc_height).
Proof. unfold dump_image_info. keeps_go. Qed.

Lemma ImageSample_frame_blitter_keeps dsc_width dsc_height entry :
  keeps L I J (frame_blitter dsc_width dsc_height entry).
Proof. unfold frame_blitter. keeps_go. Qed.

End ImageSampleBody.

Section ImageSampleArguments.
Context `{Headers} (L : libspec) (I J : list entry -> bool -> Prop).
Hypothesis Hinv : invariant arguments_ok I J.
Hypothesis Hexit : may_exit I J.
Import ImageSample.

#[local] Hint Resolve Hinv Hexit : trace.

Lemma ImageSample_parse_command_line_keeps args mrl :
  keeps L I J (parse_command_line args mrl).
Proof.
  revert mrl. induction args as [|arg rest IH]; intros mrl; simpl; keeps_go.
Qed.

End ImageSampleArguments.

(** The order of the calls. *)
Section ImageSampleOrder.
Context `{Headers} (L : libspec).
Import ImageSample.

Lemma ImageSample_dfb_shutdown_running k p :
  triple L (on_trace (running k p)) dfb_shutdown
    (fun _ w => orderly (log w) /\ hooked w = k) (on_trace ending).
Proof.
  unfold dfb_shutdown.
  pose proof (ImageSample_destroy_stack_keeps L p _ _ (running_plain k p)).
  do 7 keep_then.
  destruct (negb _); simpl.
  - eapply triple_bind; [eapply triple_close; reflexivity|].
    intros ?. apply triple_ret. auto.
  - apply triple_ret. intros w [Hr Hh]. split; [|exact Hh].
    eapply running_orderly, Hr.
Qed.

Lemma ImageSample_quit {A} p (c : Z) :
  keeps (A:=A) L (running false p) ending
    (dfb_shutdown ≫= fun _ : unit => exit (Code c)).
Proof.
  eapply triple_bind; [apply ImageSample_dfb_shutdown_running|].
  intros ?. apply triple_exit. intros w Hw. apply closing_halt; [exact Logic.I|exact Hw].
Qed.

Lemma ImageSample_main_order fuel argv argv' :
  triple L (on_trace starting) (main fuel argv argv')
    (fun n w => on_trace ending (returned n w)) (on_trace ending).
Proof.
  pose proof (ImageSample_parse_command_line_keeps L _ _
                parsing_arguments parsing_may_exit).
  pose proof (fun dw dh => ImageSample_dump_image_info_keeps L false _ _
                (running_plain false false) dw dh).
  pose proof (fun dw dh => ImageSample_create_frame_keeps L false _ _
                (running_plain false false) dw dh).
  pose proof (fun dw dh => ImageSample_create_stack_keeps L false _ _
                (running_plain false false) dw dh).
  pose proof (fun dw dh e => ImageSample_frame_blitter_keeps L true _ _
                (running_plain false true) dw dh e).
  unfold main. destruct (argc argv <? 2).
  { eapply triple_usage_exit; auto with trace. }
  eapply triple_bind; [apply triple_init; reflexivity|intros ?; cbv beta].
  keep_then. rename x into mrl.
  assert (Husage : triple (G:=globals) L (on_trace parsing)
            (emit Usage ≫= fun _ : unit => exit (Code 1))
            (fun n w => on_trace ending (returned n w)) (on_trace ending)).
  { eapply triple_usage_exit; auto with trace. }
  destruct mrl as [[|c s]|]; [exact Husage| |exact Husage].
  eapply triple_bind; [apply triple_open; reflexivity|intros [a1 h]; cbv beta iota].
  keep_until IDirectFBImageProvider_RenderTo.
  eapply triple_bind; [apply triple_play; [reflexivity|auto with trace]|intros ?; cbv beta].
  keep_then.
  eapply triple_conseq;
    [apply (ImageSample_main_loop_keeps L true _ _ (running_plain false true) eq_refl
              (ImageSample_quit true))|auto| |auto].
  intros b w Hw. eapply running_halt; [exact Logic.I|exact Hw].
Qed.

Lemma ImageSample_order fuel argv argv' :
  triple L (on_trace starting) (df_image_sample fuel argv argv')
    (fun _ => on_trace ended) (on_trace ended).
Proof.
  unfold df_image_sample. eapply triple_process.
  - apply ImageSample_main_order.
  - eapply triple_conseq;
      [apply (ImageSample_dfb_shutdown_running true false)| | |]; simpl.
    + intros w' [[Ho' Hr'] Hh']. split; [exact (Hr' Hh')|exact Hh'].
    + intros _ w' [Ho' _]. exact Ho'.
    + intros w' [Ho' _]. exact Ho'.
  - intros w [Ho _]. exact Ho.
Qed.

End ImageSampleOrder.

(** ** Closing a window that is not in the registry *)

Section UnknownWindow.
Context `{Headers}.

Ltac unknown_id Hid :=
  unfold ImageSample.dispatch, VideoSample.dispatch, ImageMulti.dispatch,
    VideoMulti.dispatch, ImageSample.remove_window, VideoSample.remove_window,
    ImageMulti.remove_window, VideoMulti.remove_window;
  unfold mbind, prog_bind, mret, prog_ret, bind, ret, get; simpl;
  rewrite ?Hid; reflexivity.

(** C10: removing a window by an id that is not in the registry does nothing:
    [remove_window] returns NULL (false in the multi-window samples), the
    world, with the registry and the counter of the remaining windows in it,
    is unchanged and no library call is made, and a close event for such an
    id returns to the event loop instead of leaving the program.  This holds
    in the four samples that keep a registry of windows. *)
Theorem remove_window_unknown_id (o : oracle) (caps : Z) (evt : DFBWindowEvent)
    (wi : world ImageSample.globals) (wv : world VideoSample.globals)
    (wm : world ImageMulti.globals) (wn : world VideoMulti.globals) :
  evt_type evt = DWET_CLOSE ->
  direct_hash_lookup (ImageSample.stack (glob wi)) (window_id evt) = None ->
  direct_hash_lookup (VideoSample.stack (glob wv)) (window_id evt) = None ->
  direct_hash_lookup (ImageMulti.stack (glob wm)) (window_id evt) = None ->
  direct_hash_lookup (VideoMulti.stack (glob wn)) (window_id evt) = None ->
  (ImageSample.remove_window (window_id evt) o wi = Ret 0%nat wi /\
   ImageSample.dispatch evt o wi = Ret tt wi) /\
  (VideoSample.remove_window (window_id evt) o wv = Ret 0%nat wv /\
   VideoSample.dispatch caps evt o wv = Ret tt wv) /\
  (ImageMulti.remove_window (window_id evt) o wm = Ret false wm /\
   ImageMulti.dispatch evt o wm = Ret tt wm) /\
  (VideoMulti.remove_window (window_id evt) o wn = Ret false wn /\
   VideoMulti.dispatch evt o wn = Ret tt wn).
Proof.
  intros Hclose Hi Hv Hm Hn.
  repeat split.
  - unknown_id Hi.
  - unfold ImageSample.dispatch. rewrite Hclose. unknown_id Hi.
  - unknown_id Hv.
  - unfold VideoSample.dispatch. rewrite Hclose. unknown_id Hv.
  - unknown_id Hm.
  - unfold ImageMulti.dispatch. rewrite Hclose. unknown_id Hm.
  - unknown_id Hn.
  - unfold VideoMulti.dispatch. rewrite Hclose. unknown_id Hn.
Qed.

End UnknownWindow.

(** ** df_video_sample.c *)

Section VideoSampleBody.
Context `{Headers} (L : libspec) (p : bool) (I J : list entry -> bool -> Prop).
Hypothesis Hinv : invariant (plain p) I J.
Hypothesis Hp : p = true.
Hypothesis Hquit : forall n : Z,
  keeps (A:=unit) L I J (VideoSample.dfb_shutdown ≫= fun _ : unit => exit (Code n)).
Hypothesis Hbrighter : forall flags, keeps L I J (VideoSample.adjust_color flags 257).
Hypothesis Hdarker : forall flags, keeps L I J (VideoSample.adjust_color flags (-257)).
Import VideoSample.

#[local] Hint Resolve Hinv : trace.
#[local] Hint Resolve Hquit Hbrighter Hdarker : progs.

Lemma VideoSample_remove_window_keeps id : keeps L I J (remove_window id).
Proof. unfold remove_window. keeps_go. Qed.

Lemma VideoSample_destroy_stack_keeps : keeps L I J destroy_stack.
Proof. unfold destroy_stack, stack_destructor. keeps_go. Qed.

Lemma VideoSample_seek_keeps step : keeps L I J (seek step).
Proof. unfold seek. keeps_go. Qed.

Lemma VideoSample_set_speed_keeps step : keeps L I J (set_speed step).
Proof. unfold set_speed. keeps_go. Qed.

Lemma VideoSample_set_volume_keeps step : keeps L I J (set_volume step).
Proof. unfold set_volume. keeps_go. Qed.

Lemma VideoSample_stop_start_keeps : keeps L I J stop_start.
Proof. unfold stop_start. keeps_go. Qed.

#[local] Hint Resolve VideoSample_remove_window_keeps VideoSample_destroy_stack_keeps
  VideoSample_seek_keeps VideoSample_set_speed_keeps VideoSample_set_volume_keeps
  VideoSample_stop_start_keeps : progs.

Lemma VideoSample_dispatch_keeps caps evt : keeps L I J (dispatch caps evt).
Proof. unfold dispatch. keeps_go. Qed.

#[local] Hint Resolve VideoSample_dispatch_keeps : progs.

Lemma VideoSample_main_loop_keeps fuel caps :
  keeps (A:=Z) L I J (forever fuel (main_loop_body fuel caps)).
Proof. unfold main_loop_body, process_event_buffer. keeps_go. Qed.

Lemma VideoSample_create_stack_loop_keeps n posx posy :
  keeps L I J (create_stack_loop n posx posy).
Proof.
  revert posx posy. induction n as [|n IH]; intros posx posy; simpl.
  - keeps_go.
  - unfold create_stack_body. keeps_go.
Qed.

#[local] Hint Resolve VideoSample_create_stack_loop_keeps : progs.

Lemma VideoSample_create_stack_keeps dsc_width dsc_height :
  keeps L I J (create_stack dsc_width dsc_height).
Proof. unfold create_stack. keeps_go. Qed.

Lemma VideoSample_create_frame_keeps dsc_width dsc_height :
  keeps L I J (create_frame dsc_width dsc_height).
Proof. unfold create_frame. keeps_go. Qed.

Lemma VideoSample_dump_stream_info_keeps dsc_width dsc_height :
  keeps L I J (dump_stream_info dsc_width dsc_height).
Proof. unfold dump_stream_info. keeps_go. Qed.

End VideoSampleBody.

Section VideoSampleArguments.
Context `{Headers} (L : libspec) (I J : list entry -> bool -> Prop).
Hypothesis Hinv : invariant arguments_ok I J.
Hypothesis Hexit : may_exit I J.
Import VideoSample.

#[local] Hint Resolve Hinv Hexit : trace.

Lemma VideoSample_parse_command_line_keeps args mrl :
  keeps L I J (parse_command_line args mrl).
Proof.
  revert mrl. induction args as [|arg rest IH]; intros mrl; simpl; keeps_go.
Qed.

End VideoSampleArguments.

Section VideoSampleOrder.
Context `{Headers} (L : libspec).
Import VideoSample.

Lemma VideoSample_adjust_color_running k p flags step :
  keeps L (running k p) ending (adjust_color flags step).
Proof. unfold adjust_color. keeps_go. Qed.

Lemma VideoSample_dfb_shutdown_running k p :
  triple L (on_trace (running k p)) dfb_shutdown
    (fun _ w => orderly (log w) /\ hooked w = k) (on_trace ending).
Proof.
  unfold dfb_shutdown.
  pose proof (VideoSample_destroy_stack_keeps L p _ _ (running_plain k p)).
  do 7 keep_then.
  destruct (negb _); simpl.
  - eapply triple_bind; [eapply triple_close; reflexivity|].
    intros ?. apply triple_ret. auto.
  - apply triple_ret. intros w [Hr Hh]. split; [|exact Hh].
    eapply running_orderly, Hr.
Qed.

Lemma VideoSample_quit {A} p (c : Z) :
  keeps (A:=A) L (running false p) ending
    (dfb_shutdown ≫= fun _ : unit => exit (Code c)).
Proof.
  eapply triple_bind; [apply VideoSample_dfb_shutdown_running|].
  intros ?. apply triple_exit. intros w Hw. apply closing_halt; [exact Logic.I|exact Hw].
Qed.

Lemma VideoSample_main_order fuel argv argv' :
  triple L (on_trace starting) (main fuel argv argv')
    (fun n w => on_trace ending (returned n w)) (on_trace ending).
Proof.
  pose proof (VideoSample_parse_command_line_keeps L _ _
                parsing_arguments parsing_may_exit).
  pose proof (fun dw dh => VideoSample_dump_stream_info_keeps L false _ _
                (running_plain false false) dw dh).
  pose proof (fun dw dh => VideoSample_create_frame_keeps L false _ _
                (running_plain false false) dw dh).
  pose proof (fun dw dh => VideoSample_create_stack_keeps L false _ _
                (running_plain false false) dw dh).
  unfold main. destruct (argc argv <? 2).
  { eapply triple_usage_exit; auto with trace. }
  eapply triple_bind; [apply triple_init; reflexivity|intros ?; cbv beta].
  keep_then. rename x into mrl.
  assert (Husage : triple (G:=globals) L (on_trace parsing)
            (emit Usage ≫= fun _ : unit => exit (Code 1))
            (fun n w => on_trace ending (returned n w)) (on_trace ending)).
  { eapply triple_usage_exit; auto with trace. }
  destruct mrl as [[|c s]|]; [exact Husage| |exact Husage].
  keep_then.
  eapply triple_bind; [apply triple_open; reflexivity|intros [a1 h]; cbv beta iota].
  keep_until IDirectFBVideoProvider_PlayTo.
  eapply triple_bind; [apply triple_play; [reflexivity|auto with trace]|intros ?; cbv beta].
  eapply triple_conseq;
    [apply (VideoSample_main_loop_keeps L true _ _ (running_plain false true) eq_refl
              (VideoSample_quit true)
              (fun flags => VideoSample_adjust_color_running false true flags 257)
              (fun flags => VideoSample_adjust_color_running false true flags (-257)))
    |auto| |auto].
  intros b w Hw. eapply running_halt; [exact Logic.I|exact Hw].
Qed.

Lemma VideoSample_order fuel argv argv' :
  triple L (on_trace starting) (df_video_sample fuel argv argv')
    (fun _ => on_trace ended) (on_trace ended).
Proof.
  unfold df_video_sample. eapply triple_process.
  - apply VideoSample_main_order.
  - eapply triple_conseq;
      [apply (VideoSample_dfb_shutdown_running true false)| | |]; simpl.
    + intros w' [[Ho' Hr'] Hh']. split; [exact (Hr' Hh')|exact Hh'].
    + intros _ w' [Ho' _]. exact Ho'.
    + intros w' [Ho' _]. exact Ho'.
  - intros w [Ho _]. exact Ho.
Qed.

End VideoSampleOrder.

(** ** df_image_multi.c *)

Section ImageMultiBody.
Context `{Headers} (L : libspec) (p : bool) (I J : list entry -> bool -> Prop).
Hypothesis Hinv : invariant (plain p) I J.
Hypothesis Hp : p = true.
Hypothesis Hexit : may_exit I J.
Import ImageMulti.

#[local] Hint Resolve Hinv Hexit : trace.

Lemma ImageMulti_render_func_keeps surface : keeps L I J (render_func surface).
Proof. unfold render_func. keeps_go. Qed.

#[local] Hint Resolve ImageMulti_render_func_keeps : progs.

Lemma ImageMulti_add_window_keeps image_provider sdsc_width sdsc_height :
  keeps L I J (add_window image_provider sdsc_width sdsc_height).
Proof. unfold add_window. keeps_go. Qed.

Lemma ImageMulti_remove_window_keeps id : keeps L I J (remove_window id).
Proof. unfold remove_window. keeps_go. Qed.

#[local] Hint Resolve ImageMulti_add_window_keeps ImageMulti_remove_window_keeps : progs.

Lemma ImageMulti_load_file_keeps mrl : keeps L I J (load_file mrl).
Proof. unfold load_file. keeps_go. Qed.

Lemma ImageMulti_dispatch_keeps evt : keeps L I J (dispatch evt).
Proof. unfold dispatch. keeps_go. Qed.

#[local] Hint Resolve ImageMulti_dispatch_keeps : progs.

Lemma ImageMulti_main_loop_keeps fuel :
  keeps (A:=Z) L I J (forever fuel (main_loop_body fuel)).
Proof. unfold main_loop_body, process_event_buffer. keeps_go. Qed.

End ImageMultiBody.

Section ImageMultiArguments.
Context `{Headers} (L : libspec) (I J : list entry -> bool -> Prop).
Hypothesis Hinv : invariant arguments_ok I J.
Hypothesis Hexit : may_exit I J.
Import ImageMulti.

#[local] Hint Resolve Hinv Hexit : trace.

Lemma ImageMulti_parse_command_line_keeps args :
  keeps L I J (parse_command_line args).
Proof. induction args as [|arg rest IH]; simpl; keeps_go. Qed.

End ImageMultiArguments.

Section ImageMultiOrder.
Context `{Headers} (L : libspec).
Import ImageMulti.

Lemma ImageMulti_parse_command_line_counted args :
  holds ImageMulti_counted (parse_command_line args).
Proof.
  induction args as [|arg rest IH]; simpl; [holds_go|].
  destruct (after_dash arg); [holds_go; intros g Hg; exact Hg|].
  eapply triple_bind with
    (R := fun _ w => mrl_count (glob w) = Z.of_nat (length (arg :: rest))).
  - intros w _. apply wp_modify. reflexivity.
  - intros _ w Hw. apply wp_modify. unfold on_glob, ImageMulti_counted. simpl.
    exact Hw.
Qed.

Lemma ImageMulti_add_window_order k p image_provider sdsc_width sdsc_height :
  triple L (on_trace (running k p)) (add_window image_provider sdsc_width sdsc_height)
    (fun _ => on_trace (running k true)) (on_trace ending).
Proof.
  pose proof (ImageMulti_render_func_keeps L true _ _ (running_plain k true)).
  unfold add_window.
  keep_until IDirectFBImageProvider_RenderTo.
  step_then triple_play.
  keep_rest.
Qed.

Lemma ImageMulti_load_file_order k p mrl :
  triple L (on_trace (running k p)) (load_file mrl)
    (fun _ => on_trace (running k true)) (on_trace ending).
Proof.
  unfold load_file.
  keep_while ltac:(fun m => lazymatch m with add_window _ _ _ => fail | _ => idtac end).
  step_then ImageMulti_add_window_order.
  keep_rest.
Qed.

Lemma ImageMulti_load_files_order k p x files :
  triple L (on_trace (running k p)) (for_each (x :: files) load_file)
    (fun _ => on_trace (running k true)) (on_trace ending).
Proof.
  simpl. step_then ImageMulti_load_file_order.
  pose proof (ImageMulti_load_file_keeps L true _ _ (running_plain k true)).
  keep_rest.
Qed.

Lemma ImageMulti_dfb_shutdown_running k p :
  triple L (on_trace (running k p)) dfb_shutdown
    (fun _ w => orderly (log w) /\ hooked w = k) (on_trace ending).
Proof.
  unfold dfb_shutdown, stack_destructor.
  do 5 keep_then.
  destruct (negb _); simpl.
  - eapply triple_bind; [eapply triple_close; reflexivity|].
    intros ?. apply triple_ret. auto.
  - apply triple_ret. intros w [Hr Hh]. split; [|exact Hh].
    eapply running_orderly, Hr.
Qed.

Lemma ImageMulti_main_order fuel argv argv' :
  triple L (fun w => on_trace starting w /\ on_glob ImageMulti_counted w)
    (main fuel argv argv')
    (fun n w => on_trace ending (returned n w)) (on_trace ending).
Proof.
  unfold main. destruct (argc argv <? 2).
  { eapply triple_pre with (P := on_trace starting);
      [eapply triple_usage_exit; auto with trace|intros w [Hw _]; exact Hw]. }
  eapply triple_bind.
  { apply (triple_and L (on_trace starting) (on_glob ImageMulti_counted) _
             (fun _ => on_trace parsing) (fun _ => on_glob ImageMulti_counted));
      [apply triple_init; reflexivity|as_holds; holds_go]. }
  intros ?; cbv beta.
  eapply triple_bind.
  { apply triple_and;
      [apply (ImageMulti_parse_command_line_keeps L _ _ parsing_arguments parsing_may_exit)
      |apply ImageMulti_parse_command_line_counted]. }
  intros ?; cbv beta.
  eapply triple_bind; [apply triple_get_pure|intros g; cbv beta].
  pose (files_of := fun g' : globals => mrl_list g' = mrl_list g).
  eapply triple_pre with
    (P := fun w => (on_trace parsing w /\ on_glob files_of w) /\ ImageMulti_counted g).
  2: { intros w [[Hp Hc] ->]. split; [split; [exact Hp|reflexivity]|exact Hc]. }
  apply triple_pure. intros Hcount.
  destruct (mrl_count g =? 0) eqn:Hzero.
  { eapply triple_pre with (P := on_trace parsing);
      [eapply triple_usage_exit; auto with trace|intros w [Hw _]; exact Hw]. }
  assert (Hfiles : exists x files, mrl_list g = x :: files).
  { unfold ImageMulti_counted in Hcount. destruct (mrl_list g) as [|x files]; [|eauto].
    simpl in Hcount. rewrite Hcount in Hzero. discriminate. }
  destruct Hfiles as (x & files & Hfiles).
  eapply triple_bind.
  { apply (triple_and L (on_trace parsing) (on_glob files_of) _
             (fun _ => on_trace (running false false)) (fun _ => on_glob files_of));
      [apply triple_open; reflexivity|as_holds; holds_go]. }
  intros [a1 h]; cbv beta iota.
  eapply triple_bind.
  { apply (triple_and L (on_trace (running false false)) (on_glob files_of) _
             (fun _ => on_trace (running false false)) (fun _ => on_glob files_of));
      [keep_rest|as_holds; holds_go; intros g' Hg'; exact Hg']. }
  intros ?; cbv beta.
  eapply triple_bind.
  { apply (triple_and L (on_trace (running false false)) (on_glob files_of) _
             (fun _ => on_trace (running true false)) (fun _ => on_glob files_of));
      [apply triple_atexit|as_holds; holds_go]. }
  intros ?; cbv beta.
  eapply triple_bind; [apply triple_get_pure|intros g1; cbv beta].
  eapply triple_pre with
    (P := fun w => on_trace (running true false) w /\ mrl_list g1 = x :: files).
  2: { intros w [[Hp Hc] ->]. split; [exact Hp|].
       unfold on_glob, files_of in Hc. rewrite Hc. exact Hfiles. }
  apply triple_pure. intros Hfiles1.
  keep_while ltac:(fun m => lazymatch m with for_each _ _ => fail | _ => idtac end).
  rewrite Hfiles1.
  step_then ImageMulti_load_files_order.
  eapply triple_conseq;
    [apply (ImageMulti_main_loop_keeps L true _ _ (running_plain true true) eq_refl
              (running_may_exit true true))|auto| |auto].
  intros b w Hw. eapply running_halt; [exact Logic.I|exact Hw].
Qed.

Lemma ImageMulti_order fuel argv argv' :
  triple L (fun w => on_trace starting w /\ on_glob ImageMulti_counted w)
    (df_image_multi fuel argv argv')
    (fun _ => on_trace ended) (on_trace ended).
Proof.
  unfold df_image_multi. eapply triple_process.
  - apply ImageMulti_main_order.
  - eapply triple_conseq;
      [apply (ImageMulti_dfb_shutdown_running true false)| | |]; simpl.
    + intros w' [[Ho' Hr'] Hh']. split; [exact (Hr' Hh')|exact Hh'].
    + intros _ w' [Ho' _]. exact Ho'.
    + intros w' [Ho' _]. exact Ho'.
  - intros w [Ho _]. exact Ho.
Qed.

End ImageMultiOrder.

(** ** df_video_multi.c *)

Section VideoMultiBody.
Context `{Headers} (L : libspec) (p : bool) (I J : list entry -> bool -> Prop).
Hypothesis Hinv : invariant (plain p) I J.
Hypothesis Hp : p = true.
Hypothesis Hexit : may_exit I J.
Hypothesis Hbrighter : forall id flags, keeps L I J (VideoMulti.adjust_color id flags 257).
Hypothesis Hdarker : forall id flags, keeps L I J (VideoMulti.adjust_color id flags (-257)).
Import VideoMulti.

#[local] Hint Resolve Hinv Hexit : trace.
#[local] Hint Resolve Hbrighter Hdarker : progs.

Lemma VideoMulti_logo_progress_keeps id entry : keeps L I J (logo_progress id entry).
Proof. unfold logo_progress. keeps_go. Qed.

Lemma VideoMulti_add_window_keeps video_provider sdsc_width sdsc_height :
  keeps L I J (add_window video_provider sdsc_width sdsc_height).
Proof. unfold add_window. keeps_go. Qed.

Lemma VideoMulti_remove_window_keeps id : keeps L I J (remove_window id).
Proof. unfold remove_window. keeps_go. Qed.

Lemma VideoMulti_destroy_stack_keeps : keeps L I J destroy_stack.
Proof. unfold destroy_stack, stack_destructor. keeps_go. Qed.

Lemma VideoMulti_pause_resume_keeps id : keeps L I J (pause_resume id).
Proof. unfold pause_resume. keeps_go. Qed.

Lemma VideoMulti_stop_start_keeps id : keeps L I J (stop_start id).
Proof. unfold stop_start. keeps_go. Qed.

Lemma VideoMulti_seek_keeps id step : keeps L I J (seek id step).
Proof. unfold seek. keeps_go. Qed.

Lemma VideoMulti_send_input_event_keeps id evt : keeps L I J (send_input_event id evt).
Proof. unfold send_input_event. keeps_go. Qed.

Lemma VideoMulti_set_speed_keeps id step : keeps L I J (set_speed id step).
Proof. unfold set_speed. keeps_go. Qed.

Lemma VideoMulti_set_volume_keeps id step : keeps L I J (set_volume id step).
Proof. unfold set_volume. keeps_go. Qed.

#[local] Hint Resolve VideoMulti_logo_progress_keeps VideoMulti_add_window_keeps
  VideoMulti_remove_window_keeps VideoMulti_destroy_stack_keeps
  VideoMulti_pause_resume_keeps VideoMulti_stop_start_keeps VideoMulti_seek_keeps
  VideoMulti_send_input_event_keeps VideoMulti_set_speed_keeps
  VideoMulti_set_volume_keeps : progs.

Lemma VideoMulti_load_file_keeps mrl : keeps L I J (load_file mrl).
Proof. unfold load_file. keeps_go. Qed.

Lemma VideoMulti_dispatch_keeps evt : keeps L I J (dispatch evt).
Proof. unfold dispatch. keeps_go. Qed.

#[local] Hint Resolve VideoMulti_dispatch_keeps : progs.

Lemma VideoMulti_main_loop_keeps fuel :
  keeps (A:=Z) L I J (forever fuel (main_loop_body fuel)).
Proof. unfold main_loop_body, process_event_buffer. keeps_go. Qed.

End VideoMultiBody.

Section VideoMultiArguments.
Context `{Headers} (L : libspec) (I J : list entry -> bool -> Prop).
Hypothesis Hinv : invariant arguments_ok I J.
Hypothesis Hexit : may_exit I J.
Import VideoMulti.

#[local] Hint Resolve Hinv Hexit : trace.

Lemma VideoMulti_parse_command_line_keeps args :
  keeps L I J (parse_command_line args).
Proof. induction args as [|arg rest IH]; simpl; keeps_go. Qed.

End VideoMultiArguments.

Section VideoMultiOrder.
Context `{Headers} (L : libspec).
Import VideoMulti.

Lemma VideoMulti_adjust_color_running k p id flags step :
  keeps L (running k p) ending (adjust_color id flags step).
Proof. unfold adjust_color. keeps_go. Qed.

Lemma VideoMulti_parse_command_line_counted args :
  holds VideoMulti_counted (parse_command_line args).
Proof.
  induction args as [|arg rest IH]; simpl; [holds_go|].
  destruct (after_dash arg); [holds_go; intros g Hg; exact Hg|].
  eapply triple_bind with
    (R := fun _ w => mrl_count (glob w) = Z.of_nat (length (arg :: rest))).
  - intros w _. apply wp_modify. reflexivity.
  - intros _ w Hw. apply wp_modify. unfold on_glob, VideoMulti_counted. simpl.
    exact Hw.
Qed.

Lemma VideoMulti_add_window_order k p video_provider sdsc_width sdsc_height :
  triple L (on_trace (running k p)) (add_window video_provider sdsc_width sdsc_height)
    (fun _ => on_trace (running k true)) (on_trace ending).
Proof.
  unfold add_window.
  keep_until IDirectFBVideoProvider_PlayTo.
  step_then triple_play.
  keep_rest.
Qed.

Lemma VideoMulti_load_file_order k p mrl :
  triple L (on_trace (running k p)) (load_file mrl)
    (fun _ => on_trace (running k true)) (on_trace ending).
Proof.
  unfold load_file.
  keep_while ltac:(fun m => idtac).
  eapply VideoMulti_add_window_order.
Qed.

Lemma VideoMulti_load_files_order k p x files :
  triple L (on_trace (running k p)) (for_each (x :: files) load_file)
    (fun _ => on_trace (running k true)) (on_trace ending).
Proof.
  simpl. step_then VideoMulti_load_file_order.
  pose proof (VideoMulti_load_file_keeps L true _ _ (running_plain k true)).
  keep_rest.
Qed.

Lemma VideoMulti_dfb_shutdown_running k p :
  triple L (on_trace (running k p)) dfb_shutdown
    (fun _ w => orderly (log w) /\ hooked w = k) (on_trace ending).
Proof.
  unfold dfb_shutdown.
  pose proof (VideoMulti_destroy_stack_keeps L p _ _ (running_plain k p)).
  do 5 keep_then.
  destruct (negb _); simpl.
  - eapply triple_bind; [eapply triple_close; reflexivity|].
    intros ?. apply triple_ret. auto.
  - apply triple_ret. intros w [Hr Hh]. split; [|exact Hh].
    eapply running_orderly, Hr.
Qed.

Lemma VideoMulti_main_order fuel argv argv' :
  triple L (fun w => on_trace starting w /\ on_glob VideoMulti_counted w)
    (main fuel argv argv')
    (fun n w => on_trace ending (returned n w)) (on_trace ending).
Proof.
  unfold main. destruct (argc argv <? 2).
  { eapply triple_pre with (P := on_trace starting);
      [eapply triple_usage_exit; auto with trace|intros w [Hw _]; exact Hw]. }
  eapply triple_bind.
  { apply (triple_and L (on_trace starting) (on_glob VideoMulti_counted) _
             (fun _ => on_trace parsing) (fun _ => on_glob VideoMulti_counted));
      [apply triple_init; reflexivity|as_holds; holds_go]. }
  intros ?; cbv beta.
  eapply triple_bind.
  { apply triple_and;
      [apply (VideoMulti_parse_command_line_keeps L _ _ parsing_arguments parsing_may_exit)
      |apply VideoMulti_parse_command_line_counted]. }
  intros ?; cbv beta.
  eapply triple_bind; [apply triple_get_pure|intros g; cbv beta].
  pose (files_of := fun g' : globals => mrl_list g' = mrl_list g).
  eapply triple_pre with
    (P := fun w => (on_trace parsing w /\ on_glob files_of w) /\ VideoMulti_counted g).
  2: { intros w [[Hp Hc] ->]. split; [split; [exact Hp|reflexivity]|exact Hc]. }
  apply triple_pure. intros Hcount.
  destruct (mrl_count g =? 0) eqn:Hzero.
  { eapply triple_pre with (P := on_trace parsing);
      [eapply triple_usage_exit; auto with trace|intros w [Hw _]; exact Hw]. }
  assert (Hfiles : exists x files, mrl_list g = x :: files).
  { unfold VideoMulti_counted in Hcount. destruct (mrl_list g) as [|x files]; [|eauto].
    simpl in Hcount. rewrite Hcount in Hzero. discriminate. }
  destruct Hfiles as (x & files & Hfiles).
  eapply triple_bind.
  { apply (triple_and L (on_trace parsing) (on_glob files_of) _
             (fun _ => on_trace (running false false)) (fun _ => on_glob files_of));
      [apply triple_open; reflexivity|as_holds; holds_go]. }
  intros [a1 h]; cbv beta iota.
  eapply triple_bind.
  { apply (triple_and L (on_trace (running false false)) (on_glob files_of) _
             (fun _ => on_trace (running false false)) (fun _ => on_glob files_of));
      [keep_rest|as_holds; holds_go; intros g' Hg'; exact Hg']. }
  intros ?; cbv beta.
  eapply triple_bind.
  { apply (triple_and L (on_trace (running false false)) (on_glob files_of) _
             (fun _ => on_trace (running true false)) (fun _ => on_glob files_of));
      [apply triple_atexit|as_holds; holds_go]. }
  intros ?; cbv beta.
  eapply triple_bind; [apply triple_get_pure|intros g1; cbv beta].
  eapply triple_pre with
    (P := fun w => on_trace (running true false) w /\ mrl_list g1 = x :: files).
  2: { intros w [[Hp Hc] ->]. split; [exact Hp|].
       unfold on_glob, files_of in Hc. rewrite Hc. exact Hfiles. }
  apply triple_pure. intros Hfiles1.
  keep_while ltac:(fun m => lazymatch m with for_each _ _ => fail | _ => idtac end).
  rewrite Hfiles1.
  step_then VideoMulti_load_files_order.
  keep_then.
  eapply triple_conseq;
    [apply (VideoMulti_main_loop_keeps L true _ _ (running_plain true true) eq_refl
              (running_may_exit true true)
              (fun id flags => VideoMulti_adjust_color_running true true id flags 257)
              (fun id flags => VideoMulti_adjust_color_running true true id flags (-257)))
    |auto| |auto].
  intros b w Hw. eapply running_halt; [exact Logic.I|exact Hw].
Qed.

Lemma VideoMulti_order fuel argv argv' :
  triple L (fun w => on_trace starting w /\ on_glob VideoMulti_counted w)
    (df_video_multi fuel argv argv')
    (fun _ => on_trace ended) (on_trace ended).
Proof.
  unfold df_video_multi. eapply triple_process.
  - apply VideoMulti_main_order.
  - eapply triple_conseq;
      [apply (VideoMulti_dfb_shutdown_running true false)| | |]; simpl.
    + intros w' [[Ho' Hr'] Hh']. split; [exact (Hr' Hh')|exact Hh'].
    + intros _ w' [Ho' _]. exact Ho'.
    + intros w' [Ho' _]. exact Ho'.
  - intros w [Ho _]. exact Ho.
Qed.

End VideoMultiOrder.

(** ** df_font_sample.c *)

Section FontSampleBody.
Context `{Headers} (L : libspec) (p : bool) (I J : list entry -> bool -> Prop).
Hypothesis Hinv : invariant (plain p) I J.
Hypothesis Hp : p = true.
Hypothesis Hexit : may_exit I J.
Import FontSample.

#[local] Hint Resolve Hinv Hexit : trace.

Lemma FontSample_render_help_page_keeps fontfile : keeps L I J (render_help_page fontfile).
Proof. unfold render_help_page. keeps_go. Qed.

Lemma FontSample_render_glyph_keeps font first_char j i :
  keeps L I J (render_glyph font first_char j i).
Proof. unfold render_glyph. keeps_go. Qed.

Lemma FontSample_draw_lines_keeps color : keeps L I J (draw_lines color).
Proof. unfold draw_lines. keeps_go. Qed.

#[local] Hint Resolve FontSample_render_help_page_keeps FontSample_render_glyph_keeps
  FontSample_draw_lines_keeps : progs.

Lemma FontSample_render_font_page_keeps fontfile first_char :
  keeps L I J (render_font_page fontfile first_char).
Proof. unfold render_font_page. keeps_go. Qed.

Lemma FontSample_key_down_keeps symbol : keeps L I J (key_down symbol).
Proof. unfold key_down. keeps_go. Qed.

#[local] Hint Resolve FontSample_render_font_page_keeps FontSample_key_down_keeps : progs.

Lemma FontSample_dispatch_keeps evt : keeps L I J (dispatch evt).
Proof. unfold dispatch. keeps_go. Qed.

#[local] Hint Resolve FontSample_dispatch_keeps : progs.

Lemma FontSample_process_event_buffer_keeps fuel :
  keeps L I J (process_event_buffer fuel).
Proof. unfold process_event_buffer. keeps_go. Qed.

#[local] Hint Resolve FontSample_process_event_buffer_keeps : progs.

Lemma FontSample_main_loop_keeps fuel fuel' :
  keeps (A:=Z) L I J (forever fuel (main_loop_body fuel')).
Proof. unfold main_loop_body. keeps_go. Qed.

End FontSampleBody.

Section FontSampleArguments.
Context `{Headers} (L : libspec) (I J : list entry -> bool -> Prop).
Hypothesis Hinv : invariant arguments_ok I J.
Hypothesis Hexit : may_exit I J.
Import FontSample.

#[local] Hint Resolve Hinv Hexit : trace.

Lemma FontSample_parse_command_line_keeps args :
  keeps L I J (parse_command_line args).
Proof. induction args as [|arg rest IH]; simpl; keeps_go. Qed.

End FontSampleArguments.

Section FontSampleOrder.
Context `{Headers} (L : libspec).
Import FontSample.

Lemma FontSample_parse_command_line_to_draw args :
  holds FontSample_to_draw (parse_command_line args).
Proof. induction args as [|arg rest IH]; simpl; holds_go; intros g Hg; exact Hg. Qed.

Lemma FontSample_render_help_page_order k p fontfile :
  triple L (on_trace (running k p)) (render_help_page fontfile)
    (fun _ => on_trace (running k true)) (on_trace ending).
Proof.
  unfold render_help_page.
  keep_until IDirectFBSurface_DrawString.
  step_then triple_play.
  keep_rest.
Qed.

Lemma FontSample_render_font_page_order k p fontfile first_char :
  triple L (on_trace (running k p)) (render_font_page fontfile first_char)
    (fun _ => on_trace (running k true)) (on_trace ending).
Proof.
  pose proof (FontSample_draw_lines_keeps L true _ _ (running_plain k true)).
  pose proof (FontSample_render_glyph_keeps L true _ _ (running_plain k true)).
  unfold render_font_page.
  keep_while ltac:(fun m => idtac).
  destruct (negb _).
  - keep_until IDirectFBSurface_DrawString.
    step_then triple_play.
    keep_rest.
  - keep_until IDirectFBSurface_DrawString.
    step_then triple_play.
    keep_rest.
Qed.

Lemma FontSample_dfb_shutdown_running k p :
  triple L (on_trace (running k p)) dfb_shutdown
    (fun _ w => orderly (log w) /\ hooked w = k) (on_trace ending).
Proof.
  unfold dfb_shutdown.
  do 5 keep_then.
  destruct (negb _); simpl.
  - eapply triple_bind; [eapply triple_close; reflexivity|].
    intros ?. apply triple_ret. auto.
  - apply triple_ret. intros w [Hr Hh]. split; [|exact Hh].
    eapply running_orderly, Hr.
Qed.

Lemma FontSample_first_round k fuel :
  triple L (at_ (running k false) FontSample_to_draw) (main_loop_body fuel)
    (fun _ => on_trace (running k true)) (on_trace ending).
Proof.
  pose proof (FontSample_process_event_buffer_keeps L true _ _
                (running_plain k true) eq_refl (running_may_exit k true)).
  unfold main_loop_body.
  eapply triple_bind; [apply triple_get_at|intros g; cbv beta].
  apply triple_pure. intros Hg. apply triple_forget.
  unfold FontSample_to_draw in Hg. rewrite Hg. simpl.
  eapply triple_bind with (R := fun _ => on_trace (running k true)).
  { keep_then.
    eapply triple_bind with (R := fun _ => on_trace (running k true)).
    - destruct (negb _).
      + apply FontSample_render_help_page_order.
      + apply FontSample_render_font_page_order.
    - intros ?. keep_rest. }
  intros ?. keep_rest.
Qed.

Lemma FontSample_main_loop_order k fuel fuel' :
  triple L (at_ (running k false) FontSample_to_draw)
    (forever fuel (main_loop_body fuel'))
    (fun n w => on_trace ending (returned n w)) (on_trace ending).
Proof.
  destruct fuel as [|fuel]; simpl.
  - apply triple_forget. intros w Hw. apply wp_spin. simpl.
    eapply running_ending, Hw.
  - eapply triple_bind; [apply FontSample_first_round|intros r; cbv beta].
    destruct r as [n|].
    + apply triple_ret. intros w Hw. eapply running_halt; [exact Logic.I|exact Hw].
    + eapply triple_post;
        [apply (FontSample_main_loop_keeps L true _ _ (running_plain k true) eq_refl
                  (running_may_exit k true))|].
      intros n w Hw. eapply running_halt; [exact Logic.I|exact Hw].
Qed.

Lemma FontSample_main_order fuel argv argv' :
  triple L (at_ starting FontSample_to_draw) (main fuel argv argv')
    (fun n w => on_trace ending (returned n w)) (on_trace ending).
Proof.
  pose proof (FontSample_parse_command_line_keeps L _ _
                parsing_arguments parsing_may_exit).
  pose proof FontSample_parse_command_line_to_draw.
  unfold main.
  step_then triple_init.
  do 2 keep_then.
  destruct (fontfile_count x1 =? 0).
  { apply triple_forget. eapply triple_usage_exit; auto with trace. }
  step_then triple_open.
  keep_then.
  step_then triple_atexit.
  keep_while ltac:(fun m => idtac).
  apply FontSample_main_loop_order.
Qed.

Lemma FontSample_order fuel argv argv' :
  triple L (at_ starting FontSample_to_draw) (df_font_sample fuel argv argv')
    (fun _ => on_trace ended) (on_trace ended).
Proof.
  unfold df_font_sample. eapply triple_process.
  - apply FontSample_main_order.
  - eapply triple_conseq;
      [apply (FontSample_dfb_shutdown_running true false)| | |]; simpl.
    + intros w' [[Ho' Hr'] Hh']. split; [exact (Hr' Hh')|exact Hh'].
    + intros _ w' [Ho' _]. exact Ho'.
    + intros w' [Ho' _]. exact Ho'.
  - intros w [Ho _]. exact Ho.
Qed.

End FontSampleOrder.

(** ** df_databuffer.c *)

Section DatabufferBody.
Context (L : libspec) (p : bool) (I J : list entry -> bool -> Prop).
Hypothesis Hinv : invariant (plain p) I J.
Hypothesis Hspawn : forall buffer, keeps L I J (Databuffer.spawn_streamer buffer).
Import Databuffer.

#[local] Hint Resolve Hinv : trace.
#[local] Hint Resolve Hspawn : progs.

Lemma Databuffer_load_font_keeps ls buffer : keeps L I J (load_font ls buffer).
Proof. unfold load_font. keeps_go. Qed.

Lemma Databuffer_load_media_keeps ls msg buffer : keeps L I J (load_media ls msg buffer).
Proof. unfold load_media. keeps_go. Qed.

Lemma Databuffer_show_media_keeps ls : keeps L I J (show_media ls).
Proof. unfold show_media. keeps_go. Qed.

Lemma Databuffer_release_media_keeps : keeps L I J release_media.
Proof. unfold release_media. keeps_go. Qed.

#[local] Hint Resolve Databuffer_load_font_keeps Databuffer_load_media_keeps
  Databuffer_show_media_keeps Databuffer_release_media_keeps : progs.

Lemma Databuffer_test_file_keeps : keeps L I J test_file.
Proof. unfold test_file. keeps_go. Qed.

Lemma Databuffer_test_memory_keeps : keeps L I J test_memory.
Proof. unfold test_memory. keeps_go. Qed.

Lemma Databuffer_test_streamed_keeps : keeps L I J test_streamed.
Proof. unfold test_streamed. keeps_go. Qed.

Lemma Databuffer_streamer_loop_keeps fuel buffer usec :
  keeps L I J (streamer_loop fuel buffer usec).
Proof.
  revert usec. induction fuel as [|fuel IH]; intros usec; simpl; keeps_go.
Qed.

#[local] Hint Resolve Databuffer_streamer_loop_keeps : progs.

Lemma Databuffer_streamer_keeps fuel arg : keeps L I J (streamer fuel arg).
Proof. unfold streamer. keeps_go. Qed.

End DatabufferBody.

Section DatabufferArguments.
Context (L : libspec) (I J : list entry -> bool -> Prop).
Hypothesis Hinv : invariant arguments_ok I J.
Hypothesis Hexit : may_exit I J.
Import Databuffer.

#[local] Hint Resolve Hinv Hexit : trace.

Lemma Databuffer_parse_command_line_keeps args :
  keeps L I J (parse_command_line args).
Proof. induction args as [|arg rest IH]; simpl; keeps_go. Qed.

End DatabufferArguments.

Section DatabufferOrder.
Context (L : libspec).
Import Databuffer.

Lemma Databuffer_spawn_streamer_running k p buffer :
  keeps L (running k p) ending (spawn_streamer buffer).
Proof. unfold spawn_streamer. keeps_go. Qed.

Lemma Databuffer_dfb_shutdown_running k p :
  triple L (on_trace (running k p)) dfb_shutdown
    (fun _ w => orderly (log w) /\ hooked w = k) (on_trace ending).
Proof.
  unfold dfb_shutdown.
  do 6 keep_then.
  destruct (negb _); simpl.
  - eapply triple_bind; [eapply triple_close; reflexivity|].
    intros ?. apply triple_ret. auto.
  - apply triple_ret. intros w [Hr Hh]. split; [|exact Hh].
    eapply running_orderly, Hr.
Qed.

Lemma Databuffer_main_order argv argv' :
  triple L (on_trace starting) (main argv argv')
    (fun n w => on_trace ending (returned n w)) (on_trace ending).
Proof.
  pose proof (Databuffer_parse_command_line_keeps L _ _
                parsing_arguments parsing_may_exit).
  unfold main.
  step_then triple_init.
  do 2 keep_then.
  destruct (_ && _).
  { eapply triple_usage_exit; auto with trace. }
  assert (Husage : triple (G:=globals) L (on_trace parsing)
            (emit Usage ≫= fun _ : unit => exit (Code 1))
            (fun n w => on_trace ending (returned n w)) (on_trace ending)).
  { eapply triple_usage_exit; auto with trace. }
  destruct (fontfile x1); [|exact Husage].
  destruct (mediafile x1); [|exact Husage].
  step_then triple_open.
  keep_then.
  step_then triple_atexit.
  pose proof (Databuffer_test_file_keeps L false _ _ (running_plain true false)).
  pose proof (Databuffer_test_memory_keeps L false _ _ (running_plain true false)).
  pose proof (Databuffer_test_streamed_keeps L false _ _ (running_plain true false)
                (Databuffer_spawn_streamer_running true false)).
  keep_while ltac:(fun m => idtac).
  apply triple_exit. intros w Hw. eapply running_halt; [exact Logic.I|exact Hw].
Qed.

Lemma Databuffer_order argv argv' :
  triple L (on_trace starting) (df_databuffer argv argv')
    (fun _ => on_trace ended) (on_trace ended).
Proof.
  unfold df_databuffer. eapply triple_process.
  - apply Databuffer_main_order.
  - eapply triple_conseq;
      [apply (Databuffer_dfb_shutdown_running true false)| | |]; simpl.
    + intros w' [[Ho' Hr'] Hh']. split; [exact (Hr' Hh')|exact Hh'].
    + intros _ w' [Ho' _]. exact Ho'.
    + intros w' [Ho' _]. exact Ho'.
  - intros w [Ho _]. exact Ho.
Qed.

End DatabufferOrder.

(** ** df_databuffer.c, the earlier version *)

Section DatabufferOldBody.
Context (L : libspec) (p : bool) (I J : list entry -> bool -> Prop).
Hypothesis Hinv : invariant (plain p) I J.
Hypothesis Hspawn : forall buffer, keeps L I J (DatabufferOld.spawn_streamer buffer).
Import DatabufferOld.

#[local] Hint Resolve Hinv : trace.
#[local] Hint Resolve Hspawn : progs.

Lemma DatabufferOld_load_font_keeps ls buffer : keeps L I J (load_font ls buffer).
Proof. unfold load_font. keeps_go. Qed.

Lemma DatabufferOld_load_media_keeps ls msg buffer :
  keeps L I J (load_media ls msg buffer).
Proof. unfold load_media. keeps_go. Qed.

Lemma DatabufferOld_show_media_keeps ls image_provider video_provider :
  keeps L I J (show_media ls image_provider video_provider).
Proof. unfold show_media. keeps_go. Qed.

Lemma DatabufferOld_release_media_keeps surface image_provider video_provider font :
  keeps L I J (release_media surface image_provider video_provider font).
Proof. unfold release_media. keeps_go. Qed.

#[local] Hint Resolve DatabufferOld_load_font_keeps DatabufferOld_load_media_keeps
  DatabufferOld_show_media_keeps DatabufferOld_release_media_keeps : progs.

Lemma DatabufferOld_test_file_keeps : keeps L I J test_file.
Proof. unfold test_file. keeps_go. Qed.

Lemma DatabufferOld_test_memory_keeps : keeps L I J test_memory.
Proof. unfold test_memory. keeps_go. Qed.

Lemma DatabufferOld_test_streamed_keeps : keeps L I J test_streamed.
Proof. unfold test_streamed. keeps_go. Qed.

Lemma DatabufferOld_streamer_loop_keeps fuel buffer usec :
  keeps L I J (streamer_loop fuel buffer usec).
Proof.
  revert usec. induction fuel as [|fuel IH]; intros usec; simpl; keeps_go.
Qed.

#[local] Hint Resolve DatabufferOld_streamer_loop_keeps : progs.

Lemma DatabufferOld_streamer_keeps fuel arg : keeps L I J (streamer fuel arg).
Proof. unfold streamer. keeps_go. Qed.

End DatabufferOldBody.

Section DatabufferOldOrder.
Context (L : libspec).
Import DatabufferOld.

Lemma DatabufferOld_spawn_streamer_running k p buffer :
  keeps L (running k p) ending (spawn_streamer buffer).
Proof. unfold spawn_streamer. keeps_go. Qed.

Lemma DatabufferOld_dfb_shutdown_running k p :
  triple L (on_trace (running k p)) dfb_shutdown
    (fun _ w => orderly (log w) /\ hooked w = k) (on_trace ending).
Proof.
  unfold dfb_shutdown.
  do 2 keep_then.
  destruct (negb _); simpl.
  - eapply triple_bind; [eapply triple_close; reflexivity|].
    intros ?. apply triple_ret. auto.
  - apply triple_ret. intros w [Hr Hh]. split; [|exact Hh].
    eapply running_orderly, Hr.
Qed.

Lemma DatabufferOld_main_order argv argv' :
  triple L (on_trace starting) (main argv argv')
    (fun n w => on_trace ending (returned n w)) (on_trace ending).
Proof.
  unfold main. destruct (negb _).
  { eapply triple_usage_exit; auto with trace. }
  step_then triple_init.
  destruct argv' as [|argv0 [|argv1 rest]]; try keep_rest.
  destruct (strcmp0 argv1 "--help").
  { eapply triple_usage_exit; auto with trace. }
  do 2 keep_then.
  step_then triple_open.
  keep_then.
  step_then triple_atexit.
  pose proof (DatabufferOld_test_file_keeps L false _ _ (running_plain true false)).
  pose proof (DatabufferOld_test_memory_keeps L false _ _ (running_plain true false)).
  pose proof (DatabufferOld_test_streamed_keeps L false _ _ (running_plain true false)
                (DatabufferOld_spawn_streamer_running true false)).
  keep_while ltac:(fun m => idtac).
  apply triple_exit. intros w Hw. eapply running_halt; [exact Logic.I|exact Hw].
Qed.

Lemma DatabufferOld_order argv argv' :
  triple L (on_trace starting) (df_databuffer_old argv argv')
    (fun _ => on_trace ended) (on_trace ended).
Proof.
  unfold df_databuffer_old. eapply triple_process.
  - apply DatabufferOld_main_order.
  - eapply triple_conseq;
      [apply (DatabufferOld_dfb_shutdown_running true false)| | |]; simpl.
    + intros w' [[Ho' Hr'] Hh']. split; [exact (Hr' Hh')|exact Hh'].
    + intros _ w' [Ho' _]. exact Ho'.
    + intros w' [Ho' _]. exact Ho'.
  - intros w [Ho _]. exact Ho.
Qed.

End DatabufferOldOrder.

(** ** fs_music_sample.c *)

Section MusicSampleBody.
Context `{Headers} (L : libspec) (p : bool) (I J : list entry -> bool -> Prop).
Hypothesis Hinv : invariant (plain p) I J.
Hypothesis Hp : p = true.
Import MusicSample.

#[local] Hint Resolve Hinv : trace.

Lemma MusicSample_unfreeze_keeps : keeps L I J unfreeze.
Proof. unfold unfreeze. keeps_go. Qed.

#[local] Hint Resolve MusicSample_unfreeze_keeps : progs.

Lemma MusicSample_on_key_keeps c m t len : keeps L I J (on_key c m t len).
Proof. unfold on_key. keeps_go. Qed.

#[local] Hint Resolve MusicSample_on_key_keeps : progs.

Lemma MusicSample_read_keys_keeps fuel m t len : keeps L I J (read_keys fuel m t len).
Proof. induction fuel as [|fuel IH]; simpl; keeps_go. Qed.

#[local] Hint Resolve MusicSample_read_keys_keeps : progs.

Lemma MusicSample_poll_keeps fuel m t len : keeps L I J (poll fuel m t len).
Proof. unfold poll. keeps_go. Qed.

#[local] Hint Resolve MusicSample_poll_keeps : progs.

Lemma MusicSample_poll_loop_keeps fuel m t len : keeps L I J (poll_loop fuel m t len).
Proof. induction fuel as [|fuel IH]; simpl; keeps_go. Qed.

#[local] Hint Resolve MusicSample_poll_loop_keeps : progs.

Lemma MusicSample_play_track_keeps fuel m t : keeps L I J (play_track fuel m t).
Proof. unfold play_track. keeps_go. Qed.

#[local] Hint Resolve MusicSample_play_track_keeps : progs.

Lemma MusicSample_track_loop_keeps fuel m track : keeps L I J (track_loop fuel m track).
Proof. revert track. induction fuel as [|fuel IH]; intros track; simpl; keeps_go. Qed.

#[local] Hint Resolve MusicSample_track_loop_keeps : progs.

Lemma MusicSample_play_media_keeps fuel m : keeps L I J (play_media fuel m).
Proof. unfold play_media. keeps_go. Qed.

#[local] Hint Resolve MusicSample_play_media_keeps : progs.

Lemma MusicSample_media_loop_keeps fuel media : keeps L I J (media_loop fuel media).
Proof. revert media. induction fuel as [|fuel IH]; intros media; simpl; keeps_go. Qed.

#[local] Hint Resolve MusicSample_media_loop_keeps : progs.

Lemma MusicSample_playlist_loop_keeps fuel : keeps L I J (playlist_loop fuel).
Proof. induction fuel as [|fuel IH]; simpl; keeps_go. Qed.

End MusicSampleBody.

Section MusicSampleArguments.
Context `{Headers} (L : libspec) (I J : list entry -> bool -> Prop).
Hypothesis Hinv : invariant arguments_ok I J.
Hypothesis Hexit : may_exit I J.
Import MusicSample.

#[local] Hint Resolve Hinv Hexit : trace.

Lemma MusicSample_parse_command_line_keeps args id :
  keeps L I J (parse_command_line args id).
Proof. revert id. induction args as [|arg rest IH]; intros id; simpl; keeps_go. Qed.

End MusicSampleArguments.

Section MusicSampleOrder.
Context `{Headers} (L : libspec).
Import MusicSample.

Lemma MusicSample_play_track_order k p fuel m t :
  keeps L (running k p) ending (play_track fuel m t).
Proof.
  pose proof (MusicSample_poll_loop_keeps L true _ _ (running_plain k true) eq_refl).
  unfold play_track, keeps.
  keep_tree ltac:(not_call IFusionSoundMusicProvider_PlayToStream).
  all: step_then triple_play.
  all: keep_relax; intros ? ?; apply running_relax.
Qed.

#[local] Hint Resolve MusicSample_play_track_order : progs.

Lemma MusicSample_track_loop_order k p fuel m track :
  keeps L (running k p) ending (track_loop fuel m track).
Proof. revert track. induction fuel as [|fuel IH]; intros track; simpl; keeps_go. Qed.

#[local] Hint Resolve MusicSample_track_loop_order : progs.

Lemma MusicSample_play_media_order k p fuel m :
  keeps L (running k p) ending (play_media fuel m).
Proof. unfold play_media. keeps_go. Qed.

#[local] Hint Resolve MusicSample_play_media_order : progs.

Lemma MusicSample_media_loop_order k p fuel media :
  keeps L (running k p) ending (media_loop fuel media).
Proof. revert media. induction fuel as [|fuel IH]; intros media; simpl; keeps_go. Qed.

#[local] Hint Resolve MusicSample_media_loop_order : progs.

Lemma MusicSample_playlist_loop_order k p fuel :
  keeps L (running k p) ending (playlist_loop fuel).
Proof. induction fuel as [|fuel IH]; simpl; keeps_go. Qed.

Lemma running_closing p l h : running false p l h -> closing l h.
Proof. intros [Hr Hh]. split; [eapply running_orderly, Hr|exact Hh]. Qed.

Lemma MusicSample_fs_shutdown_running p :
  triple L (on_trace (running false p)) fs_shutdown
    (fun _ => on_trace closing) (on_trace ending).
Proof.
  unfold fs_shutdown.
  do 3 keep_then.
  destruct (negb _); simpl.
  - eapply triple_bind with (R := fun _ => on_trace closing).
    + eapply triple_bind; [eapply triple_close; reflexivity|].
      intros ?. apply triple_ret. auto.
    + intros ?. keep_rest.
  - keep_relax. intros ? ?. apply running_closing.
Qed.

Lemma MusicSample_main_order fuel argv argv' :
  triple L (on_trace starting) (main fuel argv argv')
    (fun n w => on_trace ending (returned n w)) (on_trace ending).
Proof.
  pose proof (MusicSample_parse_command_line_keeps L _ _
                parsing_arguments parsing_may_exit).
  unfold main. destruct (argc argv <? 2).
  { eapply triple_usage_exit; auto with trace. }
  step_then triple_init.
  do 2 keep_then.
  destruct (medias x1).
  { eapply triple_usage_exit; auto with trace. }
  do 2 keep_then.
  step_then triple_open.
  keep_then.
  pose proof (MusicSample_playlist_loop_order false false).
  keep_then.
  step_then MusicSample_fs_shutdown_running.
  apply triple_exit. intros w Hw. eapply closing_halt; [exact Logic.I|exact Hw].
Qed.

Lemma MusicSample_fs_shutdown_ended k p :
  triple L (on_trace (running k p)) fs_shutdown
    (fun _ => on_trace ended) (on_trace ended).
Proof.
  unfold fs_shutdown.
  do 3 keep_then.
  destruct (negb _); simpl.
  - eapply triple_bind with (R := fun _ => on_trace ended).
    + eapply triple_bind; [eapply triple_close_ended; reflexivity|].
      intros ?. apply triple_ret. auto.
    + intros ?. keep_rest.
  - keep_relax. intros ? ?. apply running_ended.
Qed.

Lemma MusicSample_order fuel argv argv' :
  triple L (on_trace starting) (fs_music_sample fuel argv argv')
    (fun _ => on_trace ended) (on_trace ended).
Proof.
  unfold fs_music_sample. eapply triple_process.
  - apply MusicSample_main_order.
  - eapply triple_pre; [apply (MusicSample_fs_shutdown_ended true false)|].
    intros w [[Ho Hr] Hh]. split; [exact (Hr Hh)|exact Hh].
  - intros w [Ho _]. exact Ho.
Qed.

End MusicSampleOrder.

(** ** fs_music_sample.c, the version with a playing direction *)

Section MusicSampleDirBody.
Context `{Headers} (L : libspec) (p : bool) (I J : list entry -> bool -> Prop).
Hypothesis Hinv : invariant (plain p) I J.
Hypothesis Hp : p = true.
Import MusicSampleDir.

#[local] Hint Resolve Hinv : trace.

Lemma MusicSampleDir_unfreeze_keeps : keeps L I J unfreeze.
Proof. unfold unfreeze. keeps_go. Qed.

#[local] Hint Resolve MusicSampleDir_unfreeze_keeps : progs.

Lemma MusicSampleDir_on_key_keeps mp c m t len : keeps L I J (on_key mp c m t len).
Proof. unfold on_key. keeps_go. Qed.

#[local] Hint Resolve MusicSampleDir_on_key_keeps : progs.

Lemma MusicSampleDir_read_keys_keeps fuel mp m t len :
  keeps L I J (read_keys fuel mp m t len).
Proof. induction fuel as [|fuel IH]; simpl; keeps_go. Qed.

#[local] Hint Resolve MusicSampleDir_read_keys_keeps : progs.

Lemma MusicSampleDir_poll_keeps fuel mp m t len : keeps L I J (poll fuel mp m t len).
Proof. unfold poll. keeps_go. Qed.

#[local] Hint Resolve MusicSampleDir_poll_keeps : progs.

Lemma MusicSampleDir_poll_loop_keeps fuel mp m t len :
  keeps L I J (poll_loop fuel mp m t len).
Proof. induction fuel as [|fuel IH]; simpl; keeps_go. Qed.

#[local] Hint Resolve MusicSampleDir_poll_loop_keeps : progs.

Lemma MusicSampleDir_play_track_keeps fuel mp m t : keeps L I J (play_track fuel mp m t).
Proof. unfold play_track. keeps_go. Qed.

#[local] Hint Resolve MusicSampleDir_play_track_keeps : progs.

Lemma MusicSampleDir_track_loop_keeps fuel mp m track :
  keeps L I J (track_loop fuel mp m track).
Proof. revert track. induction fuel as [|fuel IH]; intros track; simpl; keeps_go. Qed.

#[local] Hint Resolve MusicSampleDir_track_loop_keeps : progs.

Lemma MusicSampleDir_play_media_keeps fuel m : keeps L I J (play_media fuel m).
Proof. unfold play_media. keeps_go. Qed.

#[local] Hint Resolve MusicSampleDir_play_media_keeps : progs.

Lemma MusicSampleDir_media_loop_keeps fuel media : keeps L I J (media_loop fuel media).
Proof. revert media. induction fuel as [|fuel IH]; intros media; simpl; keeps_go. Qed.

#[local] Hint Resolve MusicSampleDir_media_loop_keeps : progs.

Lemma MusicSampleDir_playlist_loop_keeps fuel : keeps L I J (playlist_loop fuel).
Proof. induction fuel as [|fuel IH]; simpl; keeps_go. Qed.

End MusicSampleDirBody.

Section MusicSampleDirArguments.
Context `{Headers} (L : libspec) (I J : list entry -> bool -> Prop).
Hypothesis Hinv : invariant arguments_ok I J.
Hypothesis Hexit : may_exit I J.
Import MusicSampleDir.

#[local] Hint Resolve Hinv Hexit : trace.

Lemma MusicSampleDir_parse_command_line_keeps args id :
  keeps L I J (parse_command_line args id).
Proof. revert id. induction args as [|arg rest IH]; intros id; simpl; keeps_go. Qed.

End MusicSampleDirArguments.

Section MusicSampleDirOrder.
Context `{Headers} (L : libspec).
Import MusicSampleDir.

Lemma MusicSampleDir_play_track_order k p fuel mp m t :
  keeps L (running k p) ending (play_track fuel mp m t).
Proof.
  pose proof (MusicSampleDir_poll_loop_keeps L true _ _ (running_plain k true) eq_refl).
  unfold play_track, keeps.
  keep_tree ltac:(not_call IFusionSoundMusicProvider_PlayToStream).
  all: step_then triple_play.
  all: keep_relax; intros ? ?; apply running_relax.
Qed.

#[local] Hint Resolve MusicSampleDir_play_track_order : progs.

Lemma MusicSampleDir_track_loop_order k p fuel mp m track :
  keeps L (running k p) ending (track_loop fuel mp m track).
Proof. revert track. induction fuel as [|fuel IH]; intros track; simpl; keeps_go. Qed.

#[local] Hint Resolve MusicSampleDir_track_loop_order : progs.

Lemma MusicSampleDir_play_media_order k p fuel m :
  keeps L (running k p) ending (play_media fuel m).
Proof. unfold play_media. keeps_go. Qed.

#[local] Hint Resolve MusicSampleDir_play_media_order : progs.

Lemma MusicSampleDir_media_loop_order k p fuel media :
  keeps L (running k p) ending (media_loop fuel media).
Proof. revert media. induction fuel as [|fuel IH]; intros media; simpl; keeps_go. Qed.

#[local] Hint Resolve MusicSampleDir_media_loop_order : progs.

Lemma MusicSampleDir_playlist_loop_order k p fuel :
  keeps L (running k p) ending (playlist_loop fuel).
Proof. induction fuel as [|fuel IH]; simpl; keeps_go. Qed.

Lemma MusicSampleDir_fs_shutdown_ended k p :
  triple L (on_trace (running k p)) fs_shutdown
    (fun _ => on_trace ended) (on_trace ended).
Proof.
  unfold fs_shutdown.
  do 3 keep_then.
  destruct (negb _); simpl.
  - eapply triple_bind with (R := fun _ => on_trace ended).
    + eapply triple_bind; [eapply triple_close_ended; reflexivity|].
      intros ?. apply triple_ret. auto.
    + intros ?. keep_rest.
  - keep_relax. intros ? ?. apply running_ended.
Qed.

Lemma MusicSampleDir_main_order fuel argv argv' :
  triple L (on_trace starting) (main fuel argv argv')
    (fun n w => on_trace ending (returned n w)) (on_trace ending).
Proof.
  pose proof (MusicSampleDir_parse_command_line_keeps L _ _
                parsing_arguments parsing_may_exit).
  unfold main. destruct (argc argv <? 2).
  { eapply triple_usage_exit; auto with trace. }
  step_then triple_init.
  do 2 keep_then.
  destruct (medias x1).
  { eapply triple_usage_exit; auto with trace. }
  do 2 keep_then.
  step_then triple_open.
  keep_then.
  step_then triple_atexit.
  pose proof (MusicSampleDir_playlist_loop_order true false).
  keep_then.
  apply triple_exit. intros w Hw. eapply running_halt; [exact Logic.I|exact Hw].
Qed.

Lemma MusicSampleDir_order fuel argv argv' :
  triple L (on_trace starting) (fs_music_sample_dir fuel argv argv')
    (fun _ => on_trace ended) (on_trace ended).
Proof.
  unfold fs_music_sample_dir. eapply triple_process.
  - apply MusicSampleDir_main_order.
  - eapply triple_pre; [apply (MusicSampleDir_fs_shutdown_ended true false)|].
    intros w [[Ho Hr] Hh]. split; [exact (Hr Hh)|exact Hh].
  - intros w [Ho _]. exact Ho.
Qed.

End MusicSampleDirOrder.

(** ** Properties that every ordinary call keeps *)

Section Whole.
Context {G : Type} (L : libspec) (I : list entry -> bool -> Prop).
Hypothesis Hinv : invariant common I I.
Hypothesis Hexit : may_exit I I.

Lemma keeps_process (main : prog G Z) (shutdown : prog G unit) :
  keeps L I I main -> keeps L I I shutdown ->
  triple L (on_trace I) (process main shutdown) (fun _ => on_trace I) (on_trace I).
Proof.
  intros Hm Hs. eapply triple_process.
  - eapply triple_post; [exact Hm|]. intros n w Hw. apply Hexit, Hw.
  - eapply triple_pre; [exact Hs|]. intros w [Hw _]. exact Hw.
  - auto.
Qed.

End Whole.

Section ImageSampleWhole.
Context `{Headers} (L : libspec) (I : list entry -> bool -> Prop).
Hypothesis Hinv : invariant common I I.
Hypothesis Hexit : may_exit I I.
Import ImageSample.

#[local] Hint Resolve Hinv Hexit : trace.

Lemma ImageSample_dfb_shutdown_keeps : keeps L I I dfb_shutdown.
Proof.
  pose proof (ImageSample_destroy_stack_keeps L true _ _ (common_plain true _ _ Hinv)).
  unfold dfb_shutdown. keeps_go.
Qed.

Lemma ImageSample_main_keeps fuel argv argv' : keeps L I I (main fuel argv argv').
Proof.
  pose proof ImageSample_dfb_shutdown_keeps as Hs.
  assert (Hquit : forall n : Z,
    keeps (A:=unit) L I I (dfb_shutdown ≫= fun _ : unit => exit (Code n))) by keeps_go.
  pose proof (ImageSample_parse_command_line_keeps L _ _
                (common_arguments _ _ Hinv) Hexit).
  pose proof (ImageSample_dump_image_info_keeps L true _ _ (common_plain true _ _ Hinv)).
  pose proof (ImageSample_create_frame_keeps L true _ _ (common_plain true _ _ Hinv)).
  pose proof (ImageSample_create_stack_keeps L true _ _ (common_plain true _ _ Hinv)).
  pose proof (ImageSample_frame_blitter_keeps L true _ _ (common_plain true _ _ Hinv)).
  pose proof (ImageSample_main_loop_keeps L true _ _ (common_plain true _ _ Hinv)
                eq_refl Hquit).
  unfold main. keeps_go.
Qed.

Lemma ImageSample_keeps fuel argv argv' :
  triple L (on_trace I) (df_image_sample fuel argv argv')
    (fun _ => on_trace I) (on_trace I).
Proof.
  apply keeps_process; auto using ImageSample_main_keeps, ImageSample_dfb_shutdown_keeps.
Qed.

End ImageSampleWhole.

Section VideoSampleWhole.
Context `{Headers} (L : libspec) (I : list entry -> bool -> Prop).
Hypothesis Hinv : invariant common I I.
Hypothesis Hexit : may_exit I I.
Hypothesis Hbrighter : forall flags, keeps L I I (VideoSample.adjust_color flags 257).
Hypothesis Hdarker : forall flags, keeps L I I (VideoSample.adjust_color flags (-257)).
Import VideoSample.

#[local] Hint Resolve Hinv Hexit : trace.

Lemma VideoSample_dfb_shutdown_keeps : keeps L I I dfb_shutdown.
Proof.
  pose proof (VideoSample_destroy_stack_keeps L true _ _ (common_plain true _ _ Hinv)).
  unfold dfb_shutdown. keeps_go.
Qed.

Lemma VideoSample_main_keeps fuel argv argv' : keeps L I I (main fuel argv argv').
Proof.
  pose proof VideoSample_dfb_shutdown_keeps as Hs.
  assert (Hquit : forall n : Z,
    keeps (A:=unit) L I I (dfb_shutdown ≫= fun _ : unit => exit (Code n))) by keeps_go.
  pose proof (VideoSample_parse_command_line_keeps L _ _
                (common_arguments _ _ Hinv) Hexit).
  pose proof (VideoSample_dump_stream_info_keeps L true _ _ (common_plain true _ _ Hinv)).
  pose proof (VideoSample_create_frame_keeps L true _ _ (common_plain true _ _ Hinv)).
  pose proof (VideoSample_create_stack_keeps L true _ _ (common_plain true _ _ Hinv)).
  pose proof (VideoSample_main_loop_keeps L true _ _ (common_plain true _ _ Hinv)
                eq_refl Hquit Hbrighter Hdarker).
  unfold main. keeps_go.
Qed.

Lemma VideoSample_keeps fuel argv argv' :
  triple L (on_trace I) (df_video_sample fuel argv argv')
    (fun _ => on_trace I) (on_trace I).
Proof.
  apply keeps_process; auto using VideoSample_main_keeps, VideoSample_dfb_shutdown_keeps.
Qed.

End VideoSampleWhole.

Section ImageMultiWhole.
Context `{Headers} (L : libspec) (I : list entry -> bool -> Prop).
Hypothesis Hinv : invariant common I I.
Hypothesis Hexit : may_exit I I.
Hypothesis Hhook : forall l h, I l h -> I l true.
Import ImageMulti.

#[local] Hint Resolve Hinv Hexit Hhook : trace.

Lemma ImageMulti_dfb_shutdown_keeps : keeps L I I dfb_shutdown.
Proof. unfold dfb_shutdown, stack_destructor. keeps_go. Qed.

Lemma ImageMulti_main_keeps fuel argv argv' : keeps L I I (main fuel argv argv').
Proof.
  pose proof (ImageMulti_parse_command_line_keeps L _ _
                (common_arguments _ _ Hinv) Hexit).
  pose proof (ImageMulti_load_file_keeps L true _ _ (common_plain true _ _ Hinv)).
  pose proof (ImageMulti_main_loop_keeps L true _ _ (common_plain true _ _ Hinv)
                eq_refl Hexit).
  unfold main. keeps_go.
Qed.

Lemma ImageMulti_keeps fuel argv argv' :
  triple L (on_trace I) (df_image_multi fuel argv argv')
    (fun _ => on_trace I) (on_trace I).
Proof.
  apply keeps_process; auto using ImageMulti_main_keeps, ImageMulti_dfb_shutdown_keeps.
Qed.

End ImageMultiWhole.

Section VideoMultiWhole.
Context `{Headers} (L : libspec) (I : list entry -> bool -> Prop).
Hypothesis Hinv : invariant common I I.
Hypothesis Hexit : may_exit I I.
Hypothesis Hhook : forall l h, I l h -> I l true.
Hypothesis Hbrighter : forall id flags, keeps L I I (VideoMulti.adjust_color id flags 257).
Hypothesis Hdarker : forall id flags, keeps L I I (VideoMulti.adjust_color id flags (-257)).
Import VideoMulti.

#[local] Hint Resolve Hinv Hexit Hhook : trace.

Lemma VideoMulti_dfb_shutdown_keeps : keeps L I I dfb_shutdown.
Proof.
  pose proof (VideoMulti_destroy_stack_keeps L true _ _ (common_plain true _ _ Hinv)).
  unfold dfb_shutdown. keeps_go.
Qed.

Lemma VideoMulti_main_keeps fuel argv argv' : keeps L I I (main fuel argv argv').
Proof.
  pose proof (VideoMulti_parse_command_line_keeps L _ _
                (common_arguments _ _ Hinv) Hexit).
  pose proof (VideoMulti_load_file_keeps L true _ _ (common_plain true _ _ Hinv)).
  pose proof (VideoMulti_main_loop_keeps L true _ _ (common_plain true _ _ Hinv)
                eq_refl Hexit Hbrighter Hdarker).
  unfold main. keeps_go.
Qed.

Lemma VideoMulti_keeps fuel argv argv' :
  triple L (on_trace I) (df_video_multi fuel argv argv')
    (fun _ => on_trace I) (on_trace I).
Proof.
  apply keeps_process; auto using VideoMulti_main_keeps, VideoMulti_dfb_shutdown_keeps.
Qed.

End VideoMultiWhole.

Section FontSampleWhole.
Context `{Headers} (L : libspec) (I : list entry -> bool -> Prop).
Hypothesis Hinv : invariant common I I.
Hypothesis Hexit : may_exit I I.
Hypothesis Hhook : forall l h, I l h -> I l true.
Import FontSample.

#[local] Hint Resolve Hinv Hexit Hhook : trace.

Lemma FontSample_dfb_shutdown_keeps : keeps L I I dfb_shutdown.
Proof. unfold dfb_shutdown. keeps_go. Qed.

Lemma FontSample_main_keeps fuel argv argv' : keeps L I I (main fuel argv argv').
Proof.
  pose proof (FontSample_parse_command_line_keeps L _ _
                (common_arguments _ _ Hinv) Hexit).
  pose proof (FontSample_main_loop_keeps L true _ _ (common_plain true _ _ Hinv)
                eq_refl Hexit).
  unfold main. keeps_go.
Qed.

Lemma FontSample_keeps fuel argv argv' :
  triple L (on_trace I) (df_font_sample fuel argv argv')
    (fun _ => on_trace I) (on_trace I).
Proof.
  apply keeps_process; auto using FontSample_main_keeps, FontSample_dfb_shutdown_keeps.
Qed.

End FontSampleWhole.

Section MusicSampleWhole.
Context `{Headers} (L : libspec) (I : list entry -> bool -> Prop).
Hypothesis Hinv : invariant common I I.
Hypothesis Hexit : may_exit I I.
Import MusicSample.

#[local] Hint Resolve Hinv Hexit : trace.

Lemma MusicSample_fs_shutdown_keeps : keeps L I I fs_shutdown.
Proof. unfold fs_shutdown. keeps_go. Qed.

Lemma MusicSample_main_keeps fuel argv argv' : keeps L I I (main fuel argv argv').
Proof.
  pose proof MusicSample_fs_shutdown_keeps.
  pose proof (MusicSample_parse_command_line_keeps L _ _
                (common_arguments _ _ Hinv) Hexit).
  pose proof (MusicSample_playlist_loop_keeps L true _ _ (common_plain true _ _ Hinv)
                eq_refl).
  unfold main. keeps_go.
Qed.

Lemma MusicSample_keeps fuel argv argv' :
  triple L (on_trace I) (fs_music_sample fuel argv argv')
    (fun _ => on_trace I) (on_trace I).
Proof.
  apply keeps_process; auto using MusicSample_main_keeps, MusicSample_fs_shutdown_keeps.
Qed.

End MusicSampleWhole.

Section MusicSampleDirWhole.
Context `{Headers} (L : libspec) (I : list entry -> bool -> Prop).
Hypothesis Hinv : invariant common I I.
Hypothesis Hexit : may_exit I I.
Hypothesis Hhook : forall l h, I l h -> I l true.
Import MusicSampleDir.

#[local] Hint Resolve Hinv Hexit Hhook : trace.

Lemma MusicSampleDir_fs_shutdown_keeps : keeps L I I fs_shutdown.
Proof. unfold fs_shutdown. keeps_go. Qed.

Lemma MusicSampleDir_main_keeps fuel argv argv' : keeps L I I (main fuel argv argv').
Proof.
  pose proof (MusicSampleDir_parse_command_line_keeps L _ _
                (common_arguments _ _ Hinv) Hexit).
  pose proof (MusicSampleDir_playlist_loop_keeps L true _ _ (common_plain true _ _ Hinv)
                eq_refl).
  unfold main. keeps_go.
Qed.

Lemma MusicSampleDir_keeps fuel argv argv' :
  triple L (on_trace I) (fs_music_sample_dir fuel argv argv')
    (fun _ => on_trace I) (on_trace I).
Proof.
  apply keeps_process;
    auto using MusicSampleDir_main_keeps, MusicSampleDir_fs_shutdown_keeps.
Qed.

End MusicSampleDirWhole.

(** ** Running a program from a triple *)

Lemma run_obeying {G A} L (P : world G -> Prop) (m : prog G A) (J : world G -> Prop) o w :
  obeys L o -> triple L P m (fun _ => J) J -> P w -> J (final (m o w)).
Proof.
  intros Ho Hm Hw. specialize (Hm w Hw o Ho). destruct (m o w); exact Hm.
Qed.

Lemma run_triple {G A} (P : world G -> Prop) (m : prog G A) (J : world G -> Prop) o w :
  triple any_library P m (fun _ => J) J -> P w -> J (final (m o w)).
Proof.
  intros Hm Hw.
  assert (Ho : obeys any_library o) by (intros l f self args; exact Logic.I).
  specialize (Hm w Hw o Ho). destruct (m o w); exact Hm.
Qed.

(** ** Threads *)

Lemma threads_created_cons e l :
  threads_created (e :: l) =
  if is_thread_create e then S (threads_created l) else threads_created l.
Proof.
  unfold threads_created. rewrite filter_cons.
  destruct (is_thread_create e); simpl.
  - destruct (decide (true = true)) as [_|Hn]; [reflexivity|]. destruct Hn. reflexivity.
  - destruct (decide (false = true)) as [Hn|_]; [discriminate|reflexivity].
Qed.

Lemma threads_created_lib f self args a l :
  no_thread f -> threads_created (Lib f self args a :: l) = threads_created l.
Proof.
  intros Hf. rewrite threads_created_cons.
  destruct f; try reflexivity. destruct Hf. reflexivity.
Qed.

Lemma threads_created_other e l :
  silent e -> threads_created (e :: l) = threads_created l.
Proof. intros He. rewrite threads_created_cons. destruct e; try reflexivity. destruct He. Qed.

Lemma threads_invariant n m :
  (n <= m)%nat -> invariant no_thread (threads_at_most n) (threads_at_most m).
Proof.
  intros Hnm. unfold threads_at_most. split.
  - intros l _ Hl. lia.
  - intros f self args a l _ Hf Hl. rewrite threads_created_lib; auto.
  - intros e l _ He Hl. rewrite threads_created_other; [auto|].
    apply output_silent, He.
  - intros c l _ _ Hl. rewrite threads_created_other; [lia|exact Logic.I].
Qed.

Lemma common_no_thread f : common f -> no_thread f.
Proof. intros Hf ->. discriminate Hf. Qed.

Lemma plain_no_thread p f : plain p f -> no_thread f.
Proof. intros [_ Hf]. apply common_no_thread, Hf. Qed.

Lemma threads_common n : invariant common (threads_at_most n) (threads_at_most n).
Proof.
  eapply invariant_mono; [apply common_no_thread|]. apply threads_invariant. lia.
Qed.

Lemma threads_plain p n m :
  (n <= m)%nat -> invariant (plain p) (threads_at_most n) (threads_at_most m).
Proof.
  intros Hnm. eapply invariant_mono; [apply plain_no_thread|].
  apply threads_invariant, Hnm.
Qed.

Lemma threads_arguments n m :
  (n <= m)%nat -> invariant arguments_ok (threads_at_most n) (threads_at_most m).
Proof.
  intros Hnm. eapply invariant_mono; [|apply threads_invariant, Hnm].
  intros f [_ Hf]. apply common_no_thread, Hf.
Qed.

Lemma threads_may_exit n m : (n <= m)%nat -> may_exit (threads_at_most n) (threads_at_most m).
Proof.
  intros Hnm c l h Hl. unfold threads_at_most in *.
  rewrite threads_created_other; [lia|exact Logic.I].
Qed.

Lemma threads_hook n l (h : bool) : threads_at_most n l h -> threads_at_most n l true.
Proof. auto. Qed.

#[local] Hint Extern 1 (invariant _ (threads_at_most _) (threads_at_most _)) =>
  apply threads_invariant; lia : trace.
#[local] Hint Extern 1 (may_exit (threads_at_most _) (threads_at_most _)) =>
  apply threads_may_exit; lia : trace.
#[local] Hint Extern 1 (no_thread _) => unfold no_thread; discriminate : trace.
#[local] Hint Resolve threads_hook : trace.

Section Streamers.
Context (L : libspec).

Lemma triple_spawn {G} n m buffer :
  (S n <= m)%nat ->
  triple (G:=G) L (on_trace (threads_at_most n))
    (a ← lib direct_thread_create [Z.of_nat buffer]; k ← fresh; mret (created a k 0))
    (fun _ => on_trace (threads_at_most (S n))) (on_trace (threads_at_most m)).
Proof.
  intros Hnm w Hw. unfold on_trace, threads_at_most in *.
  apply wp_bind, wp_lib. intros a _. apply wp_bind, wp_fresh, wp_ret. simpl.
  rewrite threads_created_cons. destruct (is_thread_create _); lia.
Qed.

Lemma Databuffer_test_streamed_threads n m :
  (S (S n) <= m)%nat ->
  triple L (on_trace (threads_at_most n)) Databuffer.test_streamed
    (fun _ => on_trace (threads_at_most (S (S n)))) (on_trace (threads_at_most m)).
Proof.
  intros Hnm.
  assert (H1 : (S n <= m)%nat) by lia.
  pose proof (Databuffer_load_font_keeps L false _ _ (threads_plain false (S n) m H1)).
  pose proof (Databuffer_load_media_keeps L false _ _ (threads_plain false (S (S n)) m Hnm)).
  pose proof (Databuffer_show_media_keeps L false _ _ (threads_plain false (S (S n)) m Hnm)).
  pose proof (Databuffer_release_media_keeps L false _ _ (threads_plain false (S (S n)) m Hnm)).
  unfold Databuffer.test_streamed, Databuffer.spawn_streamer.
  do 3 keep_then.
  step_then (triple_spawn n m); try lia.
  do 2 keep_then.
  step_then (triple_spawn (S n) m); try lia.
  keep_rest.
Qed.

Lemma Databuffer_dfb_shutdown_threads n :
  keeps L (threads_at_most n) (threads_at_most n) Databuffer.dfb_shutdown.
Proof. unfold Databuffer.dfb_shutdown. keeps_go. Qed.

Lemma DatabufferOld_test_streamed_threads n m :
  (S (S n) <= m)%nat ->
  triple L (on_trace (threads_at_most n)) DatabufferOld.test_streamed
    (fun _ => on_trace (threads_at_most (S (S n)))) (on_trace (threads_at_most m)).
Proof.
  intros Hnm.
  assert (H1 : (S n <= m)%nat) by lia.
  pose proof (DatabufferOld_load_font_keeps L false _ _ (threads_plain false (S n) m H1)).
  pose proof (DatabufferOld_load_media_keeps L false _ _ (threads_plain false (S (S n)) m Hnm)).
  pose proof (DatabufferOld_show_media_keeps L false _ _ (threads_plain false (S (S n)) m Hnm)).
  pose proof (DatabufferOld_release_media_keeps L false _ _ (threads_plain false (S (S n)) m Hnm)).
  unfold DatabufferOld.test_streamed, DatabufferOld.spawn_streamer.
  do 3 keep_then.
  step_then (triple_spawn n m); try lia.
  do 2 keep_then.
  step_then (triple_spawn (S n) m); try lia.
  keep_rest.
Qed.

Lemma DatabufferOld_dfb_shutdown_threads n :
  keeps L (threads_at_most n) (threads_at_most n) DatabufferOld.dfb_shutdown.
Proof. unfold DatabufferOld.dfb_shutdown. keeps_go. Qed.

Lemma Databuffer_main_threads argv argv' :
  triple L (on_trace (threads_at_most 0)) (Databuffer.main argv argv')
    (fun n w => on_trace (threads_at_most 2) (returned n w))
    (on_trace (threads_at_most 2)).
Proof.
  assert (H02 : (0 <= 2)%nat) by lia.
  pose proof (Databuffer_parse_command_line_keeps L _ _
                (threads_arguments 0 2 H02) (threads_may_exit 0 2 H02)) as Hparse.
  pose proof (Databuffer_test_file_keeps L false _ _ (threads_plain false 0 2 H02)).
  pose proof (Databuffer_test_memory_keeps L false _ _ (threads_plain false 0 2 H02)).
  unfold Databuffer.main.
  keep_tree ltac:(fun m => lazymatch m with Databuffer.test_streamed => fail | _ => idtac end).
  step_then (Databuffer_test_streamed_threads 0 2); try lia.
  keep_then.
  apply triple_exit. intros w Hw. apply (threads_may_exit 2 2 (le_n 2)), Hw.
Qed.

Lemma DatabufferOld_main_threads argv argv' :
  triple L (on_trace (threads_at_most 0)) (DatabufferOld.main argv argv')
    (fun n w => on_trace (threads_at_most 2) (returned n w))
    (on_trace (threads_at_most 2)).
Proof.
  assert (H02 : (0 <= 2)%nat) by lia.
  pose proof (DatabufferOld_test_file_keeps L false _ _ (threads_plain false 0 2 H02)).
  pose proof (DatabufferOld_test_memory_keeps L false _ _ (threads_plain false 0 2 H02)).
  unfold DatabufferOld.main.
  keep_tree ltac:(fun m => lazymatch m with DatabufferOld.test_streamed => fail | _ => idtac end).
  step_then (DatabufferOld_test_streamed_threads 0 2); try lia.
  keep_then.
  apply triple_exit. intros w Hw. apply (threads_may_exit 2 2 (le_n 2)), Hw.
Qed.

Lemma Databuffer_threads argv argv' :
  triple L (on_trace (threads_at_most 0)) (df_databuffer argv argv')
    (fun _ => on_trace (threads_at_most 2)) (on_trace (threads_at_most 2)).
Proof.
  unfold df_databuffer. eapply triple_process.
  - apply Databuffer_main_threads.
  - eapply triple_pre; [apply (Databuffer_dfb_shutdown_threads 2)|].
    intros w [Hw _]. exact Hw.
  - auto.
Qed.

Lemma DatabufferOld_threads argv argv' :
  triple L (on_trace (threads_at_most 0)) (df_databuffer_old argv argv')
    (fun _ => on_trace (threads_at_most 2)) (on_trace (threads_at_most 2)).
Proof.
  unfold df_databuffer_old. eapply triple_process.
  - apply DatabufferOld_main_threads.
  - eapply triple_pre; [apply (DatabufferOld_dfb_shutdown_threads 2)|].
    intros w [Hw _]. exact Hw.
  - auto.
Qed.

End Streamers.

Lemma pacing_invariant : invariant pacing_call only_pacing only_pacing.
Proof.
  unfold only_pacing. split.
  - auto.
  - intros f self args a l _ Hf Hl. constructor; assumption.
  - intros e l _ He Hl. constructor; [|assumption]. destruct e; simpl in *; tauto.
  - intros c l _ _ Hl. constructor; [exact Logic.I|assumption].
Qed.

#[local] Hint Resolve pacing_invariant : trace.
#[local] Hint Extern 1 (pacing_call _) => reflexivity : trace.

Section StreamerCalls.
Context (L : libspec).

Lemma Databuffer_streamer_loop_pacing fuel buffer usec :
  keeps L only_pacing only_pacing (Databuffer.streamer_loop fuel buffer usec).
Proof. revert usec. induction fuel as [|fuel IH]; intros usec; simpl; keeps_go. Qed.

Lemma Databuffer_streamer_pacing fuel arg :
  keeps L only_pacing only_pacing (Databuffer.streamer fuel arg).
Proof.
  pose proof Databuffer_streamer_loop_pacing.
  unfold Databuffer.streamer. keeps_go.
Qed.

Lemma DatabufferOld_streamer_loop_pacing fuel buffer usec :
  keeps L only_pacing only_pacing (DatabufferOld.streamer_loop fuel buffer usec).
Proof. revert usec. induction fuel as [|fuel IH]; intros usec; simpl; keeps_go. Qed.

Lemma DatabufferOld_streamer_pacing fuel arg :
  keeps L only_pacing only_pacing (DatabufferOld.streamer fuel arg).
Proof.
  pose proof DatabufferOld_streamer_loop_pacing.
  unfold DatabufferOld.streamer. keeps_go.
Qed.

End StreamerCalls.

Section ThreadsOfTheSamples.
Context `{Headers}.

Lemma VideoSample_adjust_color_threads L n flags step :
  keeps L (threads_at_most n) (threads_at_most n) (VideoSample.adjust_color flags step).
Proof. unfold VideoSample.adjust_color. keeps_go. Qed.

Lemma VideoMulti_adjust_color_threads L n id flags step :
  keeps L (threads_at_most n) (threads_at_most n) (VideoMulti.adjust_color id flags step).
Proof. unfold VideoMulti.adjust_color. keeps_go. Qed.

(** C3, as the programs have it: a run of df_databuffer, in either version,
    creates at most two threads (both in [test_streamed], one for each of its
    two data buffers), the other programs create none, and the function the
    threads run, [streamer], only calls the functions that pace the reading of
    the file into the data buffer. *)
Theorem threads_of_the_samples (o : oracle) (fuel : nat) (argv argv' : list string)
    (arg : nat) :
  (threads_created (log (final (df_databuffer argv argv' o (start Databuffer.init))))
     <= 2)%nat /\
  (threads_created (log (final (df_databuffer_old argv argv' o (start DatabufferOld.init))))
     <= 2)%nat /\
  threads_created (log (final (df_video_sample fuel argv argv' o (start VideoSample.init))))
    = 0%nat /\
  threads_created (log (final (df_image_sample fuel argv argv' o (start ImageSample.init))))
    = 0%nat /\
  threads_created (log (final (df_image_multi fuel argv argv' o (start ImageMulti.init))))
    = 0%nat /\
  threads_created (log (final (df_video_multi fuel argv argv' o (start VideoMulti.init))))
    = 0%nat /\
  threads_created (log (final (df_font_sample fuel argv argv' o (start FontSample.init))))
    = 0%nat /\
  threads_created (log (final (fs_music_sample fuel argv argv' o (start MusicSample.init))))
    = 0%nat /\
  threads_created
    (log (final (fs_music_sample_dir fuel argv argv' o (start MusicSampleDir.init))))
    = 0%nat /\
  only_pacing (log (final (Databuffer.streamer fuel arg o (start Databuffer.init)))) false /\
  only_pacing
    (log (final (DatabufferOld.streamer fuel arg o (start DatabufferOld.init)))) false.
Proof.
  assert (Hnone : forall G A (m : prog G A) (g : G),
    triple any_library (on_trace (threads_at_most 0)) m
      (fun _ => on_trace (threads_at_most 0)) (on_trace (threads_at_most 0)) ->
    threads_created (log (final (m o (start g)))) = 0%nat).
  { intros G A m g Hm.
    assert (Hstart : on_trace (threads_at_most 0) (start g)).
    { exact (le_n 0). }
    pose proof (run_triple _ m _ o (start g) Hm Hstart) as Hrun.
    unfold on_trace, threads_at_most in Hrun. lia. }
  pose proof (threads_common 0) as Hc.
  pose proof (threads_may_exit 0 0 (Nat.le_refl 0)) as Hx.
  pose proof (threads_hook 0) as Hh.
  repeat split.
  - apply (run_triple _ _ _ o (start Databuffer.init) (Databuffer_threads _ argv argv')).
    exact (le_n 0).
  - apply (run_triple _ _ _ o (start DatabufferOld.init)
             (DatabufferOld_threads _ argv argv')).
    exact (le_n 0).
  - apply Hnone, VideoSample_keeps; auto using VideoSample_adjust_color_threads.
  - apply Hnone, ImageSample_keeps; auto.
  - apply Hnone, ImageMulti_keeps; auto.
  - apply Hnone, VideoMulti_keeps; auto using VideoMulti_adjust_color_threads.
  - apply Hnone, FontSample_keeps; auto.
  - apply Hnone, MusicSample_keeps; auto.
  - apply Hnone, MusicSampleDir_keeps; auto.
  - apply (run_triple _ _ _ o (start Databuffer.init)
             (Databuffer_streamer_pacing _ fuel arg)).
    constructor.
  - apply (run_triple _ _ _ o (start DatabufferOld.init)
             (DatabufferOld_streamer_pacing _ fuel arg)).
    constructor.
Qed.

End ThreadsOfTheSamples.

(** ** The order of the calls of the nine programs *)

Section OrderOfTheSamples.
Context `{Headers}.

Lemma starting_start {G} (g : G) : on_trace starting (start g).
Proof. split; reflexivity. Qed.


End OrderOfTheSamples.

(** ** Colour adjustment in the video samples *)

Section ColoursOfTheSamples.
Context `{Headers}.

Lemma CLAMP_range x : 0 <= CLAMP x 0 0xffff <= 0xffff.
Proof.
  unfold CLAMP. destruct (x <? 0) eqn:Hlo; [lia|].
  destruct (x >? 0xffff) eqn:Hhi; [lia|]. lia.
Qed.

Lemma level_ok_adjusted (selected : bool) step old :
  level_ok selected step old (if selected then CLAMP (old + step) 0 0xffff else old).
Proof.
  unfold level_ok. destruct selected; [|reflexivity].
  split; [reflexivity|apply CLAMP_range].
Qed.

Lemma VideoSample_adjusted_ok flags step adj :
  step = 257 \/ step = -257 ->
  adjustment_ok adj (VideoSample.adj_args (VideoSample.adjusted flags step adj)).
Proof.
  intros Hstep. unfold adjustment_ok, VideoSample.adj_args, VideoSample.adjusted. simpl.
  eexists flags, step, _, _, _, _. split; [reflexivity|]. split; [exact Hstep|].
  repeat split; apply level_ok_adjusted.
Qed.

Lemma VideoMulti_adjusted_ok flags step adj :
  step = 257 \/ step = -257 ->
  adjustment_ok adj (VideoMulti.adj_args (VideoMulti.adjusted flags step adj)).
Proof.
  intros Hstep. unfold adjustment_ok, VideoMulti.adj_args, VideoMulti.adjusted. simpl.
  eexists flags, step, _, _, _, _. split; [reflexivity|]. split; [exact Hstep|].
  repeat split; apply level_ok_adjusted.
Qed.

Lemma colours_invariant : invariant common colours colours.
Proof.
  unfold colours. split.
  - auto.
  - intros f self args a l _ Hf Hl. destruct f; try exact Hl. discriminate Hf.
  - intros e l _ He Hl. destruct e; try exact Hl. destruct He.
  - intros c l _ _ Hl. exact Hl.
Qed.

Lemma colours_may_exit : may_exit colours colours.
Proof. intros n l h Hl. exact Hl. Qed.

Lemma colours_hook l (h : bool) : colours l h -> colours l true.
Proof. auto. Qed.

Lemma VideoSample_adjust_color_colours L flags step :
  step = 257 \/ step = -257 ->
  keeps L colours colours (VideoSample.adjust_color flags step).
Proof.
  intros Hstep w Hw. unfold VideoSample.adjust_color.
  apply wp_bind, wp_get. apply wp_bind, wp_meth; simpl.
  - intros _. exact Hw.
  - intros Hself a _. destruct (is_ok (a_ret a)) eqn:Hok.
    + apply wp_bind, wp_meth; simpl.
      * intros _. exact Hw.
      * intros _ b _. apply wp_ret. simpl. unfold on_trace, colours. simpl.
        split; [|exact Hw]. split; [reflexivity|]. split; [exact Hok|].
        apply VideoSample_adjusted_ok, Hstep.
    + apply wp_ret. exact Hw.
Qed.

Lemma VideoMulti_adjust_color_colours L id flags step :
  step = 257 \/ step = -257 ->
  keeps L colours colours (VideoMulti.adjust_color id flags step).
Proof.
  intros Hstep w Hw. unfold VideoMulti.adjust_color.
  apply wp_bind, wp_get. simpl.
  destruct (direct_hash_lookup _ _) as [entry|]; [|apply wp_ret; exact Hw].
  apply wp_bind, wp_meth; simpl.
  - intros _. exact Hw.
  - intros Hself a _. destruct (is_ok (a_ret a)) eqn:Hok.
    + apply wp_bind, wp_meth; simpl.
      * intros _. exact Hw.
      * intros _ b _. apply wp_ret. simpl. unfold on_trace, colours. simpl.
        split; [|exact Hw]. split; [reflexivity|]. split; [exact Hok|].
        apply VideoMulti_adjusted_ok, Hstep.
    + apply wp_ret. exact Hw.
Qed.


End ColoursOfTheSamples.

(** ** The pacing of the streamer *)

Lemma finished_cons e l :
  finished (e :: l) = is_finish_call e || finished l.
Proof. destruct e; reflexivity. Qed.

Lemma finishes_cons e l :
  finishes (e :: l) = if is_finish_call e then S (finishes l) else finishes l.
Proof.
  unfold finishes. rewrite filter_cons.
  destruct (is_finish_call e); simpl.
  - destruct (decide (true = true)) as [_|Hn]; [reflexivity|]. destruct Hn. reflexivity.
  - destruct (decide (false = true)) as [Hn|_]; [discriminate|reflexivity].
Qed.

Lemma not_finished_finishes l : finished l = false -> finishes l = 0%nat.
Proof.
  induction l as [|e l IH]; [reflexivity|].
  rewrite finished_cons, finishes_cons. intros Hf.
  apply orb_false_elim in Hf as [He Hl]. rewrite He. auto.
Qed.

Lemma finished_finishes l : finished l = true -> (1 <= finishes l)%nat.
Proof.
  induction l as [|e l IH]; [discriminate|].
  rewrite finished_cons, finishes_cons. intros Hf.
  destruct (is_finish_call e); [lia|]. simpl in Hf. auto.
Qed.

Lemma paced_finishes l : paced l = true -> (finishes l <= 1)%nat.
Proof.
  induction l as [|e l IH]; [intros _; unfold finishes; simpl; lia|].
  rewrite finishes_cons. destruct e as [f self args a| | | | | |]; simpl; auto.
  intros Hp. apply andb_prop in Hp as [Hcall Hl].
  destruct (is_finish f) eqn:Hf; [|auto].
  destruct f; try discriminate Hf. simpl in Hcall.
  apply andb_prop in Hcall as [Hnot _].
  rewrite not_finished_finishes; [lia|].
  destruct (finished l); [discriminate|reflexivity].
Qed.


Ltac paced_step :=
  first [ apply wp_bind | apply wp_ret | apply wp_exit | apply wp_spin
        | apply wp_emit | (apply wp_lib; intros ? _)
        | (apply wp_meth; [intros _|intros _ ? _]) ];
  simpl.

Section StreamerPacing.
Context (L : libspec).

Lemma Databuffer_streamer_loop_paced fuel buffer usec w :
  1000 <= usec -> pacing (log w) ->
  wp L (Databuffer.streamer_loop fuel buffer usec) streamer_post w.
Proof.
  revert usec w. induction fuel as [|fuel IH]; intros usec w Husec (Hp & Hf & He); simpl.
  { apply wp_spin. exact Hp. }
  unfold DFBCHECK.
  assert (Hsleep : (1000 <=? usec) = true) by (apply Z.leb_le; exact Husec).
  apply wp_bind, wp_lib. intros a0 _.
  apply wp_bind, wp_bind, wp_meth.
  { intros _. simpl. rewrite Hf, He, Hsleep, Hp. reflexivity. }
  intros _ len _.
  assert (Hlen : paced (Lib IDirectFBDataBuffer_GetLength buffer [] len
                          :: Lib usleep 0 [usec] a0 :: log w) = true).
  { simpl. rewrite Hf, He, Hsleep, Hp. reflexivity. }
  destruct (is_ok (a_ret len)).
  2: { apply wp_bind, wp_emit, wp_bind, wp_emit, wp_exit. exact Hlen. }
  apply wp_ret. simpl.
  destruct (a_int len >=? 64 * 1024) eqn:Hfull.
  { apply IH; [lia|]. repeat split; [exact Hlen|simpl; exact Hf]. }
  apply wp_bind, wp_lib. intros r _.
  apply wp_bind, wp_lib. intros bytes _.
  set (l3 := Lib direct_file_read 0 [Z.rem (a_int r) 8192 + 1] bytes :: Lib rand 0 [] r
             :: Lib IDirectFBDataBuffer_GetLength buffer [] len
             :: Lib usleep 0 [usec] a0 :: log w).
  assert (Hread : paced l3 = true).
  { unfold l3. simpl. rewrite Hf, He, Hsleep, Hp. reflexivity. }
  assert (Hf3 : finished l3 = false) by (unfold l3; simpl; exact Hf).
  destruct (a_int bytes <=? 0) eqn:Heof.
  - apply wp_bind, wp_bind, wp_meth.
    { intros _. simpl. exact Hread. }
    intros _ fin _.
    assert (Hfin : paced (Lib IDirectFBDataBuffer_Finish buffer [] fin :: l3) = true).
    { change (paced_call IDirectFBDataBuffer_Finish [] l3 && paced l3 = true).
      rewrite Hread. unfold paced_call. rewrite Hf3. unfold l3. simpl. rewrite Heof.
      reflexivity. }
    destruct (is_ok (a_ret fin)).
    + apply wp_ret, wp_ret. simpl. split; [exact Hfin|reflexivity].
    + apply wp_bind, wp_emit, wp_bind, wp_emit, wp_exit. exact Hfin.
  - apply wp_bind, wp_bind, wp_meth.
    { intros _. simpl. exact Hread. }
    intros _ put _.
    assert (Hput : paced (Lib IDirectFBDataBuffer_PutData buffer [a_int bytes] put :: l3)
                   = true).
    { change (paced_call IDirectFBDataBuffer_PutData [a_int bytes] l3 && paced l3 = true).
      rewrite Hread. unfold paced_call. rewrite Hf3. unfold l3. simpl.
      assert (H0 : (0 <? a_int bytes) = true) by (apply Z.ltb_lt; lia).
      assert (H1 : (a_int len <? 64 * 1024) = true) by (apply Z.ltb_lt; lia).
      rewrite H0, H1. reflexivity. }
    destruct (is_ok (a_ret put)).
    + apply wp_ret. simpl. apply IH.
      * unfold MAX. destruct (usec - 100 >? 1000) eqn:Hm; lia.
      * repeat split; [exact Hput|simpl; exact Hf].
    + apply wp_bind, wp_emit, wp_bind, wp_emit, wp_exit. exact Hput.
Qed.

Lemma DatabufferOld_streamer_loop_paced fuel buffer usec w :
  1000 <= usec -> pacing (log w) ->
  wp L (DatabufferOld.streamer_loop fuel buffer usec) streamer_post w.
Proof.
  revert usec w. induction fuel as [|fuel IH]; intros usec w Husec (Hp & Hf & He); simpl.
  { apply wp_spin. exact Hp. }
  unfold DFBCHECK.
  assert (Hsleep : (1000 <=? usec) = true) by (apply Z.leb_le; exact Husec).
  apply wp_bind, wp_lib. intros a0 _.
  apply wp_bind, wp_bind, wp_meth.
  { intros _. simpl. rewrite Hf, He, Hsleep, Hp. reflexivity. }
  intros _ len _.
  assert (Hlen : paced (Lib IDirectFBDataBuffer_GetLength buffer [] len
                          :: Lib usleep 0 [usec] a0 :: log w) = true).
  { simpl. rewrite Hf, He, Hsleep, Hp. reflexivity. }
  destruct (is_ok (a_ret len)).
  2: { apply wp_bind, wp_emit, wp_bind, wp_emit, wp_exit. exact Hlen. }
  apply wp_ret. simpl.
  destruct (a_int len >=? 64 * 1024) eqn:Hfull.
  { apply IH; [lia|]. repeat split; [exact Hlen|simpl; exact Hf]. }
  apply wp_bind, wp_lib. intros r _.
  apply wp_bind, wp_lib. intros bytes _.
  set (l3 := Lib direct_file_read 0 [Z.rem (a_int r) 8192 + 1] bytes :: Lib rand 0 [] r
             :: Lib IDirectFBDataBuffer_GetLength buffer [] len
             :: Lib usleep 0 [usec] a0 :: log w).
  assert (Hread : paced l3 = true).
  { unfold l3. simpl. rewrite Hf, He, Hsleep, Hp. reflexivity. }
  assert (Hf3 : finished l3 = false) by (unfold l3; simpl; exact Hf).
  destruct (a_int bytes <=? 0) eqn:Heof.
  - apply wp_bind, wp_bind, wp_meth.
    { intros _. simpl. exact Hread. }
    intros _ fin _.
    assert (Hfin : paced (Lib IDirectFBDataBuffer_Finish buffer [] fin :: l3) = true).
    { change (paced_call IDirectFBDataBuffer_Finish [] l3 && paced l3 = true).
      rewrite Hread. unfold paced_call. rewrite Hf3. unfold l3. simpl. rewrite Heof.
      reflexivity. }
    destruct (is_ok (a_ret fin)).
    + apply wp_ret, wp_ret. simpl. split; [exact Hfin|reflexivity].
    + apply wp_bind, wp_emit, wp_bind, wp_emit, wp_exit. exact Hfin.
  - apply wp_bind, wp_bind, wp_meth.
    { intros _. simpl. exact Hread. }
    intros _ put _.
    assert (Hput : paced (Lib IDirectFBDataBuffer_PutData buffer [a_int bytes] put :: l3)
                   = true).
    { change (paced_call IDirectFBDataBuffer_PutData [a_int bytes] l3 && paced l3 = true).
      rewrite Hread. unfold paced_call. rewrite Hf3. unfold l3. simpl.
      assert (H0 : (0 <? a_int bytes) = true) by (apply Z.ltb_lt; lia).
      assert (H1 : (a_int len <? 64 * 1024) = true) by (apply Z.ltb_lt; lia).
      rewrite H0, H1. reflexivity. }
    destruct (is_ok (a_ret put)).
    + apply wp_ret. simpl. apply IH.
      * unfold MAX. destruct (usec - 100 >? 1000) eqn:Hm; lia.
      * repeat split; [exact Hput|simpl; exact Hf].
    + apply wp_bind, wp_emit, wp_bind, wp_emit, wp_exit. exact Hput.
Qed.

Lemma paced_once {G} (r : outcome G unit) : streamer_post r -> finished_once r.
Proof.
  destruct r as [[] w|c w|w]; simpl.
  - intros [Hp Hf]. pose proof (paced_finishes _ Hp). pose proof (finished_finishes _ Hf).
    lia.
  - apply paced_finishes.
  - apply paced_finishes.
Qed.

Lemma Databuffer_streamer_paced fuel arg o :
  obeys L o -> streamer_post (Databuffer.streamer fuel arg o (start Databuffer.init)).
Proof.
  intros Ho. revert o Ho.
  change (wp L (Databuffer.streamer fuel arg) streamer_post (start Databuffer.init)).
  unfold Databuffer.streamer.
  apply wp_bind, wp_lib. intros a0 _.
  apply wp_bind, wp_lib. intros a1 _.
  apply wp_bind. eapply wp_mono.
  { apply Databuffer_streamer_loop_paced; [lia|]. repeat split. }
  intros [[] w|c w|w]; simpl; auto.
  intros [Hp Hf].
  apply wp_bind, wp_lib. intros a2 _. apply wp_ret. simpl.
  rewrite Hp, Hf. split; reflexivity.
Qed.

Lemma DatabufferOld_streamer_paced fuel arg o :
  obeys L o -> streamer_post (DatabufferOld.streamer fuel arg o (start DatabufferOld.init)).
Proof.
  intros Ho. revert o Ho.
  change (wp L (DatabufferOld.streamer fuel arg) streamer_post (start DatabufferOld.init)).
  unfold DatabufferOld.streamer.
  apply wp_bind, wp_lib. intros a0 _.
  apply wp_bind, wp_lib. intros a1 _.
  apply wp_bind. eapply wp_mono.
  { apply DatabufferOld_streamer_loop_paced; [lia|]. repeat split. }
  intros [[] w|c w|w]; simpl; auto.
  intros [Hp Hf].
  apply wp_bind, wp_lib. intros a2 _. apply wp_ret. simpl.
  rewrite Hp, Hf. split; reflexivity.
Qed.

End StreamerPacing.


(** ** Where the windows are placed *)

Lemma positions_cons e l :
  positions (e :: l) =
  positions l ++ match window_position e with Some p => [p] | None => [] end.
Proof.
  unfold positions. rewrite reverse_cons, omap_app. simpl.
  destruct (window_position e); reflexivity.
Qed.

Lemma positions_other e l : window_position e = None -> positions (e :: l) = positions l.
Proof. intros He. rewrite positions_cons, He. apply app_nil_r. Qed.

Lemma positions_lib f self args a l :
  not_create f -> positions (Lib f self args a :: l) = positions l.
Proof.
  intros Hf. apply positions_other. destruct f; try reflexivity. destruct Hf. reflexivity.
Qed.

Lemma positions_output e l : silent e -> positions (e :: l) = positions l.
Proof. intros He. apply positions_other. destruct e; try reflexivity. destruct He. Qed.

Lemma linear_nil dx dy : linear dx dy [].
Proof. intros k pos Hk. rewrite lookup_nil in Hk. discriminate. Qed.

Lemma linear_snoc dx dy ps :
  linear dx dy ps ->
  linear dx dy (ps ++ [(dx * Z.of_nat (length ps), dy * Z.of_nat (length ps))]).
Proof.
  intros Hps k pos Hk.
  destruct (decide (k < length ps)%nat) as [Hlt|Hge].
  - rewrite lookup_app_l in Hk by exact Hlt. apply Hps, Hk.
  - rewrite lookup_app_r in Hk by lia.
    destruct (k - length ps)%nat as [|d] eqn:Hd; simpl in Hk; [|discriminate].
    assert (k = length ps) by lia. subst k. congruence.
Qed.

Lemma lined_invariant dx dy i : invariant not_create (lined dx dy i) (in_line dx dy).
Proof.
  unfold lined, in_line. split.
  - intros l _ [Hl _]. exact Hl.
  - intros f self args a l _ Hf Hl. rewrite positions_lib; auto.
  - intros e l _ He Hl. rewrite positions_output; [auto|]. apply output_silent, He.
  - intros c l _ _ [Hl _]. rewrite positions_output; [auto|exact Logic.I].
Qed.

Lemma lined_may_exit dx dy i : may_exit (lined dx dy i) (in_line dx dy).
Proof.
  intros n l h [Hl _]. unfold in_line. rewrite positions_output; [auto|exact Logic.I].
Qed.

#[local] Hint Resolve lined_invariant lined_may_exit : trace.
#[local] Hint Extern 1 (not_create _) => unfold not_create; discriminate : trace.

Section Placement.
Context `{Headers} (L : libspec).

Lemma triple_create_window {G} dx dy i line x layer rest old :
  triple (G:=G) L (on_trace (lined dx dy i))
    (DFBCHECK line x ret_of
       (meth_new IDirectFBDisplayLayer_CreateWindow layer
          (dx * Z.of_nat i :: dy * Z.of_nat i :: rest) old))
    (fun _ => on_trace (lined dx dy (S i))) (on_trace (in_line dx dy)).
Proof.
  intros w [Hl Hi]. unfold on_trace, lined, in_line in *.
  unfold DFBCHECK, meth_new.
  apply wp_bind, wp_bind, wp_meth.
  { intros _. simpl. rewrite positions_output; [auto|exact Logic.I]. }
  intros _ a _.
  assert (Hnew : lined dx dy (S i)
            (Lib IDirectFBDisplayLayer_CreateWindow layer
               (dx * Z.of_nat i :: dy * Z.of_nat i :: rest) a :: log w) (hooked w)).
  { unfold lined. rewrite positions_cons. simpl. split.
    - rewrite <- Hi. apply linear_snoc, Hl.
    - rewrite length_app. simpl. lia. }
  apply wp_bind, wp_fresh, wp_ret. simpl. unfold ret_of. simpl.
  destruct (is_ok (a_ret a)).
  - apply wp_ret. exact Hnew.
  - apply wp_bind, wp_emit, wp_bind, wp_emit, wp_exit. simpl.
    do 3 (rewrite positions_output; [|exact Logic.I]). apply Hnew.
Qed.

Lemma ImageSample_create_stack_loop_lined n i :
  triple L (on_trace (lined 10 5 i))
    (ImageSample.create_stack_loop n (10 * Z.of_nat i) (5 * Z.of_nat i))
    (fun _ => on_trace (in_line 10 5)) (on_trace (in_line 10 5)).
Proof.
  revert i. induction n as [|n IH]; intros i; simpl.
  - apply triple_ret. intros w [Hw _]. exact Hw.
  - unfold ImageSample.create_stack_body.
    eapply triple_bind with (R := fun _ => on_trace (lined 10 5 (S i))).
    + keep_then.
      step_then triple_create_window.
      keep_rest.
    + intros _.
      replace (10 * Z.of_nat i + 10) with (10 * Z.of_nat (S i)) by lia.
      replace (5 * Z.of_nat i + 5) with (5 * Z.of_nat (S i)) by lia.
      apply IH.
Qed.

Lemma VideoSample_create_stack_loop_lined n i :
  triple L (on_trace (lined 10 5 i))
    (VideoSample.create_stack_loop n (10 * Z.of_nat i) (5 * Z.of_nat i))
    (fun _ => on_trace (in_line 10 5)) (on_trace (in_line 10 5)).
Proof.
  revert i. induction n as [|n IH]; intros i; simpl.
  - apply triple_ret. intros w [Hw _]. exact Hw.
  - unfold VideoSample.create_stack_body.
    eapply triple_bind with (R := fun _ => on_trace (lined 10 5 (S i))).
    + keep_then.
      step_then triple_create_window.
      keep_rest.
    + intros _.
      replace (10 * Z.of_nat i + 10) with (10 * Z.of_nat (S i)) by lia.
      replace (5 * Z.of_nat i + 5) with (5 * Z.of_nat (S i)) by lia.
      apply IH.
Qed.

Lemma ImageSample_create_stack_lined dsc_width dsc_height :
  triple L (on_trace (lined 10 5 0)) (ImageSample.create_stack dsc_width dsc_height)
    (fun _ => on_trace (in_line 10 5)) (on_trace (in_line 10 5)).
Proof.
  unfold ImageSample.create_stack.
  keep_while ltac:(fun m => idtac).
  apply (ImageSample_create_stack_loop_lined _ 0).
Qed.

Lemma VideoSample_create_stack_lined dsc_width dsc_height :
  triple L (on_trace (lined 10 5 0)) (VideoSample.create_stack dsc_width dsc_height)
    (fun _ => on_trace (in_line 10 5)) (on_trace (in_line 10 5)).
Proof.
  unfold VideoSample.create_stack.
  keep_while ltac:(fun m => idtac).
  apply (VideoSample_create_stack_loop_lined _ 0).
Qed.

End Placement.

Lemma ids_of_cons e l :
  ids_of (e :: l) = match window_id_of e with Some id => id :: ids_of l | None => ids_of l end.
Proof. unfold ids_of. simpl. destruct (window_id_of e); reflexivity. Qed.

Lemma placing_invariant dx dy i ids :
  invariant not_window (placing dx dy i ids) (in_line dx dy).
Proof.
  unfold placing, handed. split.
  - intros l h [Hl _]. eapply (inv_weaken _ _ _ (lined_invariant dx dy i)), Hl.
  - intros f self args a l h [Hc Hg] [Hl Hids]. split.
    + eapply (inv_lib _ _ _ (lined_invariant dx dy i)); eauto.
    + rewrite ids_of_cons. destruct f; try exact Hids. destruct Hg. reflexivity.
  - intros e l h He [Hl Hids]. split.
    + eapply (inv_output _ _ _ (lined_invariant dx dy i)); eauto.
    + rewrite ids_of_cons. destruct e; try exact Hids. destruct He.
  - intros c l h Hc [Hl _]. eapply (inv_crash _ _ _ (lined_invariant dx dy i)); eauto.
Qed.

Lemma placing_may_exit dx dy i ids : may_exit (placing dx dy i ids) (in_line dx dy).
Proof. intros n l h [Hl _]. eapply lined_may_exit, Hl. Qed.

#[local] Hint Resolve placing_invariant placing_may_exit : trace.
#[local] Hint Extern 1 (not_window _) => split; discriminate : trace.

Lemma registry_insert {V} j ids id (v : V) (stack : gmap nat V) :
  registry j ids stack -> id ∉ ids ->
  registry (S j) (id :: ids) (direct_hash_insert id v stack).
Proof.
  intros [Hsize Hdom] Hid. unfold direct_hash_insert.
  destruct (stack !! id) as [v'|] eqn:Hlook.
  { destruct Hid. apply Hdom. exists v'. exact Hlook. }
  split.
  - rewrite map_size_insert_None by exact Hlook. lia.
  - intros k [u Hk]. destruct (decide (k = id)) as [->|Hne]; [left|].
    rewrite lookup_insert_ne in Hk by (intros ->; apply Hne; reflexivity).
    right. apply Hdom. exists u. exact Hk.
Qed.

Lemma handed_invariant ids : invariant not_get_id (handed ids) anything.
Proof.
  unfold handed, anything. split; auto.
  - intros f self args a l h Hf Hids. rewrite ids_of_cons.
    destruct f; try exact Hids. destruct Hf. reflexivity.
  - intros e l h He Hids. rewrite ids_of_cons. destruct e; try exact Hids. destruct He.
Qed.

#[local] Hint Resolve handed_invariant : trace.
#[local] Hint Extern 1 (not_get_id _) => unfold not_get_id; discriminate : trace.

Section PlacementMulti.
Context `{Headers}.

Lemma triple_create_window_placing {G} dx dy i ids line x layer rest old :
  triple (G:=G) fresh_ids (on_trace (placing dx dy i ids))
    (DFBCHECK line x ret_of
       (meth_new IDirectFBDisplayLayer_CreateWindow layer
          (dx * Z.of_nat i :: dy * Z.of_nat i :: rest) old))
    (fun _ => on_trace (placing dx dy (S i) ids)) (on_trace (in_line dx dy)).
Proof.
  eapply triple_conseq.
  - apply (triple_both fresh_ids (on_trace (lined dx dy i)) (on_trace (handed ids)) _
             (fun _ => on_trace (lined dx dy (S i))) (fun _ => on_trace (handed ids))
             (on_trace (in_line dx dy)) (on_trace anything)).
    + apply (triple_create_window fresh_ids dx dy i line x layer rest old).
    + keep_rest.
  - intros w Hw. exact Hw.
  - intros a w Hw. exact Hw.
  - intros w [Hw _]. exact Hw.
Qed.

Lemma triple_get_id {G} dx dy i ids window :
  triple (G:=G) fresh_ids (on_trace (placing dx dy i ids))
    (meth IDirectFBWindow_GetID window [])
    (fun a w => on_trace (placing dx dy i (a_id a :: ids)) w /\ a_id a ∉ ids)
    (on_trace (in_line dx dy)).
Proof.
  intros w [[Hl Hi] Hids]. apply wp_meth; simpl.
  - intros _. unfold on_trace, in_line. simpl.
    rewrite positions_output; [exact Hl|exact Logic.I].
  - intros _ a Ha. unfold on_trace, placing, lined, handed in *. cbn [log hooked].
    rewrite positions_lib by (unfold not_create; discriminate).
    rewrite ids_of_cons. cbn [window_id_of].
    unfold fresh_ids in Ha. rewrite Hids in *. auto.
Qed.

End PlacementMulti.

Section PlacementOfTheRegistry.
Context `{Headers}.

Lemma ImageMulti_add_window_placing i ids image_provider sdsc_width sdsc_height :
  triple fresh_ids (at_ (placing 32 18 i ids) (ImageMulti_registry i ids))
    (ImageMulti.add_window image_provider sdsc_width sdsc_height)
    (fun _ => ImageMulti_placed) (on_trace (in_line 32 18)).
Proof.
  assert (Hr : forall I s, invariant not_window I (in_line 32 18) ->
            keeps fresh_ids I (in_line 32 18) (ImageMulti.render_func s)).
  { intros I s HI. unfold ImageMulti.render_func. keeps_go. }
  assert (Hh : forall P s, holds P (ImageMulti.render_func s)).
  { intros P s. unfold ImageMulti.render_func. holds_go. }
  unfold ImageMulti.add_window.
  eapply triple_bind; [apply triple_get_at|intros g; cbv beta].
  apply triple_pure. intros [Hsize Hdom].
  unfold direct_hash_count. rewrite Hsize. cbv zeta.
  step_then triple_create_window_placing.
  keep_until IDirectFBWindow_GetID.
  eapply triple_bind.
  { apply triple_and; [apply triple_get_id|].
    apply (holds_meth (ImageMulti_registry i ids)). }
  intros id; cbv beta.
  eapply triple_pre with
    (P := fun w => at_ (placing 32 18 (S i) (a_id id :: ids)) (ImageMulti_registry i ids) w
                   /\ a_id id ∉ ids).
  2: { intros w [[Ht Hf] Hp]. split; [split; [exact Ht|exact Hp]|exact Hf]. }
  apply triple_pure. intros Hfresh.
  do 2 keep_then.
  eapply triple_bind with
    (R := fun _ => at_ (placing 32 18 (S i) (a_id id :: ids))
                     (ImageMulti_registry (S i) (a_id id :: ids))).
  { intros w [Ht Hp]. apply wp_modify. split; [exact Ht|].
    unfold on_glob, ImageMulti_registry in *. simpl.
    apply registry_insert; assumption. }
  intros _.
  pose proof (fun s => Hr _ s (placing_invariant 32 18 (S i) (a_id id :: ids))).
  keep_while ltac:(fun m => idtac).
  apply triple_ret. intros w Hw. exists (S i), (a_id id :: ids). exact Hw.
Qed.

Lemma VideoMulti_add_window_placing i ids video_provider sdsc_width sdsc_height :
  triple fresh_ids (at_ (placing 32 18 i ids) (VideoMulti_registry i ids))
    (VideoMulti.add_window video_provider sdsc_width sdsc_height)
    (fun _ => VideoMulti_placed) (on_trace (in_line 32 18)).
Proof.
  unfold VideoMulti.add_window.
  eapply triple_bind; [apply triple_get_at|intros g; cbv beta].
  apply triple_pure. intros [Hsize Hdom].
  unfold direct_hash_count. rewrite Hsize. cbv zeta.
  step_then triple_create_window_placing.
  keep_until IDirectFBWindow_GetID.
  eapply triple_bind.
  { apply triple_and; [apply triple_get_id|].
    apply (holds_meth (VideoMulti_registry i ids)). }
  intros id; cbv beta.
  eapply triple_pre with
    (P := fun w => at_ (placing 32 18 (S i) (a_id id :: ids)) (VideoMulti_registry i ids) w
                   /\ a_id id ∉ ids).
  2: { intros w [[Ht Hf] Hp]. split; [split; [exact Ht|exact Hp]|exact Hf]. }
  apply triple_pure. intros Hfresh.
  do 2 keep_then.
  eapply triple_bind with
    (R := fun _ => at_ (placing 32 18 (S i) (a_id id :: ids))
                     (VideoMulti_registry (S i) (a_id id :: ids))).
  { intros w [Ht Hp]. apply wp_modify. split; [exact Ht|].
    unfold on_glob, VideoMulti_registry in *. simpl.
    apply registry_insert; assumption. }
  intros _.
  keep_while ltac:(fun m => idtac).
  apply triple_ret. intros w Hw. exists (S i), (a_id id :: ids). exact Hw.
Qed.

Lemma ImageMulti_load_file_placed mrl :
  triple fresh_ids ImageMulti_placed (ImageMulti.load_file mrl)
    (fun _ => ImageMulti_placed) (on_trace (in_line 32 18)).
Proof.
  unfold ImageMulti_placed at 1. apply triple_ex. intros i. apply triple_ex. intros ids.
  eta_pre.
  unfold ImageMulti.load_file.
  keep_while ltac:(fun m => lazymatch m with ImageMulti.add_window _ _ _ => fail | _ => idtac end).
  eapply triple_bind; [apply ImageMulti_add_window_placing|intros ?; cbv beta].
  unfold ImageMulti_placed at 1. apply triple_ex. intros j. apply triple_ex. intros ids'.
  eta_pre.
  keep_then.
  apply triple_ret. intros w Hw. exists j, ids'. exact Hw.
Qed.

Lemma VideoMulti_load_file_placed mrl :
  triple fresh_ids VideoMulti_placed (VideoMulti.load_file mrl)
    (fun _ => VideoMulti_placed) (on_trace (in_line 32 18)).
Proof.
  unfold VideoMulti_placed at 1. apply triple_ex. intros i. apply triple_ex. intros ids.
  eta_pre.
  unfold VideoMulti.load_file.
  keep_while ltac:(fun m => idtac).
  apply VideoMulti_add_window_placing.
Qed.

Lemma placed_in_line {G} i ids (P : G -> Prop) (w : world G) :
  at_ (placing 32 18 i ids) P w -> on_trace (in_line 32 18) w.
Proof. intros [[[Hl _] _] _]. exact Hl. Qed.

Lemma ImageMulti_load_files_placed files :
  triple fresh_ids ImageMulti_placed (for_each files ImageMulti.load_file)
    (fun _ => on_trace (in_line 32 18)) (on_trace (in_line 32 18)).
Proof.
  eapply triple_post.
  - apply triple_for_each. intros mrl _. apply ImageMulti_load_file_placed.
  - intros _ w (i & ids & Hw). eapply placed_in_line, Hw.
Qed.

Lemma VideoMulti_load_files_placed files :
  triple fresh_ids VideoMulti_placed (for_each files VideoMulti.load_file)
    (fun _ => on_trace (in_line 32 18)) (on_trace (in_line 32 18)).
Proof.
  eapply triple_post.
  - apply triple_for_each. intros mrl _. apply VideoMulti_load_file_placed.
  - intros _ w (i & ids & Hw). eapply placed_in_line, Hw.
Qed.

End PlacementOfTheRegistry.

Lemma positioned_invariant ps : invariant not_create (positioned ps) (positioned ps).
Proof.
  unfold positioned. split.
  - auto.
  - intros f self args a l _ Hf Hl. rewrite positions_lib; auto.
  - intros e l _ He Hl. rewrite positions_output; [auto|]. apply output_silent, He.
  - intros c l _ _ Hl. rewrite positions_output; [auto|exact Logic.I].
Qed.

Lemma positioned_may_exit ps : may_exit (positioned ps) (positioned ps).
Proof.
  intros n l h Hl. unfold positioned. rewrite positions_output; [auto|exact Logic.I].
Qed.

#[local] Hint Resolve positioned_invariant positioned_may_exit : trace.

Section PositionOfAWindow.
Context `{Headers} (L : libspec).

Lemma triple_create_window_at {G} ps line msg layer x y rest old :
  triple (G:=G) L (on_trace (positioned ps))
    (DFBCHECK line msg ret_of
       (meth_new IDirectFBDisplayLayer_CreateWindow (S layer) (x :: y :: rest) old))
    (fun _ => on_trace (positioned (ps ++ [(x, y)])))
    (on_trace (positioned (ps ++ [(x, y)]))).
Proof.
  intros w Hw. unfold on_trace, positioned in *.
  unfold DFBCHECK, meth_new.
  apply wp_bind, wp_bind, wp_meth; [discriminate|].
  intros _ a _.
  assert (Hnew : positions (Lib IDirectFBDisplayLayer_CreateWindow (S layer)
                              (x :: y :: rest) a :: log w) = ps ++ [(x, y)]).
  { rewrite positions_cons, Hw. reflexivity. }
  apply wp_bind, wp_fresh, wp_ret. simpl. unfold ret_of. simpl.
  destruct (is_ok (a_ret a)).
  - apply wp_ret. exact Hnew.
  - apply wp_bind, wp_emit, wp_bind, wp_emit, wp_exit. simpl.
    do 3 (rewrite positions_output; [|exact Logic.I]). exact Hnew.
Qed.

Lemma triple_no_window {G A} ps line msg x y rest old (k : answer * nat -> prog G A) :
  triple (G:=G) L (on_trace (positioned ps))
    (DFBCHECK line msg ret_of
       (meth_new IDirectFBDisplayLayer_CreateWindow 0 (x :: y :: rest) old) ≫= k)
    (fun _ => on_trace (positioned ps)) (on_trace (positioned ps)).
Proof.
  intros w Hw o Ho. unfold on_trace, positioned in *. simpl.
  rewrite positions_output; [exact Hw|exact Logic.I].
Qed.

Lemma ImageMulti_add_window_at ps g0 image_provider sdsc_width sdsc_height :
  let at_n := (32 * direct_hash_count (ImageMulti.stack g0),
               18 * direct_hash_count (ImageMulti.stack g0)) in
  let ps' := ps ++ if (ImageMulti.layer g0 =? 0)%nat then [] else [at_n] in
  triple L (fun w => on_trace (positioned ps) w /\ g0 = glob w)
    (ImageMulti.add_window image_provider sdsc_width sdsc_height)
    (fun _ => on_trace (positioned ps')) (on_trace (positioned ps')).
Proof.
  intros at_n ps'.
  assert (Hr : forall I s, invariant not_create I I ->
            keeps L I I (ImageMulti.render_func s)).
  { intros I s HI. unfold ImageMulti.render_func. keeps_go. }
  unfold ImageMulti.add_window.
  eapply triple_bind; [apply triple_get_pure|intros g; cbv beta].
  eapply triple_pre with (P := fun w => on_trace (positioned ps) w /\ g = g0).
  2: { intros w [[Hw H0] Hg]. split; [exact Hw|congruence]. }
  apply triple_pure. intros ->. cbv zeta. subst ps' at_n.
  destruct (ImageMulti.layer g0) as [|layer]; simpl.
  - rewrite app_nil_r. apply triple_no_window.
  - step_then triple_create_window_at.
    pose proof (fun s => Hr _ s (positioned_invariant
      (ps ++ [(32 * direct_hash_count (ImageMulti.stack g0),
               18 * direct_hash_count (ImageMulti.stack g0))]))).
    keep_rest.
Qed.

Lemma VideoMulti_add_window_at ps g0 video_provider sdsc_width sdsc_height :
  let at_n := (32 * direct_hash_count (VideoMulti.stack g0),
               18 * direct_hash_count (VideoMulti.stack g0)) in
  let ps' := ps ++ if (VideoMulti.layer g0 =? 0)%nat then [] else [at_n] in
  triple L (fun w => on_trace (positioned ps) w /\ g0 = glob w)
    (VideoMulti.add_window video_provider sdsc_width sdsc_height)
    (fun _ => on_trace (positioned ps')) (on_trace (positioned ps')).
Proof.
  intros at_n ps'.
  unfold VideoMulti.add_window.
  eapply triple_bind; [apply triple_get_pure|intros g; cbv beta].
  eapply triple_pre with (P := fun w => on_trace (positioned ps) w /\ g = g0).
  2: { intros w [[Hw H0] Hg]. split; [exact Hw|congruence]. }
  apply triple_pure. intros ->. cbv zeta. subst ps' at_n.
  destruct (VideoMulti.layer g0) as [|layer]; simpl.
  - rewrite app_nil_r. apply triple_no_window.
  - step_then triple_create_window_at.
    keep_rest.
Qed.

End PositionOfAWindow.

Lemma le_max_of ids (x : nat) : x ∈ ids -> (x <= foldr Nat.max 0%nat ids)%nat.
Proof.
  induction ids as [|y ids IH]; intros Hx.
  - apply elem_of_nil in Hx. destruct Hx.
  - apply elem_of_cons in Hx as [->|Hx]; simpl; [lia|]. specialize (IH Hx). lia.
Qed.

Lemma numbering_fresh : obeys fresh_ids numbering.
Proof.
  intros l f self args. unfold fresh_ids, numbering.
  destruct f; try exact Logic.I. simpl.
  intros Hin. apply le_max_of in Hin. lia.
Qed.

Section WindowsAlongALine.
Context `{Headers}.


End WindowsAlongALine.

(** ** Runs of the programs *)

(** Against C3 as stated: df_databuffer creates two threads when the library
    succeeds in everything. *)
Lemma two_streamer_threads :
  threads_created
    (log (final (df_databuffer ["df_databuffer"; "font.dgiff"; "media.png"]
                   ["df_databuffer"; "font.dgiff"; "media.png"] all_ok
                   (start Databuffer.init)))) = 2%nat.
Proof. vm_compute. reflexivity. Qed.




Lemma remove_window_unknown_id_witness :
  evt_type (close_of 7) = DWET_CLOSE /\
  direct_hash_lookup (ImageSample.stack ImageSample.init) 7 = None /\
  direct_hash_lookup (VideoSample.stack VideoSample.init) 7 = None /\
  direct_hash_lookup (ImageMulti.stack ImageMulti.init) 7 = None /\
  direct_hash_lookup (VideoMulti.stack VideoMulti.init) 7 = None /\
  @ImageSample.dispatch directfb_headers (close_of 7) all_ok (start ImageSample.init)
    = Ret tt (start ImageSample.init) /\
  @VideoMulti.dispatch directfb_headers (close_of 7) all_ok (start VideoMulti.init)
    = Ret tt (start VideoMulti.init).
Proof.
  assert (Hc : evt_type (close_of 7) = DWET_CLOSE) by reflexivity.
  assert (Hi : direct_hash_lookup (ImageSample.stack ImageSample.init) 7 = None)
    by reflexivity.
  assert (Hv : direct_hash_lookup (VideoSample.stack VideoSample.init) 7 = None)
    by reflexivity.
  assert (Hm : direct_hash_lookup (ImageMulti.stack ImageMulti.init) 7 = None)
    by reflexivity.
  assert (Hn : direct_hash_lookup (VideoMulti.stack VideoMulti.init) 7 = None)
    by reflexivity.
  pose proof (@remove_window_unknown_id directfb_headers all_ok 0 (close_of 7)
                (start ImageSample.init) (start VideoSample.init) (start ImageMulti.init)
                (start VideoMulti.init) Hc Hi Hv Hm Hn) as (Hi' & _ & _ & Hn').
  exact (conj Hc (conj Hi (conj Hv (conj Hm (conj Hn
           (conj (proj2 Hi') (proj2 Hn'))))))).
Defined.


(** ** The navigation state of the font sample *)

Section Navigation.
Context `{Headers}.

(** As long as a page is no longer than the range of the glyph indices, a
    key leaves the navigation state in range. *)
Lemma FontSample_key_down_navigable symbol o w :
  FontSample_navigable (glob w) ->
  FontSample_page_fits (glob w) ->
  post (fun _ w' => FontSample_navigable (glob w')) (fun _ => True)
    (FontSample.key_down symbol o w).
Proof.
  destruct w as [g l h].
  unfold FontSample_navigable, FontSample_page_fits, FontSample.GLYPHS_PER_PAGE.
  cbn [glob]. intros (Hg & Hf & Hx & Hy) Hfits.
  unfold FontSample.key_down.
  repeat match goal with
  | |- context [if is_one_of ?k ?ks then _ else _] => destruct (is_one_of k ks)
  | |- context [if (?a =? ?b) then _ else _] =>
      lazymatch a with DFB_LOWER_CASE _ => destruct (a =? b) end
  end;
  cbn [post exit modify ret mret prog_ret glob]; try exact I;
  unfold FontSample.GLYPHS_PER_PAGE;
  repeat match goal with
  | |- context [if ?b then _ else _] => destruct b eqn:?
  end;
  cbn in *; repeat split; try lia; try nia.
Qed.

End Navigation.

(** C9, where the code leaves the range: df_font_sample is started on one
    font file, [+] is pressed 241 times (a page is then 257 by 257 glyphs,
    more than the 0x10000 glyph indices; [-] stops at 1, [+] stops nowhere)
    and page up once: [first_glyph] becomes 0x10000 - 257 * 257 = -513, below
    the range [0, 0xffff]. *)
Theorem first_glyph_leaves_the_range :
  let w := final (@df_font_sample directfb_headers 300
                    ["df_font_sample"; "decker.ttf"] ["df_font_sample"; "decker.ttf"]
                    (script (@zooming_out directfb_headers 241))
                    (start FontSample.init)) in
  FontSample.glyphs_per_xline (glob w) = 257 /\
  FontSample.glyphs_per_yline (glob w) = 257 /\
  FontSample.first_glyph (glob w) = -513 /\
  ~ FontSample_navigable (glob w).
Proof.
  vm_compute. repeat split. intros [[Hneg _] _]. apply Hneg. reflexivity.
Qed.

(** ** Failing calls *)

Lemma DFBCHECK_returns {G A} line x (result : A -> DFBResult) (call : prog G A) o w v w' :
  call o w = Ret v w' ->
  DFBCHECK line x result call o w =
    if is_ok (result v) then Ret v w'
    else Exit (Failed (result v)) (aborted line x (result v) w').
Proof.
  intros Hcall. unfold DFBCHECK, mbind, prog_bind, bind. rewrite Hcall.
  destruct (is_ok (result v)); reflexivity.
Qed.

Lemma one_font_first : obeys only_first_font one_font.
Proof.
  intros l f self args Hf. subst f. cbn.
  destruct (called is_create_font l); reflexivity.
Qed.

Lemma unsupported_no_provider : obeys no_provider unsupported.
Proof. intros l f self args Hf. subst f. reflexivity. Qed.

Lemma FontSample_render_font_page_goes_on fontfile first_char o w :
  obeys only_first_font o ->
  called is_create_font (log w) = false ->
  fatal (log w) = false ->
  FontSample.dfb (glob w) <> 0%nat ->
  FontSample.surface (glob w) <> 0%nat ->
  went_on (FontSample.render_font_page fontfile first_char o w) = true /\
  failed (log (final (FontSample.render_font_page fontfile first_char o w))) = true.
Proof.
  intros Ho Hnone Hfatal Hdfb Hsurface.
  destruct w as [g l h]. cbn [glob log] in *.
  destruct (FontSample.dfb g) as [|d] eqn:Ed; [congruence|].
  destruct (FontSample.surface g) as [|s] eqn:Es; [congruence|].
  unfold FontSample.render_font_page, DFBCHECK, meth_new, mbind, prog_bind, bind, mret,
    prog_ret.
  cbn [get glob]. rewrite Ed, Es.
  cbn [meth fresh glob log hooked ret].
  pose proof (Ho l IDirectFB_CreateFont (S d) [16] eq_refl) as H1.
  rewrite Hnone in H1. cbn in H1.
  unfold ret_of, created, fst. rewrite !H1.
  cbn [ret meth glob log hooked fresh].
  match goal with
  | |- context [o ?l2 IDirectFB_CreateFont (S d) ?args] =>
      lazymatch l2 with
      | _ :: _ :: _ =>
          pose proof (Ho l2 IDirectFB_CreateFont (S d) args eq_refl) as H2
      end
  end.
  cbn [called existsb is_create_font orb] in H2.
  rewrite H2.
  cbn [negb length ret meth glob log hooked went_on final fatal failed existsb
       is_fatal is_failure a_ret orb].
  cbn [length] in H2. unfold fatal in Hfatal.
  rewrite H2, Hfatal. cbn [negb orb]. rewrite ?orb_true_r. split; reflexivity.
Qed.

Section SkippedMedia.
Context `{Headers}.

Lemma MusicSample_play_media_goes_on fuel m o w :
  obeys no_provider o ->
  fatal (log w) = false ->
  MusicSample.sound (glob w) <> 0%nat ->
  went_on (MusicSample.play_media fuel m o w) = true /\
  failed (log (final (MusicSample.play_media fuel m o w))) = true.
Proof.
  intros Ho Hfatal Hsound. destruct w as [g l h]. cbn [glob log] in *.
  unfold MusicSample.play_media, meth_new, mbind, prog_bind, bind, mret, prog_ret.
  cbn [get modify glob log hooked MusicSample.sound MusicSample.set_main_media_next].
  destruct (MusicSample.sound g) as [|s] eqn:Es; [congruence|].
  cbn [meth fresh ret glob log hooked].
  pose proof (Ho l IFusionSound_CreateMusicProvider (S s) [] eq_refl) as Hno.
  unfold created. rewrite Hno.
  cbn [negb modify ret glob log hooked went_on final fatal failed existsb is_fatal
       is_failure a_ret orb].
  unfold fatal in Hfatal. rewrite Hno, Hfatal. split; reflexivity.
Qed.

Lemma MusicSampleDir_play_media_goes_on fuel m o w :
  obeys no_provider o ->
  fatal (log w) = false ->
  MusicSampleDir.sound (glob w) <> 0%nat ->
  went_on (MusicSampleDir.play_media fuel m o w) = true /\
  failed (log (final (MusicSampleDir.play_media fuel m o w))) = true.
Proof.
  intros Ho Hfatal Hsound. destruct w as [g l h]. cbn [glob log] in *.
  unfold MusicSampleDir.play_media, meth_new, mbind, prog_bind, bind, mret, prog_ret.
  cbn [get modify glob log hooked MusicSampleDir.sound
       MusicSampleDir.set_main_media_next].
  destruct (MusicSampleDir.sound g) as [|s] eqn:Es; [congruence|].
  cbn [meth fresh ret glob log hooked].
  pose proof (Ho l IFusionSound_CreateMusicProvider (S s) [] eq_refl) as Hno.
  unfold created. rewrite Hno.
  cbn [negb modify ret glob log hooked went_on final fatal failed existsb is_fatal
       is_failure a_ret orb].
  unfold fatal in Hfatal. rewrite Hno, Hfatal. split; reflexivity.
Qed.

End SkippedMedia.

Section FailingCalls.
Context `{Headers}.


End FailingCalls.


(** ** Leaving the event loop *)

Lemma invariant_weaken (good good' : libfn -> Prop) I J :
  (forall f, good' f -> good f) -> invariant good I J -> invariant good' I J.
Proof.
  intros Hg [Hw Hl Ho Hc]. split; auto.
Qed.

Lemma plain_not_poll f : plain false f -> not_poll f.
Proof.
  intros [(_ & _ & _ & _ & Hpoll) _]. unfold not_poll.
  destruct (is_poll f); [discriminate (Hpoll eq_refl)|reflexivity].
Qed.

Lemma arguments_not_poll f : arguments_ok f -> not_poll f.
Proof. intros [(_ & _ & _ & Hpoll) _]. exact Hpoll. Qed.

Section Quits.
Context (quit : DFBWindowEvent -> bool).

Lemma last_poll_lib f self args a l :
  is_poll f = false -> last_poll (Lib f self args a :: l) = last_poll l.
Proof. intros Hf. simpl. rewrite Hf. reflexivity. Qed.

Lemma last_poll_silent e l : silent e -> last_poll (e :: l) = last_poll l.
Proof. destruct e; simpl; intros He; try reflexivity. destruct He. Qed.

Lemma may_end_lib f self args a l :
  is_poll f = false -> may_end quit (Lib f self args a :: l) = may_end quit l.
Proof. intros Hf. unfold may_end. rewrite last_poll_lib by exact Hf. reflexivity. Qed.

Lemma may_end_silent e l : silent e -> may_end quit (e :: l) = may_end quit l.
Proof. intros He. unfold may_end. rewrite last_poll_silent by exact He. reflexivity. Qed.

Lemma quit_ends_lib f self args a l :
  quit_ends quit (Lib f self args a :: l) = quit_ends quit l.
Proof. reflexivity. Qed.

Lemma quit_ends_output e l : output e -> quit_ends quit (e :: l) = quit_ends quit l.
Proof. destruct e; simpl; intros He; try reflexivity; destruct He. Qed.

Lemma quit_ends_crash c l :
  abnormal c -> quit_ends quit (Halt c :: l) = quit_ends quit l.
Proof. destruct c; simpl; intros Hc; try reflexivity. destruct Hc. Qed.

Lemma unpolled_invariant : invariant not_poll (unpolled quit) (quitting quit).
Proof.
  split.
  - intros l h [Hq _]. exact Hq.
  - intros f self args a l h Hf [Hq Hn]. split; [exact Hq|].
    rewrite last_poll_lib by exact Hf. exact Hn.
  - intros e l h He [Hq Hn]. split.
    + rewrite quit_ends_output by exact He. exact Hq.
    + rewrite last_poll_silent by (apply output_silent, He). exact Hn.
  - intros c l h Hc [Hq _]. unfold quitting. rewrite quit_ends_crash by exact Hc. exact Hq.
Qed.

Lemma unpolled_may_exit : may_exit (unpolled quit) (quitting quit).
Proof.
  intros n l h [Hq Hn]. unfold quitting. simpl. unfold may_end. rewrite Hn, Hq. reflexivity.
Qed.

Lemma unpolled_hooked l h : unpolled quit l h -> unpolled quit l true.
Proof. intros Hu. exact Hu. Qed.

Lemma handling_invariant evt : invariant not_poll (handling quit evt) (quitting quit).
Proof.
  split.
  - intros l h [Hq _]. exact Hq.
  - intros f self args a l h Hf [Hq Hn]. split; [exact Hq|].
    rewrite may_end_lib by exact Hf. exact Hn.
  - intros e l h He [Hq Hn]. split.
    + rewrite quit_ends_output by exact He. exact Hq.
    + rewrite may_end_silent by (apply output_silent, He). exact Hn.
  - intros c l h Hc [Hq _]. unfold quitting. rewrite quit_ends_crash by exact Hc. exact Hq.
Qed.

Lemma handling_may_exit evt :
  quit evt = true -> may_exit (handling quit evt) (quitting quit).
Proof.
  intros He n l h [Hq Hn]. unfold quitting. simpl. rewrite (Hn He), Hq. reflexivity.
Qed.

Lemma handling_hooked evt l h : handling quit evt l h -> handling quit evt l true.
Proof. intros Hu. exact Hu. Qed.

Lemma quitting_invariant : invariant any_call (quitting quit) (quitting quit).
Proof.
  split.
  - auto.
  - intros f self args a l h _ Hq. exact Hq.
  - intros e l h He Hq. unfold quitting. rewrite quit_ends_output by exact He. exact Hq.
  - intros c l h Hc Hq. unfold quitting. rewrite quit_ends_crash by exact Hc. exact Hq.
Qed.

Lemma quitting_hooked l h : quitting quit l h -> quitting quit l true.
Proof. intros Hu. exact Hu. Qed.

(** An event that was just fetched is being handled. *)
Lemma handling_fetched self args a l h :
  quitting quit l h ->
  is_ok (a_ret a) = true ->
  handling quit (a_evt a) (Lib IDirectFBEventBuffer_GetEvent self args a :: l) h.
Proof.
  intros Hq Hok. split; [exact Hq|]. intros He. unfold may_end. simpl.
  rewrite Hok, He. reflexivity.
Qed.

Lemma unpolled_plain : invariant (plain false) (unpolled quit) (quitting quit).
Proof. eapply invariant_weaken; [apply plain_not_poll|apply unpolled_invariant]. Qed.

Lemma unpolled_arguments : invariant arguments_ok (unpolled quit) (quitting quit).
Proof. eapply invariant_weaken; [apply arguments_not_poll|apply unpolled_invariant]. Qed.

Lemma handling_plain evt : invariant (plain false) (handling quit evt) (quitting quit).
Proof. eapply invariant_weaken; [apply plain_not_poll|apply handling_invariant]. Qed.

Lemma quitting_plain p : invariant (plain p) (quitting quit) (quitting quit).
Proof. eapply invariant_weaken; [|apply quitting_invariant]. intros f _. exact Logic.I. Qed.

Lemma quitting_common : invariant common (quitting quit) (quitting quit).
Proof. eapply invariant_weaken; [|apply quitting_invariant]. intros f _. exact Logic.I. Qed.

End Quits.

#[local] Hint Resolve unpolled_invariant handling_invariant quitting_invariant
  unpolled_may_exit unpolled_hooked handling_hooked quitting_hooked : trace.
#[local] Hint Extern 1 (not_poll _) => reflexivity : trace.
#[local] Hint Extern 1 (any_call _) => exact Logic.I : trace.

Section Fetching.
Context {G : Type} (L : libspec) (quit : DFBWindowEvent -> bool).

(** Fetching an event: it is handled next, or the buffer was empty. *)
Lemma triple_fetch self args :
  triple (G:=G) L (on_trace (quitting quit))
    (meth IDirectFBEventBuffer_GetEvent self args)
    (fun a w => if is_ok (a_ret a) then on_trace (handling quit (a_evt a)) w
                else on_trace (quitting quit) w)
    (on_trace (quitting quit)).
Proof.
  intros w Hw. apply wp_meth.
  - intros _. simpl. exact Hw.
  - intros _ a _. simpl. destruct (is_ok (a_ret a)) eqn:Hok.
    + apply handling_fetched; [exact Hw|exact Hok].
    + exact Hw.
Qed.

(** The loop over the events of the buffer. *)
Lemma triple_fetch_loop fuel (buffer : G -> nat) (dispatch : DFBWindowEvent -> prog G unit) :
  (forall evt, triple L (on_trace (handling quit evt)) (dispatch evt)
                 (fun _ => on_trace (quitting quit)) (on_trace (quitting quit))) ->
  keeps L (quitting quit) (quitting quit)
    (forever fuel
       (g ← get;
        a ← meth IDirectFBEventBuffer_GetEvent (buffer g) [];
        if is_ok (a_ret a) then dispatch (a_evt a);; mret None
        else mret (Some tt))).
Proof.
  intros Hd. apply keeps_forever with (good := any_call); [apply quitting_invariant|].
  eapply triple_bind; [apply keeps_get|intros g; cbv beta].
  eapply triple_bind; [apply triple_fetch|intros a; cbv beta].
  destruct (is_ok (a_ret a)).
  - eapply triple_bind; [apply Hd|intros ?]. apply triple_ret. auto.
  - apply triple_ret. auto.
Qed.

(** A loop whose body never leaves it returns nowhere. *)
Lemma triple_forever_on {A} (I : world G -> Prop) (body : prog G (option A)) Q J fuel :
  (forall w, I w -> J w) ->
  triple L I body (fun r w => r = None /\ I w) J ->
  triple L I (forever fuel body) Q J.
Proof.
  intros HIJ Hbody. apply triple_forever; [exact HIJ|].
  eapply triple_post; [exact Hbody|]. intros [a|] w [Hr Hw]; [discriminate|exact Hw].
Qed.

End Fetching.

(** *** df_image_sample.c *)

Section ImageSampleQuits.
Context `{Headers} (L : libspec).
Import ImageSample.

Lemma ImageSample_dfb_shutdown_quiet I J :
  invariant not_poll I J -> keeps L I J dfb_shutdown.
Proof.
  intros Hinv.
  pose proof (ImageSample_destroy_stack_keeps L false _ _
                (invariant_weaken _ _ _ _ plain_not_poll Hinv)).
  unfold dfb_shutdown. keeps_go.
Qed.

Lemma ImageSample_dispatch_quits evt :
  triple L (on_trace (handling is_quit_or_close evt)) (dispatch evt)
    (fun _ => on_trace (quitting is_quit_or_close))
    (on_trace (quitting is_quit_or_close)).
Proof.
  eapply triple_post;
    [|intros ? w Hw; exact (inv_weaken _ _ _ (handling_invariant _ evt) _ _ Hw)].
  change (keeps L (handling is_quit_or_close evt) (quitting is_quit_or_close)
            (dispatch evt)).
  pose proof (ImageSample_dfb_shutdown_quiet _ _
                (handling_invariant is_quit_or_close evt)) as Hs.
  pose proof (ImageSample_remove_window_keeps L false _ _
                (handling_plain is_quit_or_close evt)) as Hr.
  destruct (is_quit_or_close evt) eqn:Hquit.
  - apply (ImageSample_dispatch_keeps L false _ _ (handling_plain _ evt)).
    intros n. pose proof (handling_may_exit _ evt Hquit). keeps_go.
  - unfold dispatch. unfold is_quit_or_close, is_quit_key in Hquit.
    destruct (evt_type evt); try discriminate; try rewrite Hquit; keeps_go.
Qed.

Lemma ImageSample_main_loop_quits fuel :
  triple (A:=Z) L (on_trace (quitting is_quit_or_close))
    (forever fuel (main_loop_body fuel))
    (fun _ _ => False) (on_trace (quitting is_quit_or_close)).
Proof.
  apply triple_forever_on; [auto|].
  pose proof (triple_fetch_loop L is_quit_or_close fuel event_buffer dispatch
                ImageSample_dispatch_quits) as Hloop.
  unfold main_loop_body. fold (process_event_buffer fuel) in Hloop.
  do 3 keep_then. apply triple_ret. auto.
Qed.

Lemma ImageSample_main_quits fuel argv argv' :
  triple L (on_trace (unpolled is_quit_or_close)) (main fuel argv argv')
    (fun n w => on_trace (quitting is_quit_or_close) (returned n w))
    (on_trace (quitting is_quit_or_close)).
Proof.
  eapply triple_post; [|intros n w Hw; exact (unpolled_may_exit _ n _ _ Hw)].
  change (keeps L (unpolled is_quit_or_close) (quitting is_quit_or_close)
            (main fuel argv argv')).
  pose proof (ImageSample_parse_command_line_keeps L _ _
                (unpolled_arguments is_quit_or_close) (unpolled_may_exit _)).
  pose proof (ImageSample_dump_image_info_keeps L false _ _
                (unpolled_plain is_quit_or_close)).
  pose proof (ImageSample_create_frame_keeps L false _ _
                (unpolled_plain is_quit_or_close)).
  pose proof (ImageSample_create_stack_keeps L false _ _
                (unpolled_plain is_quit_or_close)).
  pose proof (ImageSample_frame_blitter_keeps L false _ _
                (unpolled_plain is_quit_or_close)).
  assert (Hloop : keeps (A:=Z) L (unpolled is_quit_or_close) (quitting is_quit_or_close)
                    (forever fuel (main_loop_body fuel))).
  { eapply triple_conseq; [apply ImageSample_main_loop_quits| | |auto].
    - intros w [Hq _]. exact Hq.
    - intros ? ? []. }
  unfold main. keeps_go.
Qed.

(** Whenever df_image_sample ends with an exit code, it has not polled for
    input yet, or the event it got last is a quit key or closes a window. *)
Lemma ImageSample_quits fuel argv argv' :
  triple L (on_trace (unpolled is_quit_or_close)) (df_image_sample fuel argv argv')
    (fun _ => on_trace (quitting is_quit_or_close))
    (on_trace (quitting is_quit_or_close)).
Proof.
  unfold df_image_sample. eapply triple_process.
  - apply ImageSample_main_quits.
  - eapply triple_pre;
      [apply (ImageSample_dfb_shutdown_quiet (quitting is_quit_or_close)
                (quitting is_quit_or_close))|].
    + eapply invariant_weaken; [|apply quitting_invariant]. intros f _. exact Logic.I.
    + intros w [Hw _]. exact Hw.
  - auto.
Qed.

End ImageSampleQuits.

(** *** df_video_sample.c *)

Section VideoSampleQuits.
Context `{Headers} (L : libspec).
Import VideoSample.

Lemma VideoSample_adjust_color_quiet I J flags step :
  invariant not_poll I J -> keeps L I J (adjust_color flags step).
Proof. intros Hinv. unfold adjust_color. keeps_go. Qed.

Lemma VideoSample_dfb_shutdown_quiet I J :
  invariant not_poll I J -> keeps L I J dfb_shutdown.
Proof.
  intros Hinv.
  pose proof (VideoSample_destroy_stack_keeps L false _ _
                (invariant_weaken _ _ _ _ plain_not_poll Hinv)).
  unfold dfb_shutdown. keeps_go.
Qed.

Lemma VideoSample_dispatch_quits caps evt :
  triple L (on_trace (handling is_quit_or_close evt)) (dispatch caps evt)
    (fun _ => on_trace (quitting is_quit_or_close))
    (on_trace (quitting is_quit_or_close)).
Proof.
  eapply triple_post;
    [|intros ? w Hw; exact (inv_weaken _ _ _ (handling_invariant _ evt) _ _ Hw)].
  change (keeps L (handling is_quit_or_close evt) (quitting is_quit_or_close)
            (dispatch caps evt)).
  pose proof (VideoSample_dfb_shutdown_quiet _ _
                (handling_invariant is_quit_or_close evt)) as Hs.
  pose proof (fun flags step => VideoSample_adjust_color_quiet _ _ flags step
                (handling_invariant is_quit_or_close evt)) as Ha.
  pose proof (handling_plain is_quit_or_close evt) as Hplain.
  destruct (is_quit_or_close evt) eqn:Hquit.
  - apply (VideoSample_dispatch_keeps L false _ _ Hplain); [|auto|auto].
    intros n. pose proof (handling_may_exit _ evt Hquit). keeps_go.
  - pose proof (VideoSample_remove_window_keeps L false _ _ Hplain).
    pose proof (VideoSample_seek_keeps L false _ _ Hplain).
    pose proof (VideoSample_set_speed_keeps L false _ _ Hplain).
    pose proof (VideoSample_set_volume_keeps L false _ _ Hplain).
    pose proof (VideoSample_stop_start_keeps L false _ _ Hplain).
    unfold dispatch. unfold is_quit_or_close, is_quit_key in Hquit.
    destruct (evt_type evt); try discriminate; try rewrite Hquit; keeps_go.
Qed.

Lemma VideoSample_main_loop_quits fuel caps :
  triple (A:=Z) L (on_trace (quitting is_quit_or_close))
    (forever fuel (main_loop_body fuel caps))
    (fun _ _ => False) (on_trace (quitting is_quit_or_close)).
Proof.
  apply triple_forever_on; [auto|].
  pose proof (triple_fetch_loop L is_quit_or_close fuel event_buffer (dispatch caps)
                (VideoSample_dispatch_quits caps)) as Hloop.
  unfold main_loop_body. fold (process_event_buffer fuel caps) in Hloop.
  do 2 keep_then. destruct x0.
  - apply triple_ret. auto.
  - keep_then. apply triple_ret. auto.
Qed.

Lemma VideoSample_main_quits fuel argv argv' :
  triple L (on_trace (unpolled is_quit_or_close)) (main fuel argv argv')
    (fun n w => on_trace (quitting is_quit_or_close) (returned n w))
    (on_trace (quitting is_quit_or_close)).
Proof.
  eapply triple_post; [|intros n w Hw; exact (unpolled_may_exit _ n _ _ Hw)].
  change (keeps L (unpolled is_quit_or_close) (quitting is_quit_or_close)
            (main fuel argv argv')).
  pose proof (VideoSample_parse_command_line_keeps L _ _
                (unpolled_arguments is_quit_or_close) (unpolled_may_exit _)).
  pose proof (VideoSample_dump_stream_info_keeps L false _ _
                (unpolled_plain is_quit_or_close)).
  pose proof (VideoSample_create_frame_keeps L false _ _
                (unpolled_plain is_quit_or_close)).
  pose proof (VideoSample_create_stack_keeps L false _ _
                (unpolled_plain is_quit_or_close)).
  assert (Hloop : forall caps,
            keeps (A:=Z) L (unpolled is_quit_or_close) (quitting is_quit_or_close)
              (forever fuel (main_loop_body fuel caps))).
  { intros caps. eapply triple_conseq; [apply VideoSample_main_loop_quits| | |auto].
    - intros w [Hq _]. exact Hq.
    - intros ? ? []. }
  unfold main. keeps_go.
Qed.

(** Whenever df_video_sample ends with an exit code, it has not polled for
    input yet, or the event it got last is a quit key or closes a window. *)
Lemma VideoSample_quits fuel argv argv' :
  triple L (on_trace (unpolled is_quit_or_close)) (df_video_sample fuel argv argv')
    (fun _ => on_trace (quitting is_quit_or_close))
    (on_trace (quitting is_quit_or_close)).
Proof.
  unfold df_video_sample. eapply triple_process.
  - apply VideoSample_main_quits.
  - eapply triple_pre;
      [apply (VideoSample_dfb_shutdown_quiet (quitting is_quit_or_close)
                (quitting is_quit_or_close))|].
    + eapply invariant_weaken; [|apply quitting_invariant]. intros f _. exact Logic.I.
    + intros w [Hw _]. exact Hw.
  - auto.
Qed.

End VideoSampleQuits.

(** *** df_image_multi.c *)

Section ImageMultiQuits.
Context `{Headers} (L : libspec).
Import ImageMulti.

Lemma ImageMulti_dfb_shutdown_quiet I J :
  invariant not_poll I J -> keeps L I J dfb_shutdown.
Proof. intros Hinv. unfold dfb_shutdown, stack_destructor. keeps_go. Qed.

Lemma ImageMulti_dispatch_quits evt :
  triple L (on_trace (handling is_quit_or_close evt)) (dispatch evt)
    (fun _ => on_trace (quitting is_quit_or_close))
    (on_trace (quitting is_quit_or_close)).
Proof.
  eapply triple_post;
    [|intros ? w Hw; exact (inv_weaken _ _ _ (handling_invariant _ evt) _ _ Hw)].
  change (keeps L (handling is_quit_or_close evt) (quitting is_quit_or_close)
            (dispatch evt)).
  pose proof (handling_plain is_quit_or_close evt) as Hplain.
  destruct (is_quit_or_close evt) eqn:Hquit.
  - apply (ImageMulti_dispatch_keeps L false _ _ Hplain).
    exact (handling_may_exit _ evt Hquit).
  - pose proof (ImageMulti_remove_window_keeps L false _ _ Hplain).
    unfold dispatch. unfold is_quit_or_close, is_quit_key in Hquit.
    destruct (evt_type evt); try discriminate; try rewrite Hquit; keeps_go.
Qed.

Lemma ImageMulti_main_loop_quits fuel :
  triple (A:=Z) L (on_trace (quitting is_quit_or_close))
    (forever fuel (main_loop_body fuel))
    (fun _ _ => False) (on_trace (quitting is_quit_or_close)).
Proof.
  apply triple_forever_on; [auto|].
  pose proof (triple_fetch_loop L is_quit_or_close fuel event_buffer dispatch
                ImageMulti_dispatch_quits) as Hloop.
  unfold main_loop_body. fold (process_event_buffer fuel) in Hloop.
  do 3 keep_then. apply triple_ret. auto.
Qed.

Lemma ImageMulti_main_quits fuel argv argv' :
  triple L (on_trace (unpolled is_quit_or_close)) (main fuel argv argv')
    (fun n w => on_trace (quitting is_quit_or_close) (returned n w))
    (on_trace (quitting is_quit_or_close)).
Proof.
  eapply triple_post; [|intros n w Hw; exact (unpolled_may_exit _ n _ _ Hw)].
  change (keeps L (unpolled is_quit_or_close) (quitting is_quit_or_close)
            (main fuel argv argv')).
  pose proof (ImageMulti_parse_command_line_keeps L _ _
                (unpolled_arguments is_quit_or_close) (unpolled_may_exit _)).
  pose proof (ImageMulti_load_file_keeps L false _ _
                (unpolled_plain is_quit_or_close)).
  assert (Hloop : keeps (A:=Z) L (unpolled is_quit_or_close) (quitting is_quit_or_close)
                    (forever fuel (main_loop_body fuel))).
  { eapply triple_conseq; [apply ImageMulti_main_loop_quits| | |auto].
    - intros w [Hq _]. exact Hq.
    - intros ? ? []. }
  unfold main. keeps_go.
Qed.

(** Whenever df_image_multi ends with an exit code, it has not polled for
    input yet, or the event it got last is a quit key or closes a window. *)
Lemma ImageMulti_quits fuel argv argv' :
  triple L (on_trace (unpolled is_quit_or_close)) (df_image_multi fuel argv argv')
    (fun _ => on_trace (quitting is_quit_or_close))
    (on_trace (quitting is_quit_or_close)).
Proof.
  unfold df_image_multi. eapply triple_process.
  - apply ImageMulti_main_quits.
  - eapply triple_pre;
      [apply (ImageMulti_dfb_shutdown_quiet (quitting is_quit_or_close)
                (quitting is_quit_or_close))|].
    + eapply invariant_weaken; [|apply quitting_invariant]. intros f _. exact Logic.I.
    + intros w [Hw _]. exact Hw.
  - auto.
Qed.

End ImageMultiQuits.

(** *** df_video_multi.c *)

Section VideoMultiQuits.
Context `{Headers} (L : libspec).
Import VideoMulti.

Lemma VideoMulti_adjust_color_quiet I J id flags step :
  invariant not_poll I J -> keeps L I J (adjust_color id flags step).
Proof. intros Hinv. unfold adjust_color. keeps_go. Qed.

Lemma VideoMulti_dfb_shutdown_quiet I J :
  invariant not_poll I J -> keeps L I J dfb_shutdown.
Proof.
  intros Hinv.
  pose proof (VideoMulti_destroy_stack_keeps L false _ _
                (invariant_weaken _ _ _ _ plain_not_poll Hinv)).
  unfold dfb_shutdown. keeps_go.
Qed.

Lemma VideoMulti_dispatch_quits evt :
  triple L (on_trace (handling is_quit_or_close evt)) (dispatch evt)
    (fun _ => on_trace (quitting is_quit_or_close))
    (on_trace (quitting is_quit_or_close)).
Proof.
  eapply triple_post;
    [|intros ? w Hw; exact (inv_weaken _ _ _ (handling_invariant _ evt) _ _ Hw)].
  change (keeps L (handling is_quit_or_close evt) (quitting is_quit_or_close)
            (dispatch evt)).
  pose proof (handling_plain is_quit_or_close evt) as Hplain.
  pose proof (fun id flags step => VideoMulti_adjust_color_quiet _ _ id flags step
                (handling_invariant is_quit_or_close evt)) as Ha.
  destruct (is_quit_or_close evt) eqn:Hquit.
  - apply (VideoMulti_dispatch_keeps L false _ _ Hplain); [|auto|auto].
    exact (handling_may_exit _ evt Hquit).
  - pose proof (VideoMulti_remove_window_keeps L false _ _ Hplain).
    pose proof (VideoMulti_pause_resume_keeps L false _ _ Hplain).
    pose proof (VideoMulti_stop_start_keeps L false _ _ Hplain).
    pose proof (VideoMulti_seek_keeps L false _ _ Hplain).
    pose proof (VideoMulti_send_input_event_keeps L false _ _ Hplain).
    pose proof (VideoMulti_set_speed_keeps L false _ _ Hplain).
    pose proof (VideoMulti_set_volume_keeps L false _ _ Hplain).
    unfold dispatch. unfold is_quit_or_close, is_quit_key in Hquit.
    destruct (evt_type evt); try discriminate; try rewrite Hquit; keeps_go.
Qed.

Lemma VideoMulti_main_loop_quits fuel :
  triple (A:=Z) L (on_trace (quitting is_quit_or_close))
    (forever fuel (main_loop_body fuel))
    (fun _ _ => False) (on_trace (quitting is_quit_or_close)).
Proof.
  apply triple_forever_on; [auto|].
  pose proof (triple_fetch_loop L is_quit_or_close fuel event_buffer dispatch
                VideoMulti_dispatch_quits) as Hloop.
  pose proof (VideoMulti_logo_progress_keeps L true _ _
                (quitting_plain is_quit_or_close true)).
  unfold main_loop_body. fold (process_event_buffer fuel) in Hloop.
  do 2 keep_then. destruct x0.
  - apply triple_ret. auto.
  - keep_then. apply triple_ret. auto.
Qed.

Lemma VideoMulti_main_quits fuel argv argv' :
  triple L (on_trace (unpolled is_quit_or_close)) (main fuel argv argv')
    (fun n w => on_trace (quitting is_quit_or_close) (returned n w))
    (on_trace (quitting is_quit_or_close)).
Proof.
  eapply triple_post; [|intros n w Hw; exact (unpolled_may_exit _ n _ _ Hw)].
  change (keeps L (unpolled is_quit_or_close) (quitting is_quit_or_close)
            (main fuel argv argv')).
  pose proof (VideoMulti_parse_command_line_keeps L _ _
                (unpolled_arguments is_quit_or_close) (unpolled_may_exit _)).
  pose proof (VideoMulti_load_file_keeps L false _ _
                (unpolled_plain is_quit_or_close)).
  assert (Hloop : keeps (A:=Z) L (unpolled is_quit_or_close) (quitting is_quit_or_close)
                    (forever fuel (main_loop_body fuel))).
  { eapply triple_conseq; [apply VideoMulti_main_loop_quits| | |auto].
    - intros w [Hq _]. exact Hq.
    - intros ? ? []. }
  unfold main. keeps_go.
Qed.

(** Whenever df_video_multi ends with an exit code, it has not polled for
    input yet, or the event it got last is a quit key or closes a window. *)
Lemma VideoMulti_quits fuel argv argv' :
  triple L (on_trace (unpolled is_quit_or_close)) (df_video_multi fuel argv argv')
    (fun _ => on_trace (quitting is_quit_or_close))
    (on_trace (quitting is_quit_or_close)).
Proof.
  unfold df_video_multi. eapply triple_process.
  - apply VideoMulti_main_quits.
  - eapply triple_pre;
      [apply (VideoMulti_dfb_shutdown_quiet (quitting is_quit_or_close)
                (quitting is_quit_or_close))|].
    + eapply invariant_weaken; [|apply quitting_invariant]. intros f _. exact Logic.I.
    + intros w [Hw _]. exact Hw.
  - auto.
Qed.

End VideoMultiQuits.

(** *** df_font_sample.c *)

Section FontSampleQuits.
Context `{Headers} (L : libspec).
Import FontSample.

Lemma FontSample_dfb_shutdown_quiet I J :
  invariant not_poll I J -> keeps L I J dfb_shutdown.
Proof. intros Hinv. unfold dfb_shutdown. keeps_go. Qed.

Lemma FontSample_dispatch_quits evt :
  triple L (on_trace (handling is_quit_key evt)) (dispatch evt)
    (fun _ => on_trace (quitting is_quit_key)) (on_trace (quitting is_quit_key)).
Proof.
  eapply triple_post;
    [|intros ? w Hw; exact (inv_weaken _ _ _ (handling_invariant _ evt) _ _ Hw)].
  change (keeps L (handling is_quit_key evt) (quitting is_quit_key) (dispatch evt)).
  destruct (is_quit_key evt) eqn:Hquit.
  - apply FontSample_dispatch_keeps. exact (handling_may_exit _ evt Hquit).
  - unfold dispatch. unfold is_quit_key in Hquit.
    destruct (evt_type evt); try discriminate; try (unfold key_down; rewrite Hquit);
      keeps_go.
Qed.

Lemma FontSample_main_loop_quits fuel fuel' :
  triple (A:=Z) L (on_trace (quitting is_quit_key))
    (forever fuel (main_loop_body fuel'))
    (fun _ _ => False) (on_trace (quitting is_quit_key)).
Proof.
  apply triple_forever_on; [auto|].
  pose proof (triple_fetch_loop L is_quit_key fuel' event_buffer dispatch
                FontSample_dispatch_quits) as Hloop.
  pose proof (FontSample_render_help_page_keeps L true _ _
                (quitting_plain is_quit_key true)).
  pose proof (FontSample_render_font_page_keeps L true _ _
                (quitting_plain is_quit_key true)).
  unfold main_loop_body. fold (process_event_buffer fuel') in Hloop.
  do 4 keep_then. apply triple_ret. auto.
Qed.

Lemma FontSample_main_quits fuel argv argv' :
  triple L (on_trace (unpolled is_quit_key)) (main fuel argv argv')
    (fun n w => on_trace (quitting is_quit_key) (returned n w))
    (on_trace (quitting is_quit_key)).
Proof.
  eapply triple_post; [|intros n w Hw; exact (unpolled_may_exit _ n _ _ Hw)].
  change (keeps L (unpolled is_quit_key) (quitting is_quit_key) (main fuel argv argv')).
  pose proof (FontSample_parse_command_line_keeps L _ _
                (unpolled_arguments is_quit_key) (unpolled_may_exit _)).
  assert (Hloop : keeps (A:=Z) L (unpolled is_quit_key) (quitting is_quit_key)
                    (forever fuel (main_loop_body fuel))).
  { eapply triple_conseq; [apply FontSample_main_loop_quits| | |auto].
    - intros w [Hq _]. exact Hq.
    - intros ? ? []. }
  unfold main. keeps_go.
Qed.

(** Whenever df_font_sample ends with an exit code, it has not polled for
    input yet, or the event it got last is a quit key. *)
Lemma FontSample_quits fuel argv argv' :
  triple L (on_trace (unpolled is_quit_key)) (df_font_sample fuel argv argv')
    (fun _ => on_trace (quitting is_quit_key)) (on_trace (quitting is_quit_key)).
Proof.
  unfold df_font_sample. eapply triple_process.
  - apply FontSample_main_quits.
  - eapply triple_pre;
      [apply (FontSample_dfb_shutdown_quiet (quitting is_quit_key)
                (quitting is_quit_key))|].
    + eapply invariant_weaken; [|apply quitting_invariant]. intros f _. exact Logic.I.
    + intros w [Hw _]. exact Hw.
  - auto.
Qed.

End FontSampleQuits.

(** *** Closing the last window *)

Lemma meth_cases {G} f self args o (w : world G) :
  meth f self args o w = Exit Segv (World (glob w) (Halt Segv :: log w) (hooked w)) \/
  exists a, meth f self args o w
            = Ret a (World (glob w) (Lib f self args a :: log w) (hooked w)).
Proof. destruct self; simpl; eauto. Qed.

Section LastWindow.
Context `{Headers}.

(** Running a method call in [Hexit]: a crash is not an exit code. *)
Ltac run_meth Hexit :=
  match type of Hexit with
  | context [meth ?f ?self ?args ?o ?w] =>
      let a := fresh "a" in
      let E := fresh "E" in
      destruct (meth_cases f self args o w) as [E|[a E]];
      rewrite E in Hexit; clear E; cbn [glob log hooked] in Hexit;
      [discriminate Hexit|]
  end.

Lemma ImageSample_close_last evt o w n w' :
  evt_type evt = DWET_CLOSE ->
  ImageSample.dispatch evt o w = Exit (Code n) w' ->
  ImageSample.n_windows (glob w) <= 1 /\
  direct_hash_lookup (ImageSample.stack (glob w)) (window_id evt) <> None.
Proof.
  intros Hclose Hexit. destruct w as [g l h]. cbn [glob].
  unfold ImageSample.dispatch in Hexit. rewrite Hclose in Hexit.
  unfold ImageSample.remove_window, mbind, prog_bind, bind, mret, prog_ret, ret, get,
    modify in Hexit.
  cbn [glob log hooked] in Hexit.
  destruct (direct_hash_lookup (ImageSample.stack g) (window_id evt)) as [entry|] eqn:Hl;
    [|discriminate Hexit].
  do 2 run_meth Hexit.
  destruct (negb _) in Hexit; [|discriminate Hexit].
  cbn [glob log hooked ImageSample.n_windows ImageSample.set_n_windows
       ImageSample.set_stack] in Hexit.
  destruct (ImageSample.n_windows g - 1 <=? 0) eqn:Hn; [|discriminate Hexit].
  split; [lia|discriminate].
Qed.

Lemma VideoSample_close_last caps evt o w n w' :
  evt_type evt = DWET_CLOSE ->
  VideoSample.dispatch caps evt o w = Exit (Code n) w' ->
  VideoSample.n_windows (glob w) <= 1 /\
  direct_hash_lookup (VideoSample.stack (glob w)) (window_id evt) <> None.
Proof.
  intros Hclose Hexit. destruct w as [g l h]. cbn [glob].
  unfold VideoSample.dispatch in Hexit. rewrite Hclose in Hexit.
  unfold VideoSample.remove_window, mbind, prog_bind, bind, mret, prog_ret, ret, get,
    modify in Hexit.
  cbn [glob log hooked] in Hexit.
  destruct (direct_hash_lookup (VideoSample.stack g) (window_id evt)) as [entry|] eqn:Hl;
    [|discriminate Hexit].
  do 2 run_meth Hexit.
  destruct (negb _) in Hexit; [|discriminate Hexit].
  cbn [glob log hooked VideoSample.n_windows VideoSample.set_n_windows
       VideoSample.set_stack] in Hexit.
  destruct (VideoSample.n_windows g - 1 <=? 0) eqn:Hn; [|discriminate Hexit].
  split; [lia|discriminate].
Qed.

Lemma ImageMulti_close_last evt o w n w' :
  evt_type evt = DWET_CLOSE ->
  ImageMulti.dispatch evt o w = Exit (Code n) w' ->
  ImageMulti.mrl_count (glob w) <= 1 /\
  direct_hash_lookup (ImageMulti.stack (glob w)) (window_id evt) <> None.
Proof.
  intros Hclose Hexit. destruct w as [g l h]. cbn [glob].
  unfold ImageMulti.dispatch in Hexit. rewrite Hclose in Hexit.
  unfold ImageMulti.remove_window, mbind, prog_bind, bind, mret, prog_ret, ret, get,
    modify in Hexit.
  cbn [glob log hooked] in Hexit.
  destruct (direct_hash_lookup (ImageMulti.stack g) (window_id evt)) as [entry|] eqn:Hl;
    [|discriminate Hexit].
  run_meth Hexit.
  cbn [glob log hooked ImageMulti.mrl_count ImageMulti.set_mrl_count
       ImageMulti.set_stack] in Hexit.
  destruct (ImageMulti.mrl_count g - 1 <=? 0) eqn:Hn; [|discriminate Hexit].
  split; [lia|discriminate].
Qed.

Lemma VideoMulti_close_last evt o w n w' :
  evt_type evt = DWET_CLOSE ->
  VideoMulti.dispatch evt o w = Exit (Code n) w' ->
  VideoMulti.mrl_count (glob w) <= 1 /\
  direct_hash_lookup (VideoMulti.stack (glob w)) (window_id evt) <> None.
Proof.
  intros Hclose Hexit. destruct w as [g l h]. cbn [glob].
  unfold VideoMulti.dispatch in Hexit. rewrite Hclose in Hexit.
  unfold VideoMulti.remove_window, mbind, prog_bind, bind, mret, prog_ret, ret, get,
    modify in Hexit.
  cbn [glob log hooked] in Hexit.
  destruct (direct_hash_lookup (VideoMulti.stack g) (window_id evt)) as [entry|] eqn:Hl;
    [|discriminate Hexit].
  do 3 run_meth Hexit.
  cbn [glob log hooked VideoMulti.mrl_count VideoMulti.set_mrl_count
       VideoMulti.set_stack] in Hexit.
  destruct (VideoMulti.mrl_count g - 1 <=? 0) eqn:Hn; [|discriminate Hexit].
  split; [lia|discriminate].
Qed.

End LastWindow.

Section LeavingTheLoop.
Context `{Headers}.

(** C4, as the programs have it: wherever a run of one of the five window
    samples ends with an exit code, the program has not polled for input yet
    (it has shown its usage), or the event it fetched last is a quit key, or,
    in the four samples that keep a registry of windows, a close event; and
    where the handling of a close event ends the program, the window is
    registered and the counter of the remaining windows is at most one.  A
    call that fails fatally and a crash end a run as well. *)
Theorem loops_end_on_quit (o : oracle) (fuel : nat) (argv argv' : list string)
    (caps n : Z) (evt : DFBWindowEvent)
    (wi wi' : world ImageSample.globals) (wv wv' : world VideoSample.globals)
    (wm wm' : world ImageMulti.globals) (wn wn' : world VideoMulti.globals) :
  evt_type evt = DWET_CLOSE ->
  quit_ends is_quit_or_close
    (log (final (df_image_sample fuel argv argv' o (start ImageSample.init)))) = true /\
  quit_ends is_quit_or_close
    (log (final (df_video_sample fuel argv argv' o (start VideoSample.init)))) = true /\
  quit_ends is_quit_or_close
    (log (final (df_image_multi fuel argv argv' o (start ImageMulti.init)))) = true /\
  quit_ends is_quit_or_close
    (log (final (df_video_multi fuel argv argv' o (start VideoMulti.init)))) = true /\
  quit_ends is_quit_key
    (log (final (df_font_sample fuel argv argv' o (start FontSample.init)))) = true /\
  (ImageSample.dispatch evt o wi = Exit (Code n) wi' ->
   ImageSample.n_windows (glob wi) <= 1 /\
   direct_hash_lookup (ImageSample.stack (glob wi)) (window_id evt) <> None) /\
  (VideoSample.dispatch caps evt o wv = Exit (Code n) wv' ->
   VideoSample.n_windows (glob wv) <= 1 /\
   direct_hash_lookup (VideoSample.stack (glob wv)) (window_id evt) <> None) /\
  (ImageMulti.dispatch evt o wm = Exit (Code n) wm' ->
   ImageMulti.mrl_count (glob wm) <= 1 /\
   direct_hash_lookup (ImageMulti.stack (glob wm)) (window_id evt) <> None) /\
  (VideoMulti.dispatch evt o wn = Exit (Code n) wn' ->
   VideoMulti.mrl_count (glob wn) <= 1 /\
   direct_hash_lookup (VideoMulti.stack (glob wn)) (window_id evt) <> None).
Proof.
  intros Hclose.
  assert (Hrun : forall G A quit (m : prog G A) (g : G),
    triple any_library (on_trace (unpolled quit)) m
      (fun _ => on_trace (quitting quit)) (on_trace (quitting quit)) ->
    quit_ends quit (log (final (m o (start g)))) = true).
  { intros G A quit m g Hm.
    refine (run_triple _ m _ o (start g) Hm _). split; reflexivity. }
  split; [apply Hrun, ImageSample_quits|].
  split; [apply Hrun, VideoSample_quits|].
  split; [apply Hrun, ImageMulti_quits|].
  split; [apply Hrun, VideoMulti_quits|].
  split; [apply Hrun, FontSample_quits|].
  split; [apply ImageSample_close_last, Hclose|].
  split; [apply VideoSample_close_last, Hclose|].
  split; [apply ImageMulti_close_last, Hclose|].
  apply VideoMulti_close_last, Hclose.
Qed.

End LeavingTheLoop.

Lemma loops_end_on_quit_witness :
  evt_type (close_of 1) = DWET_CLOSE /\
  @ImageMulti.dispatch directfb_headers (close_of 1) all_ok last_window
    = Exit (Code 42)
        (final (@ImageMulti.dispatch directfb_headers (close_of 1) all_ok last_window)) /\
  ImageMulti.mrl_count (glob last_window) <= 1 /\
  quit_ends (@is_quit_key directfb_headers)
    (log (final (@df_font_sample directfb_headers 5
                   ["df_font_sample"; "decker.ttf"] ["df_font_sample"; "decker.ttf"]
                   all_ok (start FontSample.init)))) = true.
Proof.
  assert (Hclose : evt_type (close_of 1) = DWET_CLOSE) by reflexivity.
  assert (Hexit : @ImageMulti.dispatch directfb_headers (close_of 1) all_ok last_window
    = Exit (Code 42)
        (final (@ImageMulti.dispatch directfb_headers (close_of 1) all_ok last_window)))
    by (vm_compute; reflexivity).
  pose proof (@loops_end_on_quit directfb_headers all_ok 5
                ["df_font_sample"; "decker.ttf"] ["df_font_sample"; "decker.ttf"]
                0 42 (close_of 1)
                (start ImageSample.init) (start ImageSample.init)
                (start VideoSample.init) (start VideoSample.init)
                last_window
                (final (@ImageMulti.dispatch directfb_headers (close_of 1) all_ok
                          last_window))
                (start VideoMulti.init) (start VideoMulti.init) Hclose)
    as (_ & _ & _ & _ & Hfont & _ & _ & Hlast & _).
  exact (conj Hclose (conj Hexit (conj (proj1 (Hlast Hexit)) Hfont))).
Defined.

(** Against C4 as stated: fs_music_sample, started without a terminal on one
    file with one track, plays the track and ends with the exit code 0 when
    the playlist is over; it has polled for no input. *)
Lemma music_player_ends_with_its_playlist :
  match @fs_music_sample directfb_headers 20 ["fs_music_sample"; "a.ogg"]
          ["fs_music_sample"; "a.ogg"] (@one_track directfb_headers)
          (start MusicSample.init) with
  | Exit (Code 0) w => called is_play (log w) && negb (called is_poll (log w))
  | _ => false
  end = true.
Proof. vm_compute. reflexivity. Qed.

(** ** The handles of a run *)

Lemma live_bound l h k :
  (h, k) ∈ live (ledger_of l) -> (0 < h <= length l)%nat.
Proof.
  revert h k. induction l as [|e l IH]; intros h k; cbn [ledger_of].
  - cbn. intros Hin. inversion Hin.
  - unfold ledger_step. cbn [length].
    assert (IH' : (h, k) ∈ live (ledger_of l) -> (0 < h <= S (length l))%nat).
    { intros Hin. specialize (IH _ _ Hin). lia. }
    destruct e as [f self args a| | | | | |]; try exact IH'.
    destruct (creates f) as [k'|].
    + destruct (is_ok (a_ret a)); [|exact IH']. cbn [live].
      rewrite elem_of_cons. intros [Heq|Hin]; [|auto]. inversion Heq. lia.
    + destruct (releases f) as [k'|]; [|exact IH'].
      destruct (holds_handle self k' (live (ledger_of l))); cbn [live]; [|exact IH'].
      unfold without. rewrite list_elem_of_filter. intros [_ Hin]. auto.
Qed.

Lemma live_nodup l : NoDup (live (ledger_of l)).*1.
Proof.
  induction l as [|e l IH]; cbn [ledger_of].
  - cbn. constructor.
  - unfold ledger_step.
    destruct e as [f self args a| | | | | |]; try exact IH.
    destruct (creates f) as [k'|].
    + destruct (is_ok (a_ret a)); [|exact IH]. cbn [live fmap list_fmap fst].
      constructor; [|exact IH].
      rewrite list_elem_of_fmap. intros [[h k] [Hh Hin]]. cbn in Hh. subst h.
      apply live_bound in Hin. cbn [length] in Hin. lia.
    + destruct (releases f) as [k'|]; [|exact IH].
      destruct (holds_handle self k' (live (ledger_of l))); cbn [live]; [|exact IH].
      unfold without. clear -IH. induction (live (ledger_of l)) as [|x xs IHx].
      * constructor.
      * rewrite filter_cons. cbn in IH. apply NoDup_cons in IH as [Hx Hxs].
        destruct (decide (x.1 <> self)); [|auto].
        cbn. constructor; [|auto].
        rewrite list_elem_of_fmap. intros [y [Hy Hin]].
        apply list_elem_of_filter in Hin as [_ Hin].
        apply Hx. rewrite list_elem_of_fmap. eauto.
Qed.

Lemma exactly_nil : owns_exactly [] [].
Proof. split; reflexivity. Qed.

Lemma exactly_perm hs hs' l : hs ≡ₚ hs' -> owns_exactly hs l -> owns_exactly hs' l.
Proof. intros Hp [Hc Hl]. split; [exact Hc|]. rewrite Hl. exact Hp. Qed.

Lemma exactly_nodup hs l : owns_exactly hs l -> NoDup hs.*1.
Proof. intros [_ Hl]. rewrite <- Hl. apply live_nodup. Qed.

Lemma exactly_bound hs l h k :
  owns_exactly hs l -> (h, k) ∈ hs -> (0 < h <= length l)%nat.
Proof. intros [_ Hl] Hin. rewrite <- Hl in Hin. eapply live_bound, Hin. Qed.

Lemma exactly_create hs l f self args a k :
  creates f = Some k -> is_ok (a_ret a) = true -> owns_exactly hs l ->
  owns_exactly ((S (length l), k) :: hs) (Lib f self args a :: l).
Proof.
  intros Hf Hok [Hc Hl]. unfold owns_exactly. cbn [ledger_of ledger_step length].
  rewrite Hf, Hok. cbn [live clean]. split; [exact Hc|]. rewrite Hl. reflexivity.
Qed.

Lemma exactly_failed hs l f self args a k :
  creates f = Some k -> is_ok (a_ret a) = false -> owns_exactly hs l ->
  owns_exactly hs (Lib f self args a :: l).
Proof.
  intros Hf Hok Ho. unfold owns_exactly. cbn [ledger_of ledger_step].
  rewrite Hf, Hok. exact Ho.
Qed.

Lemma without_fresh h (hs : list (nat * kind)) : h ∉ hs.*1 -> without h hs = hs.
Proof.
  unfold without. induction hs as [|x xs IH]; intros Hh; [reflexivity|].
  rewrite filter_cons. cbn in Hh. rewrite not_elem_of_cons in Hh. destruct Hh as [Hx Hxs].
  destruct (decide (x.1 <> h)) as [_|Hn]; [|destruct Hn; congruence].
  rewrite IH by exact Hxs. reflexivity.
Qed.

Lemma without_perm h (hs hs' : list (nat * kind)) :
  hs ≡ₚ hs' -> without h hs ≡ₚ without h hs'.
Proof. intros Hp. unfold without. rewrite Hp. reflexivity. Qed.

Lemma exactly_release hs l f h args a k :
  creates f = None -> releases f = Some k -> owns_exactly ((h, k) :: hs) l ->
  owns_exactly hs (Lib f h args a :: l).
Proof.
  intros Hc Hr Ho. pose proof (exactly_nodup _ _ Ho) as Hnd. destruct Ho as [Hcl Hl].
  unfold owns_exactly. cbn [ledger_of ledger_step]. rewrite Hc, Hr.
  assert (Hin : holds_handle h k (live (ledger_of l)) = true).
  { unfold holds_handle. apply bool_decide_eq_true. rewrite Hl. left. }
  rewrite Hin. cbn [live clean]. split; [exact Hcl|].
  rewrite (without_perm h _ _ Hl). unfold without at 1. rewrite filter_cons.
  cbn in Hnd. apply NoDup_cons in Hnd as [Hh _].
  destruct (decide ((h, k).1 <> h)) as [Hn|_]; [destruct Hn; reflexivity|].
  fold (without h hs). rewrite without_fresh by exact Hh. reflexivity.
Qed.

Lemma exactly_neutral hs l f self args a :
  neutral f -> owns_exactly hs l -> owns_exactly hs (Lib f self args a :: l).
Proof.
  intros [Hc Hr] Ho. unfold owns_exactly. cbn [ledger_of ledger_step].
  rewrite Hc, Hr. exact Ho.
Qed.

Lemma exactly_silent hs l e : silent e -> owns_exactly hs l -> owns_exactly hs (e :: l).
Proof.
  intros He Ho. unfold owns_exactly. cbn [ledger_of ledger_step].
  destruct e; try exact Ho. destruct He.
Qed.

Lemma owns_nil : owns [] [].
Proof. exists []. split; [reflexivity|apply exactly_nil]. Qed.

Lemma owns_perm hs hs' l : hs ≡ₚ hs' -> owns hs l -> owns hs' l.
Proof.
  intros Hp (junk & Hj & Ho). exists junk. split; [exact Hj|].
  eapply exactly_perm; [|exact Ho]. rewrite Hp. reflexivity.
Qed.

Lemma owns_nodup hs l : owns hs l -> NoDup hs.*1.
Proof.
  intros (junk & _ & Ho). apply exactly_nodup in Ho.
  rewrite fmap_app in Ho. apply NoDup_app in Ho. apply Ho.
Qed.

Lemma owns_bound hs l h k : owns hs l -> (h, k) ∈ hs -> (0 < h <= length l)%nat.
Proof.
  intros (junk & _ & Ho) Hin. eapply exactly_bound; [exact Ho|].
  apply elem_of_app. right. exact Hin.
Qed.

Lemma owns_nonzero hs l h k : owns hs l -> (h, k) ∈ hs -> h <> 0%nat.
Proof. intros Ho Hin. pose proof (owns_bound _ _ _ _ Ho Hin). lia. Qed.

Lemma owns_create hs l f self args a k :
  creates f = Some k -> is_ok (a_ret a) = true -> owns hs l ->
  owns ((S (length l), k) :: hs) (Lib f self args a :: l).
Proof.
  intros Hf Hok (junk & Hj & Ho). exists junk. split; [exact Hj|].
  eapply exactly_perm; [|eapply exactly_create; eauto].
  apply Permutation_middle.
Qed.

(** A data buffer or a thread that the program will not give back. *)
Lemma owns_leave hs l f self args a k :
  creates f = Some k -> exempt k = true -> owns hs l ->
  owns hs (Lib f self args a :: l).
Proof.
  intros Hf Hk (junk & Hj & Ho). destruct (is_ok (a_ret a)) eqn:Hok.
  - exists ((S (length l), k) :: junk). split.
    + cbn. rewrite Hk, Hj. reflexivity.
    + eapply exactly_create; eauto.
  - exists junk. split; [exact Hj|]. eapply exactly_failed; eauto.
Qed.

Lemma owns_failed hs l f self args a k :
  creates f = Some k -> is_ok (a_ret a) = false -> owns hs l ->
  owns hs (Lib f self args a :: l).
Proof.
  intros Hf Hok (junk & Hj & Ho). exists junk. split; [exact Hj|].
  eapply exactly_failed; eauto.
Qed.

Lemma owns_release hs l f h args a k :
  creates f = None -> releases f = Some k -> owns ((h, k) :: hs) l ->
  owns hs (Lib f h args a :: l).
Proof.
  intros Hc Hr (junk & Hj & Ho). exists junk. split; [exact Hj|].
  eapply exactly_release; [exact Hc|exact Hr|].
  eapply exactly_perm; [|exact Ho]. symmetry. apply Permutation_middle.
Qed.

Lemma owns_neutral hs l f self args a :
  neutral f -> owns hs l -> owns hs (Lib f self args a :: l).
Proof.
  intros Hf (junk & Hj & Ho). exists junk. split; [exact Hj|].
  apply exactly_neutral; assumption.
Qed.

Lemma owns_silent hs l e : silent e -> owns hs l -> owns hs (e :: l).
Proof.
  intros He (junk & Hj & Ho). exists junk. split; [exact Hj|].
  apply exactly_silent; assumption.
Qed.

Lemma owns_settled hs l :
  owns hs l -> forallb (fun x => exempt (snd x)) hs = true -> settled l = true.
Proof.
  intros (junk & Hj & [Hc Hl]) He. unfold settled. rewrite Hc. cbn.
  rewrite forallb_forall in *. intros x Hx.
  apply list_elem_of_In in Hx. rewrite Hl in Hx. apply elem_of_app in Hx as [Hx|Hx].
  - apply Hj, list_elem_of_In, Hx.
  - apply He, list_elem_of_In, Hx.
Qed.

Lemma coded_lib f self args a l : coded (Lib f self args a :: l) = coded l.
Proof. reflexivity. Qed.

Lemma coded_output e l : output e -> coded (e :: l) = coded l.
Proof. destruct e; simpl; intros He; try reflexivity; destruct He. Qed.

Lemma coded_crash c l : abnormal c -> coded (Halt c :: l) = coded l.
Proof. destruct c; simpl; intros Hc; try reflexivity. destruct Hc. Qed.

Lemma ids_of_mono e l : ids_of l ⊆ ids_of (e :: l).
Proof.
  rewrite ids_of_cons. destruct (window_id_of e); [|reflexivity].
  intros x Hx. right. exact Hx.
Qed.

Lemma owning_invariant hk hs ids : invariant neutral (owning hk hs ids) unended.
Proof.
  split.
  - intros l h (_ & Hc & _). exact Hc.
  - intros f self args a l h Hf (Ho & Hc & Hi & Hh). split; [|split; [|split]].
    + apply owns_neutral; assumption.
    + exact Hc.
    + etransitivity; [exact Hi|apply ids_of_mono].
    + exact Hh.
  - intros e l h He (Ho & Hc & Hi & Hh). split; [|split; [|split]].
    + apply owns_silent; [apply output_silent, He|exact Ho].
    + rewrite coded_output by exact He. exact Hc.
    + etransitivity; [exact Hi|apply ids_of_mono].
    + exact Hh.
  - intros c l h Hc (_ & Hu & _). unfold unended. rewrite coded_crash by exact Hc. exact Hu.
Qed.

Lemma unended_invariant : invariant any_call unended unended.
Proof.
  split.
  - auto.
  - intros f self args a l h _ Hc. exact Hc.
  - intros e l h He Hc. unfold unended. rewrite coded_output by exact He. exact Hc.
  - intros c l h Hc Hu. unfold unended. rewrite coded_crash by exact Hc. exact Hu.
Qed.

Lemma owning_hooked hs ids l h : owning true hs ids l h -> owning true hs ids l true.
Proof. intros (Ho & Hc & Hi & _). repeat split; assumption. Qed.

Lemma unended_hooked l h : unended l h -> unended l true.
Proof. intros Ho. exact Ho. Qed.

#[local] Hint Resolve owning_invariant unended_invariant owning_hooked unended_hooked : trace.
#[local] Hint Extern 1 (neutral _) => split; reflexivity : trace.

(** *** Rules for the calls that hand out and give back handles *)

Section Ownership.
Context {G : Type} (L : libspec) (hk : bool).

Lemma owning_lib hs hs' ids f self args a l h :
  (owns hs l -> owns hs' (Lib f self args a :: l)) ->
  owning hk hs ids l h -> owning hk hs' ids (Lib f self args a :: l) h.
Proof.
  intros Hstep (Ho & Hc & Hi & Hh). split; [|split; [|split]].
  - apply Hstep, Ho.
  - exact Hc.
  - etransitivity; [exact Hi|apply ids_of_mono].
  - exact Hh.
Qed.

Lemma unended_crash hs ids l h c :
  abnormal c -> owning hk hs ids l h -> unended (Halt c :: l) h.
Proof. intros Hc Ho. eapply (inv_crash _ _ _ (owning_invariant hk hs ids)); eauto. Qed.

(** A creating method: on success the new handle is owned as well. *)
Lemma triple_meth_new_own f k self args old hs ids (P : G -> Prop) :
  creates f = Some k ->
  triple L (at_ (owning hk hs ids) P) (meth_new f self args old)
    (fun r w => if is_ok (a_ret (fst r))
                then at_ (owning hk ((snd r, k) :: hs) ids) P w /\ snd r <> 0%nat
                else at_ (owning hk hs ids) P w /\ snd r = old)
    (on_trace unended).
Proof.
  intros Hf w [Hw HP] o Ho.
  unfold meth_new, mbind, prog_bind, bind, mret, prog_ret, ret, fresh, meth.
  destruct self as [|self'].
  - cbn. eapply unended_crash; [exact Logic.I|exact Hw].
  - cbn [post fst snd glob log hooked]. unfold created.
    destruct (is_ok (a_ret (o (log w) f (S self') args))) eqn:Hok.
    + split; [|cbn; discriminate]. split; [|exact HP].
      unfold on_trace. cbn [log hooked length].
      eapply owning_lib; [|exact Hw]. apply owns_create; assumption.
    + split; [|reflexivity]. split; [|exact HP].
      unfold on_trace. cbn [log hooked].
      eapply owning_lib; [|exact Hw]. eapply owns_failed; eassumption.
Qed.

Lemma triple_lib_new_own f k args old hs ids (P : G -> Prop) :
  creates f = Some k ->
  triple L (at_ (owning hk hs ids) P) (lib_new f args old)
    (fun r w => if is_ok (a_ret (fst r))
                then at_ (owning hk ((snd r, k) :: hs) ids) P w /\ snd r <> 0%nat
                else at_ (owning hk hs ids) P w /\ snd r = old)
    (on_trace unended).
Proof.
  intros Hf w [Hw HP] o Ho.
  unfold lib_new, mbind, prog_bind, bind, mret, prog_ret, ret, fresh, lib.
  cbn [post fst snd glob log hooked]. unfold created.
  destruct (is_ok (a_ret (o (log w) f 0%nat args))) eqn:Hok.
  - split; [|cbn; discriminate]. split; [|exact HP].
    unfold on_trace. cbn [log hooked length].
    eapply owning_lib; [|exact Hw]. apply owns_create; assumption.
  - split; [|reflexivity]. split; [|exact HP].
    unfold on_trace. cbn [log hooked].
    eapply owning_lib; [|exact Hw]. eapply owns_failed; eassumption.
Qed.

Lemma own_if_nonzero h k : h <> 0%nat -> own_if h k = [(h, k)].
Proof. intros Hh. unfold own_if. destruct (Nat.eqb_spec h 0); [contradiction|reflexivity]. Qed.

(** A creating method whose result the program tests itself. *)
Lemma triple_meth_new_if f k self args hs ids (P : G -> Prop) :
  creates f = Some k ->
  triple L (at_ (owning hk hs ids) P) (meth_new f self args 0)
    (fun r w => at_ (owning hk (own_if (snd r) k ++ hs) ids) P w /\
                (is_ok (a_ret (fst r)) = false -> snd r = 0%nat))
    (on_trace unended).
Proof.
  intros Hf. eapply triple_post; [apply triple_meth_new_own, Hf|].
  intros [a h] w. cbn [fst snd]. destruct (is_ok (a_ret a)).
  - intros [Hw Hh]. rewrite own_if_nonzero by exact Hh. split; [exact Hw|discriminate].
  - intros [Hw ->]. split; [exact Hw|reflexivity].
Qed.

(** The macro around a creating call: the program goes on only with the new
    handle. *)
Lemma triple_checked_new line x (call : prog G (answer * nat)) k old hs ids
    (P : G -> Prop) :
  triple L (at_ (owning hk hs ids) P) call
    (fun r w => if is_ok (a_ret (fst r))
                then at_ (owning hk ((snd r, k) :: hs) ids) P w /\ snd r <> 0%nat
                else at_ (owning hk hs ids) P w /\ snd r = old)
    (on_trace unended) ->
  triple L (at_ (owning hk hs ids) P) (DFBCHECK line x ret_of call)
    (fun r w => at_ (owning hk ((snd r, k) :: hs) ids) P w /\ snd r <> 0%nat)
    (on_trace unended).
Proof.
  intros Hcall. unfold DFBCHECK.
  eapply triple_bind; [exact Hcall|]. intros [a h]. unfold ret_of. cbn [fst snd].
  destruct (is_ok (a_ret a)).
  - apply triple_ret. auto.
  - eapply triple_pre with (P := at_ (owning hk hs ids) P); [|intros w [Hw _]; exact Hw].
    apply triple_forget.
    change (keeps (G:=G) L (owning hk hs ids) unended
              (emit (Site line);; emit (ErrorFatal x (a_ret a));;
               exit (A:=answer * nat) (Failed (a_ret a)))).
    keeps_go.
Qed.

(** A creating call whose handle the program leaves behind. *)
Lemma triple_leave f k self args old hs ids (P : G -> Prop) :
  creates f = Some k -> exempt k = true ->
  triple L (at_ (owning hk hs ids) P) (meth_new f self args old)
    (fun _ => at_ (owning hk hs ids) P) (on_trace unended).
Proof.
  intros Hf Hk w [Hw HP] o Ho.
  unfold meth_new, mbind, prog_bind, bind, mret, prog_ret, ret, fresh, meth.
  destruct self as [|self'].
  - cbn. eapply unended_crash; [exact Logic.I|exact Hw].
  - cbn [post fst snd glob log hooked]. split; [|exact HP].
    unfold on_trace. cbn [log hooked].
    eapply owning_lib; [|exact Hw]. eapply owns_leave; eassumption.
Qed.

(** Giving back a handle that is owned; the handle is not [NULL]. *)
Lemma triple_release f k h args hs ids (P : G -> Prop) J :
  creates f = None -> releases f = Some k ->
  triple L (at_ (owning hk ((h, k) :: hs) ids) P) (meth f h args)
    (fun _ => at_ (owning hk hs ids) P) J.
Proof.
  intros Hc Hr w [Hw HP]. apply wp_meth.
  - intros Hh. destruct Hw as (Ho & _). eapply owns_nonzero in Ho; [|left].
    destruct (Ho Hh).
  - intros _ a _. cbn. split; [|exact HP]. unfold on_trace. cbn [log hooked].
    eapply owning_lib; [|exact Hw]. eapply owns_release; eassumption.
Qed.

(** A call on a handle that is not [NULL] comes back. *)
Lemma triple_meth_safe f h args hs ids (P : G -> Prop) J :
  neutral f -> h <> 0%nat ->
  triple L (at_ (owning hk hs ids) P) (meth f h args)
    (fun _ => at_ (owning hk hs ids) P) J.
Proof.
  intros Hf Hh w [Hw HP]. apply wp_meth.
  - intros Hh'. destruct (Hh Hh').
  - intros _ a _. cbn. split; [|exact HP]. unfold on_trace. cbn [log hooked].
    eapply owning_lib; [|exact Hw]. apply owns_neutral, Hf.
Qed.

(** The order of the handles does not matter. *)
Lemma triple_perm {A} hs hs' ids (P : G -> Prop) (m : prog G A) Q J :
  hs ≡ₚ hs' ->
  triple L (at_ (owning hk hs' ids) P) m Q J ->
  triple L (at_ (owning hk hs ids) P) m Q J.
Proof.
  intros Hp Hm. eapply triple_pre; [exact Hm|].
  intros w [(Ho & Hc) HP]. split; [|exact HP]. split; [|exact Hc].
  eapply owns_perm; eassumption.
Qed.

(** A change of the globals. *)
Lemma triple_modify_at I (P P' : G -> Prop) f J :
  (forall g, P g -> P' (f g)) ->
  triple L (at_ I P) (modify f) (fun _ => at_ I P') J.
Proof. intros Hf w [Hw HP]. apply wp_modify. cbn. split; [exact Hw|]. apply Hf, HP. Qed.



(** The program gives up. *)
Lemma triple_error_fatal {A} msg r hs ids (P : G -> Prop) (Q : A -> world G -> Prop) :
  triple L (at_ (owning hk hs ids) P)
    (emit (ErrorFatal msg r);; exit (A:=A) (Failed r)) Q (on_trace unended).
Proof.
  intros w [(Ho & Hc & Hi) HP] o _. cbn. exact Hc.
Qed.

Lemma at_owning_perm hs hs' ids (P : G -> Prop) w :
  hs ≡ₚ hs' -> at_ (owning hk hs ids) P w -> at_ (owning hk hs' ids) P w.
Proof.
  intros Hp [(Ho & Hc) HP]. split; [|exact HP]. split; [|exact Hc].
  eapply owns_perm; eassumption.
Qed.

(** Fewer identifiers are as good. *)
Lemma owning_fewer hs ids ids' l h : ids' ⊆ ids -> owning hk hs ids l h -> owning hk hs ids' l h.
Proof.
  intros Hsub (Ho & Hc & Hi & Hh). split; [exact Ho|split; [exact Hc|split; [|exact Hh]]].
  etransitivity; eassumption.
Qed.

End Ownership.

Section Identifiers.
Context {G : Type} (hk : bool).

(** The identifier of a window is a new one. *)
Lemma triple_get_id_own window hs ids (P : G -> Prop) :
  triple fresh_ids (at_ (owning hk hs ids) P) (meth IDirectFBWindow_GetID window [])
    (fun a w => at_ (owning hk hs (a_id a :: ids)) P w /\ (a_id a ∉ ids))
    (on_trace unended).
Proof.
  intros w [Hw HP]. apply wp_meth.
  - intros _. cbn. eapply unended_crash; [exact Logic.I|exact Hw].
  - intros _ a Ha. cbn. destruct Hw as (Ho & Hc & Hi & Hh). split.
    + split; [|exact HP]. unfold on_trace. cbn [log hooked]. split; [|split; [|split]].
      * apply owns_neutral; [split; reflexivity|exact Ho].
      * exact Hc.
      * rewrite ids_of_cons. cbn [window_id_of]. intros x Hx.
        apply elem_of_cons in Hx as [->|Hx]; [left|right; apply Hi, Hx].
      * exact Hh.
    + intros Hin. apply Ha, Hi, Hin.
Qed.

End Identifiers.

(** *** The status of a process that has exited is the last entry of its log *)

Section Halting.
Context {G : Type}.

Lemma halting_ret {A} (a : A) : halting (G:=G) (mret a).
Proof. intros o w c w' Hm. discriminate Hm. Qed.

Lemma halting_bind {A B} (m : prog G A) (k : A -> prog G B) :
  halting m -> (forall a, halting (k a)) -> halting (m ≫= k).
Proof.
  intros Hm Hk o w c w'. unfold mbind, prog_bind, bind.
  destruct (m o w) as [a w1|c1 w1|w1] eqn:Em.
  - apply Hk.
  - intros Heq. inversion Heq; subst. eapply Hm, Em.
  - discriminate.
Qed.

Lemma halting_exit {A} c : halting (G:=G) (A:=A) (exit c).
Proof. intros o w c' w' Hm. inversion Hm; subst. cbn. eauto. Qed.

Lemma halting_spin {A} : halting (G:=G) (A:=A) spin.
Proof. intros o w c w' Hm. discriminate Hm. Qed.

Lemma halting_get : halting (G:=G) get.
Proof. intros o w c w' Hm. discriminate Hm. Qed.

Lemma halting_modify f : halting (G:=G) (modify f).
Proof. intros o w c w' Hm. discriminate Hm. Qed.

Lemma halting_fresh : halting (G:=G) fresh.
Proof. intros o w c w' Hm. discriminate Hm. Qed.

Lemma halting_atexit : halting (G:=G) atexit.
Proof. intros o w c w' Hm. discriminate Hm. Qed.

Lemma halting_emit e : halting (G:=G) (emit e).
Proof. intros o w c w' Hm. discriminate Hm. Qed.

Lemma halting_lib f args : halting (G:=G) (lib f args).
Proof. intros o w c w' Hm. discriminate Hm. Qed.

Lemma halting_meth f self args : halting (G:=G) (meth f self args).
Proof.
  intros o w c w' Hm. destruct self; [|discriminate Hm].
  inversion Hm; subst. cbn. eauto.
Qed.

Lemma halting_lib_new f args old : halting (G:=G) (lib_new f args old).
Proof.
  unfold lib_new. apply halting_bind; [apply halting_lib|intros a].
  apply halting_bind; [apply halting_fresh|intros n]. apply halting_ret.
Qed.

Lemma halting_meth_new f self args old : halting (G:=G) (meth_new f self args old).
Proof.
  unfold meth_new. apply halting_bind; [apply halting_meth|intros a].
  apply halting_bind; [apply halting_fresh|intros n]. apply halting_ret.
Qed.

Lemma halting_when b (m : prog G unit) : halting m -> halting (when b m).
Proof. intros Hm. destruct b; [exact Hm|apply halting_ret]. Qed.

Lemma halting_DFBCHECK {A} line x (result : A -> DFBResult) (call : prog G A) :
  halting call -> halting (DFBCHECK line x result call).
Proof.
  intros Hc. unfold DFBCHECK. apply halting_bind; [exact Hc|intros v].
  destruct (is_ok (result v)); [apply halting_ret|].
  apply halting_bind; [apply halting_emit|intros _].
  apply halting_bind; [apply halting_emit|intros _]. apply halting_exit.
Qed.

Lemma halting_forever {A} fuel (body : prog G (option A)) :
  halting body -> halting (forever fuel body).
Proof.
  intros Hb. induction fuel as [|fuel IH]; simpl.
  - apply halting_spin.
  - apply halting_bind; [exact Hb|intros [a|]]; [apply halting_ret|exact IH].
Qed.

Lemma halting_for_each {X} (l : list X) (f : X -> prog G unit) :
  (forall x, halting (f x)) -> halting (for_each l f).
Proof.
  intros Hf. induction l as [|x l IH]; simpl.
  - apply halting_ret.
  - apply halting_bind; [apply Hf|intros _; exact IH].
Qed.

End Halting.

Create HintDb halts.

Ltac head_of t :=
  lazymatch t with
  | ?f _ => head_of f
  | _ => t
  end.

(** Structural proof of [halting]: the functions of a program are unfolded,
    the recursive ones are looked up in the hints. *)
Ltac halting_step :=
  first [ assumption | solve [auto 1 with halts nocore] |
  lazymatch goal with
  | |- forall _, _ => intro
  | |- halting (mret _) => apply halting_ret
  | |- halting (ret _) => apply halting_ret
  | |- halting (_ ≫= _) => apply halting_bind
  | |- halting (exit _) => apply halting_exit
  | |- halting spin => apply halting_spin
  | |- halting get => apply halting_get
  | |- halting (modify _) => apply halting_modify
  | |- halting fresh => apply halting_fresh
  | |- halting atexit => apply halting_atexit
  | |- halting (emit _) => apply halting_emit
  | |- halting (lib _ _) => apply halting_lib
  | |- halting (meth _ _ _) => apply halting_meth
  | |- halting (lib_new _ _ _) => apply halting_lib_new
  | |- halting (meth_new _ _ _ _) => apply halting_meth_new
  | |- halting (when _ _) => apply halting_when
  | |- halting (DFBCHECK _ _ _ _) => apply halting_DFBCHECK
  | |- halting (FSCHECK _ _ _ _) => apply halting_DFBCHECK
  | |- halting (forever _ _) => apply halting_forever
  | |- halting (for_each _ _) => apply halting_for_each
  | |- halting (if ?b then _ else _) => destruct b
  | |- halting (match ?x with _ => _ end) => destruct x
  | |- halting (let _ := _ in _) => cbv zeta
  | |- halting ?m => let f := head_of m in progress unfold f
  end ].

Ltac halting_go := repeat halting_step.

Section DatabufferHalting.
Import Databuffer.

Lemma Databuffer_parse_command_line_halting args : halting (parse_command_line args).
Proof. induction args as [|arg rest IH]; simpl; halting_go. Qed.

Lemma Databuffer_streamer_loop_halting fuel buffer usec :
  halting (streamer_loop fuel buffer usec).
Proof. revert usec. induction fuel as [|fuel IH]; intros usec; simpl; halting_go. Qed.

#[local] Hint Resolve Databuffer_parse_command_line_halting
  Databuffer_streamer_loop_halting : halts.

Lemma Databuffer_main_halting argv argv' : halting (main argv argv').
Proof. halting_go. Qed.

Lemma Databuffer_dfb_shutdown_halting : halting dfb_shutdown.
Proof. halting_go. Qed.

End DatabufferHalting.

(** *** A whole process *)

Lemma leaving_unended {G} (pending : world G -> Prop) w :
  on_trace unended w -> leaving pending w.
Proof. intros Hw. left. exact Hw. Qed.

Lemma process_settles {G} (L : libspec) (P pending : world G -> Prop) (main : prog G Z)
    (shutdown : prog G unit) :
  triple L P main (fun n w => leaving pending (returned n w)) (leaving pending) ->
  halting main ->
  triple L pending shutdown (fun _ => on_trace (having [])) (fun _ => False) ->
  keeps L unended unended shutdown ->
  halting shutdown ->
  forall o w, obeys L o -> P w ->
    ends_with_code (process main shutdown o w) = true ->
    settled (log (final (process main shutdown o w))) = true.
Proof.
  intros Hmain Hhalt Hpend Hkeep Hhalt' o w Ho Hw.
  specialize (Hmain w Hw o Ho). unfold process.
  assert (Hsettle : forall w1 : world G, owns [] (log w1) -> settled (log w1) = true).
  { intros w1 Hown. eapply owns_settled; [exact Hown|reflexivity]. }
  assert (Hend : forall c w1, coded (log w1) = true -> leaving pending w1 ->
    ends_with_code
      (if hooked w1
       then match shutdown o w1 with
            | Ret _ w2 => Exit c w2
            | Exit c' w2 => Exit c' w2
            | Spin w2 => Spin w2
            end
       else Exit (A:=Z) c w1) = true ->
    settled (log (final
      (if hooked w1
       then match shutdown o w1 with
            | Ret _ w2 => Exit c w2
            | Exit c' w2 => Exit c' w2
            | Spin w2 => Spin w2
            end
       else Exit (A:=Z) c w1))) = true).
  { intros c w1 Hcoded [Hun|[_ Hleave]] Hcode; [congruence|].
    destruct (hooked w1).
    - specialize (Hpend w1 Hleave o Ho).
      destruct (shutdown o w1) as [[] w2|c' w2|w2]; cbn in Hpend.
      + apply Hsettle, Hpend.
      + destruct Hpend.
      + destruct Hpend.
    - apply Hsettle, Hleave. }
  destruct (main o w) as [n w1|c w1|w1] eqn:Em; cbn [post] in Hmain.
  - apply Hend; [reflexivity|exact Hmain].
  - destruct (Hhalt o w c w1 Em) as [l Hl].
    destruct c as [n|r|].
    + apply Hend; [rewrite Hl; reflexivity|exact Hmain].
    + intros Hcode. exfalso.
      destruct Hmain as [Hun|[(n' & l' & Hl' & _) _]]; [|congruence].
      destruct (hooked w1); [|discriminate Hcode].
      specialize (Hkeep w1 Hun o Ho).
      destruct (shutdown o w1) as [[] w2|c' w2|w2] eqn:Es; try discriminate Hcode.
      destruct (Hhalt' o w1 c' w2 Es) as [l2 Hl2].
      destruct c'; try discriminate Hcode.
      cbn in Hkeep. unfold on_trace, unended in Hkeep. rewrite Hl2 in Hkeep.
      discriminate Hkeep.
    + intros Hcode. discriminate Hcode.
  - intros Hcode. discriminate Hcode.
Qed.

(** *** Chaining *)

(** A part of the program by the rule [H], then the rest. *)
Tactic Notation "own_then" uconstr(H) :=
  eapply triple_bind; [eapply H; try reflexivity|take_result].

(** A checked creation, then the rest with the new handle. *)
Tactic Notation "own_new" uconstr(H) :=
  eapply triple_bind;
  [eapply triple_checked_new; eapply H; reflexivity
  |take_result; cbn [fst snd]; apply triple_pure; intros ?].

(** The facts of the globals that a predicate of the shape [X_handles] has:
    its conjuncts. *)
Ltac handles_facts H :=
  hnf in H;
  repeat lazymatch type of H with
         | _ /\ _ => let H1 := fresh H in destruct H as [H1 H]
         end.

Ltac handles_solve :=
  let g := fresh "g" in
  let Hg := fresh "Hg" in
  intros g Hg; handles_facts Hg; hnf; cbn; unfold direct_hash_remove; repeat split;
  first [congruence|solve [auto]|intros; congruence|intros; exfalso; solve [auto]].

(** A change of the globals, after which they are in [P'], then the rest. *)
Tactic Notation "own_set" constr(P') :=
  eapply triple_bind;
  [apply (triple_modify_at _ _ _ P'); handles_solve|take_result].

(** Reading the globals, then the rest, with the handles in them replaced by
    what they are known to be. *)
Ltac own_get :=
  eapply triple_bind;
  [apply triple_get_at
  |let g := fresh "g" in
   let Hg := fresh "Hg" in
   intros g; cbv beta; apply triple_pure; intros Hg; handles_facts Hg;
   repeat match goal with
          | H : _ = _ |- _ =>
              lazymatch type of H with context [g] => try rewrite H; clear H end
          end].

(** The end of a function: what is owned, up to the order. *)
Ltac own_done :=
  apply triple_ret;
  let w := fresh "w" in
  let Hw := fresh "Hw" in
  intros w Hw; cbn [fst snd] in Hw;
  repeat lazymatch goal with |- exists _, _ => eexists end;
  (eapply at_owning_perm; [|exact Hw]); cbn [app]; solve_Permutation.

(** Giving back the handle of the next call, after which [rest] is owned,
    then the rest. *)
Ltac own_release_with rest tac :=
  lazymatch goal with
  | |- triple ?L (at_ (owning ?hk ?hs ?ids) ?P) (meth ?f ?h ?args ≫= _) _ _ =>
      let r := eval cbv in (releases f) in
      lazymatch r with
      | Some ?k =>
          eapply triple_bind;
          [apply (triple_perm L hk hs ((h, k) :: rest) ids P);
           [cbn [app]; solve_Permutation
           |apply (triple_release L hk f k h args rest ids P); reflexivity]
          |tac]
      end
  end.

Tactic Notation "own_release" constr(rest) := own_release_with rest take_result.

(** Giving back the first handle by a call whose result is dropped, then the
    rest. *)
Ltac own_release_first :=
  lazymatch goal with
  | |- triple ?L (at_ (owning ?hk (_ :: ?rest) ?ids) ?P) ((meth _ _ _ ≫= _) ≫= _) _ _ =>
      apply (triple_bind L _ _ _ (fun _ => at_ (owning hk rest ids) P));
      [own_release rest; apply triple_ret; auto|intros _]
  | |- triple ?L (at_ (owning ?hk (_ :: ?rest) ?ids) ?P) (meth _ _ _ ≫= _) _ _ =>
      own_release rest
  end.

(** *** Leaving the process *)

Section Leaving.
Context {G : Type} (L : libspec).

Lemma triple_leaving {A} (P : world G -> Prop) (m : prog G A) Q pending :
  triple L P m Q (on_trace unended) -> triple L P m Q (leaving pending).
Proof.
  intros Hm. eapply triple_conseq; [exact Hm|auto|auto|].
  intros w Hw. apply leaving_unended, Hw.
Qed.

(** The macro around a creating call whose handle the program leaves
    behind. *)
Lemma triple_checked_leave hk line x f k self args old hs ids (P : G -> Prop) :
  creates f = Some k -> exempt k = true ->
  triple L (at_ (owning hk hs ids) P) (DFBCHECK line x ret_of (meth_new f self args old))
    (fun _ => at_ (owning hk hs ids) P) (on_trace unended).
Proof.
  intros Hf Hk. unfold DFBCHECK.
  eapply triple_bind; [eapply triple_leave; eassumption|]. intros [a h].
  unfold ret_of. cbn [fst snd]. destruct (is_ok (a_ret a)).
  - apply triple_ret. auto.
  - apply triple_forget.
    change (keeps (G:=G) L (owning hk hs ids) unended
              (emit (Site line);; emit (ErrorFatal x (a_ret a));;
               exit (A:=answer * nat) (Failed (a_ret a)))).
    keeps_go.
Qed.

(** What is owned is not [NULL]. *)
Lemma triple_owning_nonzero {A} hk h k hs ids (P : G -> Prop) (m : prog G A) Q J :
  (h, k) ∈ hs ->
  (h <> 0%nat -> triple L (at_ (owning hk hs ids) P) m Q J) ->
  triple L (at_ (owning hk hs ids) P) m Q J.
Proof.
  intros Hin Hm w Hw. apply Hm; [|exact Hw].
  destruct Hw as [(Ho & _) _]. eapply owns_nonzero; eassumption.
Qed.

(** A call through [NULL] ends the process, without an exit code. *)
Lemma triple_meth_null {A} hk f args (k : answer -> prog G A) hs ids (P : G -> Prop) Q :
  triple L (at_ (owning hk hs ids) P) (meth f 0 args ≫= k) Q (on_trace unended).
Proof.
  intros w [Hw HP] o _. cbn. eapply unended_crash; [exact Logic.I|exact Hw].
Qed.

(** The handle of a table that the library keeps no count of: the number of
    the call that creates it. *)
Lemma triple_lib_then_fresh {A} hk f args (k : nat -> prog G A) hs ids (P : G -> Prop) Q J :
  neutral f ->
  (forall n, n <> 0%nat -> triple L (at_ (owning hk hs ids) P) (k n) Q J) ->
  triple L (at_ (owning hk hs ids) P) (lib f args ≫= fun _ => fresh ≫= k) Q J.
Proof.
  intros Hf Hk w [Hw HP] o Ho.
  unfold mbind, prog_bind, bind, lib, fresh. cbn [length log].
  apply (Hk (S (length (log w)))); [discriminate| |exact Ho].
  split; [|exact HP]. unfold on_trace. cbn [log hooked].
  eapply owning_lib; [|exact Hw]. apply owns_neutral, Hf.
Qed.

(** A loop that is cut off. *)
Lemma triple_spin_own {A} hk hs ids (P : G -> Prop) (Q : A -> world G -> Prop) :
  triple L (at_ (owning hk hs ids) P) spin Q (on_trace unended).
Proof. intros w [(Ho & Hc & Hi) HP] o _. cbn. exact Hc. Qed.

(** Registering the shutdown function. *)
Lemma triple_atexit_own hs ids (P : G -> Prop) J :
  triple L (at_ (owning false hs ids) P) atexit (fun _ => at_ (owning true hs ids) P) J.
Proof.
  intros w [(Ho & Hc & Hi & _) HP] o _. cbn. split; [|exact HP].
  repeat split; assumption.
Qed.

Lemma ended_now_code n l : coded l = false -> ended_now (Halt (Code n) :: l).
Proof. intros Hc. exists n, l. split; [reflexivity|exact Hc]. Qed.

(** The end of the process with nothing owned and no shutdown function. *)
Lemma triple_exit_unhooked {A} n ids (P : G -> Prop) (Q : A -> world G -> Prop) pending :
  triple L (at_ (owning false [] ids) P) (exit (Code n)) Q (leaving pending).
Proof.
  apply triple_exit. intros w [(Ho & Hc & Hi & Hh) HP]. right. split.
  - apply ended_now_code, Hc.
  - cbn [hooked]. rewrite Hh. cbn [log]. apply owns_silent; [reflexivity|exact Ho].
Qed.

(** The end of the process with the shutdown function registered. *)
Lemma triple_exit_hooked {A} n hs ids (P : G -> Prop) (Q : A -> world G -> Prop)
    (pending : world G -> Prop) :
  (forall w, at_ (having hs) P w -> pending w) ->
  triple L (at_ (owning true hs ids) P) (exit (Code n)) Q (leaving pending).
Proof.
  intros Hp. apply triple_exit. intros w [(Ho & Hc & Hi & Hh) HP]. right. split.
  - apply ended_now_code, Hc.
  - cbn [hooked]. rewrite Hh. apply Hp. split; [|exact HP].
    unfold on_trace, having. cbn [log]. apply owns_silent; [reflexivity|exact Ho].
Qed.

(** A call in the shutdown function that neither hands out nor gives back a
    handle. *)
Lemma triple_lib_having f args hs (P : G -> Prop) J :
  neutral f ->
  triple L (at_ (having hs) P) (lib f args) (fun _ => at_ (having hs) P) J.
Proof.
  intros Hf w [Hw HP] o _. cbn. split; [|exact HP].
  unfold on_trace, having. cbn [log hooked]. apply owns_neutral; assumption.
Qed.

Lemma triple_meth_having f h args hs (P : G -> Prop) J :
  neutral f -> h <> 0%nat ->
  triple L (at_ (having hs) P) (meth f h args) (fun _ => at_ (having hs) P) J.
Proof.
  intros Hf Hh w [Hw HP]. apply wp_meth.
  - intros Hh'. destruct (Hh Hh').
  - intros _ a _. cbn. split; [|exact HP]. unfold on_trace, having. cbn [log hooked].
    apply owns_neutral; assumption.
Qed.

(** Giving back a handle in the shutdown function. *)
Lemma triple_release_having f k h args hs (P : G -> Prop) J :
  creates f = None -> releases f = Some k ->
  triple L (at_ (having ((h, k) :: hs)) P) (meth f h args)
    (fun _ => at_ (having hs) P) J.
Proof.
  intros Hc Hr w [Hw HP]. apply wp_meth.
  - intros Hh. eapply owns_nonzero in Hw; [|left]. destruct (Hw Hh).
  - intros _ a _. cbn. split; [|exact HP]. unfold on_trace, having. cbn [log hooked].
    eapply owns_release; eassumption.
Qed.

Lemma triple_ret_bind {A B} (P : world G -> Prop) (a : A) (k : A -> prog G B) Q J :
  triple L P (k a) Q J -> triple L P (mret a ≫= k) Q J.
Proof. intros Hk w Hw o Ho. exact (Hk w Hw o Ho). Qed.

(** What is owned is not [NULL]. *)
Lemma triple_having_nonzero {A} h k hs (P : G -> Prop) (m : prog G A) Q J :
  (h, k) ∈ hs ->
  (h <> 0%nat -> triple L (at_ (having hs) P) m Q J) ->
  triple L (at_ (having hs) P) m Q J.
Proof.
  intros Hin Hm w Hw. apply Hm; [|exact Hw].
  destruct Hw as [Hw _]. eapply owns_nonzero; eassumption.
Qed.

End Leaving.

(** The same steps inside [main], where the process may end with an exit
    code. *)
Ltac leave_keep :=
  eapply triple_bind;
  [apply triple_leaving; apply keeps_holds; [solve [keeps_go]|holds_solve]
  |take_result].

Tactic Notation "leave_then" uconstr(H) :=
  eapply triple_bind; [apply triple_leaving; eapply H; try reflexivity|take_result].

Tactic Notation "leave_new" uconstr(H) :=
  eapply triple_bind;
  [apply triple_leaving; eapply triple_checked_new; eapply H; reflexivity
  |take_result; cbn [fst snd]; apply triple_pure; intros ?].

(** *** df_databuffer.c *)

Section DatabufferHandles.
Context (L : libspec) (hk : bool).
Import Databuffer.

Lemma Databuffer_load_font_own ln buffer d p hs :
  triple L (at_ (owning hk hs []) (Databuffer_handles d p 0 0 0 0))
    (load_font ln buffer)
    (fun _ w => exists f, at_ (owning hk ((f, KFont) :: hs) []) (Databuffer_handles d p 0 f 0 0) w)
    (on_trace unended).
Proof.
  unfold load_font.
  keep_then.
  own_new triple_meth_new_own. rename n into f.
  own_set (Databuffer_handles d p 0 f 0 0).
  do 2 keep_then. apply triple_ret. eauto.
Qed.

Lemma Databuffer_load_media_own ln msg buffer d p f hs :
  triple L (at_ (owning hk hs []) (Databuffer_handles d p 0 f 0 0))
    (load_media ln msg buffer)
    (fun _ w => exists i v,
       at_ (owning hk (own_if i KImage ++ own_if v KVideo ++ hs) [])
         (Databuffer_handles d p 0 f i v) w)
    (on_trace unended).
Proof.
  unfold load_media.
  own_get.
  eapply (triple_bind _ _ _ _
            (fun _ w => exists i,
               at_ (owning hk (own_if i KImage ++ hs) []) (Databuffer_handles d p 0 f i 0) w)).
  { destruct (use_video g =? 0).
    - own_then triple_meth_new_if. apply triple_pure. intros _.
      rename n into i.
      own_set (Databuffer_handles d p 0 f i 0). apply triple_ret. eauto.
    - apply triple_ret. intros w Hw. exists 0%nat. exact Hw. }
  intros ret. cbv beta. apply triple_ex. intros i. eta_pre.
  eapply (triple_bind _ _ _ _
            (fun _ w => exists v,
               at_ (owning hk (own_if i KImage ++ own_if v KVideo ++ hs) [])
                 (Databuffer_handles d p 0 f i v) w)).
  { destruct (is_ok ret).
    - do 2 keep_then. apply triple_ret. intros w Hw. exists 0%nat. exact Hw.
    - destruct (use_image g =? 0).
      + own_then triple_meth_new_if. apply triple_pure. intros _. rename n into v.
        own_set (Databuffer_handles d p 0 f i v).
        keep_then. own_done.
      + own_done. }
  intros ret'. cbv beta. apply triple_ex. intros v. eta_pre.
  destruct (is_ok ret').
  - apply triple_ret. eauto.
  - apply triple_error_fatal.
Qed.

Lemma Databuffer_show_media_own ln d p f i v hs :
  triple L (at_ (owning hk hs []) (Databuffer_handles d p 0 f i v))
    (show_media ln)
    (fun _ w => exists s,
       at_ (owning hk ((s, KSurface) :: hs) []) (Databuffer_handles d p s f i v) w)
    (on_trace unended).
Proof.
  unfold show_media.
  own_get.
  own_new triple_meth_new_own. rename n into s.
  own_set (Databuffer_handles d p s f i v).
  destruct (negb (i =? 0)%nat).
  - do 2 keep_then. apply triple_ret. eauto.
  - do 3 keep_then. apply triple_ret. eauto.
Qed.

Lemma Databuffer_release_media_own d p s f i v hs :
  triple L
    (at_ (owning hk ((s, KSurface) :: own_if i KImage ++ own_if v KVideo ++ (f, KFont) :: hs) [])
       (Databuffer_handles d p s f i v))
    release_media
    (fun _ => at_ (owning hk hs []) (Databuffer_handles d p 0 0 0 0))
    (on_trace unended).
Proof.
  unfold release_media.
  own_get.
  own_release (own_if i KImage ++ own_if v KVideo ++ (f, KFont) :: hs).
  own_set (Databuffer_handles d p 0 f i v).
  eapply (triple_bind _ _ _ _
            (fun _ => at_ (owning hk (own_if v KVideo ++ (f, KFont) :: hs) [])
                        (Databuffer_handles d p 0 f 0 v))).
  { destruct (Nat.eqb_spec i 0) as [->|Hi]; cbn [negb when].
    - apply triple_ret. auto.
    - rewrite (own_if_nonzero i) by exact Hi.
      own_release (own_if v KVideo ++ (f, KFont) :: hs).
      apply (triple_modify_at _ _ _ (Databuffer_handles d p 0 f 0 v)). handles_solve. }
  intros _.
  eapply (triple_bind _ _ _ _
            (fun _ => at_ (owning hk ((f, KFont) :: hs) [])
                        (Databuffer_handles d p 0 f 0 0))).
  { destruct (Nat.eqb_spec v 0) as [->|Hv]; cbn [negb when].
    - apply triple_ret. auto.
    - rewrite (own_if_nonzero v) by exact Hv.
      own_release ((f, KFont) :: hs).
      apply (triple_modify_at _ _ _ (Databuffer_handles d p 0 f 0 0)). handles_solve. }
  intros _.
  own_release hs.
  apply (triple_modify_at _ _ _ (Databuffer_handles d p 0 0 0 0)). handles_solve.
Qed.

(** The thread that the caller forgets. *)
Lemma Databuffer_spawn_streamer_leave buffer hs (P : globals -> Prop) :
  triple L (at_ (owning hk hs []) P) (spawn_streamer buffer)
    (fun _ => at_ (owning hk hs []) P) (on_trace unended).
Proof.
  intros w [Hw HP] o Ho.
  unfold spawn_streamer, mbind, prog_bind, bind, mret, prog_ret, ret, fresh, lib.
  cbn [post fst snd glob log hooked]. split; [|exact HP].
  unfold on_trace. cbn [log hooked].
  eapply owning_lib; [|exact Hw]. apply (owns_leave _ _ _ _ _ _ KThread); reflexivity || auto.
Qed.

(** The thread that the caller keeps, [NULL] when it was not created. *)
Lemma Databuffer_spawn_streamer_own buffer hs (P : globals -> Prop) :
  triple L (at_ (owning hk hs []) P) (spawn_streamer buffer)
    (fun t => at_ (owning hk (own_if t KThread ++ hs) []) P) (on_trace unended).
Proof.
  intros w [Hw HP] o Ho.
  unfold spawn_streamer, mbind, prog_bind, bind, mret, prog_ret, ret, fresh, lib.
  cbn [post fst snd glob log hooked]. split; [|exact HP].
  unfold on_trace. cbn [log hooked length]. unfold created.
  destruct (is_ok (a_ret (o (log w) direct_thread_create 0%nat [Z.of_nat buffer]))) eqn:Hok.
  - cbn [own_if Nat.eqb app].
    eapply owning_lib; [|exact Hw]. apply owns_create; [reflexivity|exact Hok].
  - cbn [own_if Nat.eqb app].
    eapply owning_lib; [|exact Hw]. eapply owns_failed; [reflexivity|exact Hok].
Qed.

Lemma Databuffer_test_file_own d p hs :
  triple L (at_ (owning hk hs []) (Databuffer_handles d p 0 0 0 0))
    test_file
    (fun _ => at_ (owning hk hs []) (Databuffer_handles d p 0 0 0 0))
    (on_trace unended).
Proof.
  unfold test_file.
  own_get. keep_then.
  own_then triple_checked_leave.
  own_then Databuffer_load_font_own. apply triple_ex. intros f. eta_pre.
  own_then triple_checked_leave.
  own_then Databuffer_load_media_own. apply triple_ex. intros i. apply triple_ex. intros v.
  eta_pre.
  own_then Databuffer_show_media_own. apply triple_ex. intros s. eta_pre.
  apply Databuffer_release_media_own.
Qed.

Lemma Databuffer_test_memory_own d p hs :
  triple L (at_ (owning hk hs []) (Databuffer_handles d p 0 0 0 0))
    test_memory
    (fun _ => at_ (owning hk hs []) (Databuffer_handles d p 0 0 0 0))
    (on_trace unended).
Proof.
  unfold test_memory.
  own_get. do 9 keep_then.
  own_then triple_checked_leave.
  own_then Databuffer_load_font_own. apply triple_ex. intros f. eta_pre.
  own_then triple_checked_leave.
  own_then Databuffer_load_media_own. apply triple_ex. intros i. apply triple_ex. intros v.
  eta_pre.
  own_then Databuffer_show_media_own. apply triple_ex. intros s. eta_pre.
  own_then Databuffer_release_media_own.
  do 2 keep_then. apply triple_ret. auto.
Qed.

Lemma Databuffer_test_streamed_own d p hs :
  triple L (at_ (owning hk hs []) (Databuffer_handles d p 0 0 0 0))
    test_streamed
    (fun _ => at_ (owning hk hs []) (Databuffer_handles d p 0 0 0 0))
    (on_trace unended).
Proof.
  unfold test_streamed.
  own_get. keep_then.
  own_then triple_checked_leave.
  own_then Databuffer_spawn_streamer_leave.
  own_then Databuffer_load_font_own. apply triple_ex. intros f. eta_pre.
  own_then triple_checked_leave.
  own_then Databuffer_spawn_streamer_own.
  own_then Databuffer_load_media_own. apply triple_ex. intros i. apply triple_ex. intros v.
  eta_pre.
  own_then Databuffer_show_media_own. apply triple_ex. intros s. eta_pre.
  rename x2 into t. do 2 keep_then.
  destruct (Nat.eqb_spec t 0) as [->|Ht].
  - apply triple_meth_null.
  - rewrite (own_if_nonzero t) by exact Ht.
    own_release ((s, KSurface) :: own_if i KImage ++ own_if v KVideo ++ (f, KFont) :: hs).
    apply Databuffer_release_media_own.
Qed.

End DatabufferHandles.

Section DatabufferProcess.
Context (L : libspec).
Import Databuffer.

Lemma Databuffer_parse_command_line_own args pending :
  triple L (at_ (owning false [] []) (Databuffer_handles 0 0 0 0 0 0))
    (parse_command_line args)
    (fun _ => at_ (owning false [] []) (Databuffer_handles 0 0 0 0 0 0))
    (leaving pending).
Proof.
  induction args as [|arg rest IH]; cbn [parse_command_line].
  - apply triple_ret. auto.
  - destruct (after_dash arg) as [opt|].
    + destruct (strcmp0 opt "-help").
      { leave_keep. apply triple_exit_unhooked. }
      destruct (strcmp0 opt "-image").
      { own_set (Databuffer_handles 0 0 0 0 0 0). exact IH. }
      destruct (strcmp0 opt "-video").
      { own_set (Databuffer_handles 0 0 0 0 0 0). exact IH. }
      exact IH.
    + destruct rest as [|media [|]]; try exact IH.
      own_set (Databuffer_handles 0 0 0 0 0 0).
      apply (triple_modify_at _ _ _ (Databuffer_handles 0 0 0 0 0 0)). handles_solve.
Qed.

Lemma Databuffer_main_own argv argv' :
  triple L (at_ (owning false [] []) (Databuffer_handles 0 0 0 0 0 0))
    (main argv argv')
    (fun n w => leaving Databuffer_pending (returned n w))
    (leaving Databuffer_pending).
Proof.
  unfold main.
  leave_keep.
  eapply triple_bind; [apply Databuffer_parse_command_line_own|]. intros ?.
  own_get.
  destruct (negb (use_image g =? 0) && negb (use_video g =? 0)).
  { leave_keep. apply triple_exit_unhooked. }
  destruct (fontfile g); [destruct (mediafile g)|];
    try (leave_keep; apply triple_exit_unhooked).
  leave_new triple_lib_new_own. rename n into d.
  own_set (Databuffer_handles d 0 0 0 0 0).
  eapply triple_bind; [apply triple_atexit_own|]. intros ?.
  own_get. leave_keep.
  leave_new triple_meth_new_own. rename n into p.
  own_set (Databuffer_handles d p 0 0 0 0).
  own_get. leave_keep.
  own_set (Databuffer_handles d p 0 0 0 0).
  own_set (Databuffer_handles d p 0 0 0 0).
  leave_keep.
  leave_then Databuffer_test_file_own. leave_keep.
  leave_then Databuffer_test_memory_own. leave_keep.
  leave_then Databuffer_test_streamed_own. leave_keep.
  apply triple_exit_hooked. intros w Hw. exists d, p. exact Hw.
Qed.

Lemma Databuffer_dfb_shutdown_own :
  triple L Databuffer_pending dfb_shutdown (fun _ => on_trace (having []))
    (fun _ => False).
Proof.
  unfold Databuffer_pending, dfb_shutdown.
  apply triple_ex. intros d. apply triple_ex. intros p. eta_pre.
  apply (triple_having_nonzero L p KSurface); [set_solver|]. intros Hp.
  apply (triple_having_nonzero L d KMain); [set_solver|]. intros Hd.
  own_get. cbn [Nat.eqb negb when].
  apply Nat.eqb_neq in Hp, Hd. rewrite Hp, Hd. cbn [negb when].
  do 4 apply triple_ret_bind.
  apply (triple_bind _ _ _ _
           (fun _ => at_ (having [(d, KMain)]) (Databuffer_handles d p 0 0 0 0))).
  { eapply triple_bind; [apply (triple_release_having L IDirectFBSurface_Release KSurface);
                         reflexivity|].
    intros ?. apply triple_ret. intros w Hw. exact Hw. }
  intros ?.
  eapply triple_bind; [apply (triple_release_having L IDirectFB_Release KMain);
                       reflexivity|].
  intros ?. apply triple_ret. intros w [Hw _]. exact Hw.
Qed.

Lemma Databuffer_dfb_shutdown_unended : keeps L unended unended dfb_shutdown.
Proof. unfold dfb_shutdown. keeps_go. Qed.

End DatabufferProcess.

(** X1: whenever df_databuffer ends with an exit code (a [return] from
    [main]), whatever the library answered, each interface that the program
    obtained -- main interface, surfaces, font, image and video providers --
    was released exactly once, by a call through a pointer that was not
    [NULL], and none is left; only data buffers and streamer threads are
    left behind. *)
Theorem df_databuffer_releases_its_interfaces (o : oracle) (argv argv' : list string) :
  ends_with_code (df_databuffer argv argv' o (start Databuffer.init)) = true ->
  settled (log (final (df_databuffer argv argv' o (start Databuffer.init)))) = true.
Proof.
  unfold df_databuffer.
  apply (process_settles any_library
           (at_ (owning false [] []) (Databuffer_handles 0 0 0 0 0 0))
           Databuffer_pending).
  - apply Databuffer_main_own.
  - apply Databuffer_main_halting.
  - apply Databuffer_dfb_shutdown_own.
  - apply Databuffer_dfb_shutdown_unended.
  - apply Databuffer_dfb_shutdown_halting.
  - intros l f self args. exact Logic.I.
  - split.
    + split; [apply owns_nil|]. repeat split. intros x Hx. inversion Hx.
    + repeat split.
Qed.

Lemma df_databuffer_releases_its_interfaces_witness :
  settled (log (final (df_databuffer ["df_databuffer"; "font.dgiff"; "image.dfiff"]
                         ["df_databuffer"; "font.dgiff"; "image.dfiff"] all_ok
                         (start Databuffer.init)))) = true.
Proof.
  apply (df_databuffer_releases_its_interfaces all_ok). vm_compute. reflexivity.
Defined.

(** *** df_databuffer.c, the revision without options *)

Section DatabufferOldHandles.
Context (L : libspec) (hk : bool).
Import DatabufferOld.

Lemma DatabufferOld_load_font_own ln buffer d p hs :
  triple L (at_ (owning hk hs []) (DatabufferOld_handles d p))
    (load_font ln buffer)
    (fun f => at_ (owning hk ((f, KFont) :: hs) []) (DatabufferOld_handles d p))
    (on_trace unended).
Proof.
  unfold load_font.
  own_get.
  own_new triple_meth_new_own. rename n into f.
  do 2 keep_then. apply triple_ret. auto.
Qed.

Lemma DatabufferOld_load_media_own ln msg buffer d p hs :
  triple L (at_ (owning hk hs []) (DatabufferOld_handles d p))
    (load_media ln msg buffer)
    (fun r => at_ (owning hk (own_if (fst r) KImage ++ own_if (snd r) KVideo ++ hs) [])
                (DatabufferOld_handles d p))
    (on_trace unended).
Proof.
  unfold load_media.
  own_get.
  own_then triple_meth_new_if. apply triple_pure. cbn [fst snd]. intros Hi.
  rename n into i.
  destruct (is_ok (a_ret a)).
  - keep_then. own_done.
  - rewrite Hi by reflexivity. cbn [own_if Nat.eqb app].
    own_then triple_meth_new_if. apply triple_pure. cbn [fst snd]. intros Hv.
    rename n into v.
    destruct (is_ok (a_ret a0)).
    + do 3 keep_then. own_done.
    + apply triple_error_fatal.
Qed.

Lemma DatabufferOld_show_media_own ln d p i v hs :
  triple L (at_ (owning hk hs []) (DatabufferOld_handles d p))
    (show_media ln i v)
    (fun s => at_ (owning hk ((s, KSurface) :: hs) []) (DatabufferOld_handles d p))
    (on_trace unended).
Proof.
  unfold show_media.
  own_get.
  own_new triple_meth_new_own. rename n into s.
  destruct (negb (i =? 0)%nat).
  - keep_then. apply triple_ret. auto.
  - keep_then. apply triple_ret. auto.
Qed.

Lemma DatabufferOld_release_media_own d p s f i v hs :
  triple L
    (at_ (owning hk ((s, KSurface) :: own_if i KImage ++ own_if v KVideo ++ (f, KFont) :: hs) [])
       (DatabufferOld_handles d p))
    (release_media s i v f)
    (fun _ => at_ (owning hk hs []) (DatabufferOld_handles d p))
    (on_trace unended).
Proof.
  unfold release_media.
  own_release (own_if i KImage ++ own_if v KVideo ++ (f, KFont) :: hs).
  eapply (triple_bind _ _ _ _
            (fun _ => at_ (owning hk (own_if v KVideo ++ (f, KFont) :: hs) [])
                        (DatabufferOld_handles d p))).
  { destruct (Nat.eqb_spec i 0) as [->|Hi]; cbn [negb when].
    - apply triple_ret. auto.
    - rewrite (own_if_nonzero i) by exact Hi.
      own_release (own_if v KVideo ++ (f, KFont) :: hs).
      apply triple_ret. auto. }
  intros _.
  eapply (triple_bind _ _ _ _
            (fun _ => at_ (owning hk ((f, KFont) :: hs) []) (DatabufferOld_handles d p))).
  { destruct (Nat.eqb_spec v 0) as [->|Hv]; cbn [negb when].
    - apply triple_ret. auto.
    - rewrite (own_if_nonzero v) by exact Hv.
      own_release ((f, KFont) :: hs).
      apply triple_ret. auto. }
  intros _.
  own_release hs.
  apply triple_ret. auto.
Qed.

Lemma DatabufferOld_spawn_streamer_leave buffer hs (P : globals -> Prop) :
  triple L (at_ (owning hk hs []) P) (spawn_streamer buffer)
    (fun _ => at_ (owning hk hs []) P) (on_trace unended).
Proof.
  intros w [Hw HP] o Ho.
  unfold spawn_streamer, mbind, prog_bind, bind, mret, prog_ret, ret, fresh, lib.
  cbn [post fst snd glob log hooked]. split; [|exact HP].
  unfold on_trace. cbn [log hooked].
  eapply owning_lib; [|exact Hw]. apply (owns_leave _ _ _ _ _ _ KThread); reflexivity || auto.
Qed.

Lemma DatabufferOld_spawn_streamer_own buffer hs (P : globals -> Prop) :
  triple L (at_ (owning hk hs []) P) (spawn_streamer buffer)
    (fun t => at_ (owning hk (own_if t KThread ++ hs) []) P) (on_trace unended).
Proof.
  intros w [Hw HP] o Ho.
  unfold spawn_streamer, mbind, prog_bind, bind, mret, prog_ret, ret, fresh, lib.
  cbn [post fst snd glob log hooked]. split; [|exact HP].
  unfold on_trace. cbn [log hooked length]. unfold created.
  destruct (is_ok (a_ret (o (log w) direct_thread_create 0%nat [Z.of_nat buffer]))) eqn:Hok.
  - cbn [own_if Nat.eqb app].
    eapply owning_lib; [|exact Hw]. apply owns_create; [reflexivity|exact Hok].
  - cbn [own_if Nat.eqb app].
    eapply owning_lib; [|exact Hw]. eapply owns_failed; [reflexivity|exact Hok].
Qed.

Lemma DatabufferOld_test_file_own d p hs :
  triple L (at_ (owning hk hs []) (DatabufferOld_handles d p))
    test_file
    (fun _ => at_ (owning hk hs []) (DatabufferOld_handles d p))
    (on_trace unended).
Proof.
  unfold test_file.
  own_get. keep_then.
  own_then triple_checked_leave.
  own_then DatabufferOld_load_font_own.
  own_then triple_checked_leave.
  own_then DatabufferOld_load_media_own. cbn [fst snd].
  own_then DatabufferOld_show_media_own.
  apply DatabufferOld_release_media_own.
Qed.

Lemma DatabufferOld_test_memory_own d p hs :
  triple L (at_ (owning hk hs []) (DatabufferOld_handles d p))
    test_memory
    (fun _ => at_ (owning hk hs []) (DatabufferOld_handles d p))
    (on_trace unended).
Proof.
  unfold test_memory.
  own_get. do 9 keep_then.
  own_then triple_checked_leave.
  own_then DatabufferOld_load_font_own.
  own_then triple_checked_leave.
  own_then DatabufferOld_load_media_own. cbn [fst snd].
  own_then DatabufferOld_show_media_own.
  own_then DatabufferOld_release_media_own.
  do 2 keep_then. apply triple_ret. auto.
Qed.

Lemma DatabufferOld_test_streamed_own d p hs :
  triple L (at_ (owning hk hs []) (DatabufferOld_handles d p))
    test_streamed
    (fun _ => at_ (owning hk hs []) (DatabufferOld_handles d p))
    (on_trace unended).
Proof.
  unfold test_streamed.
  own_get. keep_then.
  own_then triple_checked_leave.
  own_then DatabufferOld_spawn_streamer_leave.
  own_then DatabufferOld_load_font_own.
  own_then triple_checked_leave.
  own_then DatabufferOld_spawn_streamer_own.
  own_then DatabufferOld_load_media_own. cbn [fst snd].
  own_then DatabufferOld_show_media_own.
  do 2 keep_then.
  lazymatch goal with
  | |- triple _ _ (meth _ ?t _ ≫= _) _ _ => destruct (Nat.eqb_spec t 0) as [->|Ht]
  end.
  - apply triple_meth_null.
  - rewrite (own_if_nonzero _ KThread) by exact Ht.
    lazymatch goal with
    | |- triple _ (at_ (owning _ (?s :: ?i ++ ?v ++ [_] ++ ?rest) _) _) _ _ _ =>
        own_release (s :: i ++ v ++ rest)
    end.
    apply DatabufferOld_release_media_own.
Qed.

End DatabufferOldHandles.

Section DatabufferOldProcess.
Context (L : libspec).
Import DatabufferOld.

Lemma DatabufferOld_main_own argv argv' :
  triple L (at_ (owning false [] []) (DatabufferOld_handles 0 0))
    (main argv argv')
    (fun n w => leaving DatabufferOld_pending (returned n w))
    (leaving DatabufferOld_pending).
Proof.
  unfold main.
  destruct (negb (argc argv =? 3)).
  { leave_keep. apply triple_exit_unhooked. }
  leave_keep.
  destruct argv' as [|argv0 [|argv1 rest]];
    try (apply triple_leaving; apply triple_forget;
         change (keeps L (owning false [] []) unended
                   (exit (G:=globals) (A:=Z) Segv)); solve [keeps_go]).
  destruct (strcmp0 argv1 "--help").
  { leave_keep. apply triple_exit_unhooked. }
  own_set (DatabufferOld_handles 0 0).
  own_set (DatabufferOld_handles 0 0).
  leave_new triple_lib_new_own. rename n into d.
  own_set (DatabufferOld_handles d 0).
  eapply triple_bind; [apply triple_atexit_own|]. intros ?.
  own_get. leave_keep.
  leave_new triple_meth_new_own. rename n into p.
  own_set (DatabufferOld_handles d p).
  own_get. leave_keep.
  own_set (DatabufferOld_handles d p).
  own_set (DatabufferOld_handles d p).
  leave_keep.
  leave_then DatabufferOld_test_file_own. leave_keep.
  leave_then DatabufferOld_test_memory_own. leave_keep.
  leave_then DatabufferOld_test_streamed_own. leave_keep.
  apply triple_exit_hooked. intros w Hw. exists d, p. exact Hw.
Qed.

Lemma DatabufferOld_dfb_shutdown_own :
  triple L DatabufferOld_pending dfb_shutdown (fun _ => on_trace (having []))
    (fun _ => False).
Proof.
  unfold DatabufferOld_pending, dfb_shutdown.
  apply triple_ex. intros d. apply triple_ex. intros p. eta_pre.
  apply (triple_having_nonzero L p KSurface); [set_solver|]. intros Hp.
  apply (triple_having_nonzero L d KMain); [set_solver|]. intros Hd.
  own_get.
  apply Nat.eqb_neq in Hp, Hd. rewrite Hp, Hd. cbn [negb when].
  apply (triple_bind _ _ _ _
           (fun _ => at_ (having [(d, KMain)]) (DatabufferOld_handles d p))).
  { eapply triple_bind; [apply (triple_release_having L IDirectFBSurface_Release KSurface);
                         reflexivity|].
    intros ?. apply triple_ret. intros w Hw. exact Hw. }
  intros ?.
  eapply triple_bind; [apply (triple_release_having L IDirectFB_Release KMain);
                       reflexivity|].
  intros ?. apply triple_ret. intros w [Hw _]. exact Hw.
Qed.

Lemma DatabufferOld_dfb_shutdown_unended : keeps L unended unended dfb_shutdown.
Proof. unfold dfb_shutdown. keeps_go. Qed.

Lemma DatabufferOld_streamer_loop_halting fuel buffer usec :
  halting (streamer_loop fuel buffer usec).
Proof. revert usec. induction fuel as [|fuel IH]; intros usec; simpl; halting_go. Qed.

Lemma DatabufferOld_main_halting argv argv' : halting (main argv argv').
Proof. halting_go. Qed.

Lemma DatabufferOld_dfb_shutdown_halting : halting dfb_shutdown.
Proof. halting_go. Qed.

End DatabufferOldProcess.

(** X2: the same for the revision of df_databuffer without options, whose
    test functions keep the font, the providers and the surface in local
    variables: whenever it ends with an exit code, each interface that it
    obtained was released exactly once, through a pointer that was not
    [NULL], and only data buffers and streamer threads are left behind. *)
Theorem df_databuffer_old_releases_its_interfaces (o : oracle)
    (argv argv' : list string) :
  ends_with_code (df_databuffer_old argv argv' o (start DatabufferOld.init)) = true ->
  settled (log (final (df_databuffer_old argv argv' o (start DatabufferOld.init))))
    = true.
Proof.
  unfold df_databuffer_old.
  apply (process_settles any_library
           (at_ (owning false [] []) (DatabufferOld_handles 0 0))
           DatabufferOld_pending).
  - apply DatabufferOld_main_own.
  - apply DatabufferOld_main_halting.
  - apply DatabufferOld_dfb_shutdown_own.
  - apply DatabufferOld_dfb_shutdown_unended.
  - apply DatabufferOld_dfb_shutdown_halting.
  - intros l f self args. exact Logic.I.
  - split.
    + split; [apply owns_nil|]. repeat split. intros x Hx. inversion Hx.
    + repeat split.
Qed.

Lemma df_databuffer_old_releases_its_interfaces_witness :
  settled (log (final (df_databuffer_old ["df_databuffer"; "font.dgiff"; "image.dfiff"]
                         ["df_databuffer"; "font.dgiff"; "image.dfiff"] all_ok
                         (start DatabufferOld.init)))) = true.
Proof.
  apply (df_databuffer_old_releases_its_interfaces all_ok). vm_compute. reflexivity.
Defined.

(** *** df_font_sample.c *)

Section FontSampleHandles.
Context `{Headers} (L : libspec) (hk : bool).
Import FontSample.

Lemma FontSample_render_help_page_own fontfile d l win s e hs :
  triple L (at_ (owning hk hs []) (FontSample_handles d l win s e))
    (render_help_page fontfile)
    (fun _ => at_ (owning hk hs []) (FontSample_handles d l win s e))
    (on_trace unended).
Proof.
  unfold render_help_page.
  own_get.
  own_new triple_meth_new_own. rename n into f.
  do 5 keep_then.
  own_release hs.
  apply triple_ret. auto.
Qed.

Lemma FontSample_render_font_page_own fontfile first_char d l win s e hs :
  triple L (at_ (owning hk hs []) (FontSample_handles d l win s e))
    (render_font_page fontfile first_char)
    (fun _ => at_ (owning hk hs []) (FontSample_handles d l win s e))
    (on_trace unended).
Proof.
  unfold render_font_page, draw_lines, render_glyph.
  own_get.
  own_new triple_meth_new_own. rename n into fixedfont.
  keep_then.
  own_then triple_meth_new_own. cbn [fst snd]. rename n into font.
  destruct (is_ok (a_ret a0)); cbn [negb]; apply triple_pure; intros Hfont.
  - keep_until IDirectFBFont_Release.
    own_release ((font, KFont) :: hs).
    keep_until IDirectFBFont_Release.
    own_release hs.
    apply triple_ret. auto.
  - keep_until IDirectFBFont_Release.
    own_release hs.
    apply triple_ret. auto.
Qed.

End FontSampleHandles.

Section FontSampleProcess.
Context `{Headers} (L : libspec).
Import FontSample.

Lemma FontSample_key_down_own symbol d l win s e :
  triple L
    (at_ (owning true [(e, KEvents); (s, KSurface); (win, KWindow); (l, KLayer); (d, KMain)] [])
       (FontSample_handles d l win s e))
    (key_down symbol)
    (fun _ =>
       at_ (owning true [(e, KEvents); (s, KSurface); (win, KWindow); (l, KLayer); (d, KMain)] [])
         (FontSample_handles d l win s e))
    (leaving FontSample_pending).
Proof.
  unfold key_down.
  repeat lazymatch goal with
         | |- triple _ _ (if ?b then _ else _) _ _ => destruct b
         end.
  all: try (apply triple_ret; intros w Hw; exact Hw).
  all: try (apply triple_exit_hooked; intros w Hw; exists d, l, win, s, e; exact Hw).
  all: apply triple_modify_at; intros g Hg; handles_facts Hg;
    repeat lazymatch goal with
           | |- context [if ?b then _ else _] => destruct b
           end;
    hnf; cbn; repeat split; congruence.
Qed.

Lemma FontSample_dispatch_own evt d l win s e :
  triple L
    (at_ (owning true [(e, KEvents); (s, KSurface); (win, KWindow); (l, KLayer); (d, KMain)] [])
       (FontSample_handles d l win s e))
    (dispatch evt)
    (fun _ =>
       at_ (owning true [(e, KEvents); (s, KSurface); (win, KWindow); (l, KLayer); (d, KMain)] [])
         (FontSample_handles d l win s e))
    (leaving FontSample_pending).
Proof.
  unfold dispatch. destruct (evt_type evt);
    try (apply triple_ret; intros w Hw; exact Hw).
  - apply FontSample_key_down_own.
  - apply triple_modify_at; intros g Hg; handles_facts Hg.
    destruct (negb (show_help g =? 0)); hnf; cbn; repeat split; congruence.
Qed.

Lemma FontSample_process_event_buffer_own fuel d l win s e :
  triple L
    (at_ (owning true [(e, KEvents); (s, KSurface); (win, KWindow); (l, KLayer); (d, KMain)] [])
       (FontSample_handles d l win s e))
    (process_event_buffer fuel)
    (fun _ =>
       at_ (owning true [(e, KEvents); (s, KSurface); (win, KWindow); (l, KLayer); (d, KMain)] [])
         (FontSample_handles d l win s e))
    (leaving FontSample_pending).
Proof.
  unfold process_event_buffer. apply triple_forever.
  { intros w [(_ & Hc & _) _]. left. exact Hc. }
  own_get. leave_keep.
  destruct (is_ok (a_ret x)).
  - eapply triple_bind; [apply FontSample_dispatch_own|]. intros ?.
    apply triple_ret. auto.
  - apply triple_ret. auto.
Qed.

Lemma FontSample_main_loop_body_own fuel d l win s e :
  triple L
    (at_ (owning true [(e, KEvents); (s, KSurface); (win, KWindow); (l, KLayer); (d, KMain)] [])
       (FontSample_handles d l win s e))
    (main_loop_body fuel)
    (fun r w => r = None /\
       at_ (owning true [(e, KEvents); (s, KSurface); (win, KWindow); (l, KLayer); (d, KMain)] [])
         (FontSample_handles d l win s e) w)
    (leaving FontSample_pending).
Proof.
  unfold main_loop_body.
  own_get.
  eapply (triple_bind _ _ _ _
    (fun _ => at_ (owning true [(e, KEvents); (s, KSurface); (win, KWindow); (l, KLayer);
                                (d, KMain)] [])
                (FontSample_handles d l win s e))).
  { apply triple_leaving. destruct (negb (update g =? 0)); cbn [when].
    - keep_then.
      eapply triple_bind.
      { destruct (negb (show_help g =? 0)).
        + apply FontSample_render_help_page_own.
        + apply FontSample_render_font_page_own. }
      take_result. keep_then.
      apply triple_modify_at. handles_solve.
    - apply triple_ret. auto. }
  take_result. leave_keep.
  eapply triple_bind; [apply FontSample_process_event_buffer_own|]. intros ?.
  apply triple_ret. auto.
Qed.

Lemma FontSample_parse_command_line_own args pending :
  triple L (at_ (owning false [] []) (FontSample_handles 0 0 0 0 0))
    (parse_command_line args)
    (fun _ => at_ (owning false [] []) (FontSample_handles 0 0 0 0 0))
    (leaving pending).
Proof.
  induction args as [|arg rest IH]; cbn [parse_command_line].
  - apply triple_ret. auto.
  - destruct (after_dash arg) as [opt|].
    + destruct (strcmp0 opt "-help").
      { leave_keep. apply triple_exit_unhooked. }
      destruct (strncmp0 opt "-size="); [|exact IH].
      own_get. leave_keep.
      own_set (FontSample_handles 0 0 0 0 0).
      own_set (FontSample_handles 0 0 0 0 0).
      exact IH.
    + own_set (FontSample_handles 0 0 0 0 0).
      apply (triple_modify_at _ _ _ (FontSample_handles 0 0 0 0 0)). handles_solve.
Qed.

Lemma FontSample_main_own fuel argv argv' :
  triple L (at_ (owning false [] []) (FontSample_handles 0 0 0 0 0))
    (main fuel argv argv')
    (fun n w => leaving FontSample_pending (returned n w))
    (leaving FontSample_pending).
Proof.
  unfold main.
  leave_keep.
  eapply triple_bind; [apply FontSample_parse_command_line_own|]. intros ?.
  own_get.
  destruct (fontfile_count g =? 0).
  { leave_keep. apply triple_exit_unhooked. }
  leave_new triple_lib_new_own. rename n into d.
  own_set (FontSample_handles d 0 0 0 0).
  eapply triple_bind; [apply triple_atexit_own|]. intros ?.
  own_get.
  leave_new triple_meth_new_own. rename n into l.
  own_set (FontSample_handles d l 0 0 0).
  own_get. leave_keep.
  own_set (FontSample_handles d l 0 0 0).
  own_set (FontSample_handles d l 0 0 0).
  own_get.
  leave_new triple_meth_new_own. rename n into win.
  own_set (FontSample_handles d l win 0 0).
  own_get.
  leave_new triple_meth_new_own. rename n into s.
  own_set (FontSample_handles d l win s 0).
  leave_new triple_meth_new_own. rename n into e.
  own_set (FontSample_handles d l win s e).
  do 2 leave_keep.
  apply triple_forever_on.
  { intros w [(_ & Hc & _) _]. left. exact Hc. }
  apply FontSample_main_loop_body_own.
Qed.

Lemma FontSample_dfb_shutdown_own :
  triple L FontSample_pending dfb_shutdown (fun _ => on_trace (having []))
    (fun _ => False).
Proof.
  unfold FontSample_pending, dfb_shutdown.
  apply triple_ex. intros d. apply triple_ex. intros l. apply triple_ex. intros win.
  apply triple_ex. intros s. apply triple_ex. intros e. eta_pre.
  apply (triple_having_nonzero L e KEvents); [set_solver|]. intros He.
  apply (triple_having_nonzero L s KSurface); [set_solver|]. intros Hs.
  apply (triple_having_nonzero L win KWindow); [set_solver|]. intros Hwin.
  apply (triple_having_nonzero L l KLayer); [set_solver|]. intros Hl.
  apply (triple_having_nonzero L d KMain); [set_solver|]. intros Hd.
  own_get.
  apply Nat.eqb_neq in He, Hs, Hwin, Hl, Hd. rewrite He, Hs, Hwin, Hl, Hd.
  cbn [negb when].
  repeat lazymatch goal with
         | |- triple _ (at_ (having (_ :: ?rest)) ?P) ((meth ?f _ _ ≫= _) ≫= _) _ _ =>
             apply (triple_bind _ _ _ _ (fun _ => at_ (having rest) P));
             [eapply triple_bind;
              [eapply triple_release_having; reflexivity
              |intros ?; apply triple_ret; intros w Hw; exact Hw]
             |intros ?]
         end.
  eapply triple_bind; [eapply triple_release_having; reflexivity|].
  intros ?. apply triple_ret. intros w [Hw _]. exact Hw.
Qed.

Lemma FontSample_dfb_shutdown_unended : keeps L unended unended dfb_shutdown.
Proof. unfold dfb_shutdown. keeps_go. Qed.

Lemma FontSample_parse_command_line_halting args : halting (parse_command_line args).
Proof. induction args as [|arg rest IH]; simpl; halting_go. Qed.

Lemma FontSample_main_halting fuel argv argv' : halting (main fuel argv argv').
Proof.
  pose proof FontSample_parse_command_line_halting.
  halting_go.
Qed.

Lemma FontSample_dfb_shutdown_halting : halting dfb_shutdown.
Proof. halting_go. Qed.

End FontSampleProcess.

(** X3: whenever df_font_sample ends with an exit code -- the usage message
    or a quit key in the event loop, after any number of rendered glyph and
    help pages -- each interface that it obtained (main interface, layer,
    window, surface, event buffer and the two fonts of every page) was
    released exactly once, through a pointer that was not [NULL], and none is
    left. *)
Theorem df_font_sample_releases_its_interfaces `{Headers} (o : oracle) (fuel : nat)
    (argv argv' : list string) :
  ends_with_code (df_font_sample fuel argv argv' o (start FontSample.init)) = true ->
  settled (log (final (df_font_sample fuel argv argv' o (start FontSample.init))))
    = true.
Proof.
  unfold df_font_sample.
  apply (process_settles any_library
           (at_ (owning false [] []) (FontSample_handles 0 0 0 0 0))
           FontSample_pending).
  - apply FontSample_main_own.
  - apply FontSample_main_halting.
  - apply FontSample_dfb_shutdown_own.
  - apply FontSample_dfb_shutdown_unended.
  - apply FontSample_dfb_shutdown_halting.
  - intros l f self args. exact Logic.I.
  - split.
    + split; [apply owns_nil|]. repeat split. intros x Hx. inversion Hx.
    + repeat split.
Qed.

Lemma df_font_sample_releases_its_interfaces_witness :
  settled (log (final (@df_font_sample directfb_headers 5
                         ["df_font_sample"; "decker.ttf"] ["df_font_sample"; "decker.ttf"]
                         (script [key_press 0x20; key_press 0x1B])
                         (start FontSample.init)))) = true.
Proof.
  apply (@df_font_sample_releases_its_interfaces directfb_headers). vm_compute.
  reflexivity.
Defined.

(** ** Navigation in the font sample *)

(** X4: in df_font_sample, as long as a page is no longer than the range of
    the glyph indices, the handling of any event -- any key, a key release,
    anything else -- leaves [first_glyph] within [0, 0xffff], [current_font]
    an index into the list of font files and both glyph counts at least 1. *)
Theorem font_sample_events_keep_the_range `{Headers} (evt : DFBWindowEvent) (o : oracle)
    (w : world FontSample.globals) :
  FontSample_navigable (glob w) ->
  FontSample_page_fits (glob w) ->
  FontSample_navigable (glob (final (FontSample.dispatch evt o w))).
Proof.
  intros Hnav Hfits. unfold FontSample.dispatch.
  destruct (evt_type evt); try exact Hnav.
  - pose proof (FontSample_key_down_navigable (key_symbol evt) o w Hnav Hfits) as Hpost.
    destruct (FontSample.key_down (key_symbol evt) o w) as [[] w'|c w'|w'] eqn:Hkey;
      cbn [post final] in *; try exact Hpost.
    + unfold FontSample.key_down in Hkey.
      repeat match type of Hkey with
             | context [if ?b then _ else _] => destruct b
             end;
        cbv [exit modify mret prog_ret ret] in Hkey; try discriminate Hkey;
        injection Hkey as _ <-; exact Hnav.
    + unfold FontSample.key_down in Hkey.
      repeat match type of Hkey with
             | context [if ?b then _ else _] => destruct b
             end;
        cbv [exit modify mret prog_ret ret] in Hkey; discriminate Hkey.
  - destruct w as [g l h]. cbn [glob] in *. cbv [modify final glob].
    destruct (negb (FontSample.show_help g =? 0)); exact Hnav.
Qed.

Lemma font_sample_events_keep_the_range_witness :
  FontSample_navigable
    (glob (final (@FontSample.dispatch directfb_headers (key_press 0xF007) all_ok
                    (start (FontSample.set_fontfile_count 1 FontSample.init))))).
Proof.
  apply (@font_sample_events_keep_the_range directfb_headers).
  - repeat split; vm_compute; first [reflexivity|discriminate].
  - vm_compute. discriminate.
Defined.

Lemma FontSample_after_keys_cons `{Headers} symbol symbols o w :
  FontSample_after_keys (symbol :: symbols) o w =
  FontSample_after_keys symbols o (final (FontSample.key_down symbol o w)).
Proof. reflexivity. Qed.

(** X5: the keys of df_font_sample that undo each other, with the key
    symbols of DirectFB's headers.  From a state in range, space then
    backspace, and backspace then space, leave [current_font] as it was (also
    at the first and at the last font file, where the index wraps); [+] then
    [-] leaves both glyph counts as they were; page down then page up leaves
    [first_glyph] as it was unless page down wrapped to 0. *)
Theorem font_sample_keys_undo_each_other (o : oracle) (w : world FontSample.globals) :
  FontSample_navigable (glob w) ->
  let after keys := glob (@FontSample_after_keys directfb_headers keys o w) in
  FontSample.current_font (after [0x20; 0x08]) = FontSample.current_font (glob w) /\
  FontSample.current_font (after [0x08; 0x20]) = FontSample.current_font (glob w) /\
  FontSample.glyphs_per_xline (after [0x2B; 0x2D]) = FontSample.glyphs_per_xline (glob w) /\
  FontSample.glyphs_per_yline (after [0x2B; 0x2D]) = FontSample.glyphs_per_yline (glob w) /\
  (FontSample.first_glyph (glob w) + FontSample.GLYPHS_PER_PAGE (glob w) <= 0xffff ->
   FontSample.first_glyph (after [0xF008; 0xF007]) = FontSample.first_glyph (glob w)).
Proof.
  destruct w as [g l h]. unfold FontSample_navigable. cbn [glob].
  intros (Hg & Hf & Hx & Hy). cbv zeta.
  unfold FontSample_after_keys, FontSample.key_down, FontSample.GLYPHS_PER_PAGE.
  cbn [fold_left].
  change (DFB_LOWER_CASE 32) with 32. change (DFB_LOWER_CASE 8) with 8.
  change (DFB_LOWER_CASE 43) with 43. change (DFB_LOWER_CASE 45) with 45.
  change (DFB_LOWER_CASE 61448) with 61448. change (DFB_LOWER_CASE 61447) with 61447.
  cbn.
  repeat match goal with
         | |- context [if ?b then _ else _] =>
             lazymatch b with
             | context [if _ then _ else _] => fail
             | _ => destruct b eqn:?
             end
         end;
    cbn in *;
    repeat match goal with
           | E : _ = true |- _ =>
               first [apply Z.ltb_lt in E|apply Z.leb_le in E
                     |rewrite Z.gtb_ltb in E; apply Z.ltb_lt in E
                     |rewrite Z.geb_leb in E; apply Z.leb_le in E]
           | E : _ = false |- _ =>
               first [apply Z.ltb_ge in E|apply Z.leb_gt in E
                     |rewrite Z.gtb_ltb in E; apply Z.ltb_ge in E
                     |rewrite Z.geb_leb in E; apply Z.leb_gt in E]
           end;
    repeat split; intros; lia.
Qed.

Lemma font_sample_keys_undo_each_other_witness :
  FontSample.current_font
    (glob (@FontSample_after_keys directfb_headers [0x20; 0x08] all_ok
             (start (FontSample.set_fontfile_count 1 FontSample.init)))) = 0.
Proof.
  refine (proj1 (font_sample_keys_undo_each_other all_ok
                   (start (FontSample.set_fontfile_count 1 FontSample.init)) _)).
  repeat split; vm_compute; first [reflexivity|discriminate].
Defined.

(** ** The handles of the music player *)

Section MusicSampleNeutral.
Context `{Headers} (L : libspec) (I J : list entry -> bool -> Prop).
Hypothesis Hinv : invariant neutral I J.
Import MusicSample.

#[local] Hint Resolve Hinv : trace.

Lemma MusicSample_unfreeze_neutral : keeps L I J unfreeze.
Proof. unfold unfreeze. keeps_go. Qed.

#[local] Hint Resolve MusicSample_unfreeze_neutral : progs.

Lemma MusicSample_on_key_neutral c m t len : keeps L I J (on_key c m t len).
Proof. unfold on_key. keeps_go. Qed.

#[local] Hint Resolve MusicSample_on_key_neutral : progs.

Lemma MusicSample_read_keys_neutral fuel m t len : keeps L I J (read_keys fuel m t len).
Proof. induction fuel as [|fuel IH]; simpl; keeps_go. Qed.

#[local] Hint Resolve MusicSample_read_keys_neutral : progs.

Lemma MusicSample_poll_neutral fuel m t len : keeps L I J (poll fuel m t len).
Proof. unfold poll. keeps_go. Qed.

#[local] Hint Resolve MusicSample_poll_neutral : progs.

Lemma MusicSample_poll_loop_neutral fuel m t len : keeps L I J (poll_loop fuel m t len).
Proof. induction fuel as [|fuel IH]; simpl; keeps_go. Qed.

End MusicSampleNeutral.

Section MusicSampleHolds.
Context `{Headers} (fs mu s p : nat).
Import MusicSample.

Ltac same_handles := try (intros ? Hg; exact Hg).

Lemma MusicSample_unfreeze_holds : holds (MusicSample_handles fs mu s p) unfreeze.
Proof. unfold unfreeze. holds_go; same_handles. Qed.

#[local] Hint Resolve MusicSample_unfreeze_holds : progs.

Lemma MusicSample_on_key_holds c m t len :
  holds (MusicSample_handles fs mu s p) (on_key c m t len).
Proof. unfold on_key. holds_go; same_handles. Qed.

#[local] Hint Resolve MusicSample_on_key_holds : progs.

Lemma MusicSample_read_keys_holds fuel m t len :
  holds (MusicSample_handles fs mu s p) (read_keys fuel m t len).
Proof. induction fuel as [|fuel IH]; simpl; holds_go; same_handles. Qed.

#[local] Hint Resolve MusicSample_read_keys_holds : progs.

Lemma MusicSample_poll_holds fuel m t len :
  holds (MusicSample_handles fs mu s p) (poll fuel m t len).
Proof. unfold poll. holds_go; same_handles. Qed.

#[local] Hint Resolve MusicSample_poll_holds : progs.

Lemma MusicSample_poll_loop_holds fuel m t len :
  holds (MusicSample_handles fs mu s p) (poll_loop fuel m t len).
Proof. induction fuel as [|fuel IH]; simpl; holds_go; same_handles. Qed.

End MusicSampleHolds.

Section MusicSampleHandles.
Context `{Headers} (L : libspec).
Import MusicSample.

Lemma MusicSample_poll_loop_own fuel m t len hs fs mu s p :
  triple L (at_ (owning false hs []) (MusicSample_handles fs mu s p))
    (poll_loop fuel m t len)
    (fun _ => at_ (owning false hs []) (MusicSample_handles fs mu s p))
    (on_trace unended).
Proof.
  apply keeps_holds.
  - apply MusicSample_poll_loop_neutral, owning_invariant.
  - apply MusicSample_poll_loop_holds.
Qed.

Lemma MusicSample_play_track_own fuel m t hs fs mu s p :
  triple L
    (at_ (owning false (own_if p KPlayback ++ own_if s KStream ++ hs) [])
       (MusicSample_handles fs mu s p))
    (play_track fuel m t)
    (fun _ w => exists s' p',
       at_ (owning false (own_if p' KPlayback ++ own_if s' KStream ++ hs) [])
         (MusicSample_handles fs mu s' p') w)
    (on_trace unended).
Proof.
  unfold play_track.
  own_get. rename Hg into Hsp.
  own_set (MusicSample_handles fs mu s p).
  keep_then.
  destruct (negb (is_ok (a_ret x0))).
  { apply triple_ret. eauto. }
  keep_then.
  eapply (triple_bind _ _ _ _
    (fun _ w => exists s' p',
       at_ (owning false (own_if p' KPlayback ++ own_if s' KStream ++ hs) [])
         (MusicSample_handles fs mu s' p') w)).
  { destruct (Nat.eqb_spec s 0) as [->|Hs]; cbn [negb when].
    - apply triple_ret. eauto.
    - keep_then.
      lazymatch goal with |- triple _ _ (when ?b _) _ _ => destruct b end; cbn [when].
      + keep_then.
        destruct (Nat.eqb_spec p 0) as [->|Hp]; [apply triple_meth_null|].
        rewrite (own_if_nonzero p), (own_if_nonzero s) by assumption.
        own_release ([(s, KStream)] ++ hs).
        own_set (MusicSample_handles fs mu s 0).
        own_release hs.
        eapply triple_post;
          [apply (triple_modify_at _ _ _ (MusicSample_handles fs mu 0 0)); handles_solve|].
        intros ? w Hw. exists 0%nat, 0%nat. exact Hw.
      + apply triple_ret. eauto. }
  intros _. apply triple_ex. intros s1. apply triple_ex. intros p1. eta_pre.
  own_get. rename Hg into Hsp1.
  eapply (triple_bind _ _ _ _
    (fun _ w => exists s' p',
       at_ (owning false (own_if p' KPlayback ++ own_if s' KStream ++ hs) [])
         (MusicSample_handles fs mu s' p') w)).
  { destruct (Nat.eqb_spec s1 0) as [Hs1|Hs1]; [|apply triple_ret; eauto].
    rewrite (Hsp1 Hs1). subst s1. cbn [own_if Nat.eqb app].
    own_then triple_meth_new_own. cbn [fst snd]. rename n into sn.
    destruct (is_ok (a_ret a)); cbn [negb]; apply triple_pure; intros Hsn.
    - own_set (MusicSample_handles fs mu sn 0).
      keep_then.
      own_then triple_meth_new_if. apply triple_pure. cbn [fst snd]. intros _.
      rename n into pn.
      own_set (MusicSample_handles fs mu sn pn).
      apply triple_ret. intros w Hw. exists sn, pn.
      rewrite (own_if_nonzero sn) by exact Hsn. exact Hw.
    - subst sn.
      own_set (MusicSample_handles fs mu 0 0).
      keep_then. apply triple_ret. intros w Hw. exists 0%nat, 0%nat. exact Hw. }
  intros created_or_kept. apply triple_ex. intros s2. apply triple_ex. intros p2. eta_pre.
  destruct (negb created_or_kept).
  { apply triple_ret. eauto. }
  own_get.
  repeat keep_then.
  lazymatch goal with
  | |- triple _ _ (if ?b then _ else _) _ _ => destruct b
  end.
  { keep_then. apply triple_ret. eauto. }
  repeat keep_then.
  own_then MusicSample_poll_loop_own.
  keep_then. apply triple_ret. eauto.
Qed.

Ltac playing_open :=
  unfold MusicSample_playing;
  let s := fresh "s" in
  let p := fresh "p" in
  apply triple_ex; intros s; apply triple_ex; intros p; eta_pre.

Lemma MusicSample_track_loop_own fuel m track fs mu :
  triple L (MusicSample_playing fs mu) (track_loop fuel m track)
    (fun _ => MusicSample_playing fs mu) (on_trace unended).
Proof.
  revert track. induction fuel as [|fuel IH]; intros track; cbn [track_loop].
  - playing_open. apply triple_spin_own.
  - destruct track as [t|].
    + eapply triple_bind.
      { playing_open. apply MusicSample_play_track_own. }
      intros [|]; cbv beta iota.
      * eapply triple_bind;
          [apply triple_get_pure with (P := MusicSample_playing fs mu)|].
        intros g. eapply triple_pre; [apply IH|]. intros w [Hw _]. exact Hw.
      * apply triple_ret. auto.
    + apply triple_ret. auto.
Qed.

Lemma MusicSample_play_media_own fuel m fs :
  triple L (MusicSample_playing fs 0) (play_media fuel m)
    (fun _ => MusicSample_playing fs 0) (on_trace unended).
Proof.
  unfold play_media.
  playing_open. cbn [own_if Nat.eqb app].
  own_get. rename Hg into Hsp.
  own_set (MusicSample_handles fs 0 s p).
  own_then triple_meth_new_own. cbn [fst snd]. rename n into mu.
  destruct (is_ok (a_ret a)); cbn [negb]; apply triple_pure; intros Hmu.
  - own_set (MusicSample_handles fs mu s p).
    keep_then. keep_then.
    eapply triple_bind; [apply triple_get_at|]. intros g1. apply triple_pure. intros _.
    eapply (triple_bind _ _ _ _ (fun _ => MusicSample_playing fs mu)).
    { eapply triple_pre; [apply MusicSample_track_loop_own|].
      intros w Hw. exists s, p. rewrite (own_if_nonzero mu) by exact Hmu.
      eapply at_owning_perm; [|exact Hw]. cbn [app]. solve_Permutation. }
    intros _. playing_open. rewrite (own_if_nonzero mu) by exact Hmu.
    own_release (own_if p0 KPlayback ++ own_if s0 KStream ++ [(fs, KSound)]).
    own_set (MusicSample_handles fs 0 s0 p0).
    eapply triple_post;
      [apply (triple_modify_at _ _ _ (MusicSample_handles fs 0 s0 p0)); handles_solve|].
    intros ? w Hw. exists s0, p0. exact Hw.
  - subst mu.
    own_set (MusicSample_handles fs 0 s p).
    apply triple_ret. intros w Hw. exists s, p. exact Hw.
Qed.

Lemma MusicSample_media_loop_own fuel media fs :
  triple L (MusicSample_playing fs 0) (media_loop fuel media)
    (fun _ => MusicSample_playing fs 0) (on_trace unended).
Proof.
  revert media. induction fuel as [|fuel IH]; intros media; cbn [media_loop].
  - playing_open. apply triple_spin_own.
  - eapply triple_bind; [apply triple_get_pure with (P := MusicSample_playing fs 0)|].
    intros g. eapply triple_pre with (P := MusicSample_playing fs 0);
      [|intros w [Hw _]; exact Hw].
    destruct media as [m|]; [|apply triple_ret; auto].
    destruct (negb (main_quit g =? 0)); [apply triple_ret; auto|].
    eapply triple_bind; [apply MusicSample_play_media_own|]. intros ?; cbv beta.
    eapply triple_bind; [apply triple_get_pure with (P := MusicSample_playing fs 0)|].
    intros g1. eapply triple_pre; [apply IH|]. intros w [Hw _]. exact Hw.
Qed.

Lemma MusicSample_playlist_loop_own fuel fs :
  triple L (MusicSample_playing fs 0) (playlist_loop fuel)
    (fun _ => MusicSample_playing fs 0) (on_trace unended).
Proof.
  induction fuel as [|fuel IH]; cbn [playlist_loop].
  - playing_open. apply triple_spin_own.
  - eapply triple_bind; [apply triple_get_pure with (P := MusicSample_playing fs 0)|].
    intros g. eapply triple_pre with (P := MusicSample_playing fs 0);
      [|intros w [Hw _]; exact Hw].
    eapply triple_bind; [apply MusicSample_media_loop_own|]. intros ?; cbv beta.
    eapply triple_bind; [apply triple_get_pure with (P := MusicSample_playing fs 0)|].
    intros g1. eapply triple_pre with (P := MusicSample_playing fs 0);
      [|intros w [Hw _]; exact Hw].
    destruct (negb (main_repeat g1 =? 0) && (main_quit g1 =? 0)).
    + apply IH.
    + apply triple_ret. auto.
Qed.

Lemma MusicSample_fs_shutdown_own fs :
  triple L (MusicSample_playing fs 0) fs_shutdown
    (fun _ => at_ (owning false [] []) (fun _ => True)) (on_trace unended).
Proof.
  unfold fs_shutdown.
  playing_open. cbn [own_if Nat.eqb app].
  apply (triple_owning_nonzero L false fs KSound); [set_solver|]. intros Hfs.
  own_get. rename Hg into Hsp.
  eapply (triple_bind _ _ _ _
    (fun _ => at_ (owning false (own_if s KStream ++ [(fs, KSound)]) [])
                (MusicSample_handles fs 0 s p))).
  { destruct (Nat.eqb_spec p 0) as [->|Hp]; cbn [negb when].
    - apply triple_ret. auto.
    - rewrite (own_if_nonzero p) by exact Hp.
      own_release (own_if s KStream ++ [(fs, KSound)]).
      apply triple_ret. auto. }
  intros _.
  eapply (triple_bind _ _ _ _
    (fun _ => at_ (owning false [(fs, KSound)] []) (MusicSample_handles fs 0 s p))).
  { destruct (Nat.eqb_spec s 0) as [->|Hs]; cbn [negb when].
    - apply triple_ret. auto.
    - rewrite (own_if_nonzero s) by exact Hs.
      own_release [(fs, KSound)].
      apply triple_ret. auto. }
  intros _.
  apply Nat.eqb_neq in Hfs. rewrite Hfs. cbn [negb when].
  eapply (triple_bind _ _ _ _
    (fun _ => at_ (owning false [] []) (MusicSample_handles fs 0 s p))).
  { own_release (@nil (nat * kind)). apply triple_ret. auto. }
  intros _.
  eapply triple_post; [apply keeps_holds; [solve [keeps_go]|holds_solve]|].
  intros _ w [Hw _]. split; [exact Hw|exact Logic.I].
Qed.

Lemma MusicSample_parse_command_line_own args id pending :
  triple L (at_ (owning false [] []) (MusicSample_handles 0 0 0 0))
    (parse_command_line args id)
    (fun _ => at_ (owning false [] []) (MusicSample_handles 0 0 0 0))
    (leaving pending).
Proof.
  revert id. induction args as [|arg rest IH]; intros id; cbn [parse_command_line].
  - apply triple_ret. auto.
  - destruct (after_dash arg) as [opt|].
    + destruct (strcmp0 opt "-help").
      { leave_keep. apply triple_exit_unhooked. }
      destruct (strcmp0 opt "-quiet").
      { own_set (MusicSample_handles 0 0 0 0). apply IH. }
      destruct (strcmp0 opt "-depth=").
      { do 2 leave_keep. apply IH. }
      destruct (strncmp0 opt "-gain=").
      { own_set (MusicSample_handles 0 0 0 0). apply IH. }
      apply IH.
    + own_set (MusicSample_handles 0 0 0 0). apply IH.
Qed.

Lemma MusicSample_main_own fuel argv argv' :
  triple L (at_ (owning false [] []) (MusicSample_handles 0 0 0 0))
    (main fuel argv argv')
    (fun n w => leaving nothing_pending (returned n w))
    (leaving nothing_pending).
Proof.
  unfold main.
  destruct (argc argv <? 2).
  { leave_keep. apply triple_exit_unhooked. }
  leave_keep.
  eapply triple_bind; [apply MusicSample_parse_command_line_own|]. intros ?.
  own_get.
  destruct (medias g) as [|media medias'].
  { leave_keep. apply triple_exit_unhooked. }
  do 2 leave_keep.
  leave_new triple_lib_new_own. rename n into fs.
  own_set (MusicSample_handles fs 0 0 0).
  eapply (triple_bind _ _ _ _ (fun _ => MusicSample_playing fs 0)).
  { apply triple_leaving. eapply triple_pre; [apply MusicSample_playlist_loop_own|].
    intros w Hw. exists 0%nat, 0%nat. exact Hw. }
  intros ?.
  eapply triple_bind; [apply triple_leaving, MusicSample_fs_shutdown_own|]. intros ?.
  apply triple_exit_unhooked.
Qed.

Lemma MusicSample_fs_shutdown_unended : keeps L unended unended fs_shutdown.
Proof. unfold fs_shutdown. keeps_go. Qed.

Lemma MusicSample_read_keys_halting fuel m t len : halting (read_keys fuel m t len).
Proof. induction fuel as [|fuel IH]; simpl; halting_go. Qed.

#[local] Hint Resolve MusicSample_read_keys_halting : halts.

Lemma MusicSample_poll_loop_halting fuel m t len : halting (poll_loop fuel m t len).
Proof. induction fuel as [|fuel IH]; simpl; halting_go. Qed.

#[local] Hint Resolve MusicSample_poll_loop_halting : halts.

Lemma MusicSample_track_loop_halting fuel m track : halting (track_loop fuel m track).
Proof. revert track. induction fuel as [|fuel IH]; intros track; simpl; halting_go. Qed.

#[local] Hint Resolve MusicSample_track_loop_halting : halts.

Lemma MusicSample_media_loop_halting fuel media : halting (media_loop fuel media).
Proof. revert media. induction fuel as [|fuel IH]; intros media; simpl; halting_go. Qed.

#[local] Hint Resolve MusicSample_media_loop_halting : halts.

Lemma MusicSample_playlist_loop_halting fuel : halting (playlist_loop fuel).
Proof. induction fuel as [|fuel IH]; simpl; halting_go. Qed.

Lemma MusicSample_parse_command_line_halting args id :
  halting (parse_command_line args id).
Proof. revert id. induction args as [|arg rest IH]; intros id; simpl; halting_go. Qed.

#[local] Hint Resolve MusicSample_playlist_loop_halting
  MusicSample_parse_command_line_halting : halts.

Lemma MusicSample_fs_shutdown_halting : halting fs_shutdown.
Proof. halting_go. Qed.

#[local] Hint Resolve MusicSample_fs_shutdown_halting : halts.

Lemma MusicSample_main_halting fuel argv argv' : halting (main fuel argv argv').
Proof. halting_go. Qed.

End MusicSampleHandles.

(** X6: whenever fs_music_sample ends with an exit code -- after the usage
    message, at the end of the playlist or when the user quits -- each
    interface that it obtained (main interface, the music provider of every
    media, every stream and its playback, also those replaced because the
    format of a track differs) was released exactly once, through a pointer
    that was not [NULL], and none is left. *)
Theorem fs_music_sample_releases_its_interfaces `{Headers} (o : oracle) (fuel : nat)
    (argv argv' : list string) :
  ends_with_code (fs_music_sample fuel argv argv' o (start MusicSample.init)) = true ->
  settled (log (final (fs_music_sample fuel argv argv' o (start MusicSample.init))))
    = true.
Proof.
  unfold fs_music_sample.
  apply (process_settles any_library
           (at_ (owning false [] []) (MusicSample_handles 0 0 0 0))
           nothing_pending).
  - apply MusicSample_main_own.
  - apply MusicSample_main_halting.
  - intros w [].
  - apply MusicSample_fs_shutdown_unended.
  - apply MusicSample_fs_shutdown_halting.
  - intros l f self args. exact Logic.I.
  - split.
    + split; [apply owns_nil|]. repeat split. intros x Hx. inversion Hx.
    + repeat split.
Qed.

Lemma fs_music_sample_releases_its_interfaces_witness :
  settled (log (final (@fs_music_sample directfb_headers 20
                         ["fs_music_sample"; "a.ogg"; "b.ogg"]
                         ["fs_music_sample"; "a.ogg"; "b.ogg"]
                         (@one_track directfb_headers)
                         (start MusicSample.init)))) = true.
Proof.
  apply (@fs_music_sample_releases_its_interfaces directfb_headers). vm_compute.
  reflexivity.
Defined.

(** ** The handles of the music player with a playing direction *)

Section MusicSampleDirNeutral.
Context `{Headers} (L : libspec) (I J : list entry -> bool -> Prop).
Hypothesis Hinv : invariant neutral I J.
Import MusicSampleDir.

#[local] Hint Resolve Hinv : trace.

Lemma MusicSampleDir_unfreeze_neutral : keeps L I J unfreeze.
Proof. unfold unfreeze. keeps_go. Qed.

#[local] Hint Resolve MusicSampleDir_unfreeze_neutral : progs.

Lemma MusicSampleDir_on_key_neutral mp c m t len : keeps L I J (on_key mp c m t len).
Proof. unfold on_key. keeps_go. Qed.

#[local] Hint Resolve MusicSampleDir_on_key_neutral : progs.

Lemma MusicSampleDir_read_keys_neutral fuel mp m t len : keeps L I J (read_keys fuel mp m t len).
Proof. induction fuel as [|fuel IH]; simpl; keeps_go. Qed.

#[local] Hint Resolve MusicSampleDir_read_keys_neutral : progs.

Lemma MusicSampleDir_poll_neutral fuel mp m t len : keeps L I J (poll fuel mp m t len).
Proof. unfold poll. keeps_go. Qed.

#[local] Hint Resolve MusicSampleDir_poll_neutral : progs.

Lemma MusicSampleDir_poll_loop_neutral fuel mp m t len : keeps L I J (poll_loop fuel mp m t len).
Proof. induction fuel as [|fuel IH]; simpl; keeps_go. Qed.

End MusicSampleDirNeutral.

Section MusicSampleDirHolds.
Context `{Headers} (fs s p : nat).
Import MusicSampleDir.

Ltac same_handles := try (intros ? Hg; exact Hg).

Lemma MusicSampleDir_unfreeze_holds : holds (MusicSampleDir_handles fs s p) unfreeze.
Proof. unfold unfreeze. holds_go; same_handles. Qed.

#[local] Hint Resolve MusicSampleDir_unfreeze_holds : progs.

Lemma MusicSampleDir_on_key_holds mp c m t len :
  holds (MusicSampleDir_handles fs s p) (on_key mp c m t len).
Proof. unfold on_key. holds_go; same_handles. Qed.

#[local] Hint Resolve MusicSampleDir_on_key_holds : progs.

Lemma MusicSampleDir_read_keys_holds fuel mp m t len :
  holds (MusicSampleDir_handles fs s p) (read_keys fuel mp m t len).
Proof. induction fuel as [|fuel IH]; simpl; holds_go; same_handles. Qed.

#[local] Hint Resolve MusicSampleDir_read_keys_holds : progs.

Lemma MusicSampleDir_poll_holds fuel mp m t len :
  holds (MusicSampleDir_handles fs s p) (poll fuel mp m t len).
Proof. unfold poll. holds_go; same_handles. Qed.

#[local] Hint Resolve MusicSampleDir_poll_holds : progs.

Lemma MusicSampleDir_poll_loop_holds fuel mp m t len :
  holds (MusicSampleDir_handles fs s p) (poll_loop fuel mp m t len).
Proof. induction fuel as [|fuel IH]; simpl; holds_go; same_handles. Qed.

End MusicSampleDirHolds.

Section MusicSampleDirHandles.
Context `{Headers} (L : libspec).
Import MusicSampleDir.

Lemma MusicSampleDir_poll_loop_own fuel mp m t len hs fs s p :
  triple L (at_ (owning true hs []) (MusicSampleDir_handles fs s p))
    (poll_loop fuel mp m t len)
    (fun _ => at_ (owning true hs []) (MusicSampleDir_handles fs s p))
    (on_trace unended).
Proof.
  apply keeps_holds.
  - apply MusicSampleDir_poll_loop_neutral, owning_invariant.
  - apply MusicSampleDir_poll_loop_holds.
Qed.

Lemma MusicSampleDir_play_track_own fuel mp m t hs fs s p :
  triple L
    (at_ (owning true (own_if p KPlayback ++ own_if s KStream ++ hs) [])
       (MusicSampleDir_handles fs s p))
    (play_track fuel mp m t)
    (fun _ w => exists s' p',
       at_ (owning true (own_if p' KPlayback ++ own_if s' KStream ++ hs) [])
         (MusicSampleDir_handles fs s' p') w)
    (on_trace unended).
Proof.
  unfold play_track.
  own_get. rename Hg into Hsp.
  own_set (MusicSampleDir_handles fs s p).
  keep_then.
  destruct (negb (is_ok (a_ret x0))).
  { apply triple_ret. eauto. }
  keep_then.
  eapply (triple_bind _ _ _ _
    (fun _ w => exists s' p',
       at_ (owning true (own_if p' KPlayback ++ own_if s' KStream ++ hs) [])
         (MusicSampleDir_handles fs s' p') w)).
  { destruct (Nat.eqb_spec s 0) as [->|Hs]; cbn [negb when].
    - apply triple_ret. eauto.
    - keep_then.
      lazymatch goal with |- triple _ _ (when ?b _) _ _ => destruct b end; cbn [when].
      + keep_then.
        destruct (Nat.eqb_spec p 0) as [->|Hp]; [apply triple_meth_null|].
        rewrite (own_if_nonzero p), (own_if_nonzero s) by assumption.
        own_release ([(s, KStream)] ++ hs).
        own_set (MusicSampleDir_handles fs s 0).
        own_release hs.
        eapply triple_post;
          [apply (triple_modify_at _ _ _ (MusicSampleDir_handles fs 0 0)); handles_solve|].
        intros ? w Hw. exists 0%nat, 0%nat. exact Hw.
      + apply triple_ret. eauto. }
  intros _. apply triple_ex. intros s1. apply triple_ex. intros p1. eta_pre.
  own_get. rename Hg into Hsp1.
  eapply (triple_bind _ _ _ _
    (fun _ w => exists s' p',
       at_ (owning true (own_if p' KPlayback ++ own_if s' KStream ++ hs) [])
         (MusicSampleDir_handles fs s' p') w)).
  { destruct (Nat.eqb_spec s1 0) as [Hs1|Hs1]; [|apply triple_ret; eauto].
    rewrite (Hsp1 Hs1). subst s1. cbn [own_if Nat.eqb app].
    own_then triple_meth_new_own. cbn [fst snd]. rename n into sn.
    destruct (is_ok (a_ret a)); cbn [negb]; apply triple_pure; intros Hsn.
    - own_set (MusicSampleDir_handles fs sn 0).
      keep_then.
      own_then triple_meth_new_if. apply triple_pure. cbn [fst snd]. intros _.
      rename n into pn.
      own_set (MusicSampleDir_handles fs sn pn).
      apply triple_ret. intros w Hw. exists sn, pn.
      rewrite (own_if_nonzero sn) by exact Hsn. exact Hw.
    - subst sn.
      own_set (MusicSampleDir_handles fs 0 0).
      keep_then. apply triple_ret. intros w Hw. exists 0%nat, 0%nat. exact Hw. }
  intros created_or_kept. apply triple_ex. intros s2. apply triple_ex. intros p2. eta_pre.
  destruct (negb created_or_kept).
  { apply triple_ret. eauto. }
  own_get.
  repeat keep_then.
  lazymatch goal with
  | |- triple _ _ (if ?b then _ else _) _ _ => destruct b
  end.
  { keep_then. apply triple_ret. eauto. }
  repeat keep_then.
  own_then MusicSampleDir_poll_loop_own.
  keep_then. apply triple_ret. eauto.
Qed.

Ltac playing_open :=
  unfold MusicSampleDir_playing;
  let s := fresh "s" in
  let p := fresh "p" in
  apply triple_ex; intros s; apply triple_ex; intros p; eta_pre.

Lemma MusicSampleDir_track_loop_own fuel mp m track fs mu :
  triple L (MusicSampleDir_playing fs mu) (track_loop fuel mp m track)
    (fun _ => MusicSampleDir_playing fs mu) (on_trace unended).
Proof.
  revert track. induction fuel as [|fuel IH]; intros track; cbn [track_loop].
  - playing_open. apply triple_spin_own.
  - eapply triple_bind; [apply triple_get_pure with (P := MusicSampleDir_playing fs mu)|].
    intros g. eapply triple_pre with (P := MusicSampleDir_playing fs mu);
      [|intros w [Hw _]; exact Hw].
    destruct track as [t|]; [|apply triple_ret; auto].
    destruct (negb (main_quit g =? 0)); [apply triple_ret; auto|].
    eapply triple_bind.
    { playing_open. apply MusicSampleDir_play_track_own. }
    intros [|]; cbv beta iota.
    + eapply triple_bind;
        [apply triple_get_pure with (P := MusicSampleDir_playing fs mu)|].
      intros g1. eapply triple_pre; [apply IH|]. intros w [Hw _]. exact Hw.
    + apply triple_ret. auto.
Qed.

Lemma MusicSampleDir_play_media_own fuel m fs :
  triple L (MusicSampleDir_playing fs 0) (play_media fuel m)
    (fun _ => MusicSampleDir_playing fs 0) (on_trace unended).
Proof.
  unfold play_media.
  playing_open. cbn [own_if Nat.eqb app].
  own_get. rename Hg into Hsp.
  own_set (MusicSampleDir_handles fs s p).
  own_then triple_meth_new_own. cbn [fst snd]. rename n into mu.
  destruct (is_ok (a_ret a)); cbn [negb]; apply triple_pure; intros Hmu.
  - keep_then. keep_then.
    eapply triple_bind; [apply triple_get_at|]. intros g1. apply triple_pure. intros _.
    eapply (triple_bind _ _ _ _ (fun _ => MusicSampleDir_playing fs mu)).
    { eapply triple_pre; [apply MusicSampleDir_track_loop_own|].
      intros w Hw. exists s, p. rewrite (own_if_nonzero mu) by exact Hmu.
      eapply at_owning_perm; [|exact Hw]. cbn [app]. solve_Permutation. }
    intros _. playing_open. rewrite (own_if_nonzero mu) by exact Hmu.
    own_release (own_if p0 KPlayback ++ own_if s0 KStream ++ [(fs, KSound)]).
    eapply triple_post;
      [apply (triple_modify_at _ _ _ (MusicSampleDir_handles fs s0 p0)); handles_solve|].
    intros ? w Hw. exists s0, p0. exact Hw.
  - apply triple_ret. intros w Hw. exists s, p. exact Hw.
Qed.

Lemma MusicSampleDir_media_loop_own fuel media fs :
  triple L (MusicSampleDir_playing fs 0) (media_loop fuel media)
    (fun _ => MusicSampleDir_playing fs 0) (on_trace unended).
Proof.
  revert media. induction fuel as [|fuel IH]; intros media; cbn [media_loop].
  - playing_open. apply triple_spin_own.
  - eapply triple_bind; [apply triple_get_pure with (P := MusicSampleDir_playing fs 0)|].
    intros g. eapply triple_pre with (P := MusicSampleDir_playing fs 0);
      [|intros w [Hw _]; exact Hw].
    destruct media as [m|]; [|apply triple_ret; auto].
    destruct (negb (main_quit g =? 0)); [apply triple_ret; auto|].
    eapply triple_bind; [apply MusicSampleDir_play_media_own|]. intros ?; cbv beta.
    eapply triple_bind; [apply triple_get_pure with (P := MusicSampleDir_playing fs 0)|].
    intros g1. eapply triple_pre; [apply IH|]. intros w [Hw _]. exact Hw.
Qed.

Lemma MusicSampleDir_playlist_loop_own fuel fs :
  triple L (MusicSampleDir_playing fs 0) (playlist_loop fuel)
    (fun _ => MusicSampleDir_playing fs 0) (on_trace unended).
Proof.
  induction fuel as [|fuel IH]; cbn [playlist_loop].
  - playing_open. apply triple_spin_own.
  - eapply triple_bind; [apply triple_get_pure with (P := MusicSampleDir_playing fs 0)|].
    intros g. eapply triple_pre with (P := MusicSampleDir_playing fs 0);
      [|intros w [Hw _]; exact Hw].
    eapply triple_bind; [apply MusicSampleDir_media_loop_own|]. intros ?; cbv beta.
    eapply triple_bind; [apply triple_get_pure with (P := MusicSampleDir_playing fs 0)|].
    intros g1. eapply triple_pre with (P := MusicSampleDir_playing fs 0);
      [|intros w [Hw _]; exact Hw].
    destruct (negb (main_repeat g1 =? 0) && (main_quit g1 =? 0)).
    + apply IH.
    + apply triple_ret. auto.
Qed.

Lemma MusicSampleDir_fs_shutdown_own :
  triple L MusicSampleDir_pending fs_shutdown (fun _ => on_trace (having []))
    (fun _ => False).
Proof.
  unfold MusicSampleDir_pending, fs_shutdown.
  apply triple_ex. intros fs. apply triple_ex. intros s. apply triple_ex. intros p.
  eta_pre.
  apply (triple_having_nonzero L fs KSound); [set_solver|]. intros Hfs.
  own_get. rename Hg into Hsp.
  eapply (triple_bind _ _ _ _
    (fun _ => at_ (having (own_if s KStream ++ [(fs, KSound)]))
                (MusicSampleDir_handles fs s p))).
  { destruct (Nat.eqb_spec p 0) as [->|Hp]; cbn [negb when].
    - apply triple_ret. auto.
    - rewrite (own_if_nonzero p) by exact Hp.
      eapply triple_bind; [eapply triple_release_having; reflexivity|].
      intros ?. apply triple_ret. auto. }
  intros _.
  eapply (triple_bind _ _ _ _
    (fun _ => at_ (having [(fs, KSound)]) (MusicSampleDir_handles fs s p))).
  { destruct (Nat.eqb_spec s 0) as [->|Hs]; cbn [negb when].
    - apply triple_ret. auto.
    - rewrite (own_if_nonzero s) by exact Hs.
      eapply triple_bind; [eapply triple_release_having; reflexivity|].
      intros ?. apply triple_ret. auto. }
  intros _.
  apply Nat.eqb_neq in Hfs. rewrite Hfs. cbn [negb when].
  eapply (triple_bind _ _ _ _
    (fun _ => at_ (having []) (MusicSampleDir_handles fs s p))).
  { eapply triple_bind; [eapply triple_release_having; reflexivity|].
    intros ?. apply triple_ret. auto. }
  intros _.
  eapply triple_bind; [apply triple_lib_having; split; reflexivity|]. intros tty.
  destruct (negb (a_int tty =? 0)); cbn [when].
  - eapply triple_bind; [apply triple_lib_having; split; reflexivity|]. intros ?.
    apply triple_ret. intros w [Hw _]. exact Hw.
  - apply triple_ret. intros w [Hw _]. exact Hw.
Qed.

Lemma MusicSampleDir_parse_command_line_own args id pending :
  triple L (at_ (owning false [] []) (MusicSampleDir_handles 0 0 0))
    (parse_command_line args id)
    (fun _ => at_ (owning false [] []) (MusicSampleDir_handles 0 0 0))
    (leaving pending).
Proof.
  revert id. induction args as [|arg rest IH]; intros id; cbn [parse_command_line].
  - apply triple_ret. auto.
  - destruct (after_dash arg) as [opt|].
    + destruct (strcmp0 opt "-help").
      { leave_keep. apply triple_exit_unhooked. }
      destruct (strcmp0 opt "-quiet").
      { own_set (MusicSampleDir_handles 0 0 0). apply IH. }
      destruct (strncmp0 opt "-depth=").
      { do 2 leave_keep. apply IH. }
      destruct (strncmp0 opt "-gain=").
      { own_set (MusicSampleDir_handles 0 0 0). apply IH. }
      apply IH.
    + own_set (MusicSampleDir_handles 0 0 0). apply IH.
Qed.

Lemma MusicSampleDir_main_own fuel argv argv' :
  triple L (at_ (owning false [] []) (MusicSampleDir_handles 0 0 0))
    (main fuel argv argv')
    (fun n w => leaving MusicSampleDir_pending (returned n w))
    (leaving MusicSampleDir_pending).
Proof.
  unfold main.
  destruct (argc argv <? 2).
  { leave_keep. apply triple_exit_unhooked. }
  leave_keep.
  eapply triple_bind; [apply MusicSampleDir_parse_command_line_own|]. intros ?.
  own_get.
  destruct (medias g) as [|media medias'].
  { leave_keep. apply triple_exit_unhooked. }
  do 2 leave_keep.
  leave_new triple_lib_new_own. rename n into fs.
  own_set (MusicSampleDir_handles fs 0 0).
  eapply triple_bind; [apply triple_atexit_own|]. intros ?.
  eapply (triple_bind _ _ _ _ (fun _ => MusicSampleDir_playing fs 0)).
  { apply triple_leaving. eapply triple_pre; [apply MusicSampleDir_playlist_loop_own|].
    intros w Hw. exists 0%nat, 0%nat. exact Hw. }
  intros ?. playing_open. cbn [own_if Nat.eqb app].
  apply triple_exit_hooked. intros w Hw. exists fs, s, p. exact Hw.
Qed.

Lemma MusicSampleDir_fs_shutdown_unended : keeps L unended unended fs_shutdown.
Proof. unfold fs_shutdown. keeps_go. Qed.

Lemma MusicSampleDir_read_keys_halting fuel mp m t len : halting (read_keys fuel mp m t len).
Proof. induction fuel as [|fuel IH]; simpl; halting_go. Qed.

#[local] Hint Resolve MusicSampleDir_read_keys_halting : halts.

Lemma MusicSampleDir_poll_loop_halting fuel mp m t len : halting (poll_loop fuel mp m t len).
Proof. induction fuel as [|fuel IH]; simpl; halting_go. Qed.

#[local] Hint Resolve MusicSampleDir_poll_loop_halting : halts.

Lemma MusicSampleDir_track_loop_halting fuel mp m track : halting (track_loop fuel mp m track).
Proof. revert track. induction fuel as [|fuel IH]; intros track; simpl; halting_go. Qed.

#[local] Hint Resolve MusicSampleDir_track_loop_halting : halts.

Lemma MusicSampleDir_media_loop_halting fuel media : halting (media_loop fuel media).
Proof. revert media. induction fuel as [|fuel IH]; intros media; simpl; halting_go. Qed.

#[local] Hint Resolve MusicSampleDir_media_loop_halting : halts.

Lemma MusicSampleDir_playlist_loop_halting fuel : halting (playlist_loop fuel).
Proof. induction fuel as [|fuel IH]; simpl; halting_go. Qed.

Lemma MusicSampleDir_parse_command_line_halting args id :
  halting (parse_command_line args id).
Proof. revert id. induction args as [|arg rest IH]; intros id; simpl; halting_go. Qed.

#[local] Hint Resolve MusicSampleDir_playlist_loop_halting
  MusicSampleDir_parse_command_line_halting : halts.

Lemma MusicSampleDir_fs_shutdown_halting : halting fs_shutdown.
Proof. halting_go. Qed.

#[local] Hint Resolve MusicSampleDir_fs_shutdown_halting : halts.

Lemma MusicSampleDir_main_halting fuel argv argv' : halting (main fuel argv argv').
Proof. halting_go. Qed.

End MusicSampleDirHandles.


(** X7: the same for the music player with a playing direction, which
    registers its shutdown function with [atexit] and keeps the music
    provider in a local variable: whenever it ends with an exit code, each
    interface that it obtained was released exactly once, through a pointer
    that was not [NULL], and none is left. *)
Theorem fs_music_sample_dir_releases_its_interfaces `{Headers} (o : oracle) (fuel : nat)
    (argv argv' : list string) :
  ends_with_code (fs_music_sample_dir fuel argv argv' o (start MusicSampleDir.init))
    = true ->
  settled (log (final (fs_music_sample_dir fuel argv argv' o (start MusicSampleDir.init))))
    = true.
Proof.
  unfold fs_music_sample_dir.
  apply (process_settles any_library
           (at_ (owning false [] []) (MusicSampleDir_handles 0 0 0))
           MusicSampleDir_pending).
  - apply MusicSampleDir_main_own.
  - apply MusicSampleDir_main_halting.
  - apply MusicSampleDir_fs_shutdown_own.
  - apply MusicSampleDir_fs_shutdown_unended.
  - apply MusicSampleDir_fs_shutdown_halting.
  - intros l f self args. exact Logic.I.
  - split.
    + split; [apply owns_nil|]. repeat split. intros x Hx. inversion Hx.
    + repeat split.
Qed.

Lemma fs_music_sample_dir_releases_its_interfaces_witness :
  settled (log (final (@fs_music_sample_dir directfb_headers 20
                         ["fs_music_sample"; "a.ogg"; "b.ogg"]
                         ["fs_music_sample"; "a.ogg"; "b.ogg"]
                         (@one_track directfb_headers)
                         (start MusicSampleDir.init)))) = true.
Proof.
  apply (@fs_music_sample_dir_releases_its_interfaces directfb_headers). vm_compute.
  reflexivity.
Defined.

(** ** The handles of the window stacks *)

Section Stacks.
Context {E : Type} (handles_of : E -> list (nat * kind)).

Lemma stack_handles_empty : stack_handles handles_of ∅ = [].
Proof. unfold stack_handles. rewrite map_to_list_empty. reflexivity. Qed.

Lemma stack_handles_insert (st : gmap nat E) k e :
  st !! k = None ->
  stack_handles handles_of (<[k := e]> st) ≡ₚ handles_of e ++ stack_handles handles_of st.
Proof.
  intros Hk. unfold stack_handles, entries_handles.
  rewrite (Permutation_flat_map _ (map_to_list_insert st k e Hk)). reflexivity.
Qed.

Lemma stack_handles_delete (st : gmap nat E) k e :
  st !! k = Some e ->
  stack_handles handles_of st ≡ₚ handles_of e ++ stack_handles handles_of (delete k st).
Proof.
  intros Hk. unfold stack_handles, entries_handles.
  rewrite <- (Permutation_flat_map _ (map_to_list_delete st k e Hk)). reflexivity.
Qed.

Lemma known_ids_empty ids : known_ids (∅ : gmap nat E) ids.
Proof. intros k [e He]. rewrite lookup_empty in He. discriminate. Qed.

Lemma known_ids_insert (st : gmap nat E) ids k e :
  known_ids st ids -> known_ids (<[k := e]> st) (k :: ids).
Proof.
  intros Hst k' Hk'. destruct (decide (k' = k)) as [->|Hne]; [left|].
  right. apply Hst. rewrite lookup_insert_ne in Hk' by congruence. exact Hk'.
Qed.

Lemma known_ids_delete (st : gmap nat E) ids k :
  known_ids st ids -> known_ids (delete k st) ids.
Proof.
  intros Hst k' [e He]. apply Hst. apply lookup_delete_Some in He as [_ He]. eauto.
Qed.

Lemma known_ids_fresh (st : gmap nat E) ids k :
  known_ids st ids -> k ∉ ids -> st !! k = None.
Proof.
  intros Hst Hk. destruct (st !! k) as [e|] eqn:He; [|reflexivity].
  destruct Hk. apply Hst. eauto.
Qed.

(** Replacing an entry by one with the same handles. *)
Lemma stack_handles_replace (st : gmap nat E) k e e' :
  st !! k = Some e -> handles_of e' = handles_of e ->
  stack_handles handles_of (<[k := e']> st) ≡ₚ stack_handles handles_of st.
Proof.
  intros Hk He. rewrite <- (insert_delete_eq st k e').
  rewrite stack_handles_insert by apply lookup_delete_eq.
  rewrite (stack_handles_delete st k e Hk), He. reflexivity.
Qed.

Lemma known_ids_replace (st : gmap nat E) ids k e e' :
  st !! k = Some e -> known_ids st ids -> known_ids (<[k := e']> st) ids.
Proof.
  intros Hk Hst k' Hk'. apply Hst. destruct (decide (k' = k)) as [->|Hne]; [eauto|].
  rewrite lookup_insert_ne in Hk' by congruence. exact Hk'.
Qed.

Lemma direct_hash_insert_fresh (st : gmap nat E) k e :
  st !! k = None -> direct_hash_insert k e st = <[k := e]> st.
Proof. intros Hk. unfold direct_hash_insert. rewrite Hk. reflexivity. Qed.

End Stacks.

(** ** df_image_sample.c *)

Ltac showing_open :=
  unfold ImageSample_showing;
  let st := fresh "st" in
  let ids := fresh "ids" in
  let Hst := fresh "Hst" in
  apply triple_ex; intros st; apply triple_ex; intros ids; cbv beta;
  apply triple_pure; intros Hst;
  lazymatch goal with
  | |- triple ?L (at_ ?I ?P) ?m ?Q ?J => idtac
  | |- triple ?L (fun w => at_ ?I ?P w) ?m ?Q ?J => change (triple L (at_ I P) m Q J)
  end.

Ltac showing_close st ids :=
  apply triple_ret;
  let w := fresh "w" in
  let Hw := fresh "Hw" in
  intros w Hw; exists st, ids; split; assumption.

Section ImageSampleHandles.
Context `{Headers} (L : libspec).
Import ImageSample.

Lemma ImageSample_destroy_each hk kvs hs ids (P : globals -> Prop) :
  triple L
    (at_ (owning hk (entries_handles ImageSample_entry_handles kvs ++ hs) ids) P)
    (for_each kvs (fun kv => stack_destructor (snd kv)))
    (fun _ => at_ (owning hk hs ids) P) (on_trace unended).
Proof.
  induction kvs as [|[k e] kvs IH]; cbn [for_each entries_handles flat_map].
  - apply triple_ret. auto.
  - cbn [snd ImageSample_entry_handles app].
    fold (entries_handles ImageSample_entry_handles kvs).
    eapply (triple_bind _ _ _ _
      (fun _ => at_ (owning hk (entries_handles ImageSample_entry_handles kvs ++ hs) ids) P)).
    + unfold stack_destructor.
      own_release ((window e, KWindow)
                   :: entries_handles ImageSample_entry_handles kvs ++ hs).
      own_release (entries_handles ImageSample_entry_handles kvs ++ hs).
      apply triple_ret. auto.
    + intros _. exact IH.
Qed.

Lemma ImageSample_dfb_shutdown_own d ly eb im fr lg ws st ids :
  ws <> 0%nat ->
  triple L
    (at_ (owning false (ImageSample_owned d ly eb im fr lg st) ids)
       (ImageSample_handles d ly eb im fr lg ws st))
    dfb_shutdown
    (fun _ => at_ (owning false [] ids) (ImageSample_handles d ly eb im fr lg ws st))
    (on_trace unended).
Proof.
  intros Hws. unfold dfb_shutdown, ImageSample_owned.
  apply (triple_owning_nonzero L false fr KSurface); [set_solver|]. intros Hfr.
  apply (triple_owning_nonzero L false im KImage); [set_solver|]. intros Him.
  apply (triple_owning_nonzero L false eb KEvents); [set_solver|]. intros Heb.
  apply (triple_owning_nonzero L false ly KLayer); [set_solver|]. intros Hly.
  apply (triple_owning_nonzero L false d KMain); [set_solver|]. intros Hd.
  own_get.
  apply Nat.eqb_neq in Hws, Hfr, Him, Heb, Hly, Hd.
  rewrite Hws, Hfr, Him, Heb, Hly, Hd. cbn [negb when].
  eapply (triple_bind _ _ _ _
    (fun _ => at_ (owning false
                     (own_if lg KSurface ++
                      [(fr, KSurface); (im, KImage); (eb, KEvents); (ly, KLayer); (d, KMain)])
                     ids)
                (ImageSample_handles d ly eb im fr lg ws st))).
  { unfold destroy_stack. own_get.
    own_then ImageSample_destroy_each.
    keep_then. apply triple_ret. auto. }
  intros _.
  eapply (triple_bind _ _ _ _
    (fun _ => at_ (owning false
                     [(fr, KSurface); (im, KImage); (eb, KEvents); (ly, KLayer); (d, KMain)]
                     ids)
                (ImageSample_handles d ly eb im fr lg ws st))).
  { destruct (Nat.eqb_spec lg 0) as [->|Hlg]; cbn [negb when].
    - apply triple_ret. auto.
    - rewrite (own_if_nonzero lg) by exact Hlg. cbn [app].
      own_release_first. apply triple_ret. auto. }
  intros _.
  do 4 own_release_first. own_release_first.
  apply triple_ret. auto.
Qed.

Lemma ImageSample_remove_window_own id d ly eb im fr lg ws st ids :
  known_ids st ids ->
  triple L
    (at_ (owning false (ImageSample_owned d ly eb im fr lg st) ids)
       (ImageSample_handles d ly eb im fr lg ws st))
    (remove_window id)
    (fun _ => ImageSample_showing d ly eb im fr lg ws)
    (on_trace unended).
Proof.
  intros Hst. unfold remove_window.
  own_get. unfold direct_hash_lookup.
  destruct (st !! id) as [e|] eqn:He.
  - apply (triple_perm L false _
             (ImageSample_entry_handles e ++
              ImageSample_owned d ly eb im fr lg (delete id st))).
    { unfold ImageSample_owned. rewrite (stack_handles_delete _ st id e He).
      rewrite <- app_assoc. reflexivity. }
    cbn [ImageSample_entry_handles app].
    do 2 own_release_first.
    own_set (ImageSample_handles d ly eb im fr lg ws (delete id st)).
    apply triple_ret. intros w Hw. exists (delete id st), ids.
    split; [exact Hw|apply known_ids_delete, Hst].
  - apply triple_ret. intros w Hw. exists st, ids. split; assumption.
Qed.

Lemma ImageSample_quit_own {A} d ly eb im fr lg ws st ids pending
    (Q : A -> world globals -> Prop) :
  ws <> 0%nat ->
  triple L
    (at_ (owning false (ImageSample_owned d ly eb im fr lg st) ids)
       (ImageSample_handles d ly eb im fr lg ws st))
    (dfb_shutdown;; exit (Code 42)) Q (leaving pending).
Proof.
  intros Hws.
  eapply triple_bind; [apply triple_leaving, ImageSample_dfb_shutdown_own, Hws|].
  intros ?. apply triple_exit_unhooked.
Qed.

Lemma ImageSample_dispatch_own evt d ly eb im fr lg ws pending :
  ws <> 0%nat ->
  triple L (ImageSample_showing d ly eb im fr lg ws) (dispatch evt)
    (fun _ => ImageSample_showing d ly eb im fr lg ws) (leaving pending).
Proof.
  intros Hws. unfold dispatch. showing_open.
  destruct (evt_type evt); try showing_close st ids.
  - eapply triple_bind;
      [apply triple_leaving, ImageSample_remove_window_own, Hst|].
    intros win. cbv beta.
    destruct (negb (win =? 0)%nat); [|apply triple_ret; auto].
    clear st ids Hst. showing_open.
    own_set (ImageSample_handles d ly eb im fr lg ws st).
    own_get.
    destruct (n_windows g <=? 0); [|showing_close st ids].
    apply ImageSample_quit_own, Hws.
  - lazymatch goal with
    | |- triple _ _ (if ?b then _ else _) _ _ => destruct b
    end; [|showing_close st ids].
    apply ImageSample_quit_own, Hws.
Qed.

Lemma ImageSample_process_event_buffer_own fuel d ly eb im fr lg ws pending :
  ws <> 0%nat ->
  triple L (ImageSample_showing d ly eb im fr lg ws) (process_event_buffer fuel)
    (fun _ => ImageSample_showing d ly eb im fr lg ws) (leaving pending).
Proof.
  intros Hws. unfold process_event_buffer. apply triple_forever.
  { intros w (st & ids & [(_ & Hc & _) _] & _). left. exact Hc. }
  showing_open.
  own_get. leave_keep.
  destruct (is_ok (a_ret x)).
  - eapply triple_bind.
    { eapply triple_pre; [apply ImageSample_dispatch_own, Hws|].
      intros w Hw. exists st, ids. split; eassumption. }
    intros ?. apply triple_ret. auto.
  - showing_close st ids.
Qed.

Lemma ImageSample_main_loop_body_own fuel d ly eb im fr lg ws pending :
  ws <> 0%nat ->
  triple L (ImageSample_showing d ly eb im fr lg ws) (main_loop_body fuel)
    (fun r w => r = None /\ ImageSample_showing d ly eb im fr lg ws w) (leaving pending).
Proof.
  intros Hws. unfold main_loop_body. showing_open.
  own_get. leave_keep.
  eapply triple_bind.
  { eapply triple_pre; [apply ImageSample_process_event_buffer_own, Hws|].
    intros w Hw. exists st, ids. split; eassumption. }
  intros ?. apply triple_ret. auto.
Qed.

End ImageSampleHandles.

Section ImageSampleProcess.
Context `{Headers}.
Import ImageSample.

Lemma ImageSample_create_stack_body_own posx posy d ly eb im fr lg ws st ids :
  known_ids st ids ->
  triple fresh_ids
    (at_ (owning false (ImageSample_owned d ly eb im fr lg st) ids)
       (ImageSample_handles d ly eb im fr lg ws st))
    (create_stack_body posx posy)
    (fun _ => ImageSample_showing d ly eb im fr lg ws)
    (on_trace unended).
Proof.
  intros Hst. unfold create_stack_body.
  own_get.
  own_new triple_meth_new_own. rename n into win.
  own_new triple_meth_new_own. rename n into s.
  keep_then.
  own_then triple_get_id_own. apply triple_pure. intros Hfresh.
  do 3 keep_then.
  pose proof (known_ids_fresh st ids (a_id x0) Hst Hfresh) as Hnone.
  eapply triple_post;
    [apply (triple_modify_at _ _ _
              (ImageSample_handles d ly eb im fr lg ws
                 (<[a_id x0 := {| window := win; surface := s |}]> st)))|].
  - intros g' Hg'. handles_facts Hg'. hnf. cbn. subst st.
    rewrite (direct_hash_insert_fresh _ _ _ Hnone). repeat split; assumption.
  - intros ? w Hw.
    exists (<[a_id x0 := {| window := win; surface := s |}]> st), (a_id x0 :: ids).
    split; [|apply known_ids_insert, Hst].
    eapply at_owning_perm; [|exact Hw]. unfold ImageSample_owned.
    rewrite (stack_handles_insert _ st _ _ Hnone). reflexivity.
Qed.

Lemma ImageSample_create_stack_loop_own n posx posy d ly eb im fr lg ws :
  triple fresh_ids (ImageSample_showing d ly eb im fr lg ws)
    (create_stack_loop n posx posy)
    (fun _ => ImageSample_showing d ly eb im fr lg ws)
    (on_trace unended).
Proof.
  revert posx posy. induction n as [|n IH]; intros posx posy; cbn [create_stack_loop].
  - apply triple_ret. auto.
  - eapply triple_bind.
    { showing_open. apply ImageSample_create_stack_body_own, Hst. }
    intros ?. apply IH.
Qed.

Lemma ImageSample_create_stack_own dsc_width dsc_height d ly eb im fr lg :
  triple fresh_ids
    (at_ (owning false (ImageSample_owned d ly eb im fr lg ∅) [])
       (ImageSample_handles d ly eb im fr lg 0 ∅))
    (create_stack dsc_width dsc_height)
    (fun _ w => exists ws, ws <> 0%nat /\ ImageSample_showing d ly eb im fr lg ws w)
    (on_trace unended).
Proof.
  unfold create_stack.
  own_get.
  apply triple_lib_then_fresh; [split; reflexivity|]. intros ws Hws.
  own_set (ImageSample_handles d ly eb im fr lg ws ∅).
  own_set (ImageSample_handles d ly eb im fr lg ws ∅).
  own_set (ImageSample_handles d ly eb im fr lg ws ∅).
  eapply triple_conseq; [apply (ImageSample_create_stack_loop_own _ _ _ d ly eb im fr lg ws)| | |].
  - intros w Hw. exists ∅, []. split; [exact Hw|apply known_ids_empty].
  - intros ? w Hw. exists ws. split; assumption.
  - auto.
Qed.

Lemma ImageSample_parse_command_line_own args mrl pending :
  triple fresh_ids (at_ (owning false [] []) (ImageSample_handles 0 0 0 0 0 0 0 ∅))
    (parse_command_line args mrl)
    (fun _ => at_ (owning false [] []) (ImageSample_handles 0 0 0 0 0 0 0 ∅))
    (leaving pending).
Proof.
  revert mrl. induction args as [|arg rest IH]; intros mrl; cbn [parse_command_line].
  - apply triple_ret. auto.
  - destruct (after_dash arg) as [opt|].
    + repeat lazymatch goal with
             | |- triple _ _ (if ?b then _ else _) _ _ => destruct b
             end;
        try apply IH.
      * leave_keep. apply triple_exit_unhooked.
      * own_set (ImageSample_handles 0 0 0 0 0 0 0 ∅). apply IH.
      * own_set (ImageSample_handles 0 0 0 0 0 0 0 ∅). apply IH.
      * leave_keep. own_set (ImageSample_handles 0 0 0 0 0 0 0 ∅). apply IH.
      * own_get. leave_keep.
        own_set (ImageSample_handles 0 0 0 0 0 0 0 ∅).
        own_set (ImageSample_handles 0 0 0 0 0 0 0 ∅). apply IH.
      * leave_keep. own_set (ImageSample_handles 0 0 0 0 0 0 0 ∅). apply IH.
    + destruct rest; apply IH.
Qed.

Lemma ImageSample_create_frame_own dsc_width dsc_height d ly eb im :
  triple fresh_ids
    (at_ (owning false [(im, KImage); (eb, KEvents); (ly, KLayer); (d, KMain)] [])
       (ImageSample_handles d ly eb im 0 0 0 ∅))
    (create_frame dsc_width dsc_height)
    (fun _ w => exists fr,
       at_ (owning false
              [(fr, KSurface); (im, KImage); (eb, KEvents); (ly, KLayer); (d, KMain)] [])
         (ImageSample_handles d ly eb im fr 0 0 ∅) w)
    (on_trace unended).
Proof.
  unfold create_frame.
  own_get.
  own_new triple_meth_new_own. rename n into fr.
  eapply triple_post;
    [apply (triple_modify_at _ _ _ (ImageSample_handles d ly eb im fr 0 0 ∅)); handles_solve|].
  intros ? w Hw. exists fr. exact Hw.
Qed.

Lemma ImageSample_main_own fuel argv argv' :
  triple fresh_ids (at_ (owning false [] []) (ImageSample_handles 0 0 0 0 0 0 0 ∅))
    (main fuel argv argv')
    (fun n w => leaving nothing_pending (returned n w))
    (leaving nothing_pending).
Proof.
  unfold main, dump_image_info.
  destruct (argc argv <? 2).
  { leave_keep. apply triple_exit_unhooked. }
  leave_keep.
  eapply triple_bind; [apply ImageSample_parse_command_line_own|]. intros mrl.
  destruct mrl as [[|c mrl]|];
    try (leave_keep; apply triple_exit_unhooked).
  leave_new triple_lib_new_own. rename n into d.
  own_set (ImageSample_handles d 0 0 0 0 0 0 ∅).
  own_get.
  leave_new triple_meth_new_own. rename n into ly.
  own_set (ImageSample_handles d ly 0 0 0 0 0 ∅).
  leave_new triple_meth_new_own. rename n into eb.
  own_set (ImageSample_handles d ly eb 0 0 0 0 ∅).
  leave_new triple_meth_new_own. rename n into im.
  own_set (ImageSample_handles d ly eb im 0 0 0 ∅).
  own_get.
  do 2 leave_keep.
  leave_then ImageSample_create_frame_own. apply triple_ex. intros fr. eta_pre.
  eapply (triple_bind _ _ _ _
    (fun _ w => exists lg,
       at_ (owning false (ImageSample_owned d ly eb im fr lg ∅) [])
         (ImageSample_handles d ly eb im fr lg 0 ∅) w)).
  { destruct (negb (use_logo g0 =? 0)); cbn [when].
    - leave_new triple_meth_new_own. rename n into lg.
      eapply triple_post;
        [apply (triple_modify_at _ _ _ (ImageSample_handles d ly eb im fr lg 0 ∅));
         handles_solve|].
      intros ? w Hw. exists lg. unfold ImageSample_owned.
      rewrite stack_handles_empty, (own_if_nonzero lg) by assumption. exact Hw.
    - apply triple_ret. intros w Hw. exists 0%nat. exact Hw. }
  intros ?. apply triple_ex. intros lg. eta_pre.
  leave_then ImageSample_create_stack_own.
  apply triple_ex. intros ws. cbv beta.
  eapply triple_pre with (P := fun w => ImageSample_showing d ly eb im fr lg ws w /\ ws <> 0%nat);
    [|intros w [? ?]; split; assumption].
  apply triple_pure. intros Hws.
  showing_open.
  own_get. leave_keep.
  unfold frame_blitter. leave_keep.
  eapply triple_pre with (P := ImageSample_showing d ly eb im fr lg ws);
    [|intros w Hw; exists st, ids; split; eassumption].
  apply triple_forever_on.
  { intros w (st' & ids' & [(_ & Hc & _) _] & _). left. exact Hc. }
  apply ImageSample_main_loop_body_own, Hws.
Qed.

Lemma ImageSample_dfb_shutdown_unended : keeps fresh_ids unended unended dfb_shutdown.
Proof. unfold dfb_shutdown, destroy_stack, stack_destructor. keeps_go. Qed.

Lemma ImageSample_parse_command_line_halting args mrl :
  halting (parse_command_line args mrl).
Proof. revert mrl. induction args as [|arg rest IH]; intros mrl; simpl; halting_go. Qed.

Lemma ImageSample_create_stack_loop_halting n posx posy :
  halting (create_stack_loop n posx posy).
Proof. revert posx posy. induction n as [|n IH]; intros posx posy; simpl; halting_go. Qed.

#[local] Hint Resolve ImageSample_parse_command_line_halting
  ImageSample_create_stack_loop_halting : halts.

Lemma ImageSample_dfb_shutdown_halting : halting dfb_shutdown.
Proof. halting_go. Qed.

#[local] Hint Resolve ImageSample_dfb_shutdown_halting : halts.

Lemma ImageSample_main_halting fuel argv argv' : halting (main fuel argv argv').
Proof. halting_go. Qed.

End ImageSampleProcess.

Lemma script_fresh events : obeys fresh_ids (script events).
Proof.
  intros l f self args. unfold script.
  destruct f; try apply numbering_fresh. exact Logic.I.
Qed.

(** X8: whenever df_image_sample ends with an exit code -- the usage message,
    a quit key, or the close of its last window -- and the library never
    hands out the identifier of a window twice, each interface that the
    program obtained (main interface, layer, event buffer, image provider,
    frame and logo surfaces, and the window and surface of every entry of
    the stack, also of the windows closed one by one) was released exactly
    once, through a pointer that was not [NULL], and none is left. *)
Theorem df_image_sample_releases_its_interfaces `{Headers} (o : oracle) (fuel : nat)
    (argv argv' : list string) :
  obeys fresh_ids o ->
  ends_with_code (df_image_sample fuel argv argv' o (start ImageSample.init)) = true ->
  settled (log (final (df_image_sample fuel argv argv' o (start ImageSample.init))))
    = true.
Proof.
  intros Ho. unfold df_image_sample.
  apply (process_settles fresh_ids
           (at_ (owning false [] []) (ImageSample_handles 0 0 0 0 0 0 0 ∅))
           nothing_pending).
  - apply ImageSample_main_own.
  - apply ImageSample_main_halting.
  - intros w [].
  - apply ImageSample_dfb_shutdown_unended.
  - apply ImageSample_dfb_shutdown_halting.
  - exact Ho.
  - split.
    + split; [apply owns_nil|]. repeat split. intros x Hx. inversion Hx.
    + repeat split.
Qed.

Lemma df_image_sample_releases_its_interfaces_witness :
  settled (log (final (@df_image_sample directfb_headers 5
                         ["df_image_sample"; "--windows=3"; "a.png"]
                         ["df_image_sample"; "--windows=3"; "a.png"]
                         (script [close_of 1; key_press 0x1B])
                         (start ImageSample.init)))) = true.
Proof.
  apply (@df_image_sample_releases_its_interfaces directfb_headers).
  - apply script_fresh.
  - vm_compute. reflexivity.
Defined.

(** ** df_video_sample.c *)

Ltac video_open :=
  unfold VideoSample_showing;
  let st := fresh "st" in
  let ids := fresh "ids" in
  let Hst := fresh "Hst" in
  apply triple_ex; intros st; apply triple_ex; intros ids; cbv beta;
  apply triple_pure; intros Hst;
  lazymatch goal with
  | |- triple ?L (at_ ?I ?P) ?m ?Q ?J => idtac
  | |- triple ?L (fun w => at_ ?I ?P w) ?m ?Q ?J => change (triple L (at_ I P) m Q J)
  end.

Ltac video_close st ids :=
  apply triple_ret;
  let w := fresh "w" in
  let Hw := fresh "Hw" in
  intros w Hw; exists st, ids; split; assumption.

Section VideoSampleHandles.
Context `{Headers} (L : libspec).
Import VideoSample.

Lemma VideoSample_destroy_each hk kvs hs ids (P : globals -> Prop) :
  triple L
    (at_ (owning hk (entries_handles VideoSample_entry_handles kvs ++ hs) ids) P)
    (for_each kvs (fun kv => stack_destructor (snd kv)))
    (fun _ => at_ (owning hk hs ids) P) (on_trace unended).
Proof.
  induction kvs as [|[k e] kvs IH]; cbn [for_each entries_handles flat_map].
  - apply triple_ret. auto.
  - cbn [snd VideoSample_entry_handles app].
    fold (entries_handles VideoSample_entry_handles kvs).
    eapply (triple_bind _ _ _ _
      (fun _ => at_ (owning hk (entries_handles VideoSample_entry_handles kvs ++ hs) ids) P)).
    + unfold stack_destructor.
      own_release ((window e, KWindow)
                   :: entries_handles VideoSample_entry_handles kvs ++ hs).
      own_release (entries_handles VideoSample_entry_handles kvs ++ hs).
      apply triple_ret. auto.
    + intros _. exact IH.
Qed.

Lemma VideoSample_dfb_shutdown_own d ly eb im fr lg ws st ids :
  ws <> 0%nat ->
  triple L
    (at_ (owning false (VideoSample_owned d ly eb im fr lg st) ids)
       (VideoSample_handles d ly eb im fr lg ws st))
    dfb_shutdown
    (fun _ => at_ (owning false [] ids) (VideoSample_handles d ly eb im fr lg ws st))
    (on_trace unended).
Proof.
  intros Hws. unfold dfb_shutdown, VideoSample_owned.
  apply (triple_owning_nonzero L false fr KSurface); [set_solver|]. intros Hfr.
  apply (triple_owning_nonzero L false im KVideo); [set_solver|]. intros Him.
  apply (triple_owning_nonzero L false eb KEvents); [set_solver|]. intros Heb.
  apply (triple_owning_nonzero L false ly KLayer); [set_solver|]. intros Hly.
  apply (triple_owning_nonzero L false d KMain); [set_solver|]. intros Hd.
  own_get.
  apply Nat.eqb_neq in Hws, Hfr, Him, Heb, Hly, Hd.
  rewrite Hws, Hfr, Him, Heb, Hly, Hd. cbn [negb when].
  eapply (triple_bind _ _ _ _
    (fun _ => at_ (owning false
                     (own_if lg KSurface ++
                      [(fr, KSurface); (im, KVideo); (eb, KEvents); (ly, KLayer); (d, KMain)])
                     ids)
                (VideoSample_handles d ly eb im fr lg ws st))).
  { unfold destroy_stack. own_get.
    own_then VideoSample_destroy_each.
    keep_then. apply triple_ret. auto. }
  intros _.
  eapply (triple_bind _ _ _ _
    (fun _ => at_ (owning false
                     [(fr, KSurface); (im, KVideo); (eb, KEvents); (ly, KLayer); (d, KMain)]
                     ids)
                (VideoSample_handles d ly eb im fr lg ws st))).
  { destruct (Nat.eqb_spec lg 0) as [->|Hlg]; cbn [negb when].
    - apply triple_ret. auto.
    - rewrite (own_if_nonzero lg) by exact Hlg. cbn [app].
      own_release_first. apply triple_ret. auto. }
  intros _.
  do 4 own_release_first. own_release_first.
  apply triple_ret. auto.
Qed.

Lemma VideoSample_remove_window_own id d ly eb im fr lg ws st ids :
  known_ids st ids ->
  triple L
    (at_ (owning false (VideoSample_owned d ly eb im fr lg st) ids)
       (VideoSample_handles d ly eb im fr lg ws st))
    (remove_window id)
    (fun _ => VideoSample_showing d ly eb im fr lg ws)
    (on_trace unended).
Proof.
  intros Hst. unfold remove_window.
  own_get. unfold direct_hash_lookup.
  destruct (st !! id) as [e|] eqn:He.
  - apply (triple_perm L false _
             (VideoSample_entry_handles e ++
              VideoSample_owned d ly eb im fr lg (delete id st))).
    { unfold VideoSample_owned. rewrite (stack_handles_delete _ st id e He).
      rewrite <- app_assoc. reflexivity. }
    cbn [VideoSample_entry_handles app].
    do 2 own_release_first.
    own_set (VideoSample_handles d ly eb im fr lg ws (delete id st)).
    apply triple_ret. intros w Hw. exists (delete id st), ids.
    split; [exact Hw|apply known_ids_delete, Hst].
  - apply triple_ret. intros w Hw. exists st, ids. split; assumption.
Qed.

Lemma VideoSample_quit_own {A} d ly eb im fr lg ws st ids pending
    (Q : A -> world globals -> Prop) :
  ws <> 0%nat ->
  triple L
    (at_ (owning false (VideoSample_owned d ly eb im fr lg st) ids)
       (VideoSample_handles d ly eb im fr lg ws st))
    (dfb_shutdown;; exit (Code 42)) Q (leaving pending).
Proof.
  intros Hws.
  eapply triple_bind; [apply triple_leaving, VideoSample_dfb_shutdown_own, Hws|].
  intros ?. apply triple_exit_unhooked.
Qed.

Lemma VideoSample_dispatch_own caps evt d ly eb im fr lg ws pending :
  ws <> 0%nat ->
  triple L (VideoSample_showing d ly eb im fr lg ws) (dispatch caps evt)
    (fun _ => VideoSample_showing d ly eb im fr lg ws) (leaving pending).
Proof.
  intros Hws. unfold dispatch, stop_start, adjust_color, seek, set_speed, set_volume.
  video_open.
  assert (Hplain : forall m : prog globals unit,
    keeps L (owning false (VideoSample_owned d ly eb im fr lg st) ids) unended m ->
    holds (VideoSample_handles d ly eb im fr lg ws st) m ->
    triple L
      (at_ (owning false (VideoSample_owned d ly eb im fr lg st) ids)
         (VideoSample_handles d ly eb im fr lg ws st))
      m (fun _ => VideoSample_showing d ly eb im fr lg ws) (leaving pending)).
  { intros m Hk Hh. eapply triple_conseq; [apply keeps_holds; [exact Hk|exact Hh]| | |].
    - auto.
    - intros ? w Hw. exists st, ids. split; assumption.
    - intros w Hw. apply leaving_unended, Hw. }
  destruct (evt_type evt); try video_close st ids.
  all: try (eapply triple_bind;
              [apply triple_leaving, VideoSample_remove_window_own, Hst|]).
  all: try leave_keep.
  all: try own_get.
  all: repeat lazymatch goal with
              | |- triple _ _ (if ?b then _ else _) _ _ => destruct b
              end.
  all: try (apply VideoSample_quit_own, Hws).
  all: try (apply Hplain; [solve [keeps_go]|holds_solve]).
  intros win. cbv beta.
  destruct (negb (win =? 0)%nat); [|apply triple_ret; auto].
  clear st ids Hst Hplain. video_open.
  own_set (VideoSample_handles d ly eb im fr lg ws st).
  own_get.
  destruct (n_windows g <=? 0); [|video_close st ids].
  apply VideoSample_quit_own, Hws.
Qed.

Lemma VideoSample_process_event_buffer_own fuel caps d ly eb im fr lg ws pending :
  ws <> 0%nat ->
  triple L (VideoSample_showing d ly eb im fr lg ws) (process_event_buffer fuel caps)
    (fun _ => VideoSample_showing d ly eb im fr lg ws) (leaving pending).
Proof.
  intros Hws. unfold process_event_buffer. apply triple_forever.
  { intros w (st & ids & [(_ & Hc & _) _] & _). left. exact Hc. }
  video_open.
  own_get. leave_keep.
  destruct (is_ok (a_ret x)).
  - eapply triple_bind.
    { eapply triple_pre; [apply VideoSample_dispatch_own, Hws|].
      intros w Hw. exists st, ids. split; eassumption. }
    intros ?. apply triple_ret. auto.
  - video_close st ids.
Qed.

Lemma VideoSample_main_loop_body_own fuel caps d ly eb im fr lg ws pending :
  ws <> 0%nat ->
  triple L (VideoSample_showing d ly eb im fr lg ws) (main_loop_body fuel caps)
    (fun r w => r = None /\ VideoSample_showing d ly eb im fr lg ws w) (leaving pending).
Proof.
  intros Hws. unfold main_loop_body. video_open.
  own_get. leave_keep.
  destruct x.
  - apply triple_ret. intros w Hw. split; [reflexivity|].
    exists st, ids. split; assumption.
  - eapply triple_bind.
    { eapply triple_pre; [apply VideoSample_process_event_buffer_own, Hws|].
      intros w Hw. exists st, ids. split; eassumption. }
    intros ?. apply triple_ret. auto.
Qed.

End VideoSampleHandles.

Section VideoSampleProcess.
Context `{Headers}.
Import VideoSample.

Lemma VideoSample_create_stack_body_own posx posy d ly eb im fr lg ws st ids :
  known_ids st ids ->
  triple fresh_ids
    (at_ (owning false (VideoSample_owned d ly eb im fr lg st) ids)
       (VideoSample_handles d ly eb im fr lg ws st))
    (create_stack_body posx posy)
    (fun _ => VideoSample_showing d ly eb im fr lg ws)
    (on_trace unended).
Proof.
  intros Hst. unfold create_stack_body.
  own_get.
  own_new triple_meth_new_own. rename n into win.
  own_new triple_meth_new_own. rename n into s.
  keep_then.
  own_then triple_get_id_own. apply triple_pure. intros Hfresh.
  do 3 keep_then.
  pose proof (known_ids_fresh st ids (a_id x0) Hst Hfresh) as Hnone.
  eapply triple_post;
    [apply (triple_modify_at _ _ _
              (VideoSample_handles d ly eb im fr lg ws
                 (<[a_id x0 := {| window := win; surface := s |}]> st)))|].
  - intros g' Hg'. handles_facts Hg'. hnf. cbn. subst st.
    rewrite (direct_hash_insert_fresh _ _ _ Hnone). repeat split; assumption.
  - intros ? w Hw.
    exists (<[a_id x0 := {| window := win; surface := s |}]> st), (a_id x0 :: ids).
    split; [|apply known_ids_insert, Hst].
    eapply at_owning_perm; [|exact Hw]. unfold VideoSample_owned.
    rewrite (stack_handles_insert _ st _ _ Hnone). reflexivity.
Qed.

Lemma VideoSample_create_stack_loop_own n posx posy d ly eb im fr lg ws :
  triple fresh_ids (VideoSample_showing d ly eb im fr lg ws)
    (create_stack_loop n posx posy)
    (fun _ => VideoSample_showing d ly eb im fr lg ws)
    (on_trace unended).
Proof.
  revert posx posy. induction n as [|n IH]; intros posx posy; cbn [create_stack_loop].
  - apply triple_ret. auto.
  - eapply triple_bind.
    { video_open. apply VideoSample_create_stack_body_own, Hst. }
    intros ?. apply IH.
Qed.

Lemma VideoSample_create_stack_own dsc_width dsc_height d ly eb im fr lg :
  triple fresh_ids
    (at_ (owning false (VideoSample_owned d ly eb im fr lg ∅) [])
       (VideoSample_handles d ly eb im fr lg 0 ∅))
    (create_stack dsc_width dsc_height)
    (fun _ w => exists ws, ws <> 0%nat /\ VideoSample_showing d ly eb im fr lg ws w)
    (on_trace unended).
Proof.
  unfold create_stack.
  own_get.
  apply triple_lib_then_fresh; [split; reflexivity|]. intros ws Hws.
  own_set (VideoSample_handles d ly eb im fr lg ws ∅).
  own_set (VideoSample_handles d ly eb im fr lg ws ∅).
  own_set (VideoSample_handles d ly eb im fr lg ws ∅).
  eapply triple_conseq; [apply (VideoSample_create_stack_loop_own _ _ _ d ly eb im fr lg ws)| | |].
  - intros w Hw. exists ∅, []. split; [exact Hw|apply known_ids_empty].
  - intros ? w Hw. exists ws. split; assumption.
  - auto.
Qed.

Lemma VideoSample_parse_command_line_own args mrl pending :
  triple fresh_ids (at_ (owning false [] []) (VideoSample_handles 0 0 0 0 0 0 0 ∅))
    (parse_command_line args mrl)
    (fun _ => at_ (owning false [] []) (VideoSample_handles 0 0 0 0 0 0 0 ∅))
    (leaving pending).
Proof.
  revert mrl. induction args as [|arg rest IH]; intros mrl; cbn [parse_command_line].
  - apply triple_ret. auto.
  - destruct (after_dash arg) as [opt|].
    + repeat lazymatch goal with
             | |- triple _ _ (if ?b then _ else _) _ _ => destruct b
             end;
        try apply IH.
      * leave_keep. apply triple_exit_unhooked.
      * own_set (VideoSample_handles 0 0 0 0 0 0 0 ∅). apply IH.
      * own_set (VideoSample_handles 0 0 0 0 0 0 0 ∅). apply IH.
      * own_set (VideoSample_handles 0 0 0 0 0 0 0 ∅). apply IH.
      * own_get. leave_keep.
        own_set (VideoSample_handles 0 0 0 0 0 0 0 ∅).
        own_set (VideoSample_handles 0 0 0 0 0 0 0 ∅). apply IH.
      * leave_keep. own_set (VideoSample_handles 0 0 0 0 0 0 0 ∅). apply IH.
    + destruct rest; apply IH.
Qed.

Lemma VideoSample_create_frame_own dsc_width dsc_height d ly eb im :
  triple fresh_ids
    (at_ (owning false [(im, KVideo); (eb, KEvents); (ly, KLayer); (d, KMain)] [])
       (VideoSample_handles d ly eb im 0 0 0 ∅))
    (create_frame dsc_width dsc_height)
    (fun _ w => exists fr,
       at_ (owning false
              [(fr, KSurface); (im, KVideo); (eb, KEvents); (ly, KLayer); (d, KMain)] [])
         (VideoSample_handles d ly eb im fr 0 0 ∅) w)
    (on_trace unended).
Proof.
  unfold create_frame.
  own_get.
  own_new triple_meth_new_own. rename n into fr.
  eapply triple_post;
    [apply (triple_modify_at _ _ _ (VideoSample_handles d ly eb im fr 0 0 ∅)); handles_solve|].
  intros ? w Hw. exists fr. exact Hw.
Qed.

Lemma VideoSample_main_own fuel argv argv' :
  triple fresh_ids (at_ (owning false [] []) (VideoSample_handles 0 0 0 0 0 0 0 ∅))
    (main fuel argv argv')
    (fun n w => leaving nothing_pending (returned n w))
    (leaving nothing_pending).
Proof.
  unfold main, dump_stream_info.
  destruct (argc argv <? 2).
  { leave_keep. apply triple_exit_unhooked. }
  leave_keep.
  eapply triple_bind; [apply VideoSample_parse_command_line_own|]. intros mrl.
  destruct mrl as [[|c mrl]|];
    try (leave_keep; apply triple_exit_unhooked).
  own_set (VideoSample_handles 0 0 0 0 0 0 0 ∅).
  leave_new triple_lib_new_own. rename n into d.
  own_set (VideoSample_handles d 0 0 0 0 0 0 ∅).
  own_get.
  leave_new triple_meth_new_own. rename n into ly.
  own_set (VideoSample_handles d ly 0 0 0 0 0 ∅).
  leave_new triple_meth_new_own. rename n into eb.
  own_set (VideoSample_handles d ly eb 0 0 0 0 ∅).
  leave_new triple_meth_new_own. rename n into im.
  own_set (VideoSample_handles d ly eb im 0 0 0 ∅).
  own_get.
  do 3 leave_keep.
  leave_then VideoSample_create_frame_own. apply triple_ex. intros fr. eta_pre.
  eapply (triple_bind _ _ _ _
    (fun _ w => exists lg,
       at_ (owning false (VideoSample_owned d ly eb im fr lg ∅) [])
         (VideoSample_handles d ly eb im fr lg 0 ∅) w)).
  { destruct (negb (use_logo g0 =? 0)); cbn [when].
    - leave_new triple_meth_new_own. rename n into lg.
      eapply triple_post;
        [apply (triple_modify_at _ _ _ (VideoSample_handles d ly eb im fr lg 0 ∅));
         handles_solve|].
      intros ? w Hw. exists lg. unfold VideoSample_owned.
      rewrite stack_handles_empty, (own_if_nonzero lg) by assumption. exact Hw.
    - apply triple_ret. intros w Hw. exists 0%nat. exact Hw. }
  intros ?. apply triple_ex. intros lg. eta_pre.
  leave_then VideoSample_create_stack_own.
  apply triple_ex. intros ws. cbv beta.
  eapply triple_pre with (P := fun w => VideoSample_showing d ly eb im fr lg ws w /\ ws <> 0%nat);
    [|intros w [? ?]; split; assumption].
  apply triple_pure. intros Hws.
  video_open.
  leave_keep. own_get. leave_keep.
  eapply triple_pre with (P := VideoSample_showing d ly eb im fr lg ws);
    [|intros w Hw; exists st, ids; split; eassumption].
  apply triple_forever_on.
  { intros w (st' & ids' & [(_ & Hc & _) _] & _). left. exact Hc. }
  apply VideoSample_main_loop_body_own, Hws.
Qed.

Lemma VideoSample_dfb_shutdown_unended : keeps fresh_ids unended unended dfb_shutdown.
Proof. unfold dfb_shutdown, destroy_stack, stack_destructor. keeps_go. Qed.

Lemma VideoSample_parse_command_line_halting args mrl :
  halting (parse_command_line args mrl).
Proof. revert mrl. induction args as [|arg rest IH]; intros mrl; simpl; halting_go. Qed.

Lemma VideoSample_create_stack_loop_halting n posx posy :
  halting (create_stack_loop n posx posy).
Proof. revert posx posy. induction n as [|n IH]; intros posx posy; simpl; halting_go. Qed.

#[local] Hint Resolve VideoSample_parse_command_line_halting
  VideoSample_create_stack_loop_halting : halts.

Lemma VideoSample_dfb_shutdown_halting : halting dfb_shutdown.
Proof. halting_go. Qed.

#[local] Hint Resolve VideoSample_dfb_shutdown_halting : halts.

Lemma VideoSample_main_halting fuel argv argv' : halting (main fuel argv argv').
Proof. halting_go. Qed.

End VideoSampleProcess.


(** X9: whenever df_video_sample ends with an exit code -- the usage message,
    a quit key, or the close of its last window -- and the library never
    hands out the identifier of a window twice, each interface that the
    program obtained (main interface, layer, event buffer, video provider,
    frame and logo surfaces, and the window and surface of every entry of
    the stack) was released exactly once, through a pointer that was not
    [NULL], and none is left. *)
Theorem df_video_sample_releases_its_interfaces `{Headers} (o : oracle) (fuel : nat)
    (argv argv' : list string) :
  obeys fresh_ids o ->
  ends_with_code (df_video_sample fuel argv argv' o (start VideoSample.init)) = true ->
  settled (log (final (df_video_sample fuel argv argv' o (start VideoSample.init))))
    = true.
Proof.
  intros Ho. unfold df_video_sample.
  apply (process_settles fresh_ids
           (at_ (owning false [] []) (VideoSample_handles 0 0 0 0 0 0 0 ∅))
           nothing_pending).
  - apply VideoSample_main_own.
  - apply VideoSample_main_halting.
  - intros w [].
  - apply VideoSample_dfb_shutdown_unended.
  - apply VideoSample_dfb_shutdown_halting.
  - exact Ho.
  - split.
    + split; [apply owns_nil|]. repeat split. intros x Hx. inversion Hx.
    + repeat split.
Qed.

Lemma df_video_sample_releases_its_interfaces_witness :
  settled (log (final (@df_video_sample directfb_headers 5
                         ["df_video_sample"; "--windows=3"; "a.avi"]
                         ["df_video_sample"; "--windows=3"; "a.avi"]
                         (script [close_of 1; key_press 0x1B])
                         (start VideoSample.init)))) = true.
Proof.
  apply (@df_video_sample_releases_its_interfaces directfb_headers).
  - apply script_fresh.
  - vm_compute. reflexivity.
Defined.

(** ** df_image_multi.c *)

Ltac multi_open :=
  unfold ImageMulti_showing;
  let st := fresh "st" in
  let ids := fresh "ids" in
  let Hst := fresh "Hst" in
  apply triple_ex; intros st; apply triple_ex; intros ids; cbv beta;
  apply triple_pure; intros Hst;
  lazymatch goal with
  | |- triple ?L (at_ ?I ?P) ?m ?Q ?J => idtac
  | |- triple ?L (fun w => at_ ?I ?P w) ?m ?Q ?J => change (triple L (at_ I P) m Q J)
  end.

Ltac multi_close st ids :=
  apply triple_ret;
  let w := fresh "w" in
  let Hw := fresh "Hw" in
  intros w Hw; exists st, ids; split; assumption.

Section ImageMultiHandles.
Context `{Headers} (L : libspec).
Import ImageMulti.

Lemma ImageMulti_destroy_each kvs hs (P : globals -> Prop) J :
  triple L
    (at_ (having (entries_handles ImageMulti_entry_handles kvs ++ hs)) P)
    (for_each kvs (fun kv => stack_destructor (snd kv)))
    (fun _ => at_ (having hs) P) J.
Proof.
  induction kvs as [|[k win] kvs IH]; cbn [for_each entries_handles flat_map].
  - apply triple_ret. auto.
  - cbn [snd ImageMulti_entry_handles app].
    fold (entries_handles ImageMulti_entry_handles kvs).
    eapply (triple_bind _ _ _ _
      (fun _ => at_ (having (entries_handles ImageMulti_entry_handles kvs ++ hs)) P)).
    + unfold stack_destructor.
      eapply triple_bind; [eapply triple_release_having; reflexivity|].
      intros ?. apply triple_ret. auto.
    + intros _. exact IH.
Qed.

Lemma ImageMulti_dfb_shutdown_own :
  triple L ImageMulti_pending dfb_shutdown (fun _ => on_trace (having []))
    (fun _ => False).
Proof.
  unfold ImageMulti_pending, dfb_shutdown, ImageMulti_owned.
  apply triple_ex. intros d. apply triple_ex. intros ly. apply triple_ex. intros eb.
  apply triple_ex. intros lg. apply triple_ex. intros ws. apply triple_ex. intros st.
  cbv beta. apply triple_pure. intros Hws.
  apply (triple_having_nonzero L eb KEvents); [set_solver|]. intros Heb.
  apply (triple_having_nonzero L ly KLayer); [set_solver|]. intros Hly.
  apply (triple_having_nonzero L d KMain); [set_solver|]. intros Hd.
  own_get.
  pose proof Hws as Hws'.
  apply Nat.eqb_neq in Hws, Heb, Hly, Hd.
  rewrite Hws, Heb, Hly, Hd. cbn [negb when].
  eapply (triple_bind _ _ _ _
    (fun _ => at_ (having (own_if lg KSurface ++
                           [(eb, KEvents); (ly, KLayer); (d, KMain)]))
                (ImageMulti_handles d ly eb lg ws st))).
  { eapply triple_bind; [apply ImageMulti_destroy_each|]. intros ?.
    eapply triple_bind; [apply triple_meth_having; [split; reflexivity|exact Hws']|].
    intros ?. apply triple_ret. auto. }
  intros _.
  eapply (triple_bind _ _ _ _
    (fun _ => at_ (having [(eb, KEvents); (ly, KLayer); (d, KMain)])
                (ImageMulti_handles d ly eb lg ws st))).
  { destruct (Nat.eqb_spec lg 0) as [->|Hlg]; cbn [negb when].
    - apply triple_ret. auto.
    - rewrite (own_if_nonzero lg) by exact Hlg. cbn [app].
      eapply triple_bind; [eapply triple_release_having; reflexivity|].
      intros ?. apply triple_ret. auto. }
  intros _.
  repeat lazymatch goal with
         | |- triple _ (at_ (having (_ :: ?rest)) ?P) ((meth ?f _ _ ≫= _) ≫= _) _ _ =>
             apply (triple_bind _ _ _ _ (fun _ => at_ (having rest) P));
             [eapply triple_bind;
              [eapply triple_release_having; reflexivity
              |intros ?; apply triple_ret; intros w Hw; exact Hw]
             |intros ?]
         end.
  eapply triple_bind; [eapply triple_release_having; reflexivity|].
  intros ?. apply triple_ret. intros w [Hw _]. exact Hw.
Qed.

Lemma ImageMulti_remove_window_own id d ly eb lg ws st ids :
  known_ids st ids ->
  triple L
    (at_ (owning true (ImageMulti_owned d ly eb lg st) ids)
       (ImageMulti_handles d ly eb lg ws st))
    (remove_window id)
    (fun _ => ImageMulti_showing d ly eb lg ws)
    (on_trace unended).
Proof.
  intros Hst. unfold remove_window.
  own_get. unfold direct_hash_lookup.
  destruct (st !! id) as [win|] eqn:He.
  - apply (triple_perm L true _
             (ImageMulti_entry_handles win ++ ImageMulti_owned d ly eb lg (delete id st))).
    { unfold ImageMulti_owned. rewrite (stack_handles_delete _ st id win He).
      rewrite <- app_assoc. reflexivity. }
    cbn [ImageMulti_entry_handles app].
    own_release_first.
    own_set (ImageMulti_handles d ly eb lg ws (delete id st)).
    apply triple_ret. intros w Hw. exists (delete id st), ids.
    split; [exact Hw|apply known_ids_delete, Hst].
  - apply triple_ret. intros w Hw. exists st, ids. split; assumption.
Qed.

Lemma ImageMulti_quit_own {A} d ly eb lg ws st ids (Q : A -> world globals -> Prop) :
  ws <> 0%nat ->
  triple L
    (at_ (owning true (ImageMulti_owned d ly eb lg st) ids)
       (ImageMulti_handles d ly eb lg ws st))
    (exit (Code 42)) Q (leaving ImageMulti_pending).
Proof.
  intros Hws. apply triple_exit_hooked. intros w Hw.
  exists d, ly, eb, lg, ws, st. split; assumption.
Qed.

Lemma ImageMulti_dispatch_own evt d ly eb lg ws :
  ws <> 0%nat ->
  triple L (ImageMulti_showing d ly eb lg ws) (dispatch evt)
    (fun _ => ImageMulti_showing d ly eb lg ws) (leaving ImageMulti_pending).
Proof.
  intros Hws. unfold dispatch. multi_open.
  destruct (evt_type evt); try multi_close st ids.
  - eapply triple_bind;
      [apply triple_leaving, ImageMulti_remove_window_own, Hst|].
    intros removed. cbv beta.
    destruct removed; [|apply triple_ret; auto].
    clear st ids Hst. multi_open.
    own_set (ImageMulti_handles d ly eb lg ws st).
    own_get.
    destruct (mrl_count g <=? 0); [|multi_close st ids].
    apply ImageMulti_quit_own, Hws.
  - lazymatch goal with
    | |- triple _ _ (if ?b then _ else _) _ _ => destruct b
    end; [|multi_close st ids].
    apply ImageMulti_quit_own, Hws.
Qed.

Lemma ImageMulti_process_event_buffer_own fuel d ly eb lg ws :
  ws <> 0%nat ->
  triple L (ImageMulti_showing d ly eb lg ws) (process_event_buffer fuel)
    (fun _ => ImageMulti_showing d ly eb lg ws) (leaving ImageMulti_pending).
Proof.
  intros Hws. unfold process_event_buffer. apply triple_forever.
  { intros w (st & ids & [(_ & Hc & _) _] & _). left. exact Hc. }
  multi_open.
  own_get. leave_keep.
  destruct (is_ok (a_ret x)).
  - eapply triple_bind.
    { eapply triple_pre; [apply ImageMulti_dispatch_own, Hws|].
      intros w Hw. exists st, ids. split; eassumption. }
    intros ?. apply triple_ret. auto.
  - multi_close st ids.
Qed.

Lemma ImageMulti_main_loop_body_own fuel d ly eb lg ws :
  ws <> 0%nat ->
  triple L (ImageMulti_showing d ly eb lg ws) (main_loop_body fuel)
    (fun r w => r = None /\ ImageMulti_showing d ly eb lg ws w)
    (leaving ImageMulti_pending).
Proof.
  intros Hws. unfold main_loop_body. multi_open.
  own_get. leave_keep.
  eapply triple_bind.
  { eapply triple_pre; [apply ImageMulti_process_event_buffer_own, Hws|].
    intros w Hw. exists st, ids. split; eassumption. }
  intros ?. apply triple_ret. auto.
Qed.

End ImageMultiHandles.

Section ImageMultiProcess.
Context `{Headers}.
Import ImageMulti.

Lemma ImageMulti_add_window_own ip sdsc_width sdsc_height d ly eb lg ws st ids :
  known_ids st ids ->
  triple fresh_ids
    (at_ (owning true ((ip, KImage) :: ImageMulti_owned d ly eb lg st) ids)
       (ImageMulti_handles d ly eb lg ws st))
    (add_window ip sdsc_width sdsc_height)
    (fun _ w => exists st' ids',
       at_ (owning true ((ip, KImage) :: ImageMulti_owned d ly eb lg st') ids')
         (ImageMulti_handles d ly eb lg ws st') w /\
       known_ids st' ids')
    (on_trace unended).
Proof.
  intros Hst. unfold add_window, render_func.
  own_get.
  own_new triple_meth_new_own. rename n into win.
  own_new triple_meth_new_own. rename n into s.
  do 3 keep_then.
  own_then triple_get_id_own. apply triple_pure. intros Hfresh.
  do 2 keep_then.
  pose proof (known_ids_fresh st ids (a_id x2) Hst Hfresh) as Hnone.
  eapply triple_bind;
    [apply (triple_modify_at _ _ _
              (ImageMulti_handles d ly eb lg ws (<[a_id x2 := win]> st)))|].
  { intros g' Hg'. handles_facts Hg'. hnf. cbn. subst st.
    rewrite (direct_hash_insert_fresh _ _ _ Hnone). repeat split; assumption. }
  intros ?. cbv beta.
  do 2 keep_then.
  own_release ((win, KWindow) :: (ip, KImage) :: ImageMulti_owned d ly eb lg st).
  apply triple_ret. intros w Hw.
  exists (<[a_id x2 := win]> st), (a_id x2 :: ids).
  split; [|apply known_ids_insert, Hst].
  eapply at_owning_perm; [|exact Hw]. unfold ImageMulti_owned.
  rewrite (stack_handles_insert _ st _ _ Hnone). cbn [ImageMulti_entry_handles app].
  solve_Permutation.
Qed.

Lemma ImageMulti_load_file_own mrl d ly eb lg ws :
  triple fresh_ids (ImageMulti_showing d ly eb lg ws) (load_file mrl)
    (fun _ => ImageMulti_showing d ly eb lg ws) (on_trace unended).
Proof.
  unfold load_file. multi_open.
  own_get.
  own_new triple_meth_new_own. rename n into ip.
  do 2 keep_then.
  eapply triple_bind; [apply ImageMulti_add_window_own, Hst|]. intros ?. cbv beta.
  apply triple_ex. intros st'. apply triple_ex. intros ids'. cbv beta.
  apply triple_pure. intros Hst'.
  own_release (ImageMulti_owned d ly eb lg st').
  apply triple_ret. intros w Hw. exists st', ids'. split; assumption.
Qed.

Lemma ImageMulti_load_files_own mrls d ly eb lg ws :
  triple fresh_ids (ImageMulti_showing d ly eb lg ws) (for_each mrls load_file)
    (fun _ => ImageMulti_showing d ly eb lg ws) (on_trace unended).
Proof.
  apply triple_for_each. intros mrl _. apply ImageMulti_load_file_own.
Qed.

Lemma ImageMulti_parse_command_line_own args pending :
  triple fresh_ids (at_ (owning false [] []) (ImageMulti_handles 0 0 0 0 0 ∅))
    (parse_command_line args)
    (fun _ => at_ (owning false [] []) (ImageMulti_handles 0 0 0 0 0 ∅))
    (leaving pending).
Proof.
  induction args as [|arg rest IH]; cbn [parse_command_line].
  - apply triple_ret. auto.
  - destruct (after_dash arg) as [opt|].
    + repeat lazymatch goal with
             | |- triple _ _ (if ?b then _ else _) _ _ => destruct b
             end;
        try apply IH.
      * leave_keep. apply triple_exit_unhooked.
      * own_set (ImageMulti_handles 0 0 0 0 0 ∅). apply IH.
      * own_set (ImageMulti_handles 0 0 0 0 0 ∅). apply IH.
      * own_get. leave_keep.
        own_set (ImageMulti_handles 0 0 0 0 0 ∅).
        own_set (ImageMulti_handles 0 0 0 0 0 ∅). apply IH.
    + own_set (ImageMulti_handles 0 0 0 0 0 ∅).
      apply (triple_modify_at _ _ _ (ImageMulti_handles 0 0 0 0 0 ∅)). handles_solve.
Qed.

Lemma ImageMulti_main_own fuel argv argv' :
  triple fresh_ids (at_ (owning false [] []) (ImageMulti_handles 0 0 0 0 0 ∅))
    (main fuel argv argv')
    (fun n w => leaving ImageMulti_pending (returned n w))
    (leaving ImageMulti_pending).
Proof.
  unfold main.
  destruct (argc argv <? 2).
  { leave_keep. apply triple_exit_unhooked. }
  leave_keep.
  eapply triple_bind; [apply ImageMulti_parse_command_line_own|]. intros ?.
  own_get.
  destruct (mrl_count g =? 0).
  { leave_keep. apply triple_exit_unhooked. }
  leave_new triple_lib_new_own. rename n into d.
  own_set (ImageMulti_handles d 0 0 0 0 ∅).
  eapply triple_bind; [apply triple_atexit_own|]. intros ?.
  own_get.
  leave_new triple_meth_new_own. rename n into ly.
  own_set (ImageMulti_handles d ly 0 0 0 ∅).
  leave_new triple_meth_new_own. rename n into eb.
  own_set (ImageMulti_handles d ly eb 0 0 ∅).
  eapply (triple_bind _ _ _ _
    (fun _ w => exists lg,
       at_ (owning true (ImageMulti_owned d ly eb lg ∅) [])
         (ImageMulti_handles d ly eb lg 0 ∅) w)).
  { destruct (negb (use_logo g0 =? 0)); cbn [when].
    - leave_new triple_meth_new_own. rename n into lg.
      eapply triple_post;
        [apply (triple_modify_at _ _ _ (ImageMulti_handles d ly eb lg 0 ∅));
         handles_solve|].
      intros ? w Hw. exists lg. unfold ImageMulti_owned.
      rewrite stack_handles_empty, (own_if_nonzero lg) by assumption. exact Hw.
    - apply triple_ret. intros w Hw. exists 0%nat. exact Hw. }
  intros ?. apply triple_ex. intros lg. eta_pre.
  apply triple_lib_then_fresh; [split; reflexivity|]. intros ws Hws.
  own_set (ImageMulti_handles d ly eb lg ws ∅).
  eapply triple_pre with (P := ImageMulti_showing d ly eb lg ws);
    [|intros w Hw; exists ∅, []; split; [exact Hw|apply known_ids_empty]].
  eapply triple_bind; [apply triple_leaving, ImageMulti_load_files_own|]. intros ?.
  apply triple_forever_on.
  { intros w (st' & ids' & [(_ & Hc & _) _] & _). left. exact Hc. }
  apply ImageMulti_main_loop_body_own, Hws.
Qed.

Lemma ImageMulti_dfb_shutdown_unended : keeps fresh_ids unended unended dfb_shutdown.
Proof. unfold dfb_shutdown, stack_destructor. keeps_go. Qed.

Lemma ImageMulti_parse_command_line_halting args : halting (parse_command_line args).
Proof. induction args as [|arg rest IH]; simpl; halting_go. Qed.

#[local] Hint Resolve ImageMulti_parse_command_line_halting : halts.

Lemma ImageMulti_dfb_shutdown_halting : halting dfb_shutdown.
Proof. halting_go. Qed.

Lemma ImageMulti_main_halting fuel argv argv' : halting (main fuel argv argv').
Proof. halting_go. Qed.

End ImageMultiProcess.

(** X10: whenever df_image_multi ends with an exit code -- the usage message,
    a quit key, or the close of its last window -- and the library never
    hands out the identifier of a window twice, each interface that the
    program obtained (main interface, layer, event buffer, logo surface, and
    for every file the image provider, the window and its surface) was
    released exactly once, through a pointer that was not [NULL], and none
    is left. *)
Theorem df_image_multi_releases_its_interfaces `{Headers} (o : oracle) (fuel : nat)
    (argv argv' : list string) :
  obeys fresh_ids o ->
  ends_with_code (df_image_multi fuel argv argv' o (start ImageMulti.init)) = true ->
  settled (log (final (df_image_multi fuel argv argv' o (start ImageMulti.init))))
    = true.
Proof.
  intros Ho. unfold df_image_multi.
  apply (process_settles fresh_ids
           (at_ (owning false [] []) (ImageMulti_handles 0 0 0 0 0 ∅))
           ImageMulti_pending).
  - apply ImageMulti_main_own.
  - apply ImageMulti_main_halting.
  - apply ImageMulti_dfb_shutdown_own.
  - apply ImageMulti_dfb_shutdown_unended.
  - apply ImageMulti_dfb_shutdown_halting.
  - exact Ho.
  - split.
    + split; [apply owns_nil|]. repeat split. intros x Hx. inversion Hx.
    + repeat split.
Qed.

Lemma df_image_multi_releases_its_interfaces_witness :
  settled (log (final (@df_image_multi directfb_headers 5
                         ["df_image_multi"; "a.png"; "b.png"]
                         ["df_image_multi"; "a.png"; "b.png"]
                         (script [close_of 1; key_press 0x1B])
                         (start ImageMulti.init)))) = true.
Proof.
  apply (@df_image_multi_releases_its_interfaces directfb_headers).
  - apply script_fresh.
  - vm_compute. reflexivity.
Defined.

(** ** df_video_multi.c *)

Ltac vmulti_open :=
  unfold VideoMulti_showing;
  let st := fresh "st" in
  let ids := fresh "ids" in
  let Hst := fresh "Hst" in
  apply triple_ex; intros st; apply triple_ex; intros ids; cbv beta;
  apply triple_pure; intros Hst;
  lazymatch goal with
  | |- triple ?L (at_ ?I ?P) ?m ?Q ?J => idtac
  | |- triple ?L (fun w => at_ ?I ?P w) ?m ?Q ?J => change (triple L (at_ I P) m Q J)
  end.

Ltac vmulti_close st ids :=
  apply triple_ret;
  let w := fresh "w" in
  let Hw := fresh "Hw" in
  intros w Hw; exists st, ids; split; assumption.

Section VideoMultiHandles.
Context `{Headers} (L : libspec).
Import VideoMulti.

Lemma VideoMulti_destroy_each kvs hs (P : globals -> Prop) J :
  triple L
    (at_ (having (entries_handles VideoMulti_entry_handles kvs ++ hs)) P)
    (for_each kvs (fun kv => stack_destructor (snd kv)))
    (fun _ => at_ (having hs) P) J.
Proof.
  induction kvs as [|[k e] kvs IH]; cbn [for_each entries_handles flat_map].
  - apply triple_ret. auto.
  - cbn [snd VideoMulti_entry_handles app].
    fold (entries_handles VideoMulti_entry_handles kvs).
    eapply (triple_bind _ _ _ _
      (fun _ => at_ (having (entries_handles VideoMulti_entry_handles kvs ++ hs)) P)).
    + unfold stack_destructor.
      do 3 (eapply triple_bind; [eapply triple_release_having; reflexivity|intros ?]).
      apply triple_ret. auto.
    + intros _. exact IH.
Qed.

Lemma VideoMulti_dfb_shutdown_own :
  triple L VideoMulti_pending dfb_shutdown (fun _ => on_trace (having []))
    (fun _ => False).
Proof.
  unfold VideoMulti_pending, dfb_shutdown, VideoMulti_owned.
  apply triple_ex. intros d. apply triple_ex. intros ly. apply triple_ex. intros eb.
  apply triple_ex. intros lg. apply triple_ex. intros ws. apply triple_ex. intros st.
  cbv beta. apply triple_pure. intros Hws.
  apply (triple_having_nonzero L eb KEvents); [set_solver|]. intros Heb.
  apply (triple_having_nonzero L ly KLayer); [set_solver|]. intros Hly.
  apply (triple_having_nonzero L d KMain); [set_solver|]. intros Hd.
  own_get.
  pose proof Hws as Hws'.
  apply Nat.eqb_neq in Hws, Heb, Hly, Hd.
  rewrite Hws, Heb, Hly, Hd. cbn [negb when].
  eapply (triple_bind _ _ _ _
    (fun _ => at_ (having (own_if lg KSurface ++
                           [(eb, KEvents); (ly, KLayer); (d, KMain)]))
                (VideoMulti_handles d ly eb lg ws st))).
  { unfold destroy_stack. own_get.
    eapply triple_bind; [apply VideoMulti_destroy_each|]. intros ?.
    eapply triple_bind; [apply triple_meth_having; [split; reflexivity|exact Hws']|].
    intros ?. apply triple_ret. auto. }
  intros _.
  eapply (triple_bind _ _ _ _
    (fun _ => at_ (having [(eb, KEvents); (ly, KLayer); (d, KMain)])
                (VideoMulti_handles d ly eb lg ws st))).
  { destruct (Nat.eqb_spec lg 0) as [->|Hlg]; cbn [negb when].
    - apply triple_ret. auto.
    - rewrite (own_if_nonzero lg) by exact Hlg. cbn [app].
      eapply triple_bind; [eapply triple_release_having; reflexivity|].
      intros ?. apply triple_ret. auto. }
  intros _.
  repeat lazymatch goal with
         | |- triple _ (at_ (having (_ :: ?rest)) ?P) ((meth ?f _ _ ≫= _) ≫= _) _ _ =>
             apply (triple_bind _ _ _ _ (fun _ => at_ (having rest) P));
             [eapply triple_bind;
              [eapply triple_release_having; reflexivity
              |intros ?; apply triple_ret; intros w Hw; exact Hw]
             |intros ?]
         end.
  eapply triple_bind; [eapply triple_release_having; reflexivity|].
  intros ?. apply triple_ret. intros w [Hw _]. exact Hw.
Qed.

Lemma VideoMulti_remove_window_own id d ly eb lg ws st ids :
  known_ids st ids ->
  triple L
    (at_ (owning true (VideoMulti_owned d ly eb lg st) ids)
       (VideoMulti_handles d ly eb lg ws st))
    (remove_window id)
    (fun _ => VideoMulti_showing d ly eb lg ws)
    (on_trace unended).
Proof.
  intros Hst. unfold remove_window.
  own_get. unfold direct_hash_lookup.
  destruct (st !! id) as [e|] eqn:He.
  - apply (triple_perm L true _
             (VideoMulti_entry_handles e ++ VideoMulti_owned d ly eb lg (delete id st))).
    { unfold VideoMulti_owned. rewrite (stack_handles_delete _ st id e He).
      rewrite <- app_assoc. reflexivity. }
    cbn [VideoMulti_entry_handles app].
    do 3 own_release_first.
    own_set (VideoMulti_handles d ly eb lg ws (delete id st)).
    apply triple_ret. intros w Hw. exists (delete id st), ids.
    split; [exact Hw|apply known_ids_delete, Hst].
  - apply triple_ret. intros w Hw. exists st, ids. split; assumption.
Qed.

Lemma VideoMulti_quit_own {A} d ly eb lg ws st ids (Q : A -> world globals -> Prop) :
  ws <> 0%nat ->
  triple L
    (at_ (owning true (VideoMulti_owned d ly eb lg st) ids)
       (VideoMulti_handles d ly eb lg ws st))
    (exit (Code 42)) Q (leaving VideoMulti_pending).
Proof.
  intros Hws. apply triple_exit_hooked. intros w Hw.
  exists d, ly, eb, lg, ws, st. split; assumption.
Qed.

Lemma VideoMulti_dispatch_own evt d ly eb lg ws :
  ws <> 0%nat ->
  triple L (VideoMulti_showing d ly eb lg ws) (dispatch evt)
    (fun _ => VideoMulti_showing d ly eb lg ws) (leaving VideoMulti_pending).
Proof.
  intros Hws.
  unfold dispatch, send_input_event, pause_resume, stop_start, adjust_color, seek,
    set_speed, set_volume.
  vmulti_open.
  assert (Hplain : forall m : prog globals unit,
    keeps L (owning true (VideoMulti_owned d ly eb lg st) ids) unended m ->
    holds (VideoMulti_handles d ly eb lg ws st) m ->
    triple L
      (at_ (owning true (VideoMulti_owned d ly eb lg st) ids)
         (VideoMulti_handles d ly eb lg ws st))
      m (fun _ => VideoMulti_showing d ly eb lg ws) (leaving VideoMulti_pending)).
  { intros m Hk Hh. eapply triple_conseq; [apply keeps_holds; [exact Hk|exact Hh]| | |].
    - auto.
    - intros ? w Hw. exists st, ids. split; assumption.
    - intros w Hw. apply leaving_unended, Hw. }
  own_get.
  destruct (evt_type evt); try vmulti_close st ids.
  all: try (eapply triple_bind;
              [apply triple_leaving, VideoMulti_remove_window_own, Hst|]).
  all: try leave_keep.
  all: try own_get.
  all: repeat lazymatch goal with
              | |- triple _ _ (if ?b then _ else _) _ _ => destruct b
              end.
  all: try (apply VideoMulti_quit_own, Hws).
  all: try (apply Hplain; [solve [keeps_go]|holds_solve]).
  intros removed. cbv beta.
  destruct removed; [|apply triple_ret; auto].
  clear st ids Hst Hplain. vmulti_open.
  own_set (VideoMulti_handles d ly eb lg ws st).
  own_get.
  destruct (mrl_count g0 <=? 0); [|vmulti_close st ids].
  apply VideoMulti_quit_own, Hws.
Qed.

Lemma VideoMulti_process_event_buffer_own fuel d ly eb lg ws :
  ws <> 0%nat ->
  triple L (VideoMulti_showing d ly eb lg ws) (process_event_buffer fuel)
    (fun _ => VideoMulti_showing d ly eb lg ws) (leaving VideoMulti_pending).
Proof.
  intros Hws. unfold process_event_buffer. apply triple_forever.
  { intros w (st & ids & [(_ & Hc & _) _] & _). left. exact Hc. }
  vmulti_open.
  own_get. leave_keep.
  destruct (is_ok (a_ret x)).
  - eapply triple_bind.
    { eapply triple_pre; [apply VideoMulti_dispatch_own, Hws|].
      intros w Hw. exists st, ids. split; eassumption. }
    intros ?. apply triple_ret. auto.
  - vmulti_close st ids.
Qed.

Lemma VideoMulti_same_windows_refl st : VideoMulti_same_windows st st.
Proof. intros k e He. exists e. split; [exact He|reflexivity]. Qed.

Lemma VideoMulti_logo_progress_own id entry d ly eb lg ws ids st :
  st !! id = Some entry ->
  triple L (VideoMulti_updating d ly eb lg ws ids st) (logo_progress id entry)
    (fun _ => VideoMulti_updating d ly eb lg ws ids st) (on_trace unended).
Proof.
  intros Hid. unfold logo_progress, VideoMulti_updating.
  apply triple_ex. intros st'. cbv beta. apply triple_pure. intros [Hknown Hsame].
  destruct (Hsame id entry Hid) as (e0 & He0 & Heq).
  do 2 keep_then.
  set (e' := {| window := window entry; surface := surface entry;
                video_provider := video_provider entry; progress := _ |}).
  eapply triple_post;
    [apply (triple_modify_at _ _ _ (VideoMulti_handles d ly eb lg ws (<[id := e']> st')))|].
  - intros g Hg. handles_facts Hg. hnf. cbn. subst st'. repeat split; assumption.
  - intros ? w Hw. exists (<[id := e']> st'). split; [|split].
    + eapply at_owning_perm; [|exact Hw]. unfold VideoMulti_owned.
      rewrite (stack_handles_replace _ st' id e0 e' He0); [reflexivity|].
      rewrite Heq. reflexivity.
    + eapply known_ids_replace; eassumption.
    + intros k e He. destruct (decide (k = id)) as [->|Hne].
      * exists e'. rewrite lookup_insert_eq. split; [reflexivity|].
        rewrite Hid in He. injection He as <-. reflexivity.
      * rewrite lookup_insert_ne by congruence. apply Hsame, He.
Qed.

Lemma VideoMulti_logo_loop_own kvs d ly eb lg ws ids st :
  (forall k e, (k, e) ∈ kvs -> st !! k = Some e) ->
  triple L (VideoMulti_updating d ly eb lg ws ids st)
    (for_each kvs (fun kv => logo_progress (fst kv) (snd kv)))
    (fun _ => VideoMulti_updating d ly eb lg ws ids st) (on_trace unended).
Proof.
  intros Hkvs. apply triple_for_each. intros [k e] Hin. cbn [fst snd].
  apply VideoMulti_logo_progress_own, Hkvs, list_elem_of_In, Hin.
Qed.

Lemma VideoMulti_updating_showing d ly eb lg ws ids st w :
  VideoMulti_updating d ly eb lg ws ids st w -> VideoMulti_showing d ly eb lg ws w.
Proof. intros (st' & Hw & Hknown & _). exists st', ids. split; assumption. Qed.

Lemma VideoMulti_main_loop_body_own fuel d ly eb lg ws :
  ws <> 0%nat ->
  triple L (VideoMulti_showing d ly eb lg ws) (main_loop_body fuel)
    (fun r w => r = None /\ VideoMulti_showing d ly eb lg ws w)
    (leaving VideoMulti_pending).
Proof.
  intros Hws. unfold main_loop_body. vmulti_open.
  own_get.
  eapply (triple_bind _ _ _ _ (fun _ => VideoMulti_showing d ly eb lg ws)).
  { apply triple_leaving.
    destruct (negb (lg =? 0)%nat).
    - keep_then.
      destruct (a_ret x);
        try (apply triple_ret; intros w Hw; exists st, ids; split; assumption).
      eapply triple_bind.
      { eapply triple_conseq; [apply (VideoMulti_logo_loop_own _ d ly eb lg ws ids st)| | |].
        - intros k e Hin. apply elem_of_map_to_list, Hin.
        - intros w Hw. exists st. split; [exact Hw|]. split; [exact Hst|].
          apply VideoMulti_same_windows_refl.
        - intros ? w Hw. exact (VideoMulti_updating_showing _ _ _ _ _ _ _ _ Hw).
        - auto. }
      intros ?. apply triple_ret. auto.
    - keep_then. apply triple_ret. intros w Hw. exists st, ids. split; assumption. }
  intros timeout. destruct timeout.
  - apply triple_ret. auto.
  - eapply triple_bind; [apply VideoMulti_process_event_buffer_own, Hws|].
    intros ?. apply triple_ret. auto.
Qed.

End VideoMultiHandles.

Section VideoMultiProcess.
Context `{Headers}.
Import VideoMulti.

Lemma VideoMulti_add_window_own vp sdsc_width sdsc_height d ly eb lg ws st ids :
  known_ids st ids ->
  triple fresh_ids
    (at_ (owning true ((vp, KVideo) :: VideoMulti_owned d ly eb lg st) ids)
       (VideoMulti_handles d ly eb lg ws st))
    (add_window vp sdsc_width sdsc_height)
    (fun _ => VideoMulti_showing d ly eb lg ws)
    (on_trace unended).
Proof.
  intros Hst. unfold add_window.
  own_get.
  own_new triple_meth_new_own. rename n into win.
  own_new triple_meth_new_own. rename n into s.
  do 3 keep_then.
  own_then triple_get_id_own. apply triple_pure. intros Hfresh.
  do 2 keep_then.
  pose proof (known_ids_fresh st ids (a_id x2) Hst Hfresh) as Hnone.
  set (e := {| window := win; surface := s; video_provider := vp; progress := 0 |}).
  eapply triple_bind;
    [apply (triple_modify_at _ _ _
              (VideoMulti_handles d ly eb lg ws (<[a_id x2 := e]> st)))|].
  { intros g' Hg'. handles_facts Hg'. hnf. cbn. subst st.
    rewrite (direct_hash_insert_fresh _ _ _ Hnone). repeat split; assumption. }
  intros ?. cbv beta.
  do 2 keep_then.
  apply triple_ret. intros w Hw.
  exists (<[a_id x2 := e]> st), (a_id x2 :: ids).
  split; [|apply known_ids_insert, Hst].
  eapply at_owning_perm; [|exact Hw]. unfold VideoMulti_owned.
  rewrite (stack_handles_insert _ st _ _ Hnone). cbn [VideoMulti_entry_handles app].
  subst e. cbn [window surface video_provider]. solve_Permutation.
Qed.

Lemma VideoMulti_load_file_own mrl d ly eb lg ws :
  triple fresh_ids (VideoMulti_showing d ly eb lg ws) (load_file mrl)
    (fun _ => VideoMulti_showing d ly eb lg ws) (on_trace unended).
Proof.
  unfold load_file. vmulti_open.
  own_get.
  own_new triple_meth_new_own. rename n into vp.
  keep_then.
  own_set (VideoMulti_handles d ly eb lg ws st).
  do 2 keep_then.
  apply VideoMulti_add_window_own, Hst.
Qed.

Lemma VideoMulti_load_files_own mrls d ly eb lg ws :
  triple fresh_ids (VideoMulti_showing d ly eb lg ws) (for_each mrls load_file)
    (fun _ => VideoMulti_showing d ly eb lg ws) (on_trace unended).
Proof.
  apply triple_for_each. intros mrl _. apply VideoMulti_load_file_own.
Qed.

Lemma VideoMulti_parse_command_line_own args pending :
  triple fresh_ids (at_ (owning false [] []) (VideoMulti_handles 0 0 0 0 0 ∅))
    (parse_command_line args)
    (fun _ => at_ (owning false [] []) (VideoMulti_handles 0 0 0 0 0 ∅))
    (leaving pending).
Proof.
  induction args as [|arg rest IH]; cbn [parse_command_line].
  - apply triple_ret. auto.
  - destruct (after_dash arg) as [opt|].
    + repeat lazymatch goal with
             | |- triple _ _ (if ?b then _ else _) _ _ => destruct b
             end;
        try apply IH.
      * leave_keep. apply triple_exit_unhooked.
      * own_set (VideoMulti_handles 0 0 0 0 0 ∅). apply IH.
      * own_set (VideoMulti_handles 0 0 0 0 0 ∅). apply IH.
      * own_get. leave_keep.
        own_set (VideoMulti_handles 0 0 0 0 0 ∅).
        own_set (VideoMulti_handles 0 0 0 0 0 ∅). apply IH.
    + own_set (VideoMulti_handles 0 0 0 0 0 ∅).
      apply (triple_modify_at _ _ _ (VideoMulti_handles 0 0 0 0 0 ∅)). handles_solve.
Qed.

Lemma VideoMulti_main_own fuel argv argv' :
  triple fresh_ids (at_ (owning false [] []) (VideoMulti_handles 0 0 0 0 0 ∅))
    (main fuel argv argv')
    (fun n w => leaving VideoMulti_pending (returned n w))
    (leaving VideoMulti_pending).
Proof.
  unfold main.
  destruct (argc argv <? 2).
  { leave_keep. apply triple_exit_unhooked. }
  leave_keep.
  eapply triple_bind; [apply VideoMulti_parse_command_line_own|]. intros ?.
  own_get.
  destruct (mrl_count g =? 0).
  { leave_keep. apply triple_exit_unhooked. }
  leave_new triple_lib_new_own. rename n into d.
  own_set (VideoMulti_handles d 0 0 0 0 ∅).
  eapply triple_bind; [apply triple_atexit_own|]. intros ?.
  own_get.
  leave_new triple_meth_new_own. rename n into ly.
  own_set (VideoMulti_handles d ly 0 0 0 ∅).
  leave_new triple_meth_new_own. rename n into eb.
  own_set (VideoMulti_handles d ly eb 0 0 ∅).
  eapply (triple_bind _ _ _ _
    (fun _ w => exists lg,
       at_ (owning true (VideoMulti_owned d ly eb lg ∅) [])
         (VideoMulti_handles d ly eb lg 0 ∅) w)).
  { destruct (negb (use_logo g0 =? 0)); cbn [when].
    - leave_new triple_meth_new_own. rename n into lg.
      eapply triple_post;
        [apply (triple_modify_at _ _ _ (VideoMulti_handles d ly eb lg 0 ∅));
         handles_solve|].
      intros ? w Hw. exists lg. unfold VideoMulti_owned.
      rewrite stack_handles_empty, (own_if_nonzero lg) by assumption. exact Hw.
    - apply triple_ret. intros w Hw. exists 0%nat. exact Hw. }
  intros ?. apply triple_ex. intros lg. eta_pre.
  apply triple_lib_then_fresh; [split; reflexivity|]. intros ws Hws.
  own_set (VideoMulti_handles d ly eb lg ws ∅).
  eapply triple_pre with (P := VideoMulti_showing d ly eb lg ws);
    [|intros w Hw; exists ∅, []; split; [exact Hw|apply known_ids_empty]].
  eapply triple_bind; [apply triple_leaving, VideoMulti_load_files_own|]. intros ?.
  vmulti_open.
  own_set (VideoMulti_handles d ly eb lg ws st).
  eapply triple_pre with (P := VideoMulti_showing d ly eb lg ws);
    [|intros w Hw; exists st, ids; split; assumption].
  apply triple_forever_on.
  { intros w (st' & ids' & [(_ & Hc & _) _] & _). left. exact Hc. }
  apply VideoMulti_main_loop_body_own, Hws.
Qed.

Lemma VideoMulti_dfb_shutdown_unended : keeps fresh_ids unended unended dfb_shutdown.
Proof. unfold dfb_shutdown, destroy_stack, stack_destructor. keeps_go. Qed.

Lemma VideoMulti_parse_command_line_halting args : halting (parse_command_line args).
Proof. induction args as [|arg rest IH]; simpl; halting_go. Qed.

#[local] Hint Resolve VideoMulti_parse_command_line_halting : halts.

Lemma VideoMulti_dfb_shutdown_halting : halting dfb_shutdown.
Proof. halting_go. Qed.

Lemma VideoMulti_main_halting fuel argv argv' : halting (main fuel argv argv').
Proof. halting_go. Qed.

End VideoMultiProcess.


(** X11: whenever df_video_multi ends with an exit code -- the usage message,
    a quit key, or the close of its last window -- and the library never
    hands out the identifier of a window twice, each interface that the
    program obtained (main interface, layer, event buffer, logo surface, and
    for every file the video provider, the window and its surface) was
    released exactly once, through a pointer that was not [NULL], and none
    is left. *)
Theorem df_video_multi_releases_its_interfaces `{Headers} (o : oracle) (fuel : nat)
    (argv argv' : list string) :
  obeys fresh_ids o ->
  ends_with_code (df_video_multi fuel argv argv' o (start VideoMulti.init)) = true ->
  settled (log (final (df_video_multi fuel argv argv' o (start VideoMulti.init))))
    = true.
Proof.
  intros Ho. unfold df_video_multi.
  apply (process_settles fresh_ids
           (at_ (owning false [] []) (VideoMulti_handles 0 0 0 0 0 ∅))
           VideoMulti_pending).
  - apply VideoMulti_main_own.
  - apply VideoMulti_main_halting.
  - apply VideoMulti_dfb_shutdown_own.
  - apply VideoMulti_dfb_shutdown_unended.
  - apply VideoMulti_dfb_shutdown_halting.
  - exact Ho.
  - split.
    + split; [apply owns_nil|]. repeat split. intros x Hx. inversion Hx.
    + repeat split.
Qed.

Lemma df_video_multi_releases_its_interfaces_witness :
  settled (log (final (@df_video_multi directfb_headers 5
                         ["df_video_multi"; "a.avi"; "b.avi"]
                         ["df_video_multi"; "a.avi"; "b.avi"]
                         (script [close_of 1; key_press 0x1B])
                         (start VideoMulti.init)))) = true.
Proof.
  apply (@df_video_multi_releases_its_interfaces directfb_headers).
  - apply script_fresh.
  - vm_compute. reflexivity.
Defined.

(** ** The command lines *)

Lemma after_dash_Some arg opt : after_dash arg = Some opt -> arg = String "-" opt.
Proof.
  destruct arg as [|c arg]; [discriminate|]. unfold after_dash.
  destruct c as [[] [] [] [] [] [] [] []]; try discriminate.
  intros [= ->]. reflexivity.
Qed.

Section MusicSampleCommandLine.
Context `{Headers}.
Import MusicSample.

(** X12: the playlist of fs_music_sample.  When the loop over the command
    line comes to its end, the arguments that do not start with a dash have
    been appended to the list of medias, in the order of the command line and
    numbered consecutively from the counter on, each without tracks; when it
    does not, the process has ended with the exit code 0 (at [--help]). *)
Theorem music_playlist_is_the_files_in_order (args : list string) (id : Z) (o : oracle)
    (w : world globals) :
  match parse_command_line args id o w with
  | Ret _ w' =>
      medias (glob w') = medias (glob w) ++ MusicSample_playlist id (filter is_file args)
  | Exit c _ => c = Code 0 /\ "--help" ∈ args
  | Spin _ => False
  end.
Proof.
  revert id w. induction args as [|arg rest IH]; intros id w.
  - cbn. rewrite app_nil_r. reflexivity.
  - assert (Hskip : forall w1, medias (glob w1) = medias (glob w) ->
      is_file arg = false ->
      match parse_command_line rest id o w1 with
      | Ret _ w' =>
          medias (glob w') =
          medias (glob w) ++ MusicSample_playlist id (filter is_file (arg :: rest))
      | Exit c _ => c = Code 0 /\ "--help" ∈ arg :: rest
      | Spin _ => False
      end).
    { intros w1 Hw1 Hfile. specialize (IH id w1).
      destruct (parse_command_line rest id o w1) as [[] w'|c w'|w'].
      - rewrite filter_cons_False by (rewrite Hfile; auto). rewrite IH, Hw1. reflexivity.
      - destruct IH as [-> Hin]. split; [reflexivity|right; exact Hin].
      - exact IH. }
    assert (Hstep : forall (f : globals -> globals) w1,
      (forall g, medias (f g) = medias g) ->
      medias (glob w1) = medias (glob w) ->
      is_file arg = false ->
      match (modify f;; parse_command_line rest id) o w1 with
      | Ret _ w' =>
          medias (glob w') =
          medias (glob w) ++ MusicSample_playlist id (filter is_file (arg :: rest))
      | Exit c _ => c = Code 0 /\ "--help" ∈ arg :: rest
      | Spin _ => False
      end).
    { intros f w1 Hf Hw1 Hfile. unfold mbind, prog_bind, bind, modify.
      apply Hskip; [|exact Hfile]. cbn [glob]. rewrite Hf. exact Hw1. }
    cbn [parse_command_line].
    destruct (after_dash arg) as [opt|] eqn:Harg.
    + assert (Hfile : is_file arg = false) by (unfold is_file; rewrite Harg; reflexivity).
      destruct (strcmp0 opt "-help") eqn:Hhelp.
      { cbn. split; [reflexivity|].
        apply String.eqb_eq in Hhelp. subst opt.
        rewrite (after_dash_Some _ _ Harg). left. }
      destruct (strcmp0 opt "-quiet").
      { apply Hstep; [reflexivity|reflexivity|exact Hfile]. }
      destruct (strcmp0 opt "-depth=").
      { unfold mbind at 1, prog_bind, bind at 1, lib.
        repeat lazymatch goal with
               | |- context [if ?b then modify _ else _] => destruct b
               end;
          try (apply Hstep; [reflexivity|reflexivity|exact Hfile]).
        unfold mbind, prog_bind, bind, mret, prog_ret, ret.
        apply Hskip; [reflexivity|exact Hfile]. }
      destruct (strncmp0 opt "-gain=").
      { apply Hstep; [reflexivity|reflexivity|exact Hfile]. }
      apply Hskip; [reflexivity|exact Hfile].
    + unfold mbind, prog_bind, bind, modify.
      specialize (IH (id + 1)
        (World (set_medias (medias (glob w) ++ [{| mrl := arg; id := id; tracks := [] |}])
                  (glob w)) (log w) (hooked w))).
      destruct (parse_command_line rest (id + 1) o _) as [[] w'|c w'|w']; cbn [glob] in IH.
      * rewrite filter_cons_True by (unfold is_file; rewrite Harg; exact Logic.I).
        rewrite IH. cbn [medias set_medias MusicSample_playlist].
        rewrite <- app_assoc. reflexivity.
      * destruct IH as [-> Hin]. split; [reflexivity|right; exact Hin].
      * exact IH.
Qed.

End MusicSampleCommandLine.

(** X13: fs_music_sample compares the whole argument with [--depth=]
    ([strcmp], where the other options with a value use [strncmp]), so an
    argument [--depth=N] with a value is passed over like an unknown option:
    the loop over the command line goes on to the next argument without a
    call and without a change of the sample format.  The player with a
    playing direction compares the prefix and converts the value. *)
Theorem music_depth_with_a_value_is_passed_over `{Headers} (value : string)
    (rest : list string) (id : Z) :
  value <> EmptyString ->
  MusicSample.parse_command_line (String.append "--depth=" value :: rest) id =
    MusicSample.parse_command_line rest id /\
  MusicSampleDir.parse_command_line (String.append "--depth=" value :: rest) id =
    (a ← lib atoi [];
     (if a_int a =? 8 then modify (MusicSampleDir.set_sampleformat FSSF_U8)
      else if a_int a =? 16 then modify (MusicSampleDir.set_sampleformat FSSF_S16)
      else if a_int a =? 24 then modify (MusicSampleDir.set_sampleformat FSSF_S24)
      else if a_int a =? 32 then modify (MusicSampleDir.set_sampleformat FSSF_S32)
      else mret tt);;
     MusicSampleDir.parse_command_line rest id).
Proof.
  intros Hvalue. split.
  - destruct value as [|c value]; [destruct (Hvalue eq_refl)|]. reflexivity.
  - destruct value; reflexivity.
Qed.

Lemma music_depth_with_a_value_is_passed_over_witness :
  @MusicSample.parse_command_line directfb_headers ["--depth=16"; "a.ogg"] 0 =
  @MusicSample.parse_command_line directfb_headers ["a.ogg"] 0.
Proof.
  refine (proj1 (@music_depth_with_a_value_is_passed_over directfb_headers "16"
                   ["a.ogg"] 0 _)).
  discriminate.
Defined.

Section FileLists.
Context `{Headers}.

Lemma ImageMulti_parse_command_line_files args o w :
  match ImageMulti.parse_command_line args o w with
  | Ret _ w' =>
      files_taken args (ImageMulti.mrl_list (glob w), ImageMulti.mrl_count (glob w))
        (ImageMulti.mrl_list (glob w'), ImageMulti.mrl_count (glob w'))
  | Exit c _ => c = Code 0 /\ "--help" ∈ args
  | Spin _ => False
  end.
Proof.
  revert w. induction args as [|arg rest IH]; intros w.
  - reflexivity.
  - assert (Hskip : forall w1,
      ImageMulti.mrl_list (glob w1) = ImageMulti.mrl_list (glob w) ->
      ImageMulti.mrl_count (glob w1) = ImageMulti.mrl_count (glob w) ->
      is_file arg = false ->
      match ImageMulti.parse_command_line rest o w1 with
      | Ret _ w' =>
          files_taken (arg :: rest)
            (ImageMulti.mrl_list (glob w), ImageMulti.mrl_count (glob w))
            (ImageMulti.mrl_list (glob w'), ImageMulti.mrl_count (glob w'))
      | Exit c _ => c = Code 0 /\ "--help" ∈ arg :: rest
      | Spin _ => False
      end).
    { intros w1 Hl Hc Hfile. specialize (IH w1).
      destruct (ImageMulti.parse_command_line rest o w1) as [[] w'|c w'|w'].
      - unfold files_taken in *. cbn [files_from]. rewrite Hfile, <- Hl, <- Hc. exact IH.
      - destruct IH as [-> Hin]. split; [reflexivity|right; exact Hin].
      - exact IH. }
    cbn [ImageMulti.parse_command_line].
    destruct (after_dash arg) as [opt|] eqn:Harg.
    + assert (Hfile : is_file arg = false) by (unfold is_file; rewrite Harg; reflexivity).
      destruct (strcmp0 opt "-help") eqn:Hhelp.
      { cbn. split; [reflexivity|].
        apply String.eqb_eq in Hhelp. subst opt.
        rewrite (after_dash_Some _ _ Harg). left. }
      repeat match goal with
             | |- context [if strcmp0 ?a ?b then _ else _] => destruct (strcmp0 a b)
             | |- context [if strncmp0 ?a ?b then _ else _] => destruct (strncmp0 a b)
             end;
        cbn -[ImageMulti.parse_command_line files_taken elem_of];
        apply Hskip; solve [reflexivity|exact Hfile].
    + unfold mbind, prog_bind, bind, modify. cbn [glob].
      unfold files_taken. cbn [files_from]. unfold is_file. rewrite Harg. reflexivity.
Qed.

Lemma VideoMulti_parse_command_line_files args o w :
  match VideoMulti.parse_command_line args o w with
  | Ret _ w' =>
      files_taken args (VideoMulti.mrl_list (glob w), VideoMulti.mrl_count (glob w))
        (VideoMulti.mrl_list (glob w'), VideoMulti.mrl_count (glob w'))
  | Exit c _ => c = Code 0 /\ "--help" ∈ args
  | Spin _ => False
  end.
Proof.
  revert w. induction args as [|arg rest IH]; intros w.
  - reflexivity.
  - assert (Hskip : forall w1,
      VideoMulti.mrl_list (glob w1) = VideoMulti.mrl_list (glob w) ->
      VideoMulti.mrl_count (glob w1) = VideoMulti.mrl_count (glob w) ->
      is_file arg = false ->
      match VideoMulti.parse_command_line rest o w1 with
      | Ret _ w' =>
          files_taken (arg :: rest)
            (VideoMulti.mrl_list (glob w), VideoMulti.mrl_count (glob w))
            (VideoMulti.mrl_list (glob w'), VideoMulti.mrl_count (glob w'))
      | Exit c _ => c = Code 0 /\ "--help" ∈ arg :: rest
      | Spin _ => False
      end).
    { intros w1 Hl Hc Hfile. specialize (IH w1).
      destruct (VideoMulti.parse_command_line rest o w1) as [[] w'|c w'|w'].
      - unfold files_taken in *. cbn [files_from]. rewrite Hfile, <- Hl, <- Hc. exact IH.
      - destruct IH as [-> Hin]. split; [reflexivity|right; exact Hin].
      - exact IH. }
    cbn [VideoMulti.parse_command_line].
    destruct (after_dash arg) as [opt|] eqn:Harg.
    + assert (Hfile : is_file arg = false) by (unfold is_file; rewrite Harg; reflexivity).
      destruct (strcmp0 opt "-help") eqn:Hhelp.
      { cbn. split; [reflexivity|].
        apply String.eqb_eq in Hhelp. subst opt.
        rewrite (after_dash_Some _ _ Harg). left. }
      repeat match goal with
             | |- context [if strcmp0 ?a ?b then _ else _] => destruct (strcmp0 a b)
             | |- context [if strncmp0 ?a ?b then _ else _] => destruct (strncmp0 a b)
             end;
        cbn -[VideoMulti.parse_command_line files_taken elem_of];
        apply Hskip; solve [reflexivity|exact Hfile].
    + unfold mbind, prog_bind, bind, modify. cbn [glob].
      unfold files_taken. cbn [files_from]. unfold is_file. rewrite Harg. reflexivity.
Qed.

Lemma FontSample_parse_command_line_files args o w :
  match FontSample.parse_command_line args o w with
  | Ret _ w' =>
      files_taken args (FontSample.fontfile_list (glob w), FontSample.fontfile_count (glob w))
        (FontSample.fontfile_list (glob w'), FontSample.fontfile_count (glob w'))
  | Exit c _ => c = Code 0 /\ "--help" ∈ args
  | Spin _ => False
  end.
Proof.
  revert w. induction args as [|arg rest IH]; intros w.
  - reflexivity.
  - assert (Hskip : forall w1,
      FontSample.fontfile_list (glob w1) = FontSample.fontfile_list (glob w) ->
      FontSample.fontfile_count (glob w1) = FontSample.fontfile_count (glob w) ->
      is_file arg = false ->
      match FontSample.parse_command_line rest o w1 with
      | Ret _ w' =>
          files_taken (arg :: rest)
            (FontSample.fontfile_list (glob w), FontSample.fontfile_count (glob w))
            (FontSample.fontfile_list (glob w'), FontSample.fontfile_count (glob w'))
      | Exit c _ => c = Code 0 /\ "--help" ∈ arg :: rest
      | Spin _ => False
      end).
    { intros w1 Hl Hc Hfile. specialize (IH w1).
      destruct (FontSample.parse_command_line rest o w1) as [[] w'|c w'|w'].
      - unfold files_taken in *. cbn [files_from]. rewrite Hfile, <- Hl, <- Hc. exact IH.
      - destruct IH as [-> Hin]. split; [reflexivity|right; exact Hin].
      - exact IH. }
    cbn [FontSample.parse_command_line].
    destruct (after_dash arg) as [opt|] eqn:Harg.
    + assert (Hfile : is_file arg = false) by (unfold is_file; rewrite Harg; reflexivity).
      destruct (strcmp0 opt "-help") eqn:Hhelp.
      { cbn. split; [reflexivity|].
        apply String.eqb_eq in Hhelp. subst opt.
        rewrite (after_dash_Some _ _ Harg). left. }
      repeat match goal with
             | |- context [if strcmp0 ?a ?b then _ else _] => destruct (strcmp0 a b)
             | |- context [if strncmp0 ?a ?b then _ else _] => destruct (strncmp0 a b)
             end;
        cbn -[FontSample.parse_command_line files_taken elem_of];
        apply Hskip; solve [reflexivity|exact Hfile].
    + unfold mbind, prog_bind, bind, modify. cbn [glob].
      unfold files_taken. cbn [files_from]. unfold is_file. rewrite Harg. reflexivity.
Qed.

(** X14: the file lists of df_image_multi, df_video_multi and df_font_sample.
    The loop over the command line stops at the first argument that does not
    start with a dash and takes it and everything after it as the files --
    also arguments that look like options -- with their number as the count;
    without such an argument the list and the count are left as they were.
    When the loop does not come to its end, the process has ended with the
    exit code 0 (at [--help]). *)
Theorem file_lists_start_at_the_first_file (args : list string) (o : oracle)
    (wi : world ImageMulti.globals) (wv : world VideoMulti.globals)
    (wf : world FontSample.globals) :
  match ImageMulti.parse_command_line args o wi with
  | Ret _ w' =>
      files_taken args (ImageMulti.mrl_list (glob wi), ImageMulti.mrl_count (glob wi))
        (ImageMulti.mrl_list (glob w'), ImageMulti.mrl_count (glob w'))
  | Exit c _ => c = Code 0 /\ "--help" ∈ args
  | Spin _ => False
  end /\
  match VideoMulti.parse_command_line args o wv with
  | Ret _ w' =>
      files_taken args (VideoMulti.mrl_list (glob wv), VideoMulti.mrl_count (glob wv))
        (VideoMulti.mrl_list (glob w'), VideoMulti.mrl_count (glob w'))
  | Exit c _ => c = Code 0 /\ "--help" ∈ args
  | Spin _ => False
  end /\
  match FontSample.parse_command_line args o wf with
  | Ret _ w' =>
      files_taken args
        (FontSample.fontfile_list (glob wf), FontSample.fontfile_count (glob wf))
        (FontSample.fontfile_list (glob w'), FontSample.fontfile_count (glob w'))
  | Exit c _ => c = Code 0 /\ "--help" ∈ args
  | Spin _ => False
  end.
Proof.
  split; [apply ImageMulti_parse_command_line_files|].
  split; [apply VideoMulti_parse_command_line_files|].
  apply FontSample_parse_command_line_files.
Qed.

End FileLists.

(** X15: the files of df_databuffer.  The loop over the command line takes
    the last two arguments as the font file and the media file when the last
    but one does not start with a dash -- whatever the last one looks like --
    and passes over every other argument without a dash; otherwise both are
    left as they were.  When the loop does not come to its end, the process
    has ended with the exit code 0 (at [--help]). *)
Theorem databuffer_takes_the_last_two_arguments (args : list string) (o : oracle)
    (w : world Databuffer.globals) :
  match Databuffer.parse_command_line args o w with
  | Ret _ w' =>
      Databuffer_files_taken args
        (Databuffer.fontfile (glob w), Databuffer.mediafile (glob w))
        (Databuffer.fontfile (glob w'), Databuffer.mediafile (glob w'))
  | Exit c _ => c = Code 0 /\ "--help" ∈ args
  | Spin _ => False
  end.
Proof.
  revert w. induction args as [|arg rest IH]; intros w.
  - reflexivity.
  - assert (Hskip : forall w1,
      Databuffer.fontfile (glob w1) = Databuffer.fontfile (glob w) ->
      Databuffer.mediafile (glob w1) = Databuffer.mediafile (glob w) ->
      last_two (arg :: rest) = last_two rest ->
      match Databuffer.parse_command_line rest o w1 with
      | Ret _ w' =>
          Databuffer_files_taken (arg :: rest)
            (Databuffer.fontfile (glob w), Databuffer.mediafile (glob w))
            (Databuffer.fontfile (glob w'), Databuffer.mediafile (glob w'))
      | Exit c _ => c = Code 0 /\ "--help" ∈ arg :: rest
      | Spin _ => False
      end).
    { intros w1 Hf Hm Hlast. specialize (IH w1).
      destruct (Databuffer.parse_command_line rest o w1) as [[] w'|c w'|w'].
      - unfold Databuffer_files_taken in *. rewrite Hlast, <- Hf, <- Hm. exact IH.
      - destruct IH as [-> Hin]. split; [reflexivity|right; exact Hin].
      - exact IH. }
    cbn [Databuffer.parse_command_line].
    destruct (after_dash arg) as [opt|] eqn:Harg.
    + assert (Hlast : last_two (arg :: rest) = last_two rest).
      { cbn [last_two]. unfold is_file. rewrite Harg.
        destruct rest as [|media [|]]; reflexivity. }
      destruct (strcmp0 opt "-help") eqn:Hhelp.
      { cbn. split; [reflexivity|].
        apply String.eqb_eq in Hhelp. subst opt.
        rewrite (after_dash_Some _ _ Harg). left. }
      repeat match goal with
             | |- context [if strcmp0 ?a ?b then _ else _] => destruct (strcmp0 a b)
             end;
        cbn -[Databuffer.parse_command_line Databuffer_files_taken elem_of last_two];
        apply Hskip; solve [reflexivity|exact Hlast].
    + destruct rest as [|media [|arg2 rest]].
      * apply Hskip; reflexivity.
      * cbn. unfold Databuffer_files_taken. cbn [last_two]. unfold is_file.
        rewrite Harg. reflexivity.
      * apply Hskip; reflexivity.
Qed.

(** ** The count of the windows *)

Section Runs.
Context {G : Type} (L : libspec) (E : status -> world G -> Prop) (S : world G -> Prop).

Lemma runs_bind {A B} P (m : prog G A) (k : A -> prog G B) R Q :
  runs L P m R E S -> (forall a, runs L (R a) (k a) Q E S) ->
  runs L P (m ≫= k) Q E S.
Proof.
  intros Hm Hk o w Ho Hw. specialize (Hm o w Ho Hw).
  unfold mbind, prog_bind, bind. destruct (m o w) as [a w1|c w1|w1]; auto.
  apply Hk; assumption.
Qed.

Lemma runs_conseq {A} (P P' : world G -> Prop) (m : prog G A) (Q Q' : A -> world G -> Prop) :
  runs L P m Q E S -> (forall w, P' w -> P w) -> (forall a w, Q a w -> Q' a w) ->
  runs L P' m Q' E S.
Proof.
  intros Hm HP HQ o w Ho Hw. specialize (Hm o w Ho (HP w Hw)).
  destruct (m o w); auto.
Qed.

Lemma runs_pre {A} (P P' : world G -> Prop) (m : prog G A) Q :
  runs L P m Q E S -> (forall w, P' w -> P w) -> runs L P' m Q E S.
Proof. intros Hm HP. eapply runs_conseq; [exact Hm|exact HP|auto]. Qed.

Lemma runs_post {A} (P : world G -> Prop) (m : prog G A) (Q Q' : A -> world G -> Prop) :
  runs L P m Q E S -> (forall a w, Q a w -> Q' a w) -> runs L P m Q' E S.
Proof. intros Hm HQ. eapply runs_conseq; [exact Hm|auto|exact HQ]. Qed.

Lemma runs_pure {A} (phi : Prop) (P : world G -> Prop) (m : prog G A) Q :
  (phi -> runs L P m Q E S) -> runs L (fun w => phi /\ P w) m Q E S.
Proof. intros Hm o w Ho [Hphi Hw]. apply Hm; assumption. Qed.

Lemma runs_ret {A} (P : world G -> Prop) (a : A) (Q : A -> world G -> Prop) :
  (forall w, P w -> Q a w) -> runs L P (mret a) Q E S.
Proof. intros HQ o w _ Hw. apply HQ, Hw. Qed.

Lemma runs_exit {A} (P : world G -> Prop) c (Q : A -> world G -> Prop) :
  (forall w, P w -> E c (World (glob w) (Halt c :: log w) (hooked w))) ->
  runs L P (exit c) Q E S.
Proof. intros HE o w _ Hw. apply HE, Hw. Qed.

Lemma runs_get (P : world G -> Prop) :
  runs L P get (fun g w => g = glob w /\ P w) E S.
Proof. intros o w _ Hw. split; [reflexivity|exact Hw]. Qed.

Lemma runs_modify (P : world G -> Prop) f (Q : unit -> world G -> Prop) :
  (forall w, P w -> Q tt (World (f (glob w)) (log w) (hooked w))) ->
  runs L P (modify f) Q E S.
Proof. intros HQ o w _ Hw. apply HQ, Hw. Qed.

Lemma runs_lib (P : world G -> Prop) f args (Q : answer -> world G -> Prop) :
  (forall w a, P w -> L (log w) f 0%nat args a ->
     Q a (World (glob w) (Lib f 0 args a :: log w) (hooked w))) ->
  runs L P (lib f args) Q E S.
Proof. intros HQ o w Ho Hw. apply HQ; [exact Hw|apply Ho]. Qed.

Lemma runs_meth (P : world G -> Prop) f self args (Q : answer -> world G -> Prop) :
  (forall w, P w -> E Segv (World (glob w) (Halt Segv :: log w) (hooked w))) ->
  (forall w a, P w -> self <> 0%nat -> L (log w) f self args a ->
     Q a (World (glob w) (Lib f self args a :: log w) (hooked w))) ->
  runs L P (meth f self args) Q E S.
Proof.
  intros HE HQ o w Ho Hw. destruct self as [|n].
  - apply HE, Hw.
  - apply HQ; [exact Hw|discriminate|apply Ho].
Qed.

(** [while (1)] with a body that never leaves the loop: the code after the
    loop is not reached. *)
Lemma runs_forever_never {A} (P : world G -> Prop) (body : prog G (option A)) fuel
    (Q : A -> world G -> Prop) :
  (forall w, P w -> S w) ->
  runs L P body (fun r w => r = None /\ P w) E S ->
  runs L P (forever fuel body) Q E S.
Proof.
  intros HS Hb. induction fuel as [|fuel IH]; simpl.
  - intros o w _ Hw. apply HS, Hw.
  - eapply runs_bind; [exact Hb|intros r].
    apply runs_pure. intros ->. exact IH.
Qed.

End Runs.

Section Stays.
Context {G : Type} (L : libspec) (X : G -> Prop) (P : world G -> Prop).

Lemma stays_ret {A} (a : A) : stays L X P (mret a).
Proof. apply runs_ret. auto. Qed.

Lemma stays_bind {A B} (m : prog G A) (k : A -> prog G B) :
  stays L X P m -> (forall a, stays L X P (k a)) -> stays L X P (m ≫= k).
Proof. intros Hm Hk. eapply runs_bind; [exact Hm|exact Hk]. Qed.

Lemma stays_exit {A} c :
  (c = Code 42 -> forall w, P w -> X (glob w)) -> stays (A:=A) L X P (exit c).
Proof. intros HX. apply runs_exit. intros w Hw Hc. apply (HX Hc w Hw). Qed.

Lemma stays_spin {A} : (forall w, P w -> X (glob w)) -> stays (A:=A) L X P spin.
Proof. intros HX o w _ Hw. apply HX, Hw. Qed.

Lemma stays_get : stays L X P get.
Proof. intros o w _ Hw. exact Hw. Qed.

Lemma stays_fresh : stays L X P fresh.
Proof. intros o w _ Hw. exact Hw. Qed.

Lemma stays_modify f :
  (forall w, P w -> P (World (f (glob w)) (log w) (hooked w))) ->
  stays L X P (modify f).
Proof. intros Hf. apply runs_modify. exact Hf. Qed.

Context (HP : lasting P).

Lemma stays_atexit : stays L X P atexit.
Proof. intros o w _ Hw. apply (HP w Hw). Qed.

Lemma stays_emit e : stays L X P (emit e).
Proof. intros o w _ Hw. apply (HP w Hw). Qed.

Lemma stays_lib f args : stays L X P (lib f args).
Proof. apply runs_lib. intros w a Hw _. apply (HP w Hw). Qed.

Lemma stays_meth f self args : stays L X P (meth f self args).
Proof.
  apply runs_meth.
  - intros w Hw Hc. discriminate Hc.
  - intros w a Hw _ _. apply (HP w Hw).
Qed.

(** A method that returns was called through a pointer that is not [NULL]. *)
Lemma runs_meth_nonzero f self args S :
  runs L P (meth f self args) (fun _ w => self <> 0%nat /\ P w) (at_quit X) S.
Proof.
  apply runs_meth.
  - intros w Hw Hc. discriminate Hc.
  - intros w a Hw Hself _. split; [exact Hself|apply (HP w Hw)].
Qed.

Lemma stays_lib_new f args old : stays L X P (lib_new f args old).
Proof.
  unfold lib_new.
  apply stays_bind; [apply stays_lib|intros a].
  apply stays_bind; [apply stays_fresh|intros n]. apply stays_ret.
Qed.

Lemma stays_meth_new f self args old : stays L X P (meth_new f self args old).
Proof.
  unfold meth_new.
  apply stays_bind; [apply stays_meth|intros a].
  apply stays_bind; [apply stays_fresh|intros n]. apply stays_ret.
Qed.

Lemma stays_when b (m : prog G unit) : stays L X P m -> stays L X P (when b m).
Proof. intros Hm. destruct b; simpl; [exact Hm|apply stays_ret]. Qed.

Lemma stays_DFBCHECK {A} line x (result : A -> DFBResult) (call : prog G A) :
  stays L X P call -> stays L X P (DFBCHECK line x result call).
Proof.
  intros Hc. unfold DFBCHECK. apply stays_bind; [exact Hc|intros v].
  destruct (is_ok (result v)); [apply stays_ret|].
  apply stays_bind; [apply stays_emit|intros _].
  apply stays_bind; [apply stays_emit|intros _].
  apply stays_exit. discriminate.
Qed.

Lemma stays_forever {A} fuel (body : prog G (option A)) :
  (forall w, P w -> X (glob w)) -> stays L X P body -> stays L X P (forever fuel body).
Proof.
  intros HX Hb. induction fuel as [|fuel IH]; simpl.
  - apply stays_spin, HX.
  - apply stays_bind; [exact Hb|intros [a|]]; [apply stays_ret|exact IH].
Qed.

Lemma stays_for_each {Y} (l : list Y) (f : Y -> prog G unit) :
  (forall x, In x l -> stays L X P (f x)) -> stays L X P (for_each l f).
Proof.
  induction l as [|x l IH]; intros Hf; simpl.
  - apply stays_ret.
  - apply stays_bind; [apply Hf; left; reflexivity|intros _].
    apply IH. intros y Hy. apply Hf. right. exact Hy.
Qed.

End Stays.

Section Counting.
Context {G V : Type} (stack : G -> gmap nat V) (counter : G -> Z).

Lemma on_glob_lasting (P : G -> Prop) : lasting (on_glob P).
Proof. intros w Hw. split; intros; exact Hw. Qed.

Lemma lasting_and (P Q : world G -> Prop) :
  lasting P -> lasting Q -> lasting (fun w => P w /\ Q w).
Proof.
  intros HP HQ w [Hp Hq]. destruct (HP w Hp) as [Hp1 Hp2], (HQ w Hq) as [Hq1 Hq2].
  split; intros; split; auto.
Qed.

Lemma counting_lasting k : lasting (counting stack counter k).
Proof.
  intros w [Hk Hc]. split; intros; (split; [|exact Hc]); [|exact Hk].
  intros id Hid. apply ids_of_mono, Hk, Hid.
Qed.

Lemma issued_lasting id : lasting (fun w : world G => id ∈ ids_of (log w)).
Proof.
  intros w Hw. split; intros; [|exact Hw]. apply ids_of_mono, Hw.
Qed.

Lemma counting_insert k w id v g' :
  counting stack counter (k + 1) w ->
  id ∈ ids_of (log w) -> stack (glob w) !! id = None ->
  stack g' = direct_hash_insert id v (stack (glob w)) ->
  counter g' = counter (glob w) ->
  counting stack counter k (World g' (log w) (hooked w)).
Proof.
  intros [Hk Hc] Hid Hnone Hst Hcnt. unfold counting. cbn.
  rewrite Hst, Hcnt, (direct_hash_insert_fresh _ _ _ Hnone). split.
  - intros id' Hid'. destruct (decide (id' = id)) as [->|Hne]; [exact Hid|].
    apply Hk. rewrite lookup_insert_ne in Hid' by congruence. exact Hid'.
  - rewrite (map_size_insert_None _ _ _ Hnone). lia.
Qed.

Lemma counting_remove w id g' :
  counting stack counter 0 w ->
  is_Some (stack (glob w) !! id) ->
  stack g' = direct_hash_remove (stack (glob w)) id ->
  counter g' = counter (glob w) ->
  counting stack counter 1 (World g' (log w) (hooked w)).
Proof.
  intros [Hk Hc] Hsome Hst Hcnt. unfold counting, direct_hash_remove in *. cbn.
  rewrite Hst, Hcnt. split; [apply known_ids_delete, Hk|].
  rewrite (map_size_delete_Some _ _ Hsome).
  assert (size (stack (glob w)) <> 0%nat).
  { intros H0. apply map_size_empty_inv in H0. rewrite H0, lookup_empty in Hsome.
    destruct Hsome as [? Hx]. discriminate Hx. }
  lia.
Qed.

Lemma counting_decrement w g' :
  counting stack counter 1 w ->
  stack g' = stack (glob w) ->
  counter g' = counter (glob w) - 1 ->
  counting stack counter 0 (World g' (log w) (hooked w)).
Proof.
  intros [Hk Hc] Hst Hcnt. unfold counting. cbn. rewrite Hst, Hcnt.
  split; [exact Hk|lia].
Qed.

Lemma counting_replace k w id v g' :
  counting stack counter k w ->
  is_Some (stack (glob w) !! id) ->
  stack g' = <[id := v]> (stack (glob w)) ->
  counter g' = counter (glob w) ->
  counting stack counter k (World g' (log w) (hooked w)).
Proof.
  intros [Hk Hc] [e He] Hst Hcnt. unfold counting. cbn. rewrite Hst, Hcnt. split.
  - eapply known_ids_replace; [exact He|exact Hk].
  - rewrite map_size_insert_Some by eauto. exact Hc.
Qed.

(** The identifier that [GetID] answers is new to the table. *)
Lemma runs_get_id E S k window :
  runs fresh_ids (counting stack counter k)
    (meth IDirectFBWindow_GetID window [])
    (fun a w => counting stack counter k w /\
                (a_id a ∈ ids_of (log w) /\ on_glob (fun g => stack g !! a_id a = None) w))
    (at_quit E) S.
Proof.
  apply runs_meth.
  - intros w Hw Hc. discriminate Hc.
  - intros w a Hw _ Hfresh. cbn in Hfresh.
    split; [apply (counting_lasting _ w Hw)|]. split.
    + cbn [log]. rewrite ids_of_cons. cbn. left.
    + destruct Hw as [Hk _]. exact (known_ids_fresh _ _ _ Hk Hfresh).
Qed.

End Counting.

Create HintDb stay discriminated.

(** Structural proof of [stays]: the functions of a program are unfolded,
    the side conditions on the globals are left to [exact]. *)
Ltac lasting_go :=
  cbv beta;
  repeat first
    [ assumption
    | apply counting_lasting
    | apply issued_lasting
    | apply on_glob_lasting
    | apply lasting_and ].

Ltac stays_side :=
  first
    [ assumption
    | solve [lasting_go]
    | discriminate
    | solve [intros; discriminate]
    | solve [let Hw := fresh in intros ? Hw; exact Hw]
    | solve [let Hw := fresh in intros ? ? Hw; exact Hw]
    | solve [intros;
             match goal with
             | H : forall w, _ -> ?X (glob w) |- ?X (glob _) => apply H; assumption
             end] ].

Ltac stays_step :=
  first [ assumption | solve [auto 1 with stay nocore] |
  lazymatch goal with
  | |- forall _, _ => intro
  | |- stays _ _ _ (mret _) => apply stays_ret
  | |- stays _ _ _ (ret _) => apply stays_ret
  | |- stays _ _ _ (_ ≫= _) => apply stays_bind
  | |- stays _ _ _ (exit _) => apply stays_exit; stays_side
  | |- stays _ _ _ spin => apply stays_spin; stays_side
  | |- stays _ _ _ get => apply stays_get
  | |- stays _ _ _ (modify _) => apply stays_modify; stays_side
  | |- stays _ _ _ fresh => apply stays_fresh
  | |- stays _ _ _ atexit => apply stays_atexit; stays_side
  | |- stays _ _ _ (emit _) => apply stays_emit; stays_side
  | |- stays _ _ _ (lib _ _) => apply stays_lib; stays_side
  | |- stays _ _ _ (meth _ _ _) => apply stays_meth; stays_side
  | |- stays _ _ _ (lib_new _ _ _) => apply stays_lib_new; stays_side
  | |- stays _ _ _ (meth_new _ _ _ _) => apply stays_meth_new; stays_side
  | |- stays _ _ _ (when _ _) => apply stays_when
  | |- stays _ _ _ (DFBCHECK _ _ _ _) => apply stays_DFBCHECK; [stays_side|]
  | |- stays _ _ _ (forever _ _) => apply stays_forever; [stays_side|]
  | |- stays _ _ _ (for_each _ _) => apply stays_for_each
  | |- stays _ _ _ (if ?b then _ else _) => destruct b
  | |- stays _ _ _ (match ?x with _ => _ end) => destruct x
  | |- stays _ _ _ (let _ := _ in _) => cbv zeta
  | |- stays _ _ _ ?m => let f := head_of m in progress unfold f
  end ].

Ltac stays_go := repeat stays_step.

(** Chaining: a part of the program that keeps the precondition, then the
    rest. *)
Ltac stay_then :=
  lazymatch goal with
  | |- runs ?L ?P (?m ≫= _) _ (at_quit ?X) (on_glob ?X) =>
      eapply (runs_bind L _ _ P m _ (fun _ => P));
      [ change (stays L X P m); cbv beta; solve [stays_go] | take_result ]
  end.

(** A part of the program that ends the process, not with the code 42. *)
Ltac leave_now :=
  repeat stay_then;
  apply runs_exit;
  let Hc := fresh in intros ? ? Hc; discriminate Hc.

Ltac stay_rest :=
  lazymatch goal with
  | |- runs ?L ?P ?m _ (at_quit ?X) (on_glob ?X) =>
      apply (runs_post L _ _ P m (fun _ => P));
      [ change (stays L X P m); solve [stays_go] | ]
  end.


(** *** df_image_multi.c *)

Section ImageMultiCount.
Context `{Headers}.
Import ImageMulti.

Local Abbreviation X := ImageMulti_windows_counted.
Local Abbreviation counting := (counting stack mrl_count).
Local Abbreviation listed :=
  (fun g : globals => stack g = ∅ /\ mrl_count g = Z.of_nat (length (mrl_list g))).

Lemma ImageMulti_counting_counted w : counting 0 w -> X (glob w).
Proof. intros [_ Hc]. unfold ImageMulti_windows_counted. lia. Qed.

Lemma ImageMulti_parse_command_line_listed args :
  stays fresh_ids X (on_glob listed) (parse_command_line args).
Proof.
  induction args as [|arg rest IH]; simpl.
  - stays_go.
  - destruct (after_dash arg); [stays_go|].
    intros o w _ [Hst _]. split; [exact Hst|reflexivity].
Qed.

#[local] Hint Resolve ImageMulti_parse_command_line_listed : stay.

Lemma ImageMulti_add_window_counting k image_provider sdsc_width sdsc_height :
  runs fresh_ids (counting (k + 1))
    (add_window image_provider sdsc_width sdsc_height)
    (fun _ => counting k) (at_quit X) (on_glob X).
Proof.
  unfold add_window.
  stay_then. cbv zeta.
  do 5 stay_then.
  eapply runs_bind; [apply runs_get_id|intros id].
  do 2 stay_then.
  apply (runs_bind _ _ _ _ _ _ (fun _ => counting k)).
  { apply runs_modify. intros w (Hw & Hid & Hnone).
    apply (counting_insert stack mrl_count k w (a_id id) n _ Hw Hid Hnone);
      reflexivity. }
  intros ?. stay_rest. auto.
Qed.

Lemma ImageMulti_load_file_counting k mrl :
  runs fresh_ids (counting (k + 1)) (load_file mrl)
    (fun _ => counting k) (at_quit X) (on_glob X).
Proof.
  unfold load_file.
  do 4 stay_then.
  eapply runs_bind; [apply ImageMulti_add_window_counting|intros ?].
  stay_rest. auto.
Qed.

Lemma ImageMulti_load_files_counting files :
  runs fresh_ids (counting (Z.of_nat (length files))) (for_each files load_file)
    (fun _ => counting 0) (at_quit X) (on_glob X).
Proof.
  induction files as [|mrl files IH]; cbn [for_each length].
  - apply runs_ret. auto.
  - eapply runs_bind; [|intros ?; exact IH].
    eapply runs_pre; [apply ImageMulti_load_file_counting|].
    intros w Hw. replace (Z.of_nat (length files) + 1) with (Z.of_nat (S (length files))) by lia.
    exact Hw.
Qed.

Lemma ImageMulti_remove_window_counting id :
  runs fresh_ids (counting 0) (remove_window id)
    (fun removed => counting (if removed then 1 else 0)) (at_quit X) (on_glob X).
Proof.
  unfold remove_window.
  eapply runs_bind; [apply runs_get|intros g].
  destruct (direct_hash_lookup (stack g) id) as [window|] eqn:Hl.
  - apply (runs_pre _ _ _
             (fun w => counting 0 w /\ on_glob (fun g => is_Some (stack g !! id)) w)).
    2:{ intros w [-> Hw]. split; [exact Hw|]. hnf. eauto. }
    stay_then.
    apply (runs_bind _ _ _ _ _ _ (fun _ => counting 1));
      [|intros ?; apply runs_ret; intros w Hw; exact Hw].
    apply runs_modify. intros w [Hw Hsome].
    apply (counting_remove stack mrl_count w id _ Hw Hsome); reflexivity.
  - apply runs_ret. intros w [_ Hw]. exact Hw.
Qed.

Lemma ImageMulti_dispatch_counting evt :
  stays fresh_ids X (counting 0) (dispatch evt).
Proof.
  pose proof ImageMulti_counting_counted as HX.
  unfold dispatch. destruct (evt_type evt); try solve [stays_go].
  eapply runs_bind; [apply ImageMulti_remove_window_counting|intros removed].
  destruct removed; [|apply stays_ret].
  apply (runs_bind _ _ _ _ _ _ (fun _ => counting 0)).
  { apply runs_modify. intros w Hw.
    apply (counting_decrement stack mrl_count w _ Hw); reflexivity. }
  intros ?. stay_rest. auto.
Qed.

#[local] Hint Resolve ImageMulti_dispatch_counting : stay.

Lemma ImageMulti_main_loop_body_counting fuel :
  runs fresh_ids (counting 0) (main_loop_body fuel)
    (fun r w => r = None /\ counting 0 w) (at_quit X) (on_glob X).
Proof.
  pose proof ImageMulti_counting_counted as HX.
  unfold main_loop_body.
  do 3 stay_then.
  apply runs_ret. auto.
Qed.

Lemma ImageMulti_main_counting fuel argv argv' :
  runs fresh_ids (on_glob listed) (main fuel argv argv')
    (fun _ _ => False) (at_quit X) (on_glob X).
Proof.
  pose proof ImageMulti_counting_counted as HX.
  unfold main. destruct (argc argv <? 2).
  { leave_now. }
  do 2 stay_then.
  stay_then. destruct (mrl_count x1 =? 0).
  { leave_now. }
  do 3 stay_then.
  eapply runs_bind; [apply runs_get|intros g].
  apply (runs_pre _ _ _
           (on_glob (fun g' => listed g' /\ mrl_list g' = mrl_list g))).
  2:{ intros w [-> Hw]. split; [exact Hw|reflexivity]. }
  do 8 stay_then.
  eapply runs_bind.
  { eapply runs_pre; [apply ImageMulti_load_files_counting|].
    intros w [[Hst Hc] Hl]. split.
    - rewrite Hst. apply known_ids_empty.
    - rewrite Hc, Hst, Hl, map_size_empty. cbn. lia. }
  intros ?. repeat stay_then.
  apply runs_forever_never; [exact HX|apply ImageMulti_main_loop_body_counting].
Qed.

End ImageMultiCount.

(** *** df_image_sample.c *)

Lemma CLAMP_least x lo hi : lo <= hi -> lo <= CLAMP x lo hi.
Proof.
  intros Hle. unfold CLAMP.
  destruct (x <? lo) eqn:Hlo; [lia|]. destruct (x >? hi) eqn:Hhi; [lia|].
  apply Z.ltb_ge in Hlo. exact Hlo.
Qed.

Section ImageSampleCount.
Context `{Headers}.
Import ImageSample.

Local Abbreviation X := ImageSample_windows_counted.
Local Abbreviation counting := (counting stack n_windows).
Local Abbreviation asked := (fun g : globals => stack g = ∅ /\ 1 <= n_windows g).

Lemma ImageSample_counting_counted w : counting 0 w -> X (glob w).
Proof. intros [_ Hc]. unfold ImageSample_windows_counted. lia. Qed.

Lemma ImageSample_parse_command_line_asked args mrl :
  stays fresh_ids X (on_glob asked) (parse_command_line args mrl).
Proof.
  revert mrl. induction args as [|arg rest IH]; intros mrl; simpl.
  - stays_go.
  - destruct (after_dash arg); [|destruct rest; apply IH].
    stays_go.
    apply stays_modify. intros w [Hst _]. split; [exact Hst|apply CLAMP_least; lia].
Qed.

#[local] Hint Resolve ImageSample_parse_command_line_asked : stay.

Lemma ImageSample_create_stack_body_counting k posx posy :
  runs fresh_ids (counting (k + 1)) (create_stack_body posx posy)
    (fun _ => counting k) (at_quit X) (on_glob X).
Proof.
  unfold create_stack_body.
  do 4 stay_then.
  eapply runs_bind; [apply runs_get_id|intros id].
  do 3 stay_then.
  apply runs_modify. intros w (Hw & Hid & Hnone).
  eapply (counting_insert stack n_windows k w (a_id id) _ _ Hw Hid Hnone); reflexivity.
Qed.

Lemma ImageSample_create_stack_loop_counting n posx posy :
  runs fresh_ids (counting (Z.of_nat n)) (create_stack_loop n posx posy)
    (fun _ => counting 0) (at_quit X) (on_glob X).
Proof.
  revert posx posy. induction n as [|n IH]; intros posx posy; cbn [create_stack_loop].
  - apply runs_ret. auto.
  - eapply runs_bind; [|intros ?; apply IH].
    eapply runs_pre; [apply ImageSample_create_stack_body_counting|].
    intros w Hw. replace (Z.of_nat n + 1) with (Z.of_nat (S n)) by lia. exact Hw.
Qed.

Lemma ImageSample_create_stack_counting dsc_width dsc_height :
  runs fresh_ids (on_glob asked) (create_stack dsc_width dsc_height)
    (fun _ => counting 0) (at_quit X) (on_glob X).
Proof.
  unfold create_stack.
  eapply runs_bind; [apply runs_get|intros g].
  apply (runs_pre _ _ _
           (on_glob (fun g' => asked g' /\ n_windows g' = n_windows g))).
  2:{ intros w [-> Hw]. split; [exact Hw|reflexivity]. }
  do 5 stay_then.
  eapply runs_pre; [apply ImageSample_create_stack_loop_counting|].
  intros w [[Hst Hn] Hg]. split.
  - rewrite Hst. apply known_ids_empty.
  - rewrite Hst, map_size_empty, <- Hg. cbn. lia.
Qed.

Lemma ImageSample_remove_window_counting id :
  runs fresh_ids (counting 0) (remove_window id)
    (fun window w => window <> 0%nat /\ counting 1 w \/ window = 0%nat /\ counting 0 w)
    (at_quit X) (on_glob X).
Proof.
  unfold remove_window.
  eapply runs_bind; [apply runs_get|intros g].
  destruct (direct_hash_lookup (stack g) id) as [entry|] eqn:Hl.
  - apply (runs_pre _ _ _
             (fun w => counting 0 w /\ on_glob (fun g => is_Some (stack g !! id)) w)).
    2:{ intros w [-> Hw]. split; [exact Hw|]. hnf. eauto. }
    stay_then.
    eapply runs_bind; [apply runs_meth_nonzero; lasting_go|intros ?].
    apply runs_pure. intros Hwin.
    apply (runs_bind _ _ _ _ _ _ (fun _ => counting 1));
      [|intros ?; apply runs_ret; intros w Hw; left; split; [exact Hwin|exact Hw]].
    apply runs_modify. intros w [Hw Hsome].
    apply (counting_remove stack n_windows w id _ Hw Hsome); reflexivity.
  - apply runs_ret. intros w [_ Hw]. right. split; [reflexivity|exact Hw].
Qed.

Lemma ImageSample_dispatch_counting evt :
  stays fresh_ids X (counting 0) (dispatch evt).
Proof.
  pose proof ImageSample_counting_counted as HX.
  unfold dispatch. destruct (evt_type evt); try solve [stays_go].
  eapply runs_bind; [apply ImageSample_remove_window_counting|intros window].
  destruct (window =? 0)%nat eqn:Hwin; cbn [negb].
  - apply runs_ret. intros w [[Hne _]|[_ Hw]]; [|exact Hw].
    apply Nat.eqb_eq in Hwin. contradiction.
  - apply (runs_pre _ _ _ (counting 1)).
    2:{ intros w [[_ Hw]|[H0 _]]; [exact Hw|]. apply Nat.eqb_neq in Hwin. contradiction. }
    apply (runs_bind _ _ _ _ _ _ (fun _ => counting 0)).
    { apply runs_modify. intros w Hw.
      apply (counting_decrement stack n_windows w _ Hw); reflexivity. }
    intros ?. stay_rest. auto.
Qed.

#[local] Hint Resolve ImageSample_dispatch_counting : stay.

Lemma ImageSample_main_loop_body_counting fuel :
  runs fresh_ids (counting 0) (main_loop_body fuel)
    (fun r w => r = None /\ counting 0 w) (at_quit X) (on_glob X).
Proof.
  pose proof ImageSample_counting_counted as HX.
  unfold main_loop_body.
  do 3 stay_then.
  apply runs_ret. auto.
Qed.

Lemma ImageSample_main_counting fuel argv argv' :
  runs fresh_ids (on_glob asked) (main fuel argv argv')
    (fun _ _ => False) (at_quit X) (on_glob X).
Proof.
  pose proof ImageSample_counting_counted as HX.
  unfold main. destruct (argc argv <? 2).
  { leave_now. }
  do 2 stay_then.
  destruct x0 as [[|c mrl]|]; try solve [leave_now].
  repeat stay_then.
  eapply runs_bind; [apply ImageSample_create_stack_counting|intros ?].
  repeat stay_then.
  apply runs_forever_never; [exact HX|apply ImageSample_main_loop_body_counting].
Qed.

End ImageSampleCount.

(** *** df_video_sample.c *)

Section VideoSampleCount.
Context `{Headers}.
Import VideoSample.

Local Abbreviation X := VideoSample_windows_counted.
Local Abbreviation counting := (counting stack n_windows).
Local Abbreviation asked := (fun g : globals => stack g = ∅ /\ 1 <= n_windows g).

Lemma VideoSample_counting_counted w : counting 0 w -> X (glob w).
Proof. intros [_ Hc]. unfold VideoSample_windows_counted. lia. Qed.

Lemma VideoSample_parse_command_line_asked args mrl :
  stays fresh_ids X (on_glob asked) (parse_command_line args mrl).
Proof.
  revert mrl. induction args as [|arg rest IH]; intros mrl; simpl.
  - stays_go.
  - destruct (after_dash arg); [|destruct rest; apply IH].
    stays_go.
    apply stays_modify. intros w [Hst _]. split; [exact Hst|apply CLAMP_least; lia].
Qed.

#[local] Hint Resolve VideoSample_parse_command_line_asked : stay.

Lemma VideoSample_create_stack_body_counting k posx posy :
  runs fresh_ids (counting (k + 1)) (create_stack_body posx posy)
    (fun _ => counting k) (at_quit X) (on_glob X).
Proof.
  unfold create_stack_body.
  do 4 stay_then.
  eapply runs_bind; [apply runs_get_id|intros id].
  do 3 stay_then.
  apply runs_modify. intros w (Hw & Hid & Hnone).
  eapply (counting_insert stack n_windows k w (a_id id) _ _ Hw Hid Hnone); reflexivity.
Qed.

Lemma VideoSample_create_stack_loop_counting n posx posy :
  runs fresh_ids (counting (Z.of_nat n)) (create_stack_loop n posx posy)
    (fun _ => counting 0) (at_quit X) (on_glob X).
Proof.
  revert posx posy. induction n as [|n IH]; intros posx posy; cbn [create_stack_loop].
  - apply runs_ret. auto.
  - eapply runs_bind; [|intros ?; apply IH].
    eapply runs_pre; [apply VideoSample_create_stack_body_counting|].
    intros w Hw. replace (Z.of_nat n + 1) with (Z.of_nat (S n)) by lia. exact Hw.
Qed.

Lemma VideoSample_create_stack_counting dsc_width dsc_height :
  runs fresh_ids (on_glob asked) (create_stack dsc_width dsc_height)
    (fun _ => counting 0) (at_quit X) (on_glob X).
Proof.
  unfold create_stack.
  eapply runs_bind; [apply runs_get|intros g].
  apply (runs_pre _ _ _
           (on_glob (fun g' => asked g' /\ n_windows g' = n_windows g))).
  2:{ intros w [-> Hw]. split; [exact Hw|reflexivity]. }
  do 5 stay_then.
  eapply runs_pre; [apply VideoSample_create_stack_loop_counting|].
  intros w [[Hst Hn] Hg]. split.
  - rewrite Hst. apply known_ids_empty.
  - rewrite Hst, map_size_empty, <- Hg. cbn. lia.
Qed.

Lemma VideoSample_remove_window_counting id :
  runs fresh_ids (counting 0) (remove_window id)
    (fun window w => window <> 0%nat /\ counting 1 w \/ window = 0%nat /\ counting 0 w)
    (at_quit X) (on_glob X).
Proof.
  unfold remove_window.
  eapply runs_bind; [apply runs_get|intros g].
  destruct (direct_hash_lookup (stack g) id) as [entry|] eqn:Hl.
  - apply (runs_pre _ _ _
             (fun w => counting 0 w /\ on_glob (fun g => is_Some (stack g !! id)) w)).
    2:{ intros w [-> Hw]. split; [exact Hw|]. hnf. eauto. }
    stay_then.
    eapply runs_bind; [apply runs_meth_nonzero; lasting_go|intros ?].
    apply runs_pure. intros Hwin.
    apply (runs_bind _ _ _ _ _ _ (fun _ => counting 1));
      [|intros ?; apply runs_ret; intros w Hw; left; split; [exact Hwin|exact Hw]].
    apply runs_modify. intros w [Hw Hsome].
    apply (counting_remove stack n_windows w id _ Hw Hsome); reflexivity.
  - apply runs_ret. intros w [_ Hw]. right. split; [reflexivity|exact Hw].
Qed.

Lemma VideoSample_dispatch_counting caps evt :
  stays fresh_ids X (counting 0) (dispatch caps evt).
Proof.
  pose proof VideoSample_counting_counted as HX.
  unfold dispatch. destruct (evt_type evt); try solve [stays_go].
  eapply runs_bind; [apply VideoSample_remove_window_counting|intros window].
  destruct (window =? 0)%nat eqn:Hwin; cbn [negb].
  - apply runs_ret. intros w [[Hne _]|[_ Hw]]; [|exact Hw].
    apply Nat.eqb_eq in Hwin. contradiction.
  - apply (runs_pre _ _ _ (counting 1)).
    2:{ intros w [[_ Hw]|[H0 _]]; [exact Hw|]. apply Nat.eqb_neq in Hwin. contradiction. }
    apply (runs_bind _ _ _ _ _ _ (fun _ => counting 0)).
    { apply runs_modify. intros w Hw.
      apply (counting_decrement stack n_windows w _ Hw); reflexivity. }
    intros ?. stay_rest. auto.
Qed.

#[local] Hint Resolve VideoSample_dispatch_counting : stay.

Lemma VideoSample_main_loop_body_counting fuel caps :
  runs fresh_ids (counting 0) (main_loop_body fuel caps)
    (fun r w => r = None /\ counting 0 w) (at_quit X) (on_glob X).
Proof.
  pose proof VideoSample_counting_counted as HX.
  unfold main_loop_body.
  do 2 stay_then.
  destruct x0; [apply runs_ret; auto|].
  stay_then. apply runs_ret. auto.
Qed.

Lemma VideoSample_main_counting fuel argv argv' :
  runs fresh_ids (on_glob asked) (main fuel argv argv')
    (fun _ _ => False) (at_quit X) (on_glob X).
Proof.
  pose proof VideoSample_counting_counted as HX.
  unfold main. destruct (argc argv <? 2).
  { leave_now. }
  do 2 stay_then.
  destruct x0 as [[|c mrl]|]; try solve [leave_now].
  repeat stay_then.
  eapply runs_bind; [apply VideoSample_create_stack_counting|intros ?].
  repeat stay_then.
  apply runs_forever_never; [exact HX|apply VideoSample_main_loop_body_counting].
Qed.

End VideoSampleCount.

(** *** df_video_multi.c *)

Section VideoMultiCount.
Context `{Headers}.
Import VideoMulti.

Local Abbreviation X := VideoMulti_windows_counted.
Local Abbreviation counting := (counting stack mrl_count).
Local Abbreviation listed :=
  (fun g : globals => stack g = ∅ /\ mrl_count g = Z.of_nat (length (mrl_list g))).
Local Abbreviation updating snap :=
  (fun w : world globals =>
     counting 0 w /\
     on_glob (fun g => forall k, is_Some (snap !! k) -> is_Some (stack g !! k)) w).

Lemma VideoMulti_counting_counted w : counting 0 w -> X (glob w).
Proof. intros [_ Hc]. unfold VideoMulti_windows_counted. lia. Qed.

Lemma VideoMulti_parse_command_line_listed args :
  stays fresh_ids X (on_glob listed) (parse_command_line args).
Proof.
  induction args as [|arg rest IH]; simpl.
  - stays_go.
  - destruct (after_dash arg); [stays_go|].
    intros o w _ [Hst _]. split; [exact Hst|reflexivity].
Qed.

#[local] Hint Resolve VideoMulti_parse_command_line_listed : stay.

Lemma VideoMulti_add_window_counting k video_provider sdsc_width sdsc_height :
  runs fresh_ids (counting (k + 1))
    (add_window video_provider sdsc_width sdsc_height)
    (fun _ => counting k) (at_quit X) (on_glob X).
Proof.
  unfold add_window.
  stay_then. cbv zeta.
  do 5 stay_then.
  eapply runs_bind; [apply runs_get_id|intros id].
  do 2 stay_then.
  apply (runs_bind _ _ _ _ _ _ (fun _ => counting k)).
  { apply runs_modify. intros w (Hw & Hid & Hnone).
    eapply (counting_insert stack mrl_count k w (a_id id) _ _ Hw Hid Hnone);
      reflexivity. }
  intros ?. stay_rest. auto.
Qed.

Lemma VideoMulti_load_file_counting k mrl :
  runs fresh_ids (counting (k + 1)) (load_file mrl)
    (fun _ => counting k) (at_quit X) (on_glob X).
Proof.
  unfold load_file.
  repeat stay_then.
  apply VideoMulti_add_window_counting.
Qed.

Lemma VideoMulti_load_files_counting files :
  runs fresh_ids (counting (Z.of_nat (length files))) (for_each files load_file)
    (fun _ => counting 0) (at_quit X) (on_glob X).
Proof.
  induction files as [|mrl files IH]; cbn [for_each length].
  - apply runs_ret. auto.
  - eapply runs_bind; [|intros ?; exact IH].
    eapply runs_pre; [apply VideoMulti_load_file_counting|].
    intros w Hw. replace (Z.of_nat (length files) + 1) with (Z.of_nat (S (length files))) by lia.
    exact Hw.
Qed.

Lemma VideoMulti_remove_window_counting id :
  runs fresh_ids (counting 0) (remove_window id)
    (fun removed => counting (if removed then 1 else 0)) (at_quit X) (on_glob X).
Proof.
  unfold remove_window.
  eapply runs_bind; [apply runs_get|intros g].
  destruct (direct_hash_lookup (stack g) id) as [entry|] eqn:Hl.
  - apply (runs_pre _ _ _
             (fun w => counting 0 w /\ on_glob (fun g => is_Some (stack g !! id)) w)).
    2:{ intros w [-> Hw]. split; [exact Hw|]. hnf. eauto. }
    do 3 stay_then.
    apply (runs_bind _ _ _ _ _ _ (fun _ => counting 1));
      [|intros ?; apply runs_ret; intros w Hw; exact Hw].
    apply runs_modify. intros w [Hw Hsome].
    apply (counting_remove stack mrl_count w id _ Hw Hsome); reflexivity.
  - apply runs_ret. intros w [_ Hw]. exact Hw.
Qed.

Lemma VideoMulti_dispatch_counting evt :
  stays fresh_ids X (counting 0) (dispatch evt).
Proof.
  pose proof VideoMulti_counting_counted as HX.
  unfold dispatch. apply stays_bind; [apply stays_get|intros g]. cbv zeta.
  destruct (evt_type evt); try solve [stays_go].
  eapply runs_bind; [apply VideoMulti_remove_window_counting|intros removed].
  destruct removed; [|apply stays_ret].
  apply (runs_bind _ _ _ _ _ _ (fun _ => counting 0)).
  { apply runs_modify. intros w Hw.
    apply (counting_decrement stack mrl_count w _ Hw); reflexivity. }
  intros ?. stay_rest. auto.
Qed.

#[local] Hint Resolve VideoMulti_dispatch_counting : stay.

(** The update of the logo progress rewrites entries of the table in
    place. *)
Lemma VideoMulti_logo_progress_counting (snap : gmap nat stack_entry) id entry :
  is_Some (snap !! id) ->
  stays fresh_ids X (updating snap) (logo_progress id entry).
Proof.
  intros Hid. unfold logo_progress.
  apply stays_bind; [stays_go|intros len].
  apply stays_bind; [stays_go|intros pos]. cbv zeta.
  apply stays_modify. intros w [Hw Hsnap]. split.
  - eapply (counting_replace stack mrl_count 0 w id _ _ Hw (Hsnap id Hid)); reflexivity.
  - intros k Hk. cbn. destruct (decide (k = id)) as [->|Hne].
    + rewrite lookup_insert_eq. eauto.
    + rewrite lookup_insert_ne by congruence. apply Hsnap, Hk.
Qed.

Lemma VideoMulti_main_loop_body_counting fuel :
  runs fresh_ids (counting 0) (main_loop_body fuel)
    (fun r w => r = None /\ counting 0 w) (at_quit X) (on_glob X).
Proof.
  pose proof VideoMulti_counting_counted as HX.
  unfold main_loop_body.
  eapply runs_bind; [apply runs_get|intros g].
  apply (runs_pre _ _ _ (updating (stack g))).
  2:{ intros w [-> Hw]. split; [exact Hw|]. intros k Hk. exact Hk. }
  apply (runs_bind _ _ _ _ _ _ (fun _ => counting 0)).
  - apply (runs_post _ _ _ _ _ (fun _ => updating (stack g))); [|intros ? w [Hw _]; exact Hw].
    assert (HU : forall w, updating (stack g) w -> X (glob w)).
    { intros w [Hw _]. apply HX, Hw. }
    change (stays fresh_ids X (updating (stack g))
      (if negb (logo g =? 0)%nat then
         a ← meth IDirectFBEventBuffer_WaitForEventWithTimeout (event_buffer g) [0; 150];
         match a_ret a with
         | DFB_TIMEOUT =>
             for_each (map_to_list (stack g)) (fun kv => logo_progress (fst kv) (snd kv));;
             mret true
         | _ => mret false
         end
       else
         meth IDirectFBEventBuffer_WaitForEvent (event_buffer g) [];;
         mret false)).
    destruct (negb (logo g =? 0)%nat); [|stays_go].
    apply stays_bind; [stays_go|intros a].
    destruct (a_ret a); try solve [stays_go].
    apply stays_bind; [|stays_go].
    apply stays_for_each. intros [id entry] Hkv.
    apply VideoMulti_logo_progress_counting.
    apply list_elem_of_In, elem_of_map_to_list in Hkv. cbn. eauto.
  - intros timeout. destruct timeout; [apply runs_ret; auto|].
    stay_then. apply runs_ret. auto.
Qed.


Lemma VideoMulti_main_counting fuel argv argv' :
  runs fresh_ids (on_glob listed) (main fuel argv argv')
    (fun _ _ => False) (at_quit X) (on_glob X).
Proof.
  pose proof VideoMulti_counting_counted as HX.
  unfold main. destruct (argc argv <? 2).
  { leave_now. }
  do 2 stay_then.
  stay_then. destruct (mrl_count x1 =? 0).
  { leave_now. }
  do 3 stay_then.
  eapply runs_bind; [apply runs_get|intros g].
  apply (runs_pre _ _ _
           (on_glob (fun g' => listed g' /\ mrl_list g' = mrl_list g))).
  2:{ intros w [-> Hw]. split; [exact Hw|reflexivity]. }
  do 8 stay_then.
  eapply runs_bind.
  { eapply runs_pre; [apply VideoMulti_load_files_counting|].
    intros w [[Hst Hc] Hl]. split.
    - rewrite Hst. apply known_ids_empty.
    - rewrite Hc, Hst, Hl, map_size_empty. cbn. lia. }
  intros ?. repeat stay_then.
  apply runs_forever_never; [exact HX|apply VideoMulti_main_loop_body_counting].
Qed.

End VideoMultiCount.

Lemma runs_in_the_loop {G} L (X : G -> Prop) (P : world G -> Prop) (m : prog G Z) o w :
  runs L P m (fun _ _ => False) (at_quit X) (on_glob X) ->
  obeys L o -> P w -> in_the_loop X (m o w).
Proof.
  intros Hm Ho Hw. specialize (Hm o w Ho Hw). unfold in_the_loop.
  destruct (m o w); exact Hm.
Qed.

(** X16: the counter of the windows.  Against a library that never hands out
    the identifier of a window twice, [main] of df_image_sample,
    df_video_sample, df_image_multi and df_video_multi never returns from its
    event loop (the [return 0] after the loop is not reached), and wherever
    the run is cut off inside the loop or ends the process with the exit code
    42 -- a quit key, or the close of the last window -- the counter
    ([n_windows], [mrl_count]) is the number of entries of the window table:
    the windows created at the start are all in the table, a close event
    takes one window out of both, and the update of the logo progress changes
    neither. *)
Theorem window_counter_is_the_size_of_the_table `{Headers} (o : oracle) (fuel : nat)
    (argv argv' : list string) :
  obeys fresh_ids o ->
  in_the_loop ImageSample_windows_counted
    (ImageSample.main fuel argv argv' o (start ImageSample.init)) /\
  in_the_loop VideoSample_windows_counted
    (VideoSample.main fuel argv argv' o (start VideoSample.init)) /\
  in_the_loop ImageMulti_windows_counted
    (ImageMulti.main fuel argv argv' o (start ImageMulti.init)) /\
  in_the_loop VideoMulti_windows_counted
    (VideoMulti.main fuel argv argv' o (start VideoMulti.init)).
Proof.
  intros Ho. split; [|split; [|split]].
  - apply (runs_in_the_loop _ _ _ _ _ _ (ImageSample_main_counting fuel argv argv') Ho).
    split; [reflexivity|cbn; lia].
  - apply (runs_in_the_loop _ _ _ _ _ _ (VideoSample_main_counting fuel argv argv') Ho).
    split; [reflexivity|cbn; lia].
  - apply (runs_in_the_loop _ _ _ _ _ _ (ImageMulti_main_counting fuel argv argv') Ho).
    split; reflexivity.
  - apply (runs_in_the_loop _ _ _ _ _ _ (VideoMulti_main_counting fuel argv argv') Ho).
    split; reflexivity.
Qed.

Lemma window_counter_is_the_size_of_the_table_witness :
  in_the_loop ImageSample_windows_counted
    (@ImageSample.main directfb_headers 4 ["sample"; "a"; "b"]
       ["sample"; "a"; "b"] (script [close_of 7])
       (start ImageSample.init)) /\
  in_the_loop VideoSample_windows_counted
    (@VideoSample.main directfb_headers 4 ["sample"; "a"; "b"]
       ["sample"; "a"; "b"] (script [close_of 7])
       (start VideoSample.init)) /\
  in_the_loop ImageMulti_windows_counted
    (@ImageMulti.main directfb_headers 4 ["sample"; "a"; "b"]
       ["sample"; "a"; "b"] (script [close_of 7])
       (start ImageMulti.init)) /\
  in_the_loop VideoMulti_windows_counted
    (@VideoMulti.main directfb_headers 4 ["sample"; "a"; "b"]
       ["sample"; "a"; "b"] (script [close_of 7])
       (start VideoMulti.init)).
Proof.
  apply (@window_counter_is_the_size_of_the_table directfb_headers).
  apply script_fresh.
Defined.
